(* ===== verification/_CoqProject ===== *)
-Q . S2P
Prelude.v
Errors.v
Prog.v
Histories.v
Json.v
GoTime.v
Breaker.v
BreakerRedis.v
Quota.v
Sha256.v
Signer.v
Http.v
HttpServer.v
Vault.v
ProviderToken.v
Etcd.v
Registry.v
Rollout.v
Deploy.v
RolloutSpec.v
RolloutWrites.v
Analysis.v
AnalysisSpec.v
Leader.v
Float.v
Adapter.v
Sse.v
OpenAI.v
Anthropic.v
Google.v
JsonDecoder.v
FakeAdapter.v
Relay.v
Coalesce.v
Gateway.v
GatewaySpec.v
Credentials.v
ControlPlane.v
Authn.v
AuditStore.v
ApiKeys.v
Authz.v
AdminServer.v
AdminSpec.v
AdminConcurrent.v
AdminDeploy.v
Fleet.v
Graph.v
Gqlgen.v
GraphLeaf.v
GraphObjects.v
GraphIntro.v
GraphQuery.v
GraphComplexity.v
GraphSchema.v
GraphDemo.v
GraphLemmas.v
GraphSpec.v
GraphIntroSpec.v
GraphRoot.v
GraphQuerySpec.v
GraphConforms.v
GraphContexts.v
AdminHttp.v
Startup.v
Promclient.v
Pricing.v
Policy.v
