(* ===== verification/Prelude.v ===== *)
(** * OneZox: a verification library of the Go services

    This is the root file: it documents the whole development and holds the
    notations, tactics and generic lemmas the components share.

    ** The program

    OneZox serves language models.  Of its services the development models the
    ones written in Go, all under src/services:

    - provider-gateway relays a caller's request to a model provider.  A request
      is parsed into an adapter call, coalesced with identical calls in flight,
      admitted by a fleet-wide quota and a per-provider circuit breaker (both in
      Redis), sent by the provider's adapter, and the stream of deltas is relayed
      to every caller that joined.  Provider keys come from control-plane and are
      refreshed in the background.
    - control-plane keeps signed, immutable model manifests, moves a rollout
      through its canary stages, lets an automatic reconciler advance or roll back
      by the verdict of an analysis of each stage, and hands out provider keys
      kept in Vault.  Its state is CockroachDB and what it publishes to etcd.
    - admin-api is the operators' front door: six commands over gRPC behind
      authentication, authorization and an audit log, and the panel's queries,
      which GraphQL executes with a goroutine per field.
    - provider-fake is a stand-in for a provider, used through its own adapter.

    ** How code is modelled

    Go code that talks to collaborators through interfaces is a program ([Prog.v]:
    [prog E A], a tree of calls of the interface [E]); an implementation is a
    [handler], a state transformer per call.  [run] is one caller with nothing in
    between, [sched]/[pstep] interleave any number of programs call by call, with
    an environment that moves clocks and breaks databases; [link] replaces the
    calls of a client by the programs that implement them, which is how services
    are composed.  A call is one atomic step: one SQL statement, one etcd put, one
    Redis command or script, one message on a connection.

    Go errors are the values of [Errors.error], so that what callers can tell
    apart ([errors.Is], [errors.As], status codes) can be computed; [res] is a
    result or an error.  Integers are [Z] with their width written out ([wrap64]),
    floats are [SpecFloat.spec_float], strings are byte strings, maps are [gmap].
    JSON, SSE, RFC 3339, SHA-256, HMAC, base64 and the texts of numbers are
    executable functions that the examples evaluate.

    ** The files

    Shared: [Prelude], [Errors], [Prog], [Histories]; the parts of Go's library the services
    use are [Json] (encoding/json), [JsonDecoder], [GoTime], [Float] (texts of
    floats, ParseFloat), [Sha256] (sha256, hmac, hex, base64), [Http] (clients),
    [HttpServer] (ServeMux, the health endpoints).  [Startup] has the main() of
    every service, from its environment to its listeners, and readiness.

    provider-gateway:
    - [Breaker], [BreakerRedis]: internal/breaker.  State: a record per provider,
      as a value or as JSON in Redis; [Check], [ReportResult], [CurrentState].
    - [Quota]: internal/quota; [Enforce], [Headroom], the counters.
    - [Adapter]: internal/adapters, the contract, the registry and the scaffolds;
      [Sse], [OpenAI], [Anthropic], [Google]: the framing and the three providers'
      wire formats; [FakeAdapter]: the fake adapter and provider-fake/main.go.
    - [Coalesce]: internal/coalesce; [Relay]: internal/stream.
    - [Credentials]: internal/credentials.
    - [Gateway], [GatewaySpec]: the handlers of main.go, and what a caller gets.

    control-plane:
    - [Signer], [Vault]: internal/vaultclient; [ProviderToken]: internal/providertoken.
    - [Etcd], [Registry]: internal/etcdclient, internal/registry.
    - [Rollout], [Deploy], [RolloutSpec]: internal/rollout, the services linked as
      main() links them, and the outcome of every operation run alone;
      [RolloutWrites]: what an advance and a creation write in any interleaving.
    - [Analysis], [AnalysisSpec], [Leader]: internal/analysis, the reconciler over
      the deployment, and the election around it.
    - [Pricing], [Policy]: internal/pricing, internal/policy.
    - [ControlPlane]: the RPC handlers of main.go.

    admin-api:
    - [Authn], [Authz], [AuditStore], [ApiKeys]: internal/authn, authz, audit and apikeys.
    - [AdminServer]: server.go, audit_interceptor.go and the chain of main.go;
      [AdminSpec]: its guarantees; [AdminDeploy]: linked with control-plane;
      [AdminConcurrent]: commands in flight together; [Fleet]: the statements of
      both services interleaved.
    - [Graph], [Promclient]: the resolvers of internal/graph, internal/promclient.
    - internal/graph/generated.go, the executor of admin.graphql: [Gqlgen] is the
      library it is generated for, as a class of operations with their laws;
      [GraphLeaf] the scalars, lists and arguments, [GraphObjects] the eight object
      types (a context, a resolver call and a marshaller per field; a selection
      loop per type), [GraphIntro] the introspection types, [GraphQuery] the root
      with its goroutines and [Exec], [GraphComplexity] the cost table.
    - [GraphSchema]: the schema as data, execution as the GraphQL specification
      defines it, and conformance of JSON to a type, all independent of the
      generated code.  [GraphLemmas], [GraphSpec] and [GraphIntroSpec] show that
      the code of every type executes it, [GraphRoot] that the goroutine of every
      root field follows it; [GraphQuerySpec], [GraphConforms] and [GraphContexts]
      have the results, [GraphDemo] a small runtime that satisfies the laws.
    - [AdminHttp]: the HTTP port of main.go: routes, authentication, GraphQL.

    ** What the theorems show

    Specifications and refinements: a breaker over any store, and over Redis with
    JSON records, takes exactly the decisions of the automaton [Breaker.spec_step]
    ([breaker_history_refines_spec], [redis_breaker_refines_spec]); under every
    schedule of its goroutines a GraphQL query leaves the data and errors of the
    specification's execution ([graphql_refines_specification]); the Vault
    client is a lawful [Signer] ([vault_signature_verifies]); a caller of Invoke
    gets exactly the adapter's deltas, status and reports ([invoke_served]).

    Invariants under every interleaving: rollouts move only along the chain of
    stages ([staged_chain]), an automatic advance needs a successful analysis of
    that very stage ([advance_needs_analysis]), one verdict advances once
    ([one_advance_per_verdict]), coalesced subscribers each see a prefix of the
    one upstream sequence ([coalesce_fanout], [coalesce_joins]), the fleet's quota
    is exact ([fleet_quota_exact]), every answered admin command has the row in
    the audit log that its answer calls for ([concurrent_audit_trail]), a key is
    revoked by one command and for good ([concurrent_revocation]), every manifest
    is an admin's, across both services ([fleet_provenance]).  For operators who
    take turns the log is the very history of their calls ([audit_trail]).

    Types: what a query answers conforms to the schema under its selection
    ([graphql_response_conforms]), and the field contexts and the cost table have
    the fields of the schema ([GraphContexts]).

    Safety: no effect without an admin's credential, in any environment
    ([effects_need_admin]); the HTTP port only reads, and only for the holder of a
    live credential ([http_port_reads_for_holders]); key material is in no log, listing or later answer, as
    noninterference ([keys_leave_no_trace]); a tampered manifest is never served.

    Errors, under every interleaving and outage: an advance or a creation carries
    out a plan of writes, or fails at the first one refused ([advance_writes],
    [creation_writes]).

    Functional behaviour, errors and bounds of each operation: promotion, abort,
    the reconciler's reactions, what each adapter makes of a provider's
    bytes, the statuses of the RPCs, listings and their limits, the dashboard, what
    each main() starts from what it finds ([gateway_start_up]) and when it is ready.

    Liveness and termination: promotion reaches stable, the reconciler's loop takes
    a created rollout there ([created_rollout_promoted]), every adapter's stream ends on any bytes.

    Round trips: the JSON text of every value, etcd envelopes, SSE frames.

    ** Fuel

    The JSON reader takes the length of its text as fuel, more than it can use
    ([Json]); [Sse.receive], the decoder of [FakeAdapter] and draining a stream
    have equations free of their bounds, and [streams_end] shows that the bytes
    bound them.  [Float]'s digit search has the seventeen (nine) digits that always
    suffice.  The leader's loop and the relay are bounded by the stream they drain.
    [___Type], which introspection re-enters through its own fields, has the depth
    of its selection set as fuel: every re-entry is a level down, and
    [execute_enough] shows that more changes nothing.

    ** Parameters

    What is not in the repository is an argument with its documented behaviour as
    a law: Vault's Transit engine ([LawfulTransit]), a signer ([LawfulSigner]), the
    identifiers databases and libraries draw, the random source, what a JSONB
    column does to a text, the Kubernetes API; of gqlgen the runtime ([GqlgenLaws]), the
    introspection of a schema, and the HTTP handler, which executes only validated
    operations ([GraphqlServerLaws]).  Each law has an instance that
    the witnesses use.  SQL statements are their effects on the tables with the
    constraints of src/data/migrations.

    ** Simplifications

    A write that errs has not happened; that a database may have taken it and lost
    the answer is not modelled, but [RolloutWrites] lists refused writes too.
    Times are stored to the nanosecond, where a TIMESTAMPTZ column keeps
    microseconds.  Identifiers are compared as text, so the other spellings a UUID column would
    accept are not found; rows with equal times are listed in one fixed order;
    timestamps are read in UTC; a context's cancellation is one more error of the
    call that notices it; the runs of a lone call ([run]) do not interleave, which
    [sched] covers where a theorem speaks of concurrency.  In [AdminSpec] RPCs follow one
    another; [keys_leave_no_trace] is stated there only.

    ** Not modelled

    Shutdown of the processes, tracing, metrics and log lines; protobuf code that is
    generated, and the transports; the deferred fragments of GraphQL, for which the
    generated code only hands empty sets to its runtime; client-go's election
    protocol, which is one call; the services written in Rust (edge-gateway) and Python (data-plane), and
    the TypeScript panel; manifests, migrations and scripts. *)

From stdpp Require Export base tactics gmap strings list fin_maps.
From Stdlib Require Export ZArith Lia.

#[global] Open Scope Z_scope.

(** * Automation *)

Create HintDb onezox.
Create Rewrite HintDb onezox_str.

(** Destruct the scrutinee of the outermost match of the goal, keeping the
    equation, until no match is left; each branch is closed when trivial. *)
Ltac split_matches :=
  repeat (case_match; simplify_eq/=; try done).

(** Decide comparisons written with the boolean operators of [Z]. *)
Ltac zbool :=
  repeat match goal with
  | H : (_ <? _) = true |- _ => apply Z.ltb_lt in H
  | H : (_ <? _) = false |- _ => apply Z.ltb_ge in H
  | H : (_ <=? _) = true |- _ => apply Z.leb_le in H
  | H : (_ <=? _) = false |- _ => apply Z.leb_gt in H
  | H : (_ =? _) = true |- _ => apply Z.eqb_eq in H
  | H : (_ =? _) = false |- _ => apply Z.eqb_neq in H
  end.

(** * Machine integers *)

(** Go's [int] and [int64] are 64-bit two's complement on the deployed
    platforms; arithmetic wraps around. *)
Definition wrap64 (z : Z) : Z := (z + 2^63) mod 2^64 - 2^63.

Definition in64 (z : Z) : Prop := - 2^63 <= z < 2^63.

Lemma wrap64_id z : in64 z -> wrap64 z = z.
Proof. unfold in64, wrap64. intros. rewrite Z.mod_small; lia. Qed.

Lemma wrap64_in64 z : in64 (wrap64 z).
Proof.
  unfold in64, wrap64.
  pose proof (Z.mod_pos_bound (z + 2^63) (2^64) ltac:(lia)). lia.
Qed.

#[export] Hint Resolve wrap64_in64 : onezox.

(** * Time *)

(** [time.Time] is a number of nanoseconds since the Unix epoch and
    [time.Duration] a number of nanoseconds. *)
Definition millisecond : Z := 1000000.
Definition second : Z := 1000 * millisecond.

(** [Time.UnixMilli]: integer milliseconds, rounding towards the past. *)
Definition unix_milli (t : Z) : Z := t / millisecond.
(** [Time.Unix]: whole seconds. *)
Definition unix (t : Z) : Z := t / second.
(** [Duration.Milliseconds] truncates towards zero. *)
Definition milliseconds (d : Z) : Z := Z.quot d millisecond.
(** [int64(d.Seconds())]: conversion of the float number of seconds truncates
    towards zero. *)
Definition int_seconds (d : Z) : Z := Z.quot d second.

(** The zero [time.Time]: year 1. *)
Definition zero_time : Z := -62135596800 * second.

(** * Strings *)

(** A Go string is a sequence of bytes, which is what [string] is here. *)
Fixpoint has_prefix (p s : string) : bool :=
  match p, s with
  | EmptyString, _ => true
  | String a p', String b s' => bool_decide (a = b) && has_prefix p' s'
  | _, _ => false
  end.

Fixpoint drop_str (n : nat) (s : string) : string :=
  match n, s with
  | O, _ => s
  | S n', String _ s' => drop_str n' s'
  | _, EmptyString => EmptyString
  end.

Fixpoint take_str (n : nat) (s : string) : string :=
  match n, s with
  | S n', String a s' => String a (take_str n' s')
  | _, _ => EmptyString
  end.

#[global] Arguments String.append !_ _ / : simpl nomatch.

(** [strings.TrimPrefix]. *)
Definition trim_prefix (p s : string) : string :=
  if has_prefix p s then drop_str (String.length p) s else s.

(** [strings.Cut] at a one-byte separator: the part before the first
    occurrence, the part after, and whether it was found. *)
Fixpoint cut (sep : Ascii.ascii) (s : string) : string * string * bool :=
  match s with
  | EmptyString => (EmptyString, EmptyString, false)
  | String a s' =>
      if bool_decide (a = sep) then (EmptyString, s', true)
      else let '(b, r, ok) := cut sep s' in (String a b, r, ok)
  end.

(** [strings.Join]. *)
Fixpoint str_join (sep : string) (l : list string) : string :=
  match l with
  | [] => ""
  | [x] => x
  | x :: l' => x +:+ sep +:+ str_join sep l'
  end.

(** No byte of [s] is [c]. *)
Fixpoint lacks (c : Ascii.ascii) (s : string) : bool :=
  match s with
  | EmptyString => true
  | String a s' => negb (bool_decide (a = c)) && lacks c s'
  end.

Lemma str_app_nil_r s : s +:+ "" = s.
Proof. induction s; simpl; [done | by f_equal]. Qed.

Lemma str_app_assoc a b c : (a +:+ b) +:+ c = a +:+ (b +:+ c).
Proof. induction a; simpl; [done | by f_equal]. Qed.

Lemma str_length_app a b :
  String.length (a +:+ b) = (String.length a + String.length b)%nat.
Proof. induction a; simpl; [done | by f_equal]. Qed.

Lemma str_app_inj_l a b c : a +:+ b = a +:+ c -> b = c.
Proof. apply (inj (String.app a)). Qed.

Lemma str_app_inj_r a b c : a +:+ c = b +:+ c -> a = b.
Proof.
  revert b. induction a as [|x a IH]; intros [|y b] H; simpl in *; [done| | |].
  - exfalso. apply (f_equal String.length) in H. simpl in H. rewrite str_length_app in H. lia.
  - exfalso. apply (f_equal String.length) in H. simpl in H. rewrite str_length_app in H. lia.
  - injection H as -> H. f_equal. by apply IH.
Qed.

Lemma has_prefix_app p s : has_prefix p (p +:+ s) = true.
Proof. induction p as [|a p IH]; simpl; [done|]. by rewrite bool_decide_true, IH. Qed.

Lemma drop_str_app p s : drop_str (String.length p) (p +:+ s) = s.
Proof. induction p; simpl; done. Qed.

Lemma trim_prefix_app p s : trim_prefix p (p +:+ s) = s.
Proof. unfold trim_prefix. by rewrite has_prefix_app, drop_str_app. Qed.

Lemma cut_app sep a b :
  lacks sep a = true -> cut sep (a +:+ String sep b) = (a, b, true).
Proof.
  induction a as [|x a IH]; simpl; intros Ha.
  - by rewrite bool_decide_true.
  - apply andb_true_iff in Ha as [Hx Ha].
    rewrite (IH Ha). by case_bool_decide.
Qed.

Lemma cut_spec sep s a b :
  cut sep s = (a, b, true) -> s = a +:+ String sep b /\ lacks sep a = true.
Proof.
  revert a. induction s as [|x s IH]; simpl; intros a H; [done|].
  case_bool_decide; [by simplify_eq/=|].
  destruct (cut sep s) as [[a' b'] ok]; simplify_eq/=.
  destruct (IH a' eq_refl) as [-> Hl]. split; [done|].
  rewrite bool_decide_false by done. done.
Qed.

Lemma cut_none sep s : lacks sep s = true <-> (cut sep s).2 = false.
Proof.
  induction s as [|x s IH]; simpl; [done|].
  case_bool_decide; simpl; [done|].
  destruct (cut sep s) as [[a' b'] ok]. simpl in *. done.
Qed.

Lemma lacks_app c a b : lacks c (a +:+ b) = lacks c a && lacks c b.
Proof. induction a; simpl; [done|]. by rewrite IHa, andb_assoc. Qed.

#[export] Hint Rewrite str_app_nil_r str_app_assoc trim_prefix_app has_prefix_app : onezox_str.

(** Splitting at the first separator is unambiguous. *)
Lemma split_at_inj sep a a' b b' :
  lacks sep a = true -> lacks sep a' = true ->
  a +:+ String sep b = a' +:+ String sep b' -> a = a' /\ b = b'.
Proof.
  intros Ha Ha' E. pose proof (cut_app sep a b Ha) as H1.
  rewrite E, (cut_app sep a' b' Ha') in H1. by simplify_eq.
Qed.

(** * Counting in lists *)

Definition b2z (b : bool) : Z := if b then 1 else 0.

Fixpoint countb {A} (f : A -> bool) (l : list A) : Z :=
  match l with [] => 0 | x :: l' => b2z (f x) + countb f l' end.

Lemma countb_nonneg {A} (f : A -> bool) l : 0 <= countb f l.
Proof. induction l; simpl; [lia|]. unfold b2z. case_match; lia. Qed.

Lemma countb_app {A} (f : A -> bool) l l' : countb f (l ++ l') = countb f l + countb f l'.
Proof. induction l; simpl; [done|]. lia. Qed.

Lemma countb_insert {A} (f : A -> bool) (l : list A) i x y :
  l !! i = Some x -> countb f (<[i := y]> l) = countb f l - b2z (f x) + b2z (f y).
Proof.
  revert i. induction l as [|z l IH]; intros [|i] H; simpl in *; simplify_eq; [lia|].
  rewrite (IH _ H). lia.
Qed.

Lemma countb_replicate {A} (f : A -> bool) n x :
  countb f (replicate n x) = Z.of_nat n * b2z (f x).
Proof. induction n; [done|]. rewrite replicate_S. simpl countb. lia. Qed.

Lemma countb_le_length {A} (f : A -> bool) l : countb f l <= Z.of_nat (length l).
Proof. induction l; simpl; [lia|]. unfold b2z. case_match; lia. Qed.

(** * Two's complement counters stay exact while they are in range *)
Lemma wrap64_succ z : in64 z -> z < 2^63 - 1 -> wrap64 (z + 1) = z + 1.
Proof. intros. apply wrap64_id. unfold in64 in *. lia. Qed.

(** * The newest of a list *)

(** The element with the greatest time, the first of those. *)
Definition newest_by {A} (time : A -> Z) (l : list A) : option A :=
  fold_left (fun best x => match best with
                           | None => Some x
                           | Some b => if time b <? time x then Some x else Some b
                           end) l None.

Lemma newest_by_snoc {A} (time : A -> Z) l x :
  newest_by time (l ++ [x]) =
    match newest_by time l with
    | None => Some x
    | Some b => if time b <? time x then Some x else Some b
    end.
Proof. unfold newest_by. by rewrite fold_left_app. Qed.

Lemma newest_by_spec {A} (time : A -> Z) l :
  match newest_by time l with
  | None => l = []
  | Some b => b ∈ l /\ forall y, y ∈ l -> time y <= time b
  end.
Proof.
  induction l as [|x l IH] using rev_ind; [done|]. rewrite newest_by_snoc. destruct (newest_by time l) as [b|].
  - destruct IH as [Hb Hmax]. destruct (time b <? time x) eqn:E; zbool; (split; [set_solver|]); intros y Hy;
      apply elem_of_app in Hy as [Hy|Hy%list_elem_of_singleton]; subst; try lia; specialize (Hmax y Hy); lia.
  - subst l. split; [set_solver|]. intros y Hy. simpl in Hy. apply list_elem_of_singleton in Hy as ->. lia.
Qed.

Lemma newest_by_latest {A} (time : A -> Z) l x :
  (forall y, y ∈ l -> time y < time x) -> newest_by time (l ++ [x]) = Some x.
Proof.
  intros H. rewrite newest_by_snoc. pose proof (newest_by_spec time l) as Hs. destruct (newest_by time l) as [b|]; [|done].
  destruct Hs as [Hb _]. by rewrite (proj2 (Z.ltb_lt _ _) (H b Hb)).
Qed.

(** [map] and lookup by index. *)

Lemma lookup_map {A B} (f : A -> B) (l : list A) i : map f l !! i = match l !! i with Some a => Some (f a) | None => None end.
Proof. revert i. induction l as [|a l IH]; intros [|i]; [done..|apply IH]. Qed.

Lemma lookup_map_inv {A B} (f : A -> B) (l : list A) i b : map f l !! i = Some b -> exists a, l !! i = Some a /\ b = f a.
Proof. rewrite lookup_map. destruct (l !! i) as [a|]; [|done]. intros [= <-]. by exists a. Qed.

