(* ===== verification/Errors.v ===== *)
(** Go errors and results: the [error] values the services build, the wrapping
    that [errors.Is] / [errors.As] look through, and the result type [res]. *)

From S2P Require Import Prelude.

(** gRPC status codes (google.golang.org/grpc/codes) the services return. *)
Inductive Code :=
| InvalidArgument | NotFound | PermissionDenied | FailedPrecondition
| Internal | Unavailable | Unauthenticated.

(** proto/provider: [FallbackReason]. *)
Inductive FallbackReason :=
| REASON_UNSPECIFIED | BREAKER_OPEN | QUOTA_EXHAUSTED.

(** Error values.  [fmt.Errorf] keeps its format and its printed arguments
    instead of the rendered text, so nothing a caller can branch on is lost.
    - [Sentinel]: a package-level [errors.New] value, known by its qualified name;
    - [Errorf]: [fmt.Errorf] without [%w];
    - [Wrapf]: [fmt.Errorf] with [%w] applied to the last argument;
    - [Wrapv]: [fmt.Errorf] with [%w] of one error and [%v] of another;
    - [Lib]: an error made by a library or by a remote service;
    - [Status]: [status.Error(code, text)], where the text is a literal, or
      [StatusOf]: the text of another error;
    - the typed errors of provider-gateway. *)
Inductive error :=
| Sentinel (name : string)
| Errorf (fmt : string) (args : list string)
| Wrapf (fmt : string) (args : list string) (inner : error)
| Wrapv (fmt : string) (inner shown : error)
| Lib (what : string)
| Status (code : Code) (text : string)
| StatusOf (code : Code) (text_of : error)
| ErrUnknownProvider (provider : string)
| FallbackError (reason : FallbackReason) (provider : string)
| UpstreamError (inner : error)
| UpstreamStatus (adapter : string) (status : Z) (body : string).

#[global] Instance Code_eq_dec : EqDecision Code.
Proof. solve_decision. Defined.
#[global] Instance FallbackReason_eq_dec : EqDecision FallbackReason.
Proof. solve_decision. Defined.
#[global] Instance error_eq_dec : EqDecision error.
Proof. solve_decision. Defined.

(** [io.EOF]. *)
Definition EOF : error := Sentinel "io.EOF".

(** [errors.Is(e, target)] for a sentinel [target]: identity along the chain of
    [Unwrap].  [UpstreamError] is the only typed error with an [Unwrap]. *)
Fixpoint errors_is (e : error) (target : string) : bool :=
  match e with
  | Sentinel n => bool_decide (n = target)
  | Wrapf _ _ i | Wrapv _ i _ => errors_is i target
  | UpstreamError i => errors_is i target
  | _ => false
  end.

(** [errors.As(e, &fallback)]: the first [*FallbackError] of the chain. *)
Fixpoint as_fallback (e : error) : option (FallbackReason * string) :=
  match e with
  | FallbackError r p => Some (r, p)
  | Wrapf _ _ i | Wrapv _ i _ => as_fallback i
  | UpstreamError i => as_fallback i
  | _ => None
  end.

(** [errors.As(e, &upstreamErr)]: the first [*UpstreamError] of the chain; the
    result is what its [Unwrap] gives. *)
Fixpoint as_upstream (e : error) : option error :=
  match e with
  | UpstreamError i => Some i
  | Wrapf _ _ i | Wrapv _ i _ => as_upstream i
  | _ => None
  end.

(** [status.Code(err)] of an error, where the services ask for it. *)
Definition is_code (c : Code) (e : error) : bool :=
  match e with
  | Status c' _ | StatusOf c' _ => bool_decide (c = c')
  | _ => false
  end.

(** * Results: Go's [(T, error)] where the value is only used without error. *)
Inductive res (A : Type) := Ok (a : A) | Err (e : error).
Arguments Ok {A} a.
Arguments Err {A} e.

Definition is_ok {A} (r : res A) : bool := match r with Ok _ => true | Err _ => false end.

Definition res_bind {A B} (r : res A) (f : A -> res B) : res B :=
  match r with Ok a => f a | Err e => Err e end.

(** Replace the error by [f] of it: [return fmt.Errorf("...: %w", err)]. *)
Definition map_err {A} (f : error -> error) (r : res A) : res A :=
  match r with Ok a => Ok a | Err e => Err (f e) end.

Lemma is_ok_true {A} (r : res A) : is_ok r = true <-> exists a, r = Ok a.
Proof. destruct r; simpl; split; [by eauto | done | done | by intros [? ?]]. Qed.

Lemma map_err_ok {A} f (r : res A) a : map_err f r = Ok a <-> r = Ok a.
Proof. by destruct r. Qed.
