(* ===== verification/Prog.v ===== *)
(** Programs that call interfaces.

    A Go function that talks to its collaborators only through an interface (a
    [Store], a [Publisher], a clock) is a tree of calls: [Do e k] performs the
    call [e] and continues with its result.  An implementation of the interface
    is a [handler]: a state transformer per call.  The same program is then
    - run to completion by [run] (one caller, nothing in between), and
    - interleaved with others call by call by [sched] / [pstep], each interface
      call being one atomic step, as one SQL statement, one etcd put or one
      Redis command is. *)

From S2P Require Import Prelude Errors.

(** An interface: for every type of answer, the calls that give one. *)
Definition interface := Type -> Type.


Inductive prog (E : interface) (A : Type) : Type :=
| Ret (a : A)
| Do (X : Type) (e : E X) (k : X -> prog E A).
Arguments Ret {E A} a.
Arguments Do {E A X} e k.

Definition handler (E : interface) (S : Type) : Type :=
  forall X, E X -> S -> X * S.

Section Prog.
Context {E : interface}.

Fixpoint bind {A B} (p : prog E A) (f : A -> prog E B) : prog E B :=
  match p with
  | Ret a => f a
  | Do e k => Do e (fun x => bind (k x) f)
  end.

(** The call itself, as a program. *)
Definition call {X} (e : E X) : prog E X := Do e Ret.

(** Sequencing on a Go result: [if err != nil { return err }]. *)
Definition rbind {A B} (p : prog E (res A)) (f : A -> prog E (res B)) : prog E (res B) :=
  bind p (fun r => match r with Ok a => f a | Err e => Ret (Err e) end).

(** [if err != nil { return wrap(err) }]. *)
Definition wrapped {A} (w : error -> error) (p : prog E (res A)) : prog E (res A) :=
  bind p (fun r => Ret (map_err w r)).

Fixpoint run {S A} (h : handler E S) (p : prog E A) (s : S) : A * S :=
  match p with
  | Ret a => (a, s)
  | Do e k => let '(x, s') := h _ e s in run h (k x) s'
  end.

Lemma run_bind {S A B} (h : handler E S) (p : prog E A) (f : A -> prog E B) s :
  run h (bind p f) s = let '(a, s') := run h p s in run h (f a) s'.
Proof.
  revert s. induction p as [a|X e k IH]; intros s; simpl; [done|].
  destruct (h X e s). by rewrite IH.
Qed.

Lemma run_rbind {S A B} (h : handler E S) (p : prog E (res A)) (f : A -> prog E (res B)) s :
  run h (rbind p f) s =
    match run h p s with
    | (Ok a, s') => run h (f a) s'
    | (Err e, s') => (Err e, s')
    end.
Proof. unfold rbind. rewrite run_bind. by destruct (run h p s) as [[a|e] s']. Qed.

Lemma run_wrapped {S A} (h : handler E S) w (p : prog E (res A)) s :
  run h (wrapped w p) s = (map_err w (run h p s).1, (run h p s).2).
Proof. unfold wrapped. rewrite run_bind. by destruct (run h p s). Qed.

Lemma run_call {S X} (h : handler E S) (e : E X) s : run h (call e) s = h X e s.
Proof. simpl. by destruct (h X e s). Qed.

(** A relation kept by every call is kept by every program. *)
Lemma run_preserves {S A} (h : handler E S) (R : S -> S -> Prop) (p : prog E A) s :
  (forall s, R s s) -> (forall s1 s2 s3, R s1 s2 -> R s2 s3 -> R s1 s3) ->
  (forall X (e : E X) s, R s (h X e s).2) ->
  R s (run h p s).2.
Proof.
  intros Hr Ht Hh. revert s. induction p as [a|X e k IH]; intros s; simpl; [done|].
  specialize (Hh X e s). destruct (h X e s) as [x s']. simpl in *. eauto.
Qed.
End Prog.

(** * What a program may call *)

Section Calls.
Context {E : interface}.

(** Every call [p] makes satisfies [P], as long as the answers it gets satisfy
    [A]. *)
Fixpoint calls (A : forall X, E X -> X -> Prop) (P : forall X, E X -> Prop)
    {R} (p : prog E R) : Prop :=
  match p with
  | Ret _ => True
  | Do e k => P _ e /\ forall x, A _ e x -> calls A P (k x)
  end.

Lemma calls_bind A P {R T} (p : prog E R) (f : R -> prog E T) :
  calls A P p -> (forall x, calls A P (f x)) -> calls A P (bind p f).
Proof. induction p as [a|X e k IH]; simpl; [eauto|]. intros [H Hk] Hf. eauto. Qed.

Lemma calls_rbind A P {R T} (p : prog E (res R)) (f : R -> prog E (res T)) :
  calls A P p -> (forall x, calls A P (f x)) -> calls A P (rbind p f).
Proof. intros Hp Hf. apply calls_bind; [done|]. intros [x|e]; simpl; eauto. Qed.

Lemma calls_call A P {X} (e : E X) : P _ e -> calls A P (call e).
Proof. simpl. auto. Qed.

Lemma calls_mono A (P Q : forall X, E X -> Prop) {R} (p : prog E R) :
  (forall X e, P X e -> Q X e) -> calls A P p -> calls A Q p.
Proof. intros H. induction p as [a|X e k IH]; simpl; [done|]. intros [? ?]. eauto. Qed.

(** A preorder kept by the calls a program may make is kept by the program. *)
Lemma run_calls {S R} (h : handler E S) (P : forall X, E X -> Prop) (Rel : S -> S -> Prop) `{!PreOrder Rel} (p : prog E R) s :
  (forall X (e : E X) s, P X e -> Rel s (h X e s).2) -> calls (fun _ _ _ => True) P p -> Rel s (run h p s).2.
Proof.
  intros Hh. revert s. induction p as [a|X e k IH]; intros s; simpl; [reflexivity|]. intros [He Hk].
  specialize (Hh X e s He). destruct (h X e s) as [x s']. etrans; [exact Hh|]. by apply IH, Hk.
Qed.

(** Two implementations that agree, call by call, on the states related by
    [Rel] give the same results to every program. *)
Lemma run_sim {S1 S2 R} (h1 : handler E S1) (h2 : handler E S2)
    (Rel : S1 -> S2 -> Prop) A P (p : prog E R) s1 s2 :
  (forall X (e : E X) s1 s2, P X e -> Rel s1 s2 ->
     (h1 X e s1).1 = (h2 X e s2).1 /\ A X e (h1 X e s1).1 /\ Rel (h1 X e s1).2 (h2 X e s2).2) ->
  calls A P p -> Rel s1 s2 ->
  (run h1 p s1).1 = (run h2 p s2).1 /\ Rel (run h1 p s1).2 (run h2 p s2).2.
Proof.
  intros Hh. revert s1 s2. induction p as [a|X e k IH]; intros s1 s2; simpl; [done|].
  intros [He Hk] Hr. destruct (Hh X e s1 s2 He Hr) as (Hx & HA & Hr').
  destruct (h1 X e s1) as [x s1'], (h2 X e s2) as [x' s2']. simpl in *. subst x'.
  apply IH; auto.
Qed.
End Calls.

(** Replace every call by a program over another interface: a client linked
    with the implementation of what it depends on. *)
Fixpoint link {E F : interface} {A} (f : forall X, E X -> prog F X) (p : prog E A) : prog F A :=
  match p with
  | Ret a => Ret a
  | Do e k => bind (f _ e) (fun x => link f (k x))
  end.

Lemma run_link {E F : interface} {S A} (f : forall X, E X -> prog F X)
    (h : handler F S) (p : prog E A) s :
  run h (link f p) s = run (fun X e => run h (f X e)) p s.
Proof.
  revert s. induction p as [a|X e k IH]; intros s; simpl; [done|].
  rewrite run_bind. destruct (run h (f X e) s) as [x s']. apply IH.
Qed.

(** Any answer. *)
Definition any {E : interface} : forall X, E X -> X -> Prop := fun _ _ _ => True.

(** A linked client makes the calls of its implementation. *)
Lemma calls_link {E F : interface} {A} (f : forall X, E X -> prog F X)
    (P : forall X, E X -> Prop) (Q : forall X, F X -> Prop) (p : prog E A) :
  (forall X e, P X e -> calls any Q (f X e)) ->
  calls any P p -> calls any Q (link f p).
Proof.
  intros Hf. induction p as [a|X e k IH]; simpl; [done|]. intros [He Hk].
  apply calls_bind; [by apply Hf|]. intros x. apply IH, Hk. done.
Qed.

(** The calls a run makes, in order. *)
Fixpoint trace {E : interface} {S A} (h : handler E S) (p : prog E A) (s : S) : list {X & E X} :=
  match p with
  | Ret _ => []
  | Do e k => let '(x, s') := h _ e s in existT _ e :: trace h (k x) s'
  end.

Lemma calls_trace {E : interface} {S A} (h : handler E S) (P : forall X, E X -> Prop) (p : prog E A) s :
  calls any P p -> Forall (fun c => P _ (projT2 c)) (trace h p s).
Proof.
  revert s. induction p as [a|X e k IH]; intros s; simpl; [constructor|]. intros [He Hk].
  destruct (h X e s) as [x s']. constructor; [done|]. by apply IH, Hk.
Qed.

Declare Scope go_scope.
Delimit Scope go_scope with go.
Notation "x <- c ;; k" := (bind c (fun x => k))
  (at level 60, c at next level, right associativity) : go_scope.
Notation "x <-? c ;; k" := (rbind c (fun x => k))
  (at level 60, c at next level, right associativity) : go_scope.
Notation "c ;;; k" := (bind c (fun _ => k))
  (at level 60, right associativity) : go_scope.
#[global] Open Scope go_scope.

(** * Interleaving *)

Section Sched.
Context {E : interface} {S R V : Type} (h : handler E S) (env : V -> S -> S).

(** A pool: the calls in flight, each with what it has left to do, over the
    shared state. *)
Definition pool : Type := list (prog E R) * S.

(** One call of one program; [None] when it has returned. *)
Definition step1 (p : prog E R) (s : S) : option (prog E R * S) :=
  match p with
  | Ret _ => None
  | Do e k => let '(x, s') := h _ e s in Some (k x, s')
  end.

(** One scheduling decision: let thread [i] make its next call, or let the
    environment act (time passing, another writer). *)
Inductive decision := Run (i : nat) | Env (v : V).

Definition sched1 (d : decision) (c : pool) : pool :=
  match d with
  | Env v => (c.1, env v c.2)
  | Run i =>
      match (c.1 !! i) ≫= (fun p => step1 p c.2) with
      | Some (p', s') => (<[i := p']> c.1, s')
      | None => c
      end
  end.

Definition sched (ds : list decision) (c : pool) : pool :=
  fold_left (fun c d => sched1 d c) ds c.

(** The same, as a step relation. *)
Inductive pstep : pool -> pool -> Prop :=
| pstep_run ts s i p p' s' :
    ts !! i = Some p -> step1 p s = Some (p', s') ->
    pstep (ts, s) (<[i := p']> ts, s')
| pstep_env ts s v : pstep (ts, s) (ts, env v s).

Lemma sched1_step d c : sched1 d c = c \/ pstep c (sched1 d c).
Proof.
  destruct c as [ts s], d as [i|v]; simpl; [|right; constructor].
  destruct (ts !! i) as [p|] eqn:Hi; simpl; [|by left].
  destruct (step1 p s) as [[p' s']|] eqn:Hp; [|by left].
  right. by econstructor.
Qed.

Lemma sched_steps ds c : rtc pstep c (sched ds c).
Proof.
  revert c. induction ds as [|d ds IH]; intros c; simpl; [done|].
  destruct (sched1_step d c) as [->|Hs]; [apply IH|].
  eapply rtc_l; [exact Hs | apply IH].
Qed.

Lemma steps_sched c c' : rtc pstep c c' -> exists ds, sched ds c = c'.
Proof.
  induction 1 as [c|c c1 c2 Hs _ [ds IH]]; [by exists []|].
  destruct Hs as [ts s i p p' s' Hi Hp|ts s v].
  - exists (Run i :: ds). simpl. rewrite Hi. simpl. rewrite Hp. exact IH.
  - exists (Env v :: ds). exact IH.
Qed.

(** Rule induction for invariants of every reachable pool. *)
Lemma sched_invariant (I : pool -> Prop) c ds :
  I c -> (forall c c', I c -> pstep c c' -> I c') -> I (sched ds c).
Proof.
  intros H0 Hs. pose proof (sched_steps ds c) as Hr.
  induction Hr; eauto.
Qed.

(** A preorder kept by every call the threads may make, and by the
    environment, holds between the start and the end of every execution. *)
Lemma sched_history (P : forall X, E X -> Prop) (Rel : S -> S -> Prop) `{!PreOrder Rel} ts s ds :
  (forall X (e : E X) s, P X e -> Rel s (h X e s).2) ->
  (forall v s, Rel s (env v s)) ->
  Forall (calls any P) ts ->
  Rel s (sched ds (ts, s)).2.
Proof.
  intros Hh He Hts.
  enough (Forall (calls any P) (sched ds (ts, s)).1 /\ Rel s (sched ds (ts, s)).2) by tauto.
  apply (sched_invariant (fun c => Forall (calls any P) c.1 /\ Rel s c.2)); [split; [done|reflexivity]|].
  intros c c' [Hf Hr] Hs. destruct Hs as [ts1 s1 i p p' s2 Hi Hp|ts1 s1 v]; simpl in *.
  - pose proof (Forall_lookup_1 _ _ _ _ Hf Hi) as Hc.
    destruct p as [a|X e k]; [done|]. simpl in Hp, Hc. destruct Hc as [He1 Hk].
    specialize (Hh X e s1 He1). destruct (h X e s1) as [x s3]. injection Hp as <- <-.
    split; [|by etrans]. apply Forall_insert; [done|]. by apply Hk.
  - split; [done|]. etrans; [done|apply He].
Qed.
End Sched.
Arguments Run {V} i.
Arguments Env {V} v.
