(* ===== verification/Histories.v ===== *)
(** Histories of interleaved executions.

    [Prog.sched] interleaves programs call by call and keeps only the pool it ends
    in.  Here is the sequence of answered calls it made on the way: what one thread
    did is its projection ([own]), a property of all the ways through a program is
    [on_every_path], and what the calls left in the state is read off the whole
    history ([history_adds]). *)

From S2P Require Import Prelude Errors Prog.

(** A call and its answer. *)
Definition answered (E : interface) : Type := {X : Type & (E X * X)%type}.

Definition answer_to {E : interface} {X} (e : E X) (x : X) : answered E := existT X (e, x).

Section Histories.
Context {E : interface} {S R V : Type} (h : handler E S) (env : V -> S -> S).
Abbreviation pool := (pool (E := E) (S := S) (R := R)).

(** The call a scheduling decision leads to, and whose it is. *)
Definition moved (d : decision (V := V)) (c : pool) : list (nat * answered E) :=
  match d with
  | Env _ => []
  | Run i => match c.1 !! i with
             | Some (Do e _) => [(i, answer_to e (h _ e c.2).1)]
             | _ => []
             end
  end.

Fixpoint history (ds : list (decision (V := V))) (c : pool) : list (nat * answered E) :=
  match ds with
  | [] => []
  | d :: ds => moved d c ++ history ds (sched1 h env d c)
  end.

Lemma history_snoc ds d c : history (ds ++ [d]) c = history ds c ++ moved d (sched h env ds c).
Proof.
  revert c. induction ds as [|d' ds IH]; intros c; simpl; [by rewrite app_nil_r|]. by rewrite IH, app_assoc.
Qed.

Lemma sched_snoc ds d (c : pool) : sched h env (ds ++ [d]) c = sched1 h env d (sched h env ds c).
Proof. unfold sched. by rewrite fold_left_app. Qed.

(** The part of thread [i]. *)
Definition own {T} (i : nat) (l : list (nat * T)) : list T := map snd (List.filter (fun m => fst m =? i)%nat l).

Lemma own_app {T} i (l1 l2 : list (nat * T)) : own i (l1 ++ l2) = own i l1 ++ own i l2.
Proof. unfold own. by rewrite List.filter_app, map_app. Qed.

(** [P] holds of what was done and what is left at every point of every way
    through [p] whose answers satisfy [A], [tr] being done already. *)
Fixpoint on_every_path (A : forall X, E X -> X -> Prop) (P : list (answered E) -> prog E R -> Prop)
    (tr : list (answered E)) (p : prog E R) : Prop :=
  P tr p /\ match p with
            | Ret _ => True
            | Do e k => forall x, A _ e x -> on_every_path A P (tr ++ [answer_to e x]) (k x)
            end.

Lemma on_every_path_here A P tr p : on_every_path A P tr p -> P tr p.
Proof. by destruct p; intros []. Qed.

Lemma on_every_path_mono A (P P' : list (answered E) -> prog E R -> Prop) tr p :
  (forall tr p, P tr p -> P' tr p) -> on_every_path A P tr p -> on_every_path A P' tr p.
Proof.
  intros HP. revert tr. induction p as [b|X e k IH]; intros tr [Hp Hk]; (split; [by apply HP|]); [done|].
  intros x Hx. by apply IH, Hk.
Qed.

Lemma on_every_path_true A (P : list (answered E) -> prog E R -> Prop) tr p :
  (forall tr p, P tr p) -> on_every_path A P tr p.
Proof. intros HP. revert tr. induction p as [b|X e k IH]; intros tr; (split; [apply HP|]); [done|]. intros x _. apply IH. Qed.

(** [Q] holds of what was done and returned, at the end of every such way. *)
Fixpoint returns {B} (A : forall X, E X -> X -> Prop) (Q : list (answered E) -> B -> Prop)
    (tr : list (answered E)) (p : prog E B) : Prop :=
  match p with
  | Ret b => Q tr b
  | Do e k => forall x, A _ e x -> returns A Q (tr ++ [answer_to e x]) (k x)
  end.

Lemma returns_paths A (Q : list (answered E) -> R -> Prop) tr p :
  returns A Q tr p -> on_every_path A (fun tr p => match p with Ret b => Q tr b | Do _ _ => True end) tr p.
Proof. revert tr. induction p as [b|X e k IH]; intros tr Hp; (split; [done|]); [done|]. intros x Hx. by apply IH, Hp. Qed.

Lemma returns_mono {B} A (Q Q' : list (answered E) -> B -> Prop) tr p :
  (forall tr b, Q tr b -> Q' tr b) -> returns A Q tr p -> returns A Q' tr p.
Proof. intros HQ. revert tr. induction p as [b|X e k IH]; intros tr Hp; [by apply HQ|]. intros x Hx. by apply IH, Hp. Qed.

Lemma returns_bind {B D} A (Q : list (answered E) -> D -> Prop) (p : prog E B) (f : B -> prog E D) tr :
  returns A Q tr (bind p f) <-> returns A (fun tr b => returns A Q tr (f b)) tr p.
Proof. revert tr. induction p as [b|X e k IH]; intros tr; [done|]. split; intros Hp x Hx; by apply IH, Hp. Qed.

Lemma returns_link_bind {F : interface} {B D} A (Q : list (answered E) -> D -> Prop) (l : forall X, F X -> prog E X)
    (p : prog F B) (f : B -> prog F D) tr :
  returns A (fun tr b => returns A Q tr (link l (f b))) tr (link l p) -> returns A Q tr (link l (bind p f)).
Proof.
  revert tr. induction p as [b|X e k IH]; intros tr Hp; [done|]. cbn [link bind] in *. rewrite returns_bind in Hp. rewrite returns_bind.
  eapply returns_mono; [|exact Hp]. intros tr' x. apply IH.
Qed.

(** A program that makes only quiet calls, inside a context [K] that hands its
    calls on: what holds as long as nothing but quiet calls were made holds on
    every path, if it does from where the program returns. *)
Lemma quiet_paths {B} A (P : list (answered E) -> prog E R -> Prop) (Quiet : list (answered E) -> Prop)
    (N : forall X, E X -> Prop) (K : prog E B -> prog E R) p tr :
  (forall X (e : E X) k, K (Do e k) = Do e (fun x => K (k x))) ->
  (forall tr X (e : E X) k, Quiet tr -> P tr (Do e k)) ->
  (forall tr X (e : E X) x, N X e -> Quiet tr -> Quiet (tr ++ [answer_to e x])) ->
  calls any N p -> (forall tr b, Quiet tr -> on_every_path A P tr (K (Ret b))) ->
  Quiet tr -> on_every_path A P tr (K p).
Proof.
  intros HK HP HN Hp HR. revert tr Hp. induction p as [b|X e k IH]; intros tr Hp Htr; [by apply HR|].
  destruct Hp as [He Hk]. rewrite HK. split; [by apply HP|]. intros x _. apply IH; [by apply Hk|by apply HN].
Qed.

(** The states an execution goes through. *)
Definition visited (ds : list (decision (V := V))) (c : pool) (s : S) : Prop :=
  exists ds1 ds2, ds = ds1 ++ ds2 /\ s = (sched h env ds1 c).2.

(** An answer that some state on the way gives. *)
Definition answered_in (ds : list (decision (V := V))) (c : pool) : forall X, E X -> X -> Prop :=
  fun _ e x => exists s, visited ds c s /\ x = (h _ e s).1.

Lemma visited_mono ds d (c : pool) s : visited ds c s -> visited (ds ++ [d]) c s.
Proof. intros (ds1 & ds2 & -> & ->). exists ds1, (ds2 ++ [d]). by rewrite app_assoc. Qed.

(** Only threads move. *)
Lemma history_no_thread ts s ds i : ts !! i = None -> own i (history ds (ts, s)) = [].
Proof.
  revert ts s. induction ds as [|d ds IH]; intros ts s Hi; [done|]. cbn [history]. rewrite own_app.
  destruct d as [j|v]; cbn [moved sched1 fst snd]; [|by rewrite IH].
  destruct (ts !! j) as [[a|X e k]|] eqn:Hj; cbn [mbind option_bind step1]; [by rewrite IH| |by rewrite IH].
  assert (j <> i) as Hne by (intros ->; discriminate (eq_trans (eq_sym Hi) Hj)). destruct (h X e s) as [x s'].
  rewrite IH by by rewrite list_lookup_insert_ne.
  unfold own. cbn [List.filter fst]. by rewrite (proj2 (Nat.eqb_neq j i) Hne).
Qed.

(** Nor do they come or go. *)
Lemma sched_length ds (c : pool) : length (sched h env ds c).1 = length c.1.
Proof.
  revert c. induction ds as [|d ds IH]; intros [ts s]; [done|].
  change (sched h env (d :: ds) (ts, s)) with (sched h env ds (sched1 h env d (ts, s))). rewrite IH.
  destruct d as [i|v]; cbn [sched1 fst snd]; [|done]. destruct (_ ≫= _) as [[p s']|]; [|done]. apply length_insert.
Qed.

(** What holds on every path of the threads holds of their parts of the history. *)
Lemma sched_paths A (P : nat -> list (answered E) -> prog E R -> Prop) ts s ds :
  (forall X (e : E X) x, answered_in ds (ts, s) X e x -> A X e x) ->
  (forall i p, ts !! i = Some p -> on_every_path A (P i) [] p) ->
  forall i p, (sched h env ds (ts, s)).1 !! i = Some p -> on_every_path A (P i) (own i (history ds (ts, s))) p.
Proof.
  intros HA Hts. induction ds as [|d ds IH] using rev_ind; [done|].
  assert (forall i p, (sched h env ds (ts, s)).1 !! i = Some p -> on_every_path A (P i) (own i (history ds (ts, s))) p) as Hds.
  { apply IH. intros X e x (s' & Hv & ->). apply HA. exists s'. split; [by apply visited_mono|done]. }
  rewrite sched_snoc, history_snoc. intros i p. rewrite own_app.
  assert (visited (ds ++ [d]) (ts, s) (sched h env ds (ts, s)).2) as Hv by by exists ds, [d].
  destruct (sched h env ds (ts, s)) as [ts1 s1]. destruct d as [j|v]; cbn [sched1 moved fst snd] in *.
  - destruct (ts1 !! j) as [[a|X e k]|] eqn:Hj; cbn [mbind option_bind step1];
      [rewrite app_nil_r; apply Hds| |rewrite app_nil_r; apply Hds].
    pose proof (Hds j _ Hj) as [_ Hk]. specialize (Hk _ (HA X e _ (ex_intro _ s1 (conj Hv eq_refl)))).
    destruct (h X e s1) as [x s2]. cbn [fst] in *. destruct (decide (j = i)) as [<-|Hne].
    + rewrite list_lookup_insert_eq by by eapply lookup_lt_Some. intros [= <-]. unfold own at 2. cbn [List.filter fst map snd].
      by rewrite Nat.eqb_refl.
    + rewrite list_lookup_insert_ne by done. unfold own at 2. cbn [List.filter fst map snd].
      rewrite (proj2 (Nat.eqb_neq j i)) by done. rewrite app_nil_r. apply Hds.
  - rewrite app_nil_r. apply Hds.
Qed.

Lemma calls_on_every_path A (P : forall X, E X -> Prop) tr (p : prog E R) :
  calls A P p -> on_every_path A (fun _ => calls A P) tr p.
Proof.
  revert tr. induction p as [a|X e k IH]; intros tr Hp; (split; [exact Hp|]); [done|].
  intros x Hx. apply IH. by apply Hp.
Qed.

(** [sched_history], for threads whose calls depend on what they were answered. *)
Lemma sched_history_given A (P : forall X, E X -> Prop) (Rel : S -> S -> Prop) `{!PreOrder Rel} ts s ds :
  (forall X (e : E X) x, answered_in ds (ts, s) X e x -> A X e x) ->
  (forall X (e : E X) s, P X e -> Rel s (h X e s).2) -> (forall v s, Rel s (env v s)) ->
  (forall i p, ts !! i = Some p -> calls A P p) ->
  Rel s (sched h env ds (ts, s)).2.
Proof.
  intros HA Hh He Hts. induction ds as [|d ds IH] using rev_ind; [reflexivity|].
  assert (HA' : forall X (e : E X) x, answered_in ds (ts, s) X e x -> A X e x).
  { intros X e x (s' & Hv & ->). apply HA. exists s'. split; [by apply visited_mono|done]. }
  specialize (IH HA'). pose proof (sched_paths A (fun _ _ => calls A P) ts s ds HA'
    (fun i p Hp => calls_on_every_path A P [] p (Hts i p Hp))) as Hp.
  rewrite sched_snoc. destruct (sched h env ds (ts, s)) as [ts1 s1]. etrans; [exact IH|].
  destruct d as [i|v]; cbn [sched1 fst snd] in *; [|apply He].
  destruct (ts1 !! i) as [[a|X e k]|] eqn:Hi; cbn [mbind option_bind step1]; [reflexivity| |reflexivity].
  destruct (on_every_path_here _ _ _ _ (Hp i _ Hi)) as [Hpe _]. specialize (Hh X e s1 Hpe). by destruct (h X e s1).
Qed.

(** A list in the state that only the calls extend is what it was and what they
    added, as long as the states are of the kind [Inv]. *)
Lemma history_adds {T} (Inv : S -> Prop) (f : S -> list T) (g : answered E -> list T) ds (c : pool) :
  (forall X (e : E X) s, Inv s -> Inv (h X e s).2 /\ f (h X e s).2 = f s ++ g (answer_to e (h X e s).1)) ->
  (forall v s, Inv s -> Inv (env v s) /\ f (env v s) = f s) ->
  Inv c.2 ->
  Inv (sched h env ds c).2 /\ f (sched h env ds c).2 = f c.2 ++ concat (map (fun m => g m.2) (history ds c)).
Proof.
  intros Hh He. revert c. induction ds as [|d ds IH]; intros c Hc; [by rewrite app_nil_r|].
  change (sched h env (d :: ds) c) with (sched h env ds (sched1 h env d c)). cbn [history].
  assert (Inv (sched1 h env d c).2
    /\ f (sched1 h env d c).2 = f c.2 ++ concat (map (fun m => g m.2) (moved d c))) as [Hi Hf].
  { destruct c as [ts s], d as [i|v]; cbn [sched1 moved fst snd] in *.
    - destruct (ts !! i) as [[a|X e k]|]; cbn [mbind option_bind step1]; [by rewrite app_nil_r| |by rewrite app_nil_r].
      specialize (Hh X e s Hc). destruct (h X e s) as [x s2]. cbn in *. by rewrite app_nil_r.
    - rewrite app_nil_r. by apply He. }
  destruct (IH _ Hi) as [Hi' ->]. split; [exact Hi'|]. by rewrite Hf, map_app, concat_app, app_assoc.
Qed.
End Histories.
Arguments moved {E S R V} h d c. Arguments history {E S R V} h env ds c.

(** What the members of a history stand for, each with its thread. *)
Definition tagged {E : interface} {T} (g : answered E -> list T) (l : list (nat * answered E)) : list (nat * T) :=
  concat (map (fun m => map (pair m.1) (g m.2)) l).

Section Tagged.
Context {E : interface} {T : Type} (g : answered E -> list T).

Lemma tagged_snd l : (tagged g l).*2 = concat (map (fun m => g m.2) l).
Proof.
  unfold tagged. induction l as [|[i a] l IH]; [done|]. cbn [map concat fst snd]. rewrite fmap_app, IH. f_equal.
  clear. induction (g a) as [|x xs IHx]; [done|]. cbn [map]. rewrite fmap_cons. by f_equal.
Qed.

Lemma own_tagged i l : own i (tagged g l) = concat (map g (own i l)).
Proof.
  unfold tagged. induction l as [|[j a] l IH]; [done|]. cbn [map concat fst snd]. rewrite own_app, IH.
  unfold own at 1 3. cbn [List.filter fst]. destruct (Nat.eqb_spec j i) as [->|Hne]; cbn [map concat snd].
  - f_equal. induction (g a) as [|x xs IHx]; [done|]. cbn [map List.filter fst]. rewrite Nat.eqb_refl. cbn [map snd]. by rewrite IHx.
  - change (concat (map g (own i l))) with ([] ++ concat (map g (own i l))). f_equal.
    induction (g a) as [|x xs IHx]; [done|]. cbn [map List.filter fst]. by rewrite (proj2 (Nat.eqb_neq j i) Hne).
Qed.

Lemma own_spec {U} i (x : U) l : x ∈ own i l <-> (i, x) ∈ l.
Proof.
  unfold own. induction l as [|[j y] l IH]; [by rewrite !elem_of_nil|]. cbn [List.filter fst].
  destruct (Nat.eqb_spec j i) as [->|Hne]; cbn [map snd]; rewrite !elem_of_cons, IH; naive_solver.
Qed.

(** At most one each. *)
Lemma own_unique {U} (l : list (nat * U)) : (forall i, (length (own i l) <= 1)%nat) -> NoDup l.*1.
Proof.
  induction l as [|[j y] l IH]; intros H; [constructor|]. rewrite fmap_cons. constructor.
  - intros ([? x] & ? & Hx)%list_elem_of_fmap. simpl in *. subst. specialize (H n). unfold own in H. cbn [List.filter fst] in H.
    rewrite Nat.eqb_refl in H. cbn [map length] in H. apply own_spec in Hx. unfold own in Hx. destruct (map snd _); [set_solver|]. simpl in H. lia.
  - apply IH. intros i. specialize (H i). unfold own in *. cbn [List.filter fst] in H.
    destruct (j =? i)%nat; cbn [map length] in H; lia.
Qed.
End Tagged.
