(* ===== verification/Json.v ===== *)
(** The part of Go's encoding/json the services use: the value syntax accepted
    by [json.Valid] / [json.Unmarshal], the decoding of objects into structs,
    and the text [json.Marshal] writes.

    Numbers keep their literal text, as the decoder does until it knows the
    type of the field.  Strings are byte strings; decoding replaces bytes that
    are not UTF-8 by U+FFFD, as the Go decoder does. *)

From S2P Require Import Prelude Errors.
From Stdlib Require Import Ascii DecimalString DecimalZ DecimalN DecimalFacts.
#[local] Open Scope Z_scope.

#[local] Set Warnings "-register-all".
Inductive json :=
| JNull
| JBool (b : bool)
| JNum (literal : string)
| JStr (s : string)
| JArr (l : list json)
| JObj (fields : list (string * json)).

(** * Bytes *)

Definition byte_of (a : ascii) : Z := Z.of_N (N_of_ascii a).
Definition of_byte (z : Z) : ascii := ascii_of_N (Z.to_N z).

Definition between (lo hi : Z) (a : ascii) : bool := (lo <=? byte_of a) && (byte_of a <=? hi).

(** The multi-byte forms of UTF-8 that [utf8.DecodeRune] accepts. *)
Definition cont (a : ascii) : bool := between 128 191 a.
Definition utf8_2 (a b : ascii) : bool := between 194 223 a && cont b.
Definition utf8_3 (a b c : ascii) : bool :=
  ((byte_of a =? 224) && between 160 191 b
   || (byte_of a =? 237) && between 128 159 b
   || (between 225 236 a || between 238 239 a) && cont b) && cont c.
Definition utf8_4 (a b c d : ascii) : bool :=
  ((byte_of a =? 240) && between 144 191 b
   || between 241 243 a && cont b
   || (byte_of a =? 244) && between 128 143 b) && cont c && cont d.

(** UTF-8 text. *)
Fixpoint utf8 (s : string) : bool :=
  match s with
  | EmptyString => true
  | String a s1 =>
      if between 0 127 a then utf8 s1 else
      match s1 with
      | EmptyString => false
      | String b s2 =>
          if utf8_2 a b then utf8 s2 else
          match s2 with
          | EmptyString => false
          | String c s3 =>
              if utf8_3 a b c then utf8 s3 else
              match s3 with
              | EmptyString => false
              | String d s4 => utf8_4 a b c d && utf8 s4
              end
          end
      end
  end.

(** U+FFFD, what an invalid byte decodes to. *)
Definition replacement : string := String (of_byte 239) (String (of_byte 191) (String (of_byte 189) "")).

(** The UTF-8 encoding of a code point ([utf8.AppendRune]). *)
Definition encode_rune (r : Z) : string :=
  if r <? 128 then String (of_byte r) ""
  else if r <? 2048 then String (of_byte (192 + r / 64)) (String (of_byte (128 + r mod 64)) "")
  else if (55296 <=? r) && (r <=? 57343) then replacement
  else if r <? 65536 then
    String (of_byte (224 + r / 4096)) (String (of_byte (128 + (r / 64) mod 64))
      (String (of_byte (128 + r mod 64)) ""))
  else
    String (of_byte (240 + r / 262144)) (String (of_byte (128 + (r / 4096) mod 64))
      (String (of_byte (128 + (r / 64) mod 64)) (String (of_byte (128 + r mod 64)) ""))).

(** * Reading *)

Definition is_space (a : ascii) : bool :=
  let z := byte_of a in (z =? 32) || (z =? 9) || (z =? 10) || (z =? 13).

Fixpoint skip_space (s : string) : string :=
  match s with
  | String a s' => if is_space a then skip_space s' else s
  | EmptyString => s
  end.

Definition hex_digit (a : ascii) : option Z :=
  let z := byte_of a in
  if (48 <=? z) && (z <=? 57) then Some (z - 48)
  else if (97 <=? z) && (z <=? 102) then Some (z - 87)
  else if (65 <=? z) && (z <=? 70) then Some (z - 55)
  else None.

(** Four hexadecimal digits. *)
Definition hex4 (a b c d : ascii) : option Z :=
  match hex_digit a, hex_digit b, hex_digit c, hex_digit d with
  | Some x, Some y, Some z, Some w => Some (4096 * x + 256 * y + 16 * z + w)
  | _, _, _, _ => None
  end.

Definition escape_char (a : ascii) : option ascii :=
  let z := byte_of a in
  if (z =? 34) || (z =? 92) || (z =? 47) then Some a
  else if z =? 98 then Some (of_byte 8)
  else if z =? 102 then Some (of_byte 12)
  else if z =? 110 then Some (of_byte 10)
  else if z =? 114 then Some (of_byte 13)
  else if z =? 116 then Some (of_byte 9)
  else None.

Definition high_surrogate (r : Z) : bool := (55296 <=? r) && (r <? 56320).
Definition low_surrogate (r : Z) : bool := (56320 <=? r) && (r <? 57344).

(** The code point of a surrogate pair. *)
Definition join_surrogates (hi lo : Z) : Z := (hi - 55296) * 1024 + (lo - 56320) + 65536.

Definition cons_str (p : string) (r : option (string * string)) : option (string * string) :=
  match r with Some (s, rest) => Some (p +:+ s, rest) | None => None end.

(** The content of a string literal after its opening quote, and what follows
    the closing quote. *)
Fixpoint read_string (s : string) : option (string * string) :=
  match s with
  | EmptyString => None
  | String a s1 =>
      if byte_of a =? 34 then Some ("", s1)
      else if byte_of a <? 32 then None
      else if byte_of a =? 92 then
        match s1 with
        | String e s2 =>
            if byte_of e =? 117 then
              match s2 with
              | String h1 (String h2 (String h3 (String h4 s6))) =>
                  match hex4 h1 h2 h3 h4 with
                  | None => None
                  | Some r =>
                      if high_surrogate r then
                        match s6 with
                        | String b (String u (String g1 (String g2 (String g3 (String g4 s12))))) =>
                            if (byte_of b =? 92) && (byte_of u =? 117) then
                              match hex4 g1 g2 g3 g4 with
                              | Some l =>
                                  if low_surrogate l
                                  then cons_str (encode_rune (join_surrogates r l)) (read_string s12)
                                  else cons_str replacement (read_string s6)
                              | None => None
                              end
                            else cons_str replacement (read_string s6)
                        | _ => cons_str replacement (read_string s6)
                        end
                      else cons_str (encode_rune r) (read_string s6)
                  end
              | _ => None
              end
            else match escape_char e with
                 | Some c => cons_str (String c "") (read_string s2)
                 | None => None
                 end
        | EmptyString => None
        end
      else if between 0 127 a then cons_str (String a "") (read_string s1)
      else
        match s1 with
        | String b s2 =>
            if utf8_2 a b then cons_str (String a (String b "")) (read_string s2) else
            match s2 with
            | String c s3 =>
                if utf8_3 a b c then cons_str (String a (String b (String c ""))) (read_string s3) else
                match s3 with
                | String d s4 =>
                    if utf8_4 a b c d
                    then cons_str (String a (String b (String c (String d "")))) (read_string s4)
                    else cons_str replacement (read_string s1)
                | EmptyString => cons_str replacement (read_string s1)
                end
            | EmptyString => cons_str replacement (read_string s1)
            end
        | EmptyString => cons_str replacement (read_string s1)
        end
  end.

Definition digit (a : ascii) : bool := between 48 57 a.

Fixpoint read_digits (s : string) : string * string :=
  match s with
  | String a s' => if digit a then let '(d, r) := read_digits s' in (String a d, r) else ("", s)
  | EmptyString => ("", s)
  end.

(** [-]? int frac? exp? *)
Definition read_number (s : string) : option (string * string) :=
  let '(sign, s) := match s with
                    | String a s' => if byte_of a =? 45 then ("-", s') else ("", s)
                    | EmptyString => ("", s)
                    end in
  let '(int, s) := match s with
                   | String a s' => if byte_of a =? 48 then ("0", s') else read_digits s
                   | EmptyString => ("", s)
                   end in
  if bool_decide (int = "") then None else
  let frac := match s with
              | String a s' =>
                  if byte_of a =? 46 then
                    let '(d, r) := read_digits s' in
                    if bool_decide (d = "") then None else Some ("." +:+ d, r)
                  else Some ("", s)
              | EmptyString => Some ("", s)
              end in
  match frac with
  | None => None
  | Some (frac, s) =>
      match s with
      | String e s' =>
          if (byte_of e =? 101) || (byte_of e =? 69) then
            let '(sg, s'') := match s' with
                              | String a t => if (byte_of a =? 43) || (byte_of a =? 45)
                                              then (String a "", t) else ("", s')
                              | EmptyString => ("", s')
                              end in
            let '(d, r) := read_digits s'' in
            if bool_decide (d = "") then None
            else Some (sign +:+ int +:+ frac +:+ String e (sg +:+ d), r)
          else Some (sign +:+ int +:+ frac, s)
      | EmptyString => Some (sign +:+ int +:+ frac, s)
      end
  end.

Definition expect (p s : string) : option string :=
  if has_prefix p s then Some (drop_str (String.length p) s) else None.

(** A value at the head of the text.  [fuel] bounds the nesting as well as the
    number of elements: the length of the text suffices for both; [depth] is the
    decoder's own limit of 10000 nested values. *)
Fixpoint read_value (fuel : nat) (depth : nat) (s : string) : option (json * string) :=
  match fuel with
  | O => None
  | S fuel' =>
      match skip_space s with
      | EmptyString => None
      | String a s1 =>
          let z := byte_of a in
          if z =? 34 then
            match read_string s1 with Some (x, r) => Some (JStr x, r) | None => None end
          else if z =? 123 then
            match depth with
            | O => None
            | S depth' =>
                match skip_space s1 with
                | String b r => if byte_of b =? 125 then Some (JObj [], r)
                                else match read_members fuel' depth' s1 with
                                     | Some (l, r) => Some (JObj l, r)
                                     | None => None
                                     end
                | EmptyString => None
                end
            end
          else if z =? 91 then
            match depth with
            | O => None
            | S depth' =>
                match skip_space s1 with
                | String b r => if byte_of b =? 93 then Some (JArr [], r)
                                else match read_elements fuel' depth' s1 with
                                     | Some (l, r) => Some (JArr l, r)
                                     | None => None
                                     end
                | EmptyString => None
                end
            end
          else if z =? 116 then match expect "rue" s1 with Some r => Some (JBool true, r) | None => None end
          else if z =? 102 then match expect "alse" s1 with Some r => Some (JBool false, r) | None => None end
          else if z =? 110 then match expect "ull" s1 with Some r => Some (JNull, r) | None => None end
          else match read_number (String a s1) with
               | Some (n, r) => Some (JNum n, r)
               | None => None
               end
      end
  end
with read_elements (fuel : nat) (depth : nat) (s : string) : option (list json * string) :=
  match fuel with
  | O => None
  | S fuel' =>
      match read_value fuel' depth s with
      | None => None
      | Some (v, r) =>
          match skip_space r with
          | String a r' =>
              if byte_of a =? 44 then
                match read_elements fuel' depth r' with
                | Some (l, r'') => Some (v :: l, r'')
                | None => None
                end
              else if byte_of a =? 93 then Some ([v], r')
              else None
          | EmptyString => None
          end
      end
  end
with read_members (fuel : nat) (depth : nat) (s : string) : option (list (string * json) * string) :=
  match fuel with
  | O => None
  | S fuel' =>
      match skip_space s with
      | String q s1 =>
          if byte_of q =? 34 then
            match read_string s1 with
            | None => None
            | Some (name, r0) =>
                match skip_space r0 with
                | String c r1 =>
                    if byte_of c =? 58 then
                      match read_value fuel' depth r1 with
                      | None => None
                      | Some (v, r) =>
                          match skip_space r with
                          | String a r' =>
                              if byte_of a =? 44 then
                                match read_members fuel' depth r' with
                                | Some (l, r'') => Some ((name, v) :: l, r'')
                                | None => None
                                end
                              else if byte_of a =? 125 then Some ([(name, v)], r')
                              else None
                          | EmptyString => None
                          end
                      end
                    else None
                | EmptyString => None
                end
            end
          else None
      | EmptyString => None
      end
  end.

Definition max_depth : nat := Z.to_nat 10000.
#[global] Arguments max_depth : simpl never.

Lemma le_max_depth n : (n <= 1000)%nat -> (n <= max_depth)%nat.
Proof. unfold max_depth. lia. Qed.

(** Fuel: every call that does not stop consumes at least one byte of [s]
    within two levels of recursion. *)
Definition json_fuel (s : string) : nat := (2 * String.length s + 2)%nat.

(** A whole text: one value, then only white space. *)
Definition parse (s : string) : option json :=
  match read_value (json_fuel s) max_depth s with
  | Some (v, r) => if bool_decide (skip_space r = "") then Some v else None
  | None => None
  end.

(** [json.Valid]. *)
Definition valid (s : string) : bool :=
  match parse s with Some _ => true | None => false end.


(** * Writing *)

(** The double quote and the backslash. *)
Definition dq : string := String (of_byte 34) "".
Definition bslash : string := String (of_byte 92) "".

Definition hex_char (z : Z) : ascii := of_byte (if z <? 10 then 48 + z else 87 + z).

(** [\u00xx]. *)
Definition u00 (a : ascii) : string :=
  bslash +:+ "u00" +:+ String (hex_char (byte_of a / 16)) (String (hex_char (byte_of a mod 16)) "").

(** One ASCII byte, with [escapeHTML] on as [json.Marshal] has it. *)
Definition escape_ascii (a : ascii) : string :=
  let z := byte_of a in
  if (z =? 34) || (z =? 92) then bslash +:+ String a ""
  else if z =? 8 then bslash +:+ "b"
  else if z =? 12 then bslash +:+ "f"
  else if z =? 10 then bslash +:+ "n"
  else if z =? 13 then bslash +:+ "r"
  else if z =? 9 then bslash +:+ "t"
  else if (z <? 32) || (z =? 60) || (z =? 62) || (z =? 38) then u00 a
  else String a "".

(** U+2028 and U+2029 are the two code points that are escaped though valid. *)
Definition separator (a b c : ascii) : bool :=
  (byte_of a =? 226) && (byte_of b =? 128) && ((byte_of c =? 168) || (byte_of c =? 169)).

Definition escape_3 (a b c : ascii) : string :=
  if separator a b c then bslash +:+ "u202" +:+ String (hex_char (byte_of c mod 16)) ""
  else String a (String b (String c "")).

Definition escape_invalid : string := bslash +:+ "ufffd".

Fixpoint escape (s : string) : string :=
  match s with
  | EmptyString => ""
  | String a s1 =>
      if between 0 127 a then escape_ascii a +:+ escape s1 else
      match s1 with
      | EmptyString => escape_invalid
      | String b s2 =>
          if utf8_2 a b then String a (String b (escape s2)) else
          match s2 with
          | EmptyString => escape_invalid +:+ escape s1
          | String c s3 =>
              if utf8_3 a b c then escape_3 a b c +:+ escape s3 else
              match s3 with
              | EmptyString => escape_invalid +:+ escape s1
              | String d s4 =>
                  if utf8_4 a b c d
                  then String a (String b (String c (String d (escape s4))))
                  else escape_invalid +:+ escape s1
              end
          end
      end
  end.

Definition quote (s : string) : string := dq +:+ escape s +:+ dq.

(** The text of a string with every byte that is not UTF-8 replaced
    ([strings.ToValidUTF8] byte by byte). *)
Fixpoint to_valid (s : string) : string :=
  match s with
  | EmptyString => ""
  | String a s1 =>
      if between 0 127 a then String a (to_valid s1) else
      match s1 with
      | EmptyString => replacement
      | String b s2 =>
          if utf8_2 a b then String a (String b (to_valid s2)) else
          match s2 with
          | EmptyString => replacement +:+ to_valid s1
          | String c s3 =>
              if utf8_3 a b c then String a (String b (String c (to_valid s3))) else
              match s3 with
              | EmptyString => replacement +:+ to_valid s1
              | String d s4 =>
                  if utf8_4 a b c d
                  then String a (String b (String c (String d (to_valid s4))))
                  else replacement +:+ to_valid s1
              end
          end
      end
  end.

(** Decimal integers ([strconv.Itoa], [strconv.ParseInt]). *)
Definition itoa (z : Z) : string := NilZero.string_of_int (Z.to_int z).

Definition atoi (s : string) : option Z := Z.of_int <$> NilZero.int_of_string s.

(** [json.Marshal] of a value without white space. *)
Fixpoint print (j : json) : string :=
  match j with
  | JNull => "null"
  | JBool true => "true"
  | JBool false => "false"
  | JNum n => n
  | JStr s => quote s
  | JArr l => "[" +:+ str_join "," (map print l) +:+ "]"
  | JObj l =>
      "{" +:+ str_join "," (map (fun f : string * json => quote (fst f) +:+ ":" +:+ print (snd f)) l) +:+ "}"
  end.

(** * Reading what was written *)

(** Bytes outside ASCII are neither a quote, nor a backslash, nor a control
    character. *)
Lemma not_ascii a :
  between 0 127 a = false ->
  (byte_of a =? 34) = false /\ (byte_of a <? 32) = false /\ (byte_of a =? 92) = false.
Proof.
  unfold between, byte_of. intros H. apply andb_false_iff in H as [H|H]; zbool; [lia|].
  repeat split; (apply Z.eqb_neq || apply Z.ltb_ge); lia.
Qed.

Lemma read_escape_ascii a t :
  between 0 127 a = true ->
  read_string (escape_ascii a +:+ t) = cons_str (String a "") (read_string t).
Proof. destruct a as [[] [] [] [] [] [] [] []]; intros H; first [discriminate H | reflexivity]. Qed.

Lemma read_escape_invalid t :
  read_string (escape_invalid +:+ t) = cons_str replacement (read_string t).
Proof. reflexivity. Qed.

Lemma read_utf8_2 a b t :
  between 0 127 a = false -> utf8_2 a b = true ->
  read_string (String a (String b t)) = cons_str (String a (String b "")) (read_string t).
Proof.
  intros Ha H. destruct (not_ascii a Ha) as (E1 & E2 & E3).
  cbn [read_string]. by rewrite E1, E2, E3, Ha, H.
Qed.

Lemma read_escape_3 a b c t :
  between 0 127 a = false -> utf8_2 a b = false -> utf8_3 a b c = true ->
  read_string (escape_3 a b c +:+ t) = cons_str (String a (String b (String c ""))) (read_string t).
Proof.
  intros Ha H2 H. destruct (not_ascii a Ha) as (E1 & E2 & E3). unfold escape_3.
  destruct (separator a b c) eqn:Hs.
  - unfold separator in Hs. apply andb_true_iff in Hs as [Hab Hc].
    apply andb_true_iff in Hab as [H1 Hb].
    assert (forall x n, (byte_of x =? n) = true -> x = of_byte n) as Hinv.
    { intros x n E. zbool. unfold byte_of in E. subst n. unfold of_byte.
      by rewrite N2Z.id, ascii_N_embedding. }
    apply Hinv in H1, Hb. subst a b.
    apply orb_true_iff in Hc as [Hc|Hc]; apply Hinv in Hc; subst c; reflexivity.
  - simpl String.app. cbn [read_string]. by rewrite E1, E2, E3, Ha, H2, H.
Qed.

Lemma read_utf8_4 a b c d t :
  between 0 127 a = false -> utf8_2 a b = false -> utf8_3 a b c = false -> utf8_4 a b c d = true ->
  read_string (String a (String b (String c (String d t)))) =
    cons_str (String a (String b (String c (String d "")))) (read_string t).
Proof.
  intros Ha H2 H3 H. destruct (not_ascii a Ha) as (E1 & E2 & E3).
  cbn [read_string]. by rewrite E1, E2, E3, Ha, H2, H3, H.
Qed.

Lemma cons_str_app p s r x :
  x = Some (s, r) -> cons_str p x = Some (p +:+ s, r).
Proof. by intros ->. Qed.

(** What is read back after the closing quote of an escaped string. *)
Lemma read_escape_aux n : forall s r,
  (String.length s <= n)%nat -> read_string (escape s +:+ dq +:+ r) = Some (to_valid s, r).
Proof.
  induction n as [|n IH]; intros s r Hn; [by destruct s; [|simpl in Hn; lia]|].
  destruct s as [|a s1]; [done|]. simpl in Hn. cbn [escape to_valid].
  destruct (between 0 127 a) eqn:Ha.
  { rewrite str_app_assoc, read_escape_ascii by done.
    rewrite (cons_str_app _ (to_valid s1) r); [done|]. apply IH. lia. }
  destruct s1 as [|b s2]; [done|]. simpl in Hn.
  destruct (utf8_2 a b) eqn:H2.
  { simpl String.app. rewrite read_utf8_2 by done.
    rewrite (cons_str_app _ (to_valid s2) r); [done|]. apply IH. lia. }
  destruct s2 as [|c s3].
  { rewrite str_app_assoc, read_escape_invalid.
    rewrite (cons_str_app _ (to_valid (String b "")) r); [done|]. apply IH. simpl. lia. }
  simpl in Hn. destruct (utf8_3 a b c) eqn:H3.
  { rewrite str_app_assoc, read_escape_3 by done.
    rewrite (cons_str_app _ (to_valid s3) r); [done|]. apply IH. lia. }
  destruct s3 as [|d s4].
  { rewrite str_app_assoc, read_escape_invalid.
    rewrite (cons_str_app _ (to_valid (String b (String c ""))) r); [done|]. apply IH. simpl. lia. }
  simpl in Hn. destruct (utf8_4 a b c d) eqn:H4.
  { simpl String.app. rewrite read_utf8_4 by done.
    rewrite (cons_str_app _ (to_valid s4) r); [done|]. apply IH. lia. }
  rewrite str_app_assoc, read_escape_invalid.
  rewrite (cons_str_app _ (to_valid (String b (String c (String d s4)))) r); [done|].
  apply IH. simpl. lia.
Qed.

Lemma read_escape s r : read_string (escape s +:+ dq +:+ r) = Some (to_valid s, r).
Proof. by apply (read_escape_aux (String.length s)). Qed.

Lemma to_valid_utf8_aux n : forall s,
  (String.length s <= n)%nat -> utf8 s = true -> to_valid s = s.
Proof.
  induction n as [|n IH]; intros s Hn Hu; [by destruct s; [|simpl in Hn; lia]|].
  destruct s as [|a s1]; [done|]. simpl in Hn. cbn [utf8 to_valid] in *.
  destruct (between 0 127 a); [rewrite IH by (done || lia); done|].
  destruct s1 as [|b s2]; [done|]. simpl in Hn.
  destruct (utf8_2 a b); [rewrite IH by (done || lia); done|].
  destruct s2 as [|c s3]; [done|]. simpl in Hn.
  destruct (utf8_3 a b c); [rewrite IH by (done || lia); done|].
  destruct s3 as [|d s4]; [done|]. simpl in Hn.
  apply andb_true_iff in Hu as [-> Hu]. rewrite IH by (done || lia). done.
Qed.

Lemma to_valid_utf8 s : utf8 s = true -> to_valid s = s.
Proof. by apply (to_valid_utf8_aux (String.length s)). Qed.

#[export] Hint Rewrite read_escape : onezox_str.

(** ** Numbers *)

(** [r] does not continue a number. *)
Definition ends_number (r : string) : bool :=
  match r with
  | String a _ => negb (digit a || (byte_of a =? 46) || (byte_of a =? 101) || (byte_of a =? 69))
  | EmptyString => true
  end.

(** A literal the reader takes whole, whatever value follows in a document. *)
Definition wf_number (n : string) : Prop :=
  (forall r, ends_number r = true -> read_number (n +:+ r) = Some (n, r))
  /\ match n with String a _ => digit a || (byte_of a =? 45) = true | EmptyString => False end.

Lemma read_digits_uint d r :
  ends_number r = true ->
  read_digits (NilEmpty.string_of_uint d +:+ r) = (NilEmpty.string_of_uint d, r).
Proof.
  intros Hr. induction d as [|d IH|d IH|d IH|d IH|d IH|d IH|d IH|d IH|d IH|d IH];
    cbn [NilEmpty.string_of_uint String.app]; try (simpl; by rewrite IH).
  destruct r as [|a r]; [done|]. simpl in *. apply negb_true_iff in Hr.
  repeat (apply orb_false_iff in Hr as [Hr ?]). by rewrite Hr.
Qed.

(** The printed form of a natural number: no leading zero unless it is zero. *)
Definition normal_uint (d : Decimal.uint) : bool :=
  match d with
  | Decimal.Nil => false
  | Decimal.D0 Decimal.Nil => true
  | Decimal.D0 _ => false
  | _ => true
  end.

Lemma nzhead_not_zero d : match Decimal.nzhead d with Decimal.D0 _ => False | _ => True end.
Proof. by induction d. Qed.

Lemma normal_pos p : normal_uint (Pos.to_uint p) = true.
Proof.
  change (Pos.to_uint p) with (N.to_uint (Npos p)).
  rewrite <- (DecimalN.Unsigned.of_to (Npos p)), DecimalN.Unsigned.to_of.
  unfold Decimal.unorm. pose proof (nzhead_not_zero (N.to_uint (Npos p))) as H.
  by destruct (Decimal.nzhead _).
Qed.

Lemma read_number_uint d r :
  normal_uint d = true -> ends_number r = true ->
  read_number (NilEmpty.string_of_uint d +:+ r) = Some (NilEmpty.string_of_uint d, r)
  /\ read_number ("-" +:+ NilEmpty.string_of_uint d +:+ r) = Some ("-" +:+ NilEmpty.string_of_uint d, r)
  /\ match NilEmpty.string_of_uint d with String a _ => digit a = true | _ => False end.
Proof.
  intros Hd Hr.
  pose proof (read_digits_uint d r Hr) as Hdig.
  destruct d as [|d|d|d|d|d|d|d|d|d|d]; try discriminate Hd.
  { destruct d; try discriminate Hd. clear Hdig.
    destruct r as [|e r]; [done|]. simpl in Hr. apply negb_true_iff in Hr.
    repeat (apply orb_false_iff in Hr as [Hr ?]).
    simpl. unfold read_number. simpl. rewrite H1. simpl. by rewrite H, H0. }
  all: destruct r as [|e r];
    [ unfold read_number; cbn [NilEmpty.string_of_uint String.app] in *; simpl byte_of; simpl Z.eqb;
      cbv iota; rewrite Hdig; simpl; autorewrite with onezox_str; done |].
  all: simpl in Hr; apply negb_true_iff in Hr; repeat (apply orb_false_iff in Hr as [Hr ?]).
  all: unfold read_number; cbn [NilEmpty.string_of_uint String.app] in *; simpl byte_of; simpl Z.eqb;
      cbv iota; rewrite Hdig; simpl; rewrite H1; simpl; rewrite H, H0; simpl;
      autorewrite with onezox_str; done.
Qed.

Lemma itoa_shape z :
  exists d, normal_uint d = true /\
    (itoa z = NilEmpty.string_of_uint d \/ itoa z = "-" +:+ NilEmpty.string_of_uint d).
Proof.
  unfold itoa. destruct z as [|p|p]; simpl.
  - exists (Decimal.D0 Decimal.Nil). auto.
  - exists (Pos.to_uint p). pose proof (normal_pos p) as H. split; [done|left].
    destruct (Pos.to_uint p); done.
  - exists (Pos.to_uint p). pose proof (normal_pos p) as H. split; [done|right].
    destruct (Pos.to_uint p); done.
Qed.

Lemma wf_number_itoa z : wf_number (itoa z).
Proof.
  destruct (itoa_shape z) as (d & Hd & [->| ->]); split.
  - intros r Hr. by apply read_number_uint.
  - destruct (read_number_uint d "" Hd eq_refl) as (_ & _ & H).
    destruct (NilEmpty.string_of_uint d); [done|]. by rewrite H.
  - intros r Hr. rewrite str_app_assoc. by apply read_number_uint.
  - done.
Qed.

Lemma atoi_itoa z : atoi (itoa z) = Some z.
Proof.
  unfold atoi, itoa. rewrite NilZero.isi.
  - simpl. by rewrite DecimalZ.of_to.
  - destruct z as [|p|p]; simpl; try done. injection 1 as H.
    pose proof (normal_pos p) as Hn. by rewrite H in Hn.
  - destruct z as [|p|p]; simpl; try done. injection 1 as H.
    pose proof (normal_pos p) as Hn. by rewrite H in Hn.
Qed.

(** ** Whole documents *)

Fixpoint depth (j : json) : nat :=
  match j with
  | JArr l => S (list_max (map depth l))
  | JObj l => S (list_max (map (fun f : string * json => depth (snd f)) l))
  | _ => 0
  end%nat.

Fixpoint wf_numbers (j : json) : Prop :=
  match j with
  | JNum n => wf_number n
  | JArr l => fold_right (fun x P => wf_numbers x /\ P) True l
  | JObj l => fold_right (fun (f : string * json) P => wf_numbers (snd f) /\ P) True l
  | _ => True
  end.

(** What a reader gets of a written value: its strings as valid UTF-8. *)
Fixpoint canon (j : json) : json :=
  match j with
  | JStr s => JStr (to_valid s)
  | JArr l => JArr (map canon l)
  | JObj l => JObj (map (fun f : string * json => (to_valid (fst f), canon (snd f))) l)
  | j => j
  end.

Definition print_member (f : string * json) : string := quote (fst f) +:+ ":" +:+ print (snd f).

Lemma print_obj l : print (JObj l) = "{" +:+ str_join "," (map print_member l) +:+ "}".
Proof. done. Qed.

(** The first byte of a printed value is neither white space nor a closing
    bracket. *)
Definition opens_value (s : string) : Prop :=
  match s with
  | String a _ => is_space a = false /\ (byte_of a =? 93) = false /\ (byte_of a =? 125) = false
  | EmptyString => False
  end.

Lemma opens_app s t : opens_value s -> opens_value (s +:+ t).
Proof. by destruct s. Qed.

Lemma number_opens n : wf_number n -> opens_value n.
Proof.
  intros [_ H]. destruct n as [|a n]; [done|]. simpl. apply orb_true_iff in H as [H|H].
  - unfold digit, between, is_space in *. apply andb_true_iff in H as [? ?]. zbool.
    repeat split; repeat rewrite orb_false_iff; repeat split; apply Z.eqb_neq; lia.
  - zbool. unfold is_space. by rewrite H.
Qed.

Lemma print_opens j : wf_numbers j -> opens_value (print j).
Proof. destruct j as [|[]|n|s|l|l]; intros H; try (simpl; done). by apply number_opens. Qed.

Lemma skip_opens s : opens_value s -> skip_space s = s.
Proof. destruct s as [|a s]; [done|]. simpl. by intros (-> & _). Qed.

Lemma quote_app s t : quote s +:+ t = dq +:+ escape s +:+ dq +:+ t.
Proof. unfold quote. by rewrite !str_app_assoc. Qed.

Lemma str_join_cons sep x y l : str_join sep (x :: y :: l) = x +:+ sep +:+ str_join sep (y :: l).
Proof. done. Qed.

Lemma list_max_cons_le x l d : (list_max (x :: l) <= d)%nat -> (x <= d)%nat /\ (list_max l <= d)%nat.
Proof. simpl. lia. Qed.

Lemma quote_length s : (2 <= String.length (quote s))%nat.
Proof. unfold quote. rewrite !str_length_app. simpl. lia. Qed.

Lemma print_length_pos j : wf_numbers j -> (1 <= String.length (print j))%nat.
Proof. intros H%print_opens. destruct (print j); [done | simpl; lia]. Qed.

Section ReadPrint.
#[local] Arguments str_join : simpl never.

Lemma str_join_one sep x : str_join sep [x] = x.
Proof. done. Qed.

Definition reads_value (n : nat) : Prop := forall j d r,
  wf_numbers j -> (depth j <= d)%nat -> (2 * String.length (print j) <= n)%nat ->
  ends_number r = true -> read_value n d (print j +:+ r) = Some (canon j, r).

Definition reads_elements (n : nat) : Prop := forall x l d r,
  wf_numbers (JArr (x :: l)) -> (list_max (map depth (x :: l)) <= d)%nat ->
  (2 * String.length (str_join "," (map print (x :: l))) + 3 <= n)%nat ->
  read_elements n d (str_join "," (map print (x :: l)) +:+ "]" +:+ r)
    = Some (map canon (x :: l), r).

Definition canon_member (f : string * json) : string * json := (to_valid (fst f), canon (snd f)).

Definition reads_members (n : nat) : Prop := forall x l d r,
  wf_numbers (JObj (x :: l)) ->
  (list_max (map (fun f : string * json => depth (snd f)) (x :: l)) <= d)%nat ->
  (2 * String.length (str_join "," (map print_member (x :: l))) + 3 <= n)%nat ->
  read_members n d (str_join "," (map print_member (x :: l)) +:+ "}" +:+ r)
    = Some (map canon_member (x :: l), r).

Lemma elements_step n : reads_value n -> reads_elements n -> reads_elements (S n).
Proof.
  intros HV HE x l d r Hw Hd Hn. simpl map in *.
  apply list_max_cons_le in Hd as [Hdx Hdl]. destruct Hw as [Hwx Hwl].
  destruct l as [|y l].
  - simpl map in *. rewrite str_join_one in *. cbn [read_elements].
    rewrite (HV x d) by (done || lia). reflexivity.
  - rewrite map_cons in Hn, Hdl |- *. rewrite str_join_cons in Hn |- *.
    rewrite !str_length_app in Hn. simpl String.length in Hn.
    pose proof (print_length_pos x Hwx). cbn [read_elements].
    rewrite !str_app_assoc, (HV x d) by (done || lia). simpl skip_space. cbv iota beta.
    simpl byte_of. simpl Z.eqb. cbv iota.
    change (print y :: map print l) with (map print (y :: l)) in *.
    change (String "]" r) with ("]" +:+ r).
    rewrite (HE y l d r) by (done || lia || (simpl map; lia)). done.
Qed.

Lemma members_step n : reads_value n -> reads_members n -> reads_members (S n).
Proof.
  intros HV HE [k x] l d r Hw Hd Hn. rewrite map_cons in Hd.
  apply list_max_cons_le in Hd as [Hdx Hdl]. destruct Hw as [Hwx Hwl]. simpl in Hwx, Hdx.
  assert (forall t, read_members (S n) d (print_member (k, x) +:+ t) =
    match read_value n d (print x +:+ t) with
    | Some (v, r) =>
        match skip_space r with
        | String a r' =>
            if byte_of a =? 44 then
              match read_members n d r' with
              | Some (l, r'') => Some ((to_valid k, v) :: l, r'')
              | None => None
              end
            else if byte_of a =? 125 then Some ([(to_valid k, v)], r')
            else None
        | EmptyString => None
        end
    | None => None
    end) as Hstep.
  { intros t. unfold print_member. simpl fst. simpl snd.
    rewrite str_app_assoc, quote_app. cbn [read_members].
    rewrite skip_opens by done. simpl String.app. cbv iota. simpl byte_of. simpl Z.eqb. cbv iota.
    change (String (of_byte 34) (String ":" (print x +:+ t))) with (dq +:+ String ":" (print x +:+ t)).
    rewrite read_escape. done. }
  destruct l as [|y l].
  - simpl map in *. rewrite str_join_one in *. unfold print_member in Hn. simpl fst in Hn. simpl snd in Hn.
    rewrite !str_length_app in Hn. pose proof (quote_length k).
    rewrite Hstep, (HV x d) by (done || lia). reflexivity.
  - rewrite map_cons in Hn, Hdl |- *. rewrite map_cons in Hn |- *. rewrite str_join_cons in Hn |- *.
    rewrite !str_length_app in Hn. unfold print_member at 1 in Hn. simpl fst in Hn. simpl snd in Hn.
    rewrite !str_length_app in Hn. simpl String.length in Hn. pose proof (quote_length k).
    rewrite str_app_assoc, Hstep, str_app_assoc, (HV x d) by (done || lia).
    simpl skip_space. cbv iota beta. simpl byte_of. simpl Z.eqb. cbv iota.
    change (print_member y :: map print_member l) with (map print_member (y :: l)) in *.
    change (String "}" r) with ("}" +:+ r).
    rewrite (HE y l d r) by (done || lia || (simpl map; lia)). done.
Qed.
End ReadPrint.

#[local] Arguments str_join : simpl never.

Lemma value_step n :
  reads_elements n -> reads_members n -> reads_value (S n).
Proof.
  intros HE HM j d r Hw Hd Hn Hr.
  destruct j as [|[]|m|s|[|x l]|[|x l]]; try reflexivity.
  - destruct Hw as [Hm Hf]. simpl print in *.
    pose proof (number_opens m (conj Hm Hf)) as Ho. specialize (Hm r Hr).
    destruct m as [|a m]; [done|].
    cbn [read_value]. rewrite skip_opens by (by apply opens_app).
    simpl String.app in *. cbv iota.
    apply orb_true_iff in Hf as [Hf|Hf].
    + unfold digit, between in Hf. apply andb_true_iff in Hf as [? ?]. zbool.
      repeat (rewrite (proj2 (Z.eqb_neq (byte_of a) _)) by lia). by rewrite Hm.
    + zbool. rewrite Hf in *. simpl. by rewrite Hm.
  - simpl print. rewrite quote_app. cbn [read_value]. rewrite skip_opens by done.
    simpl String.app. cbv iota. simpl byte_of. simpl Z.eqb. cbv iota.
    change (String (of_byte 34) r) with (dq +:+ r). by rewrite read_escape.
  - destruct d; [simpl in Hd; lia|]. reflexivity.
  - destruct d as [|d]; [simpl in Hd; lia|].
    change (print (JArr (x :: l))) with ("[" +:+ str_join "," (map print (x :: l)) +:+ "]") in *.
    rewrite !str_length_app in Hn. simpl String.length in Hn.
    rewrite !str_app_assoc. cbn [read_value]. rewrite skip_opens by done.
    simpl String.app. cbv iota. simpl byte_of. simpl Z.eqb. cbv iota.
    change (String "]" r) with ("]" +:+ r).
    assert (opens_value (str_join "," (map print (x :: l)) +:+ "]" +:+ r)) as Ho.
    { apply opens_app. destruct Hw as [Hx _]. apply print_opens in Hx.
      destruct l; [done|]. rewrite !map_cons, str_join_cons. by apply opens_app. }
    rewrite skip_opens by done.
    destruct (str_join "," _ +:+ _) as [|b t] eqn:Et; [done|].
    destruct Ho as (_ & -> & _). rewrite <- Et.
    rewrite (HE x l d r); [done|done|simpl in Hd |- *; lia|simpl map in *; lia].
  - destruct d; [simpl in Hd; lia|]. reflexivity.
  - destruct d as [|d]; [simpl in Hd; lia|].
    rewrite print_obj in *. rewrite !str_length_app in Hn. simpl String.length in Hn.
    rewrite !str_app_assoc. cbn [read_value]. rewrite skip_opens by done.
    simpl String.app. cbv iota. simpl byte_of. simpl Z.eqb. cbv iota.
    change (String "}" r) with ("}" +:+ r).
    assert (opens_value (str_join "," (map print_member (x :: l)) +:+ "}" +:+ r)) as Ho.
    { apply opens_app. destruct l; [done|]. rewrite !map_cons, str_join_cons. by apply opens_app. }
    rewrite skip_opens by done.
    destruct (str_join "," _ +:+ _) as [|b t] eqn:Et; [done|].
    destruct Ho as (_ & _ & ->). rewrite <- Et.
    rewrite (HM x l d r); [done|done|simpl in Hd |- *; lia|simpl map in *; lia].
Qed.

Lemma reads_all n : reads_value n /\ reads_elements n /\ reads_members n.
Proof.
  induction n as [|n (HV & HE & HM)].
  - split; [|split].
    + intros j d r Hw _ Hn. pose proof (print_length_pos j Hw). lia.
    + intros x l d r _ _ Hn. lia.
    + intros x l d r _ _ Hn. lia.
  - split; [|split].
    + by apply value_step.
    + by apply elements_step.
    + by apply members_step.
Qed.

(** A written document, read back, is the value that was written, its strings
    made valid UTF-8. *)
Lemma parse_print j :
  wf_numbers j -> (depth j <= max_depth)%nat -> parse (print j) = Some (canon j).
Proof.
  intros Hw Hd. unfold parse, json_fuel.
  pose proof (proj1 (reads_all (2 * String.length (print j) + 2)) j max_depth "" Hw Hd) as H.
  rewrite str_app_nil_r in H. rewrite H by (done || lia). done.
Qed.

(** ** A printed document is one line *)

(** No control character. *)
Fixpoint no_control (s : string) : bool :=
  match s with
  | EmptyString => true
  | String a s' => (32 <=? byte_of a) && no_control s'
  end.

Lemma no_control_app s t : no_control (s +:+ t) = no_control s && no_control t.
Proof. induction s as [|a s IH]; simpl; [done|]. by rewrite IH, andb_assoc. Qed.

Lemma read_digits_no_control s : no_control (read_digits s).1 = true.
Proof.
  induction s as [|a s IH]; simpl; [done|]. destruct (digit a) eqn:Hd; [|done].
  destruct (read_digits s) as [d r]. simpl in *. rewrite IH, andb_true_r.
  unfold digit, between in Hd. apply andb_true_iff in Hd as [? _]. zbool. apply Z.leb_le. lia.
Qed.

Lemma read_digits_eq s d r : read_digits s = (d, r) -> no_control d = true.
Proof. intros H. pose proof (read_digits_no_control s) as Hd. by rewrite H in Hd. Qed.

Lemma digit_no_control a : digit a = true -> (32 <=? byte_of a) = true.
Proof. unfold digit, between. intros [? _]%andb_true_iff. zbool. apply Z.leb_le. lia. Qed.

Lemma read_number_no_control s n r : read_number s = Some (n, r) -> no_control n = true.
Proof.
  unfold read_number. destruct (match s with "" => _ | _ => _ end) as [sign s1] eqn:E1.
  assert (no_control sign = true) as H1 by (clear -E1; repeat case_match; by simplify_eq).
  destruct (match s1 with "" => _ | _ => _ end) as [int s2] eqn:E2.
  assert (no_control int = true) as H2.
  { clear -E2. destruct s1; [by simplify_eq|]. destruct (byte_of a =? 48); [by simplify_eq|].
    by eapply read_digits_eq. }
  destruct (bool_decide (int = "")); [done|].
  destruct (match s2 with "" => _ | _ => _ end) as [[frac s3]|] eqn:E3; [|done].
  assert (no_control frac = true) as H3.
  { clear -E3. destruct s2; [by simplify_eq|]. destruct (byte_of a =? 46); [|by simplify_eq].
    destruct (read_digits s2) as [d t] eqn:Hd. apply read_digits_eq in Hd.
    destruct (bool_decide (d = "")); by simplify_eq. }
  clear E1 E2 E3. intros H. assert (no_control (sign +:+ int +:+ frac) = true) as H4.
  { by rewrite !no_control_app, H1, H2, H3. }
  destruct s3 as [|e s4]; [congruence|]. destruct ((byte_of e =? 101) || (byte_of e =? 69)) eqn:He; [|congruence].
  assert ((32 <=? byte_of e) = true) as H5.
  { apply Z.leb_le. apply orb_true_iff in He as [He|He]; zbool; lia. }
  destruct (match s4 with "" => _ | _ => _ end) as [sg s5] eqn:E5.
  assert (no_control sg = true) as H6.
  { clear -E5. destruct s4; [by simplify_eq|]. destruct ((byte_of a =? 43) || (byte_of a =? 45)) eqn:Ha; [|by simplify_eq].
    simplify_eq. simpl. rewrite andb_true_r. apply Z.leb_le. apply orb_true_iff in Ha as [Ha|Ha]; zbool; lia. }
  destruct (read_digits s5) as [d t] eqn:Hd. apply read_digits_eq in Hd.
  destruct (bool_decide (d = "")); [done|]. injection H as <- _.
  rewrite !no_control_app, H1, H2, H3. simpl. by rewrite no_control_app, H5, H6, Hd.
Qed.

Lemma escape_ascii_no_control a : between 0 127 a = true -> no_control (escape_ascii a) = true.
Proof. destruct a as [[] [] [] [] [] [] [] []]; intros H; first [discriminate H | reflexivity]. Qed.

Lemma high_no_control a : between 0 127 a = false -> (32 <=? byte_of a) = true.
Proof. intros H. destruct (not_ascii a H) as (_ & E & _). zbool. by apply Z.leb_le. Qed.

Lemma cont_no_control a : cont a = true -> (32 <=? byte_of a) = true.
Proof. unfold cont, between. intros [? _]%andb_true_iff. zbool. apply Z.leb_le. lia. Qed.

Lemma utf8_no_control b :
  (exists a, utf8_2 a b = true) \/ (exists a c, utf8_3 a b c = true) \/ (exists a c d, utf8_4 a b c d = true)
  -> (32 <=? byte_of b) = true.
Proof.
  intros H. apply Z.leb_le. unfold utf8_2, utf8_3, utf8_4, cont, between in H.
  destruct H as [(a & H)|[(a & c & H)|(a & c & d & H)]];
    rewrite ?andb_true_iff, ?orb_true_iff, ?andb_true_iff, ?Z.leb_le in H; lia.
Qed.

Lemma escape_3_no_control a b c :
  between 0 127 a = false -> utf8_3 a b c = true -> no_control (escape_3 a b c) = true.
Proof.
  intros Ha H. unfold escape_3. destruct (separator a b c) eqn:Hs.
  - unfold separator in Hs. apply andb_true_iff in Hs as [_ Hs]. apply orb_true_iff in Hs as [Hs|Hs]; zbool;
      simpl; by rewrite Hs.
  - simpl. rewrite (high_no_control a), (utf8_no_control b), (cont_no_control c); [done| |eauto|done].
    unfold utf8_3 in H. by apply andb_true_iff in H as [_ H].
Qed.

Lemma escape_no_control s : no_control (escape s) = true.
Proof.
  remember (String.length s) as n eqn:Hn. revert s Hn.
  induction (lt_wf n) as [n _ IH]. intros s ->.
  assert (forall t, (String.length t < String.length s)%nat -> no_control (escape t) = true) as Hs by eauto.
  clear IH. destruct s as [|a s1]; [done|]. cbn [escape]. destruct (between 0 127 a) eqn:Ha.
  { rewrite no_control_app, escape_ascii_no_control by done. apply Hs. simpl. lia. }
  destruct s1 as [|b s2]; [done|]. destruct (utf8_2 a b) eqn:H2.
  { simpl. rewrite (high_no_control a Ha), (utf8_no_control b) by eauto. apply Hs. simpl. lia. }
  destruct s2 as [|c s3]; [rewrite no_control_app; apply Hs; simpl; lia|]. destruct (utf8_3 a b c) eqn:H3.
  { rewrite no_control_app, escape_3_no_control by done. apply Hs. simpl. lia. }
  destruct s3 as [|d s4]; [rewrite no_control_app; apply Hs; simpl; lia|]. destruct (utf8_4 a b c d) eqn:H4.
  { simpl. rewrite (high_no_control a Ha), (utf8_no_control b) by eauto 6.
    unfold utf8_4 in H4. apply andb_true_iff in H4 as [H4 Hd]. apply andb_true_iff in H4 as [_ Hc].
    rewrite !cont_no_control by done. apply Hs. simpl. lia. }
  rewrite no_control_app. apply Hs. simpl. lia.
Qed.

Lemma str_join_no_control sep l :
  no_control sep = true -> Forall (fun s => no_control s = true) l -> no_control (str_join sep l) = true.
Proof.
  intros Hsep. induction 1 as [|x l Hx Hl IH]; [done|]. destruct l as [|y l]; [done|].
  rewrite str_join_cons, !no_control_app, Hx, Hsep. exact IH.
Qed.

Lemma print_no_control j : wf_numbers j -> no_control (print j) = true.
Proof.
  assert (forall s, no_control (quote s) = true) as Hq.
  { intros s. unfold quote. by rewrite !no_control_app, escape_no_control. }
  remember (depth j) as n eqn:Hn. revert j Hn.
  induction (lt_wf n) as [n _ IH]. intros j -> Hw.
  destruct j as [|[]|k|s|l|l]; try done.
  - destruct Hw as [Hw _]. specialize (Hw "" eq_refl). rewrite str_app_nil_r in Hw.
    by apply read_number_no_control in Hw.
  - apply Hq.
  - change (print (JArr l)) with ("[" +:+ str_join "," (map print l) +:+ "]").
    rewrite !no_control_app, str_join_no_control; [done..|].
    apply Forall_map. simpl in IH. revert IH Hw. induction l as [|x l IHl]; intros IH Hw; constructor.
    + apply (IH (depth x)); [simpl; lia|done|apply Hw].
    + apply IHl; [|apply Hw]. intros y Hy. apply IH. simpl. lia.
  - rewrite print_obj, !no_control_app, str_join_no_control; [done..|].
    apply Forall_map. simpl in IH. revert IH Hw. induction l as [|[k x] l IHl]; intros IH Hw; constructor.
    + unfold print_member. rewrite !no_control_app, Hq. simpl.
      apply (IH (depth x)); [simpl; lia|done|apply Hw].
    + apply IHl; [|apply Hw]. intros y Hy. apply IH. simpl. lia.
Qed.

(** * Decoding into Go values *)

(** A decoder updates the value at its target; the flag tells whether no type
    mismatch was met.  [encoding/json] goes on after a mismatch and reports it
    in the end. *)
Definition decoder (T : Type) : Type := json -> T -> T * bool.

Definition d_string : decoder string := fun j old =>
  match j with JStr s => (s, true) | JNull => (old, true) | _ => (old, false) end.

Definition d_bool : decoder bool := fun j old =>
  match j with JBool b => (b, true) | JNull => (old, true) | _ => (old, false) end.

(** Signed integers of [bits] bits: [strconv.ParseInt], then the range. *)
Definition d_int (bits : Z) : decoder Z := fun j old =>
  match j with
  | JNum n =>
      match atoi n with
      | Some z => if (- 2^(bits-1) <=? z) && (z <? 2^(bits-1)) then (z, true) else (old, false)
      | None => (old, false)
      end
  | JNull => (old, true)
  | _ => (old, false)
  end.

(** [*T]: null sets nil; otherwise a nil pointer is allocated first. *)
Definition d_ptr {T} (zero : T) (d : decoder T) : decoder (option T) := fun j old =>
  match j with
  | JNull => (None, true)
  | _ => let '(v, ok) := d j (default zero old) in (Some v, ok)
  end.

Fixpoint d_elements {T} (zero : T) (d : decoder T) (l : list json) (old : list T) : list T * bool :=
  match l with
  | [] => ([], true)
  | j :: l' =>
      let '(v, ok) := d j (default zero (head old)) in
      let '(vs, ok') := d_elements zero d l' (tail old) in
      (v :: vs, ok && ok')
  end.

Definition d_slice {T} (zero : T) (d : decoder T) : decoder (list T) := fun j old =>
  match j with
  | JNull => ([], true)
  | JArr l => d_elements zero d l old
  | _ => (old, false)
  end.

(** [json.RawMessage] keeps the value. *)
Definition d_raw : decoder json := fun j _ => (j, true).

(** The folding of names that match without regard to case: ASCII letters, and
    the two other code points whose simple folding is an ASCII letter. *)
Definition upper (a : ascii) : ascii := if between 97 122 a then of_byte (byte_of a - 32) else a.

Fixpoint fold_name (s : string) : string :=
  match s with
  | EmptyString => ""
  | String a s1 =>
      match s1 with
      | String b s2 =>
          if (byte_of a =? 197) && (byte_of b =? 191) then String "S" (fold_name s2) else
          match s2 with
          | String c s3 =>
              if (byte_of a =? 226) && (byte_of b =? 132) && (byte_of c =? 170)
              then String "K" (fold_name s3) else String (upper a) (fold_name s1)
          | EmptyString => String (upper a) (fold_name s1)
          end
      | EmptyString => String (upper a) ""
      end
  end.

Definition fields (T : Type) : Type := list (string * decoder T).

(** A field of a struct: its JSON name, and its place in the struct. *)
Definition field {T U} (name : string) (get : T -> U) (set : U -> T -> T) (d : decoder U)
    : string * decoder T :=
  (name, fun j t => let '(v, ok) := d j (get t) in (set v t, ok)).

Fixpoint find_exact {T} (fs : fields T) (k : string) : option (decoder T) :=
  match fs with
  | [] => None
  | (n, d) :: fs' => if bool_decide (n = k) then Some d else find_exact fs' k
  end.

Fixpoint find_folded {T} (fs : fields T) (k : string) : option (decoder T) :=
  match fs with
  | [] => None
  | (n, d) :: fs' => if bool_decide (fold_name n = k) then Some d else find_folded fs' k
  end.

Definition find_field {T} (fs : fields T) (k : string) : option (decoder T) :=
  match find_exact fs k with
  | Some d => Some d
  | None => find_folded fs (fold_name k)
  end.

(** The members in the order of the text: a repeated name decodes again into
    the same field, an unknown one is skipped. *)
Fixpoint d_members {T} (fs : fields T) (l : list (string * json)) (t : T) : T * bool :=
  match l with
  | [] => (t, true)
  | (k, v) :: l' =>
      match find_field fs k with
      | Some d => let '(t1, ok) := d v t in let '(t2, ok') := d_members fs l' t1 in (t2, ok && ok')
      | None => d_members fs l' t
      end
  end.

Definition d_struct {T} (fs : fields T) : decoder T := fun j old =>
  match j with
  | JObj l => d_members fs l old
  | JNull => (old, true)
  | _ => (old, false)
  end.

Definition SyntaxError : error := Lib "json: syntax error".
Definition UnmarshalTypeError : error := Lib "json: cannot unmarshal into Go value".

(** [json.Unmarshal]: the target after the call, and the error. *)
Definition unmarshal {T} (d : decoder T) (text : string) (old : T) : T * option error :=
  match parse text with
  | None => (old, Some SyntaxError)
  | Some j => let '(v, ok) := d j old in (v, if ok then None else Some UnmarshalTypeError)
  end.

Lemma unmarshal_print {T} (d : decoder T) j old :
  wf_numbers j -> (depth j <= max_depth)%nat ->
  unmarshal d (print j) old =
    let '(v, ok) := d (canon j) old in (v, if ok then None else Some UnmarshalTypeError).
Proof. intros Hw Hd. unfold unmarshal. by rewrite parse_print. Qed.

Lemma d_int_itoa bits z old :
  - 2^(bits-1) <= z < 2^(bits-1) -> d_int bits (JNum (itoa z)) old = (z, true).
Proof.
  intros [H1 H2]. unfold d_int. rewrite atoi_itoa.
  by rewrite (proj2 (Z.leb_le _ _) H1), (proj2 (Z.ltb_lt _ _) H2).
Qed.

#[global] Arguments print : simpl never.
#[global] Arguments parse : simpl never.
#[global] Arguments valid : simpl never.
#[global] Arguments unmarshal : simpl never.
#[global] Arguments d_int : simpl never.
#[global] Arguments itoa : simpl never.
#[global] Arguments atoi : simpl never.

#[export] Hint Resolve wf_number_itoa : onezox.
