(* ===== verification/GoTime.v ===== *)
(** Calendar time: [Time.Format(time.RFC3339)] of instants in UTC.

    An instant is a number of nanoseconds since the Unix epoch; its date is
    computed in the proleptic Gregorian calendar, as package [time] does. *)

From S2P Require Import Prelude Json.
#[local] Open Scope Z_scope.

(** Days since 1970-01-01 to year, month, day: eras of 400 years counted from
    1 March of year 0. *)
Definition civil_of_days (days : Z) : Z * Z * Z :=
  let z := days + 719468 in
  let era := z / 146097 in
  let doe := z mod 146097 in
  let yoe := (doe - doe / 1460 + doe / 36524 - doe / 146096) / 365 in
  let doy := doe - (365 * yoe + yoe / 4 - yoe / 100) in
  let mp := (5 * doy + 2) / 153 in
  let d := doy - (153 * mp + 2) / 5 + 1 in
  let m := if mp <? 10 then mp + 3 else mp - 9 in
  let y := yoe + 400 * era + (if m <=? 2 then 1 else 0) in
  (y, m, d).

(** The inverse, used to check it. *)
Definition days_of_civil (y m d : Z) : Z :=
  let y' := if m <=? 2 then y - 1 else y in
  let era := y' / 400 in
  let yoe := y' mod 400 in
  let doy := (153 * (m + (if 2 <? m then -3 else 9)) + 2) / 5 + d - 1 in
  let doe := yoe * 365 + yoe / 4 - yoe / 100 + doy in
  era * 146097 + doe - 719468.

(** Decimal with leading zeros. *)
Definition pad (width : nat) (z : Z) : string :=
  let s := itoa z in
  String.concat "" (replicate (width - String.length s) "0") +:+ s.

(** "2006-01-02T15:04:05Z07:00" of an instant in UTC. *)
Definition rfc3339 (t : Z) : string :=
  let sec := unix t in
  let '(y, m, d) := civil_of_days (sec / 86400) in
  let s := sec mod 86400 in
  pad 4 y +:+ "-" +:+ pad 2 m +:+ "-" +:+ pad 2 d +:+ "T" +:+
  pad 2 (s / 3600) +:+ ":" +:+ pad 2 ((s / 60) mod 60) +:+ ":" +:+ pad 2 (s mod 60) +:+ "Z".

Example rfc3339_epoch : rfc3339 0 = "1970-01-01T00:00:00Z".
Proof. reflexivity. Qed.

Example rfc3339_leap_day : rfc3339 (1709210096 * second + 5) = "2024-02-29T12:34:56Z".
Proof. reflexivity. Qed.

Example rfc3339_year_end : rfc3339 (1767225599 * second) = "2025-12-31T23:59:59Z".
Proof. reflexivity. Qed.

(** Fractions of a second are dropped. *)
Lemma rfc3339_second t t' : unix t = unix t' -> rfc3339 t = rfc3339 t'.
Proof. unfold rfc3339. by intros ->. Qed.

#[global] Arguments rfc3339 : simpl never.
