(* ===== verification/Breaker.v ===== *)
(** provider-gateway/internal/breaker: the per-provider circuit breaker.

    State: one [record] per Redis key; operations [Check], [ReportResult] and
    [CurrentState] over the interface [StoreE] (the Go [Store] plus the clock).
    [FakeStore] and [FailingStore] are the in-memory stores of fake.go.
    The abstract specification is the automaton [spec_step]; [check_refines],
    [report_refines] and the history theorem show that the stored records
    implement it. *)

From S2P Require Import Prelude Errors Prog.

(** [type State string] and its constants. *)
Definition Closed : string := "closed".
Definition Open : string := "open".
Definition HalfOpen : string := "half_open".
Definition halfOpenTrial : string := "half_open_trial".

Inductive Decision := Allow | AllowTrial | Deny.

#[global] Instance Decision_eq_dec : EqDecision Decision.
Proof. solve_decision. Defined.

(** [Decision.String]. *)
Definition Decision_String (d : Decision) : string :=
  match d with
  | Allow => "allow"
  | AllowTrial => "allow_trial"
  | Deny => "deny"
  end.

Record Config := { FailureThreshold : Z; OpenDuration : Z }.

Record record := mkRecord { rState : string; Failures : Z; OpenedAt : Z }.

#[global] Instance record_eq_dec : EqDecision record.
Proof. solve_decision. Defined.

(** The [Store] interface, and [time.Now]. *)
Inductive StoreE : interface :=
| Get (key : string) : StoreE (res (option record))
| Put (key : string) (r : record) : StoreE (res unit)
| Now : StoreE Z.

(** [record.effectiveState]; a nil record is a closed breaker. *)
Definition effectiveState (r : option record) (now openDuration : Z) : string :=
  match r with
  | None => Closed
  | Some r =>
      if bool_decide (rState r = Open)
         && (milliseconds openDuration <=? wrap64 (unix_milli now - OpenedAt r))
      then HalfOpen
      else rState r
  end.

Definition key (provider : string) : string := "provider:" +:+ provider +:+ ":breaker".

Definition Check (provider : string) (cfg : Config) : prog StoreE (Decision * option error) :=
  let k := key provider in
  r <- call (Get k) ;;
  match r with
  | Err e => Ret (Allow, Some e)
  | Ok r =>
      now <- call Now ;;
      let st := effectiveState r now (OpenDuration cfg) in
      if bool_decide (st = Closed) then Ret (Allow, None)
      else if bool_decide (st = HalfOpen) then
        (* only a non-nil record is ever half-open *)
        let f := from_option Failures 0 r in
        let o := from_option OpenedAt 0 r in
        w <- call (Put k (mkRecord halfOpenTrial f o)) ;;
        match w with
        | Err e => Ret (Allow, Some e)
        | Ok _ => Ret (AllowTrial, None)
        end
      else Ret (Deny, None)
  end.

Definition ReportResult (provider : string) (cfg : Config) (success : bool) : prog StoreE (res unit) :=
  let k := key provider in
  r <-? call (Get k) ;;
  if success then call (Put k (mkRecord Closed 0 0))
  else if bool_decide (from_option rState "" r = halfOpenTrial) then
    now <- call Now ;;
    call (Put k (mkRecord Open (FailureThreshold cfg) (unix_milli now)))
  else
    let failures := from_option (fun r => wrap64 (Failures r + 1)) 1 r in
    if FailureThreshold cfg <=? failures then
      now <- call Now ;;
      call (Put k (mkRecord Open failures (unix_milli now)))
    else call (Put k (mkRecord Closed failures 0)).

Definition CurrentState (provider : string) (cfg : Config) : prog StoreE (string * option error) :=
  r <- call (Get (key provider)) ;;
  match r with
  | Err e => Ret (Closed, Some e)
  | Ok r =>
      now <- call Now ;;
      Ret (effectiveState r now (OpenDuration cfg), None)
  end.

(** * The in-memory stores (fake.go) *)

(** The store under its mutex, and the clock the operations read. *)
Record FakeStore := mkFake { records : gmap string record; clock : Z }.

Definition NewFakeStore (t : Z) : FakeStore := mkFake ∅ t.

Definition fake_store : handler StoreE FakeStore := fun X e s =>
  match e in StoreE X return X * FakeStore with
  | Get k => (Ok (records s !! k), s)
  | Put k r => (Ok tt, mkFake (<[k := r]> (records s)) (clock s))
  | Now => (clock s, s)
  end.

Definition failing_store : handler StoreE Z := fun X e t =>
  match e in StoreE X return X * Z with
  | Get _ => (Err (Lib "simulated outage"), t)
  | Put _ _ => (Err (Lib "simulated outage"), t)
  | Now => (t, t)
  end.

(** * Histories of one provider's breaker *)

Inductive op := Tick (t : Z) | DoCheck | DoReport (success : bool).

Definition do_op (provider : string) (cfg : Config) (o : op) (s : FakeStore)
    : option Decision * FakeStore :=
  match o with
  | Tick t => (None, mkFake (records s) t)
  | DoCheck => let '((d, _), s') := run fake_store (Check provider cfg) s in (Some d, s')
  | DoReport b => (None, (run fake_store (ReportResult provider cfg b) s).2)
  end.

(** The decisions of a history, in order. *)
Fixpoint history (provider : string) (cfg : Config) (os : list op) (s : FakeStore)
    : list Decision * FakeStore :=
  match os with
  | [] => ([], s)
  | o :: os' =>
      let '(d, s1) := do_op provider cfg o s in
      let '(ds, s2) := history provider cfg os' s1 in
      (option_list d ++ ds, s2)
  end.

(** * The abstract breaker *)

(** What a breaker promises: count consecutive failures; at the threshold stay
    open for [OpenDuration]; then hand out one trial and deny everything until
    that trial's result is in. *)
Inductive breaker :=
| BClosed (failures : Z)
| BOpen (since : Z)
| BTrial.

Definition spec_check (cfg : Config) (now : Z) (b : breaker) : Decision * breaker :=
  match b with
  | BClosed n => (Allow, b)
  | BOpen t =>
      if milliseconds (OpenDuration cfg) <=? unix_milli now - t then (AllowTrial, BTrial)
      else (Deny, b)
  | BTrial => (Deny, BTrial)
  end.

Definition spec_report (cfg : Config) (now : Z) (success : bool) (b : breaker) : breaker :=
  if success then BClosed 0
  else match b with
  | BClosed n => if FailureThreshold cfg <=? n + 1 then BOpen (unix_milli now) else BClosed (n + 1)
  | BOpen _ | BTrial => BOpen (unix_milli now)
  end.

Definition spec_step (cfg : Config) (o : op) (b : breaker) (now : Z)
    : option Decision * breaker * Z :=
  match o with
  | Tick t => (None, b, t)
  | DoCheck => let '(d, b') := spec_check cfg now b in (Some d, b', now)
  | DoReport ok => (None, spec_report cfg now ok b, now)
  end.

Fixpoint spec_history (cfg : Config) (os : list op) (b : breaker) (now : Z) : list Decision :=
  match os with
  | [] => []
  | o :: os' =>
      let '(d, b', now') := spec_step cfg o b now in
      option_list d ++ spec_history cfg os' b' now'
  end.

(** * Refinement *)

(** Instants that the clock can show: nanoseconds since the epoch in 63 bits. *)
Definition valid_time (t : Z) : Prop := 0 <= t < 2^63.

(** [rep cfg m r b]: the stored record [r] stands for the abstract breaker [b],
    and [m] more failures do not overflow the counter. *)
Definition rep (cfg : Config) (m : Z) (r : option record) (b : breaker) : Prop :=
  match b, r with
  | BClosed n, None => n = 0
  | BClosed n, Some r => rState r = Closed /\ Failures r = n /\ 0 <= n < FailureThreshold cfg
  | BOpen t, Some r =>
      rState r = Open /\ OpenedAt r = t /\ 0 <= t < 2^63
      /\ FailureThreshold cfg <= Failures r /\ Failures r + m < 2^63
  | BTrial, Some r => rState r = halfOpenTrial
  | _, _ => False
  end.

Definition cfg_ok (cfg : Config) (m : Z) : Prop :=
  1 <= FailureThreshold cfg /\ FailureThreshold cfg + m < 2^63.

Lemma unix_milli_range t : valid_time t -> 0 <= unix_milli t < 2^63.
Proof.
  unfold valid_time, unix_milli, millisecond. intros [H0 H1]. split.
  - apply Z.div_pos; lia.
  - apply Z.div_lt_upper_bound; lia.
Qed.

Lemma rep_weaken cfg m m' r b : m' <= m -> rep cfg m r b -> rep cfg m' r b.
Proof. destruct b, r; simpl; intuition lia. Qed.

#[export] Hint Resolve unix_milli_range : onezox.

Lemma effective_open cfg m r t now :
  valid_time now -> rep cfg m (Some r) (BOpen t) ->
  effectiveState (Some r) now (OpenDuration cfg) =
    if milliseconds (OpenDuration cfg) <=? unix_milli now - t then HalfOpen else Open.
Proof.
  intros Hn (Hs & <- & Ht & _). unfold effectiveState.
  rewrite Hs, bool_decide_true by done. simpl.
  rewrite wrap64_id; [done|]. pose proof (unix_milli_range _ Hn). unfold in64. lia.
Qed.

Lemma check_refines provider cfg m b s :
  valid_time (clock s) ->
  rep cfg m (records s !! key provider) b ->
  exists s',
    run fake_store (Check provider cfg) s = (((spec_check cfg (clock s) b).1, None), s')
    /\ clock s' = clock s
    /\ rep cfg m (records s' !! key provider) (spec_check cfg (clock s) b).2.
Proof.
  intros Hn Hr. destruct s as [rs t]. simpl in *.
  destruct (rs !! key provider) as [r|] eqn:Hk; destruct b as [n|o|]; try done.
  - destruct Hr as (Hs & Hf & Hb). unfold effectiveState. rewrite Hs. simpl.
    eexists; split; [done|]. simpl. rewrite Hk. simpl. intuition auto.
  - rewrite (effective_open _ _ _ _ _ Hn Hr). destruct Hr as (Hs & Ho & Ht & Hf & Hm). simpl.
    destruct (milliseconds (OpenDuration cfg) <=? unix_milli t - o); simpl.
    + eexists; split; [done|]. simpl. rewrite lookup_insert_eq. simpl. intuition auto.
    + eexists; split; [done|]. simpl. rewrite Hk. simpl. intuition auto.
  - unfold effectiveState. simpl in Hr. rewrite Hr. simpl.
    eexists; split; [done|]. simpl. rewrite Hk. simpl. intuition auto.
  - simpl. eexists; split; [done|]. simpl. rewrite Hk. simpl. intuition auto.
Qed.

Lemma report_refines provider cfg m ok b s :
  0 < m -> cfg_ok cfg m -> valid_time (clock s) ->
  rep cfg m (records s !! key provider) b ->
  exists s',
    run fake_store (ReportResult provider cfg ok) s = (Ok tt, s')
    /\ clock s' = clock s
    /\ rep cfg (m - 1) (records s' !! key provider) (spec_report cfg (clock s) ok b).
Proof.
  intros Hm [Hc1 Hc2] Hn Hr. destruct s as [rs t]. simpl in *.
  pose proof (unix_milli_range _ Hn) as Hu.
  destruct ok; simpl.
  { eexists; split; [done|]. simpl. rewrite lookup_insert_eq. simpl. intuition lia. }
  destruct (rs !! key provider) as [r|] eqn:Hk; destruct b as [n|o|]; simpl in *; try done.
  - destruct Hr as (Hs & <- & Hb). rewrite Hs. simpl.
    rewrite wrap64_id by (unfold in64; lia).
    destruct (_ <=? _) eqn:Hle; zbool; simpl; (eexists; split; [done|]); simpl;
      rewrite lookup_insert_eq; simpl; intuition lia.
  - destruct Hr as (Hs & <- & Ht & Hf & Hb). rewrite Hs. simpl.
    rewrite wrap64_id by (unfold in64; lia).
    rewrite (proj2 (Z.leb_le _ _)) by lia. simpl.
    eexists; split; [done|]. simpl. rewrite lookup_insert_eq. simpl. intuition lia.
  - rewrite Hr. simpl. eexists; split; [done|]. simpl.
    rewrite lookup_insert_eq. simpl. intuition lia.
  - subst n. change (0 + 1) with 1.
    destruct (FailureThreshold cfg <=? 1) eqn:Hle; zbool; simpl; (eexists; split; [done|]); simpl;
      rewrite lookup_insert_eq; simpl; intuition lia.
Qed.

(** Every tick of a history shows a valid instant. *)
Definition ticks_ok (os : list op) : Prop :=
  Forall (fun o => match o with Tick t => valid_time t | _ => True end) os.

Lemma history_cons provider cfg o os s :
  (history provider cfg (o :: os) s).1 =
    option_list (do_op provider cfg o s).1 ++ (history provider cfg os (do_op provider cfg o s).2).1.
Proof.
  simpl. destruct (do_op provider cfg o s) as [d s1]. simpl.
  by destruct (history provider cfg os s1).
Qed.

Lemma history_refines_aux provider cfg os : forall b s m,
  Z.of_nat (length os) <= m -> cfg_ok cfg m -> ticks_ok os -> valid_time (clock s) ->
  rep cfg m (records s !! key provider) b ->
  (history provider cfg os s).1 = spec_history cfg os b (clock s).
Proof.
  induction os as [|o os IH]; intros b s m Hl Hc Ht Hn Hr; [done|].
  simpl length in Hl. inversion Ht as [|? ? Ho Ht']; subst.
  assert (cfg_ok cfg (m - 1)) as Hc' by (unfold cfg_ok in *; lia).
  rewrite history_cons. simpl spec_history. destruct o as [t| |ok]; unfold do_op, spec_step.
  - apply (IH b (mkFake (records s) t) (m - 1)); try done; [lia|].
    simpl. eapply rep_weaken; [|done]; lia.
  - destruct (check_refines provider cfg m b s Hn Hr) as (s1 & He & Hck & Hr1).
    rewrite He. destruct (spec_check cfg (clock s) b) as [d b'] eqn:Hsp. simpl in *.
    f_equal. rewrite <- Hck.
    apply (IH b' s1 (m - 1)); try done; [lia|by rewrite Hck|].
    eapply rep_weaken; [|done]; lia.
  - destruct (report_refines provider cfg m ok b s) as (s1 & He & Hck & Hr1); [lia|done..|].
    rewrite He, <- Hck. simpl.
    apply (IH _ s1 (m - 1)); try done; [lia|by rewrite Hck|by rewrite Hck].
Qed.

(** A fresh breaker, driven through any history of checks, reported results
    and passing time shorter than the counter's range, takes exactly the
    decisions of the abstract breaker: closed while fewer than
    [FailureThreshold] failures came in a row, denied while open, one trial once
    [OpenDuration] elapsed, and nothing else until that trial is reported. *)
Theorem breaker_history_refines_spec provider cfg os t0 :
  cfg_ok cfg (Z.of_nat (length os)) -> ticks_ok os -> valid_time t0 ->
  (history provider cfg os (NewFakeStore t0)).1 = spec_history cfg os (BClosed 0) t0.
Proof.
  intros Hc Ht Hn. apply (history_refines_aux provider cfg os (BClosed 0) (NewFakeStore t0) (Z.of_nat (length os)));
    done.
Qed.

Definition test_cfg : Config := {| FailureThreshold := 3; OpenDuration := 50 * millisecond |}.

Definition trip_and_recover : list op :=
  [DoReport false; DoReport false; DoCheck; DoReport false; DoCheck;
   Tick (60 * millisecond); DoCheck; DoCheck; DoReport false; DoCheck;
   Tick (120 * millisecond); DoCheck; DoReport true; DoCheck].

Lemma breaker_history_refines_spec_witness :
  (history "fake" test_cfg trip_and_recover (NewFakeStore 0)).1
    = spec_history test_cfg trip_and_recover (BClosed 0) 0
  /\ (history "fake" test_cfg trip_and_recover (NewFakeStore 0)).1
    = [Allow; Deny; AllowTrial; Deny; Deny; AllowTrial; Allow].
Proof.
  split; [|reflexivity].
  apply breaker_history_refines_spec.
  - unfold cfg_ok; simpl; lia.
  - repeat constructor; vm_compute; congruence.
  - unfold valid_time; lia.
Defined.

(** * Any store *)

Section AnyStore.
Context {S : Type} (h : handler StoreE S) (provider : string) (cfg : Config).

(** A store whose read fails: the call is let through, the error is handed
    up, and nothing is written. *)
Lemma check_read_error s e s' :
  h _ (Get (key provider)) s = (Err e, s') ->
  run h (Check provider cfg) s = ((Allow, Some e), s').
Proof. intros H. simpl. by rewrite H. Qed.

(** Whatever the store answers, an error never denies. *)
Lemma check_error_allows s d e s' :
  run h (Check provider cfg) s = ((d, Some e), s') -> d = Allow.
Proof.
  simpl. destruct (h _ (Get _) s) as [[r|e0] s1]; simpl; [|by intros; simplify_eq].
  destruct (h _ Now s1) as [now s2]. case_bool_decide; simpl; [done|].
  case_bool_decide; simpl; [|done].
  destruct (h _ (Put _ _) s2) as [[u|e0] s3]; simpl; by intros; simplify_eq.
Qed.
End AnyStore.

(** Fail open: with any store implementation, whenever [Check] returns an
    error its decision is [Allow], and a failing read makes it return that very
    error without writing anything. *)
Theorem check_fails_open {S} (h : handler StoreE S) provider cfg s :
  (forall d e s', run h (Check provider cfg) s = ((d, Some e), s') -> d = Allow)
  /\ (forall e s', h _ (Get (key provider)) s = (Err e, s') ->
        run h (Check provider cfg) s = ((Allow, Some e), s')).
Proof. split; [apply check_error_allows | intros; by apply check_read_error]. Qed.

Lemma check_fails_open_witness :
  run failing_store (Check "fake" test_cfg) 0 = ((Allow, Some (Lib "simulated outage")), 0).
Proof. apply (proj2 (check_fails_open failing_store "fake" test_cfg 0)). reflexivity. Defined.

(** * Trials *)

Lemma key_inj p q : key p = key q -> p = q.
Proof. unfold key. intros H%(inj (String.app "provider:")). by apply str_app_inj_r in H. Qed.

(** Operations on one provider leave every other provider's record alone. *)
Lemma do_op_other p q cfg o s :
  p <> q -> records (do_op p cfg o s).2 !! key q = records s !! key q.
Proof.
  intros Hne. assert (key p <> key q) as Hk by (intros E; apply Hne; by apply key_inj).
  destruct s as [rs t], o as [t'| |[]]; simpl; try done.
  - repeat (case_bool_decide; simpl); try done; by rewrite lookup_insert_ne.
  - by rewrite lookup_insert_ne.
  - case_bool_decide; simpl; [by rewrite lookup_insert_ne|].
    case_match; simpl; by rewrite lookup_insert_ne.
Qed.

(** A call decides from the provider's own record and the clock only. *)
Definition same_view (k : string) (s s' : FakeStore) : Prop :=
  records s !! k = records s' !! k /\ clock s = clock s'.

Lemma do_op_local p cfg o s s' :
  same_view (key p) s s' ->
  (do_op p cfg o s).1 = (do_op p cfg o s').1
  /\ same_view (key p) (do_op p cfg o s).2 (do_op p cfg o s').2.
Proof.
  destruct s as [rs t], s' as [rs' t']. intros [Hr Ht]. simpl in Hr, Ht. subst t'.
  destruct o as [t'| |[]]; unfold same_view; simpl; rewrite <- ?Hr.
  - done.
  - repeat (case_bool_decide; simpl); rewrite ?lookup_insert_eq; done.
  - rewrite !lookup_insert_eq. done.
  - case_bool_decide; simpl; [by rewrite !lookup_insert_eq|].
    case_match; simpl; by rewrite !lookup_insert_eq.
Qed.

(** Operations of several providers against the one shared store. *)
Fixpoint history2 (cfg : Config) (os : list (string * op)) (s : FakeStore)
    : list (string * Decision) :=
  match os with
  | [] => []
  | (p, o) :: os' =>
      option_list (pair p <$> (do_op p cfg o s).1) ++ history2 cfg os' (do_op p cfg o s).2
  end.

(** What provider [p] sees of them: its own operations, and time passing. *)
Definition own_ops (p : string) (os : list (string * op)) : list op :=
  omap (fun '(q, o) => match o with
                       | Tick t => Some (Tick t)
                       | _ => if bool_decide (q = p) then Some o else None
                       end) os.

Lemma own_ops_cons p q o os :
  own_ops p ((q, o) :: os) =
    match o with
    | Tick t => [Tick t]
    | _ => if bool_decide (q = p) then [o] else []
    end ++ own_ops p os.
Proof. unfold own_ops. destruct o; simpl; try case_bool_decide; done. Qed.

Definition decisions_of (p : string) (ds : list (string * Decision)) : list Decision :=
  omap (fun '(q, d) => if bool_decide (q = p) then Some d else None) ds.

Lemma decisions_of_app p l l' :
  decisions_of p (l ++ l') = decisions_of p l ++ decisions_of p l'.
Proof. apply omap_app. Qed.

Lemma do_op_other_view p q cfg o s :
  p <> q -> (forall t, o <> Tick t) -> same_view (key q) (do_op p cfg o s).2 s.
Proof.
  intros Hne Ht. split; [by apply do_op_other|].
  destruct s as [rs t], o as [t'| |[]]; simpl; try done; [by destruct (Ht t')|..].
  - by repeat (case_bool_decide; simpl).
  - by repeat (case_bool_decide || case_match; simpl).
Qed.

Lemma history2_own cfg p os : forall s s',
  same_view (key p) s s' ->
  decisions_of p (history2 cfg os s) = (history p cfg (own_ops p os) s').1.
Proof.
  induction os as [|[q o] os IH]; intros s s' Hv; [done|].
  simpl history2. rewrite decisions_of_app, own_ops_cons.
  destruct (decide (q = p)) as [->|Hne].
  - assert (match o with
            | Tick t => [Tick t]
            | _ => if bool_decide (p = p) then [o] else []
            end = [o]) as -> by (destruct o; by rewrite ?bool_decide_true).
    cbn [app]. rewrite history_cons.
    destruct (do_op_local p cfg o s s' Hv) as [<- Hv']. rewrite (IH _ _ Hv').
    f_equal. destruct (do_op p cfg o s).1; simpl; [|done]. by rewrite bool_decide_true.
  - assert (decisions_of p (option_list (pair q <$> (do_op q cfg o s).1)) = []) as ->.
    { destruct (do_op q cfg o s).1; simpl; [|done]. by rewrite bool_decide_false. }
    rewrite bool_decide_false by done.
    destruct o as [t| |ok]; cbn [app].
    + rewrite history_cons. apply IH. destruct Hv as [Hr _]. by split.
    + apply IH. destruct Hv, (do_op_other_view q p cfg DoCheck s Hne ltac:(done)).
      split; congruence.
    + apply IH. destruct Hv, (do_op_other_view q p cfg (DoReport ok) s Hne ltac:(done)).
      split; congruence.
Qed.

(** Breakers of different providers are independent: in any mixed history
    over the one shared store, a provider's decisions are those of its own
    operations (and of time passing) run alone. *)
Theorem breakers_independent cfg p os s :
  decisions_of p (history2 cfg os s) = (history p cfg (own_ops p os) s).1.
Proof. by apply history2_own. Qed.

(** * The trial *)

Definition quiet (o : op) : bool := match o with DoReport _ => false | _ => true end.

Lemma trial_denies p cfg os : forall s r,
  records s !! key p = Some r -> rState r = halfOpenTrial -> forallb quiet os = true ->
  Forall (eq Deny) (history p cfg os s).1
  /\ records (history p cfg os s).2 !! key p = Some r.
Proof.
  induction os as [|o os IH]; intros [rs t] r Hk Hr Hq; [done|].
  simpl in Hq. apply andb_true_iff in Hq as [Ho Hq].
  assert ((history p cfg (o :: os) (mkFake rs t)).2
          = (history p cfg os (do_op p cfg o (mkFake rs t)).2).2) as ->.
  { simpl. destruct (do_op _ _ _ _) as [d s1]. simpl. by destruct (history p cfg os s1). }
  rewrite history_cons. simpl in Hk. destruct o as [t'| |]; [| |done].
  - simpl. by apply (IH (mkFake rs t')).
  - assert (do_op p cfg DoCheck (mkFake rs t) = (Some Deny, mkFake rs t)) as ->.
    { simpl. rewrite Hk. unfold effectiveState. by rewrite Hr. }
    simpl. destruct (IH (mkFake rs t) r Hk Hr Hq). split; [by constructor|done].
Qed.

Lemma check_trial_claims p cfg s s' :
  run fake_store (Check p cfg) s = ((AllowTrial, None), s') ->
  exists r, records s' !! key p = Some r /\ rState r = halfOpenTrial.
Proof.
  destruct s as [rs t]. simpl.
  repeat (case_bool_decide; simpl); intros; simplify_eq/=.
  rewrite lookup_insert_eq. by eexists.
Qed.

(** C39. One probe at a time: once a [Check] has claimed the half-open trial,
    every later check is denied, however much time passes, until a result is
    reported; a trial whose result is never reported keeps the breaker denying
    for ever. *)
Theorem trial_is_exclusive p cfg s s' os :
  run fake_store (Check p cfg) s = ((AllowTrial, None), s') ->
  forallb quiet os = true ->
  Forall (eq Deny) (history p cfg os s').1.
Proof.
  intros Hc Hq. destruct (check_trial_claims _ _ _ _ Hc) as (r & Hk & Hr).
  by apply (trial_denies p cfg os s' r).
Qed.

Definition open_store : FakeStore :=
  mkFake {[ key "fake" := mkRecord Open 3 0 ]} (60 * millisecond).

Lemma trial_is_exclusive_witness :
  Forall (eq Deny)
    (history "fake" test_cfg [DoCheck; Tick (10^17); DoCheck]
       (run fake_store (Check "fake" test_cfg) open_store).2).1.
Proof. apply (trial_is_exclusive "fake" test_cfg open_store); reflexivity. Defined.

(** * Interleaved checks *)

(** Each [Get] and [Put] is one Redis command, so two [Check] calls of two
    replicas interleave between them. *)
Definition two_checks : pool :=
  ([Check "fake" test_cfg; Check "fake" test_cfg], open_store).

Lemma two_checks_race :
  (sched fake_store (fun (_ : unit) s => s)
     [Run 0; Run 0; Run 1; Run 1; Run 0; Run 1]%nat two_checks).1
  = [Ret (AllowTrial, None); Ret (AllowTrial, None)].
Proof. reflexivity. Qed.
