(* ===== verification/BreakerRedis.v ===== *)
(** provider-gateway/internal/breaker/redis.go: the breaker store kept as JSON
    documents in the shared Redis.

    [redis_store] is the [RedisStore] over the two Redis commands it issues; the
    theorem is that it implements the [Store] interface: any program over the
    interface that writes representable records behaves over Redis exactly as
    over the in-memory store. *)

From S2P Require Import Prelude Errors Prog Json Breaker.
#[local] Open Scope Z_scope.

Inductive RedisE : interface :=
| GetBytes (key : string) : RedisE (res string)
| SetBytes (key data : string) : RedisE (res unit)
| RedisNow : RedisE Z.

(** [marshal]: the struct tags of [record] name the members. *)
Definition record_json (r : record) : json :=
  JObj [("state", JStr (rState r)); ("failures", JNum (itoa (Failures r)));
        ("opened_at", JNum (itoa (OpenedAt r)))].

Definition marshal (r : record) : string := print (record_json r).

Definition record_fields : fields record :=
  [field "state" rState (fun v r => mkRecord v (Failures r) (OpenedAt r)) d_string;
   field "failures" Failures (fun v r => mkRecord (rState r) v (OpenedAt r)) (d_int 64);
   field "opened_at" OpenedAt (fun v r => mkRecord (rState r) (Failures r) v) (d_int 64)].

Definition unmarshal_record (data : string) : res record :=
  match unmarshal (d_struct record_fields) data (mkRecord "" 0 0) with
  | (r, None) => Ok r
  | (_, Some e) => Err e
  end.

Definition RedisStore_Get (key : string) : prog RedisE (res (option record)) :=
  r <- call (GetBytes key) ;;
  match r with
  | Err e => if errors_is e "redis.Nil" then Ret (Ok None) else Ret (Err e)
  | Ok data => Ret (res_bind (unmarshal_record data) (fun r => Ok (Some r)))
  end.

Definition RedisStore_Set (key : string) (r : record) : prog RedisE (res unit) :=
  call (SetBytes key (marshal r)).

Definition redis_store : forall X, StoreE X -> prog RedisE X := fun X e =>
  match e in StoreE X return prog RedisE X with
  | Get k => RedisStore_Get k
  | Put k r => RedisStore_Set k r
  | Now => call RedisNow
  end.

(** The Redis server: a missing key answers [redis.Nil]. *)
Record Redis := mkRedis { bytes : gmap string string; redis_clock : Z }.

Definition redis : handler RedisE Redis := fun X e s =>
  match e in RedisE X return X * Redis with
  | GetBytes k =>
      (match bytes s !! k with Some d => Ok d | None => Err (Sentinel "redis.Nil") end, s)
  | SetBytes k d => (Ok tt, mkRedis (<[k := d]> (bytes s)) (redis_clock s))
  | RedisNow => (redis_clock s, s)
  end.

(** * The round trip *)

(** Records a Go process can hold: 64-bit numbers, UTF-8 state names. *)
Definition storable (r : record) : Prop :=
  in64 (Failures r) /\ in64 (OpenedAt r) /\ utf8 (rState r) = true.

Lemma unmarshal_marshal r : storable r -> unmarshal_record (marshal r) = Ok r.
Proof.
  intros (Hf & Ho & Hs). unfold unmarshal_record, marshal.
  rewrite unmarshal_print; [|simpl; auto using wf_number_itoa | apply le_max_depth; simpl; lia].
  cbn [canon record_json map fst snd]. rewrite (to_valid_utf8 _ Hs).
  simpl. unfold field. simpl. unfold in64 in *.
  rewrite !d_int_itoa by (simpl; lia). by destruct r.
Qed.

(** * The refinement *)

(** The bytes in Redis are the marshalled records. *)
Definition redis_rep (f : FakeStore) (s : Redis) : Prop :=
  redis_clock s = clock f /\ valid_time (clock f)
  /\ (forall k, bytes s !! k = marshal <$> records f !! k)
  /\ (forall k r, records f !! k = Some r -> storable r).

Definition storable_call : forall X, StoreE X -> Prop := fun X e =>
  match e with Put _ r => storable r | _ => True end.

Definition storable_answer : forall X, StoreE X -> X -> Prop := fun X e =>
  match e in StoreE X return X -> Prop with
  | Get _ => fun a => match a with Ok (Some r) => storable r | _ => True end
  | Put _ _ => fun _ => True
  | Now => valid_time
  end.

Lemma redis_step X (e : StoreE X) f s :
  storable_call X e -> redis_rep f s ->
  (fake_store X e f).1 = (run redis (redis_store X e) s).1
  /\ storable_answer X e (fake_store X e f).1
  /\ redis_rep (fake_store X e f).2 (run redis (redis_store X e) s).2.
Proof.
  intros Hc (Ht & Hv & Hb & Hs). destruct e as [k|k r|]; simpl.
  - rewrite Hb. destruct (records f !! k) as [r|] eqn:Hk; simpl; [|done].
    rewrite (unmarshal_marshal r) by eauto. simpl. split; [done|]. split; [by eapply Hs|done].
  - split; [done|]. split; [done|]. split; [done|]. split; [done|]. simpl. split.
    + intros k'. destruct (decide (k = k')) as [<-|Hne].
      * by rewrite !lookup_insert_eq.
      * rewrite !lookup_insert_ne by done. apply Hb.
    + intros k' r'. destruct (decide (k = k')) as [<-|Hne].
      * rewrite lookup_insert_eq. by intros [= <-].
      * rewrite lookup_insert_ne by done. apply Hs.
  - done.
Qed.

Lemma in64_small z : -1000000 <= z <= 1000000 -> in64 z.
Proof. unfold in64. lia. Qed.

Lemma unix_milli_in64 t : valid_time t -> in64 (unix_milli t).
Proof. intros H%unix_milli_range. unfold in64. lia. Qed.

#[local] Hint Resolve in64_small unix_milli_in64 wrap64_in64 : onezox.

Lemma storable_mk st f o : in64 f -> in64 o -> utf8 st = true -> storable (mkRecord st f o).
Proof. done. Qed.

Lemma report_calls provider cfg ok :
  in64 (FailureThreshold cfg) ->
  calls storable_answer storable_call (ReportResult provider cfg ok).
Proof.
  intros Hc. unfold ReportResult. simpl. split; [done|]. intros [r|e] Hr; simpl; [|done].
  destruct ok; simpl; [split; [|done]; apply storable_mk; auto; apply in64_small; lia|].
  case_bool_decide; simpl.
  { split; [done|]. intros t Ht. split; [|done].
    apply storable_mk; auto with onezox. }
  set (n := from_option _ 1 r).
  assert (in64 n) as Hn.
  { subst n. destruct r; simpl; [apply wrap64_in64 | apply in64_small; lia]. }
  destruct (_ <=? _); simpl.
  - split; [done|]. intros t Ht. split; [|done]. apply storable_mk; auto with onezox.
  - split; [|done]. apply storable_mk; auto. apply in64_small; lia.
Qed.

Lemma check_calls provider cfg : calls storable_answer storable_call (Check provider cfg).
Proof.
  unfold Check. simpl. split; [done|]. intros [r|e] Hr; simpl; [|done].
  split; [done|]. intros t Ht. case_bool_decide; simpl; [done|].
  case_bool_decide; simpl; [|done]. split; [|by intros []].
  destruct r as [r|]; simpl in *.
  - destruct Hr as (? & ? & ?). by apply storable_mk.
  - apply storable_mk; auto; apply in64_small; lia.
Qed.

Lemma redis_run {A} (p : prog StoreE A) f s :
  calls storable_answer storable_call p -> redis_rep f s ->
  (run fake_store p f).1 = (run redis (link redis_store p) s).1
  /\ redis_rep (run fake_store p f).2 (run redis (link redis_store p) s).2.
Proof.
  intros Hp Hr. rewrite run_link.
  eapply run_sim; [|exact Hp|exact Hr].
  intros X e s1 s2 He Hs. by apply redis_step.
Qed.

(** A history of one provider's breaker over Redis. *)
Definition redis_do_op (provider : string) (cfg : Config) (o : op) (s : Redis)
    : option Decision * Redis :=
  match o with
  | Tick t => (None, mkRedis (bytes s) t)
  | DoCheck => let '((d, _), s') := run redis (link redis_store (Check provider cfg)) s in (Some d, s')
  | DoReport b => (None, (run redis (link redis_store (ReportResult provider cfg b)) s).2)
  end.

Fixpoint redis_history (provider : string) (cfg : Config) (os : list op) (s : Redis) : list Decision :=
  match os with
  | [] => []
  | o :: os' =>
      let '(d, s1) := redis_do_op provider cfg o s in
      option_list d ++ redis_history provider cfg os' s1
  end.

Lemma redis_op provider cfg o f s :
  in64 (FailureThreshold cfg) -> ticks_ok [o] -> redis_rep f s ->
  (do_op provider cfg o f).1 = (redis_do_op provider cfg o s).1
  /\ redis_rep (do_op provider cfg o f).2 (redis_do_op provider cfg o s).2.
Proof.
  intros Hc Ht Hr. destruct o as [t| |ok]; unfold do_op, redis_do_op.
  - inversion Ht. destruct Hr as (? & ? & ?). done.
  - destruct (redis_run (Check provider cfg) f s (check_calls _ _) Hr) as [H1 H2].
    destruct (run fake_store _ f) as [[d e] f'], (run redis _ s) as [[d' e'] s'].
    simpl in *. by simplify_eq.
  - destruct (redis_run (ReportResult provider cfg ok) f s (report_calls _ _ _ Hc) Hr) as [_ H2].
    done.
Qed.

Lemma redis_history_fake provider cfg os : forall f s,
  in64 (FailureThreshold cfg) -> ticks_ok os -> redis_rep f s ->
  redis_history provider cfg os s = (history provider cfg os f).1.
Proof.
  induction os as [|o os IH]; intros f s Hc Ht Hr; [done|].
  apply Forall_cons in Ht as [Ho Ht]. rewrite history_cons. simpl redis_history.
  destruct (redis_op provider cfg o f s Hc) as [H1 H2]; [by repeat constructor|done|].
  destruct (redis_do_op provider cfg o s) as [d s1]. simpl in *. rewrite <- H1.
  f_equal. by apply IH.
Qed.

Lemma redis_rep_empty t : valid_time t -> redis_rep (NewFakeStore t) (mkRedis ∅ t).
Proof. intros Ht. split; [done|]. split; [done|]. split; intros k; simpl; by rewrite ?lookup_empty. Qed.

(** C38. The fleet-wide breaker: with every record serialised to JSON, stored in
    Redis and parsed back on the next call, a breaker takes through any history
    exactly the decisions of the abstract breaker. *)
Theorem redis_breaker_refines_spec provider cfg os t0 :
  cfg_ok cfg (Z.of_nat (length os)) -> ticks_ok os -> valid_time t0 ->
  redis_history provider cfg os (mkRedis ∅ t0) = spec_history cfg os (BClosed 0) t0.
Proof.
  intros Hc Ht Hn.
  rewrite (redis_history_fake provider cfg os (NewFakeStore t0)); [|destruct Hc; unfold in64; lia|done|by apply redis_rep_empty].
  by apply (history_refines_aux provider cfg os (BClosed 0) (NewFakeStore t0) (Z.of_nat (length os))).
Qed.

Lemma redis_breaker_refines_spec_witness :
  redis_history "fake" test_cfg trip_and_recover (mkRedis ∅ 0)
    = spec_history test_cfg trip_and_recover (BClosed 0) 0.
Proof.
  apply (redis_breaker_refines_spec "fake" test_cfg trip_and_recover 0).
  - unfold cfg_ok; simpl; lia.
  - repeat constructor; vm_compute; congruence.
  - unfold valid_time; lia.
Defined.

(** A stored document that is not a record is an error of [Get]: the breaker
    then fails open. *)
Lemma corrupt_record_fails_open :
  (run redis (link redis_store (Check "fake" test_cfg))
     (mkRedis {[ Breaker.key "fake" := "not json" ]} 0)).1 = (Allow, Some SyntaxError).
Proof. reflexivity. Qed.
