(* ===== verification/Quota.v ===== *)
(** provider-gateway/internal/quota: the fleet-wide, fixed-window request quota.

    [Decide] is the pure decision, [Enforce] and [Headroom] the operations over
    the [Counter] interface; [fake_counter] is the in-memory counter of fake.go
    and [redis_counter] the Redis one of redis.go, written over the Redis
    commands it issues.  Floating-point results are binary64 values computed
    with the standard library's [SpecFloat]. *)

From S2P Require Import Prelude Errors Prog.
From stdpp Require Import pretty.
From Stdlib Require Import SpecFloat.
#[local] Open Scope Z_scope.

Record Policy := { Limit : Z; Window : Z }.

Inductive Decision := Allow | Throttle.

#[global] Instance Decision_eq_dec : EqDecision Decision.
Proof. solve_decision. Defined.

Definition Decision_String (d : Decision) : string :=
  match d with Allow => "allow" | Throttle => "throttle" end.

(** The [Counter] interface, and [time.Now]. *)
Inductive CounterE : interface :=
| Increment (key : string) (window : Z) : CounterE (res Z)
| Peek (key : string) : CounterE (res Z)
| Now : CounterE Z.

(** [windowKey]: [None] is the run-time panic of dividing by a window shorter
    than one second. *)
Definition windowKey (provider : string) (window now : Z) : option string :=
  if int_seconds window =? 0 then None
  else
    let bucket := Z.quot (unix now) (int_seconds window) in
    Some ("provider:" +:+ provider +:+ ":quota:" +:+ pretty bucket).

Definition Decide (current : Z) (policy : Policy) : Decision :=
  if current <=? Limit policy then Allow else Throttle.

(** [Enforce]; the outer [option] is the panic of [windowKey]. *)
Definition Enforce (provider : string) (policy : Policy)
    : prog CounterE (option (Decision * Z * option error)) :=
  now <- call Now ;;
  match windowKey provider (Window policy) now with
  | None => Ret None
  | Some key =>
      c <- call (Increment key (Window policy)) ;;
      match c with
      | Err e => Ret (Some (Allow, 0, Some e))
      | Ok current => Ret (Some (Decide current policy, current, None))
      end
  end.

(** [float64(z)] and [float64] division, rounding to nearest even. *)
Definition float64_of (z : Z) : spec_float := binary_normalize 53 1024 z 0 false.
Definition float64_div (a b : spec_float) : spec_float := SFdiv 53 1024 a b.

Definition Headroom (provider : string) (policy : Policy)
    : prog CounterE (option (spec_float * option error)) :=
  now <- call Now ;;
  match windowKey provider (Window policy) now with
  | None => Ret None
  | Some key =>
      c <- call (Peek key) ;;
      match c with
      | Err e => Ret (Some (float64_of 0, Some e))
      | Ok current =>
          if Limit policy <=? 0 then Ret (Some (float64_of 0, None))
          else
            let remaining := wrap64 (Limit policy - current) in
            let remaining := if remaining <? 0 then 0 else remaining in
            let headroom := float64_div (float64_of remaining) (float64_of (Limit policy)) in
            let headroom := if SFltb (float64_of 1) headroom then float64_of 1 else headroom in
            Ret (Some (headroom, None))
      end
  end.

(** * Counters *)

Record FakeCounter := mkCounter { counts : gmap string Z; clock : Z }.

Definition count (s : FakeCounter) (k : string) : Z := from_option id 0 (counts s !! k).

Definition fake_counter : handler CounterE FakeCounter := fun X e s =>
  match e in CounterE X return X * FakeCounter with
  | Increment k _ =>
      let v := wrap64 (count s k + 1) in
      (Ok v, mkCounter (<[k := v]> (counts s)) (clock s))
  | Peek k => (Ok (count s k), s)
  | Now => (clock s, s)
  end.

Definition failing_counter : handler CounterE Z := fun X e t =>
  match e in CounterE X return X * Z with
  | Increment _ _ => (Err (Lib "simulated outage"), t)
  | Peek _ => (Err (Lib "simulated outage"), t)
  | Now => (t, t)
  end.

(** The Redis commands redis.go issues; [GetInt] is [Get(key).Int64()]. *)
Inductive RedisE : interface :=
| Incr (key : string) : RedisE (res Z)
| Expire (key : string) (ttl : Z) : RedisE (res unit)
| GetInt (key : string) : RedisE (res Z)
| RedisNow : RedisE Z.

(** [RedisCounter]: the TTL is set by the first increment only, and failing to
    set it does not fail the increment. *)
Definition RedisCounter_Increment (key : string) (window : Z) : prog RedisE (res Z) :=
  val <-? call (Incr key) ;;
  if val =? 1 then (call (Expire key window) ;;; Ret (Ok val))
  else Ret (Ok val).

Definition RedisCounter_Peek (key : string) : prog RedisE (res Z) :=
  r <- call (GetInt key) ;;
  match r with
  | Err e => if errors_is e "redis.Nil" then Ret (Ok 0) else Ret (Err e)
  | Ok v => Ret (Ok v)
  end.

Definition redis_counter : forall X, CounterE X -> prog RedisE X := fun X e =>
  match e in CounterE X return prog RedisE X with
  | Increment k w => RedisCounter_Increment k w
  | Peek k => RedisCounter_Peek k
  | Now => call RedisNow
  end.

(** * Lemmas *)

Lemma windowKey_some provider w now :
  second <= w -> exists k, windowKey provider w now = Some k.
Proof.
  intros Hw. unfold windowKey.
  assert (1 <= int_seconds w) as H1.
  { unfold int_seconds. rewrite Z.quot_div_nonneg by (unfold second, millisecond in *; lia).
    apply Z.div_le_lower_bound; unfold second, millisecond in *; lia. }
  rewrite (proj2 (Z.eqb_neq _ _)) by lia. by eexists.
Qed.

(** Two instants of one window share a key; different windows never do. *)
Lemma windowKey_window provider w now now' k :
  windowKey provider w now = Some k ->
  windowKey provider w now' = Some k <->
  Z.quot (unix now) (int_seconds w) = Z.quot (unix now') (int_seconds w).
Proof.
  unfold windowKey. case_match; [done|]. intros ?; simplify_eq.
  split; [|by intros ->].
  intros E%(inj Some). apply str_app_inj_l, str_app_inj_l, str_app_inj_l in E.
  symmetry. by apply (inj pretty).
Qed.

(** * Concurrent enforcement *)

Section Fleet.
Context (provider : string) (policy : Policy) (k : string).

Abbreviation result := (option (Decision * Z * option error)).

Definition decided (p : prog CounterE result) : bool :=
  match p with Ret _ => true | _ => false end.
Definition allowed (p : prog CounterE result) : bool :=
  match p with Ret (Some (Allow, _, _)) => true | _ => false end.

(** What is left of an [Enforce] call whose clock reading is in the window
    of [k], once it has read the clock. *)
Definition incrementing : prog CounterE result :=
  Do (Increment k (Window policy)) (fun c =>
    match c with
    | Err e => Ret (Some (Allow, 0, Some e))
    | Ok current => Ret (Some (Decide current policy, current, None))
    end).

Inductive phase : prog CounterE result -> Prop :=
| ph_start : phase (Enforce provider policy)
| ph_incr : phase incrementing
| ph_done d : phase (Ret d).

Definition in_window (t : Z) : Prop := windowKey provider (Window policy) t = Some k.

(** The environment moves the clock inside the window. *)
Definition tick (t : {t : Z | in_window t}) (s : FakeCounter) : FakeCounter :=
  mkCounter (counts s) (`t).

Definition fleet_inv (n : Z) (c : list (prog CounterE result) * FakeCounter) : Prop :=
  Forall phase c.1 /\ in_window (clock c.2)
  /\ Z.of_nat (length c.1) = n
  /\ count c.2 k = countb decided c.1
  /\ countb allowed c.1 = Z.min (countb decided c.1) (Z.max 0 (Limit policy)).

Lemma fleet_step n c c' :
  n < 2^63 - 1 -> fleet_inv n c -> pstep fake_counter tick c c' -> fleet_inv n c'.
Proof.
  intros Hn (Hf & Hw & Hl & Hc & Ha) Hs.
  destruct Hs as [ts s i p p' s' Hi Hp | ts s v]; simpl in *.
  2:{ repeat split; simpl; try done. apply (proj2_sig v). }
  pose proof (Forall_lookup_1 _ _ _ _ Hf Hi) as Hph.
  pose proof (countb_le_length decided ts) as Hle.
  pose proof (countb_nonneg decided ts) as Hnn.
  unfold fleet_inv; simpl.
  destruct Hph as [ | |d]; simpl in Hp; simplify_eq/=.
  - unfold in_window in Hw. rewrite Hw. simpl. split_and!; try done.
    + apply Forall_insert; [done|constructor].
    + by rewrite length_insert.
    + rewrite (countb_insert _ _ _ _ _ Hi). simpl. lia.
    + rewrite !(countb_insert _ _ _ _ _ Hi). simpl. lia.
  - rewrite Hc, wrap64_succ by (unfold in64; lia). split_and!; try done.
    + apply Forall_insert; [done|constructor].
    + by rewrite length_insert.
    + unfold count. simpl. rewrite lookup_insert_eq. simpl.
      rewrite (countb_insert _ _ _ _ _ Hi). simpl. lia.
    + rewrite !(countb_insert _ _ _ _ _ Hi). unfold Decide. simpl.
      destruct (_ <=? _) eqn:Hle'; zbool; simpl; lia.
Qed.
End Fleet.

(** C40. The quota is fleet-wide: however the calls of any number of replicas
    interleave within one window, the number of allowed calls among those that
    have been decided is exactly [min decided Limit], so never above [Limit]. *)
Theorem fleet_quota_exact provider policy k n t0 ds
    (ts := replicate n (Enforce provider policy))
    (c := sched fake_counter (tick provider policy k) ds (ts, mkCounter ∅ t0)) :
  Z.of_nat n < 2^63 - 1 -> in_window provider policy k t0 ->
  countb allowed c.1 = Z.min (countb decided c.1) (Z.max 0 (Limit policy)).
Proof.
  intros Hn Hw.
  assert (fleet_inv provider policy k (Z.of_nat n) c) as (_ & _ & _ & _ & H); [|exact H].
  apply sched_invariant; [|intros ????; by eapply fleet_step].
  unfold fleet_inv, ts. simpl. split_and!; try done.
  - apply Forall_replicate. constructor.
  - by rewrite length_replicate.
  - unfold count. simpl. rewrite lookup_empty, countb_replicate. simpl. lia.
  - rewrite !countb_replicate. simpl. lia.
Qed.

Definition minute_policy : Policy := {| Limit := 2; Window := 60 * second |}.

Definition minute_key : string := "provider:openai:quota:5".

Lemma fleet_quota_exact_witness :
  let c := sched fake_counter (tick "openai" minute_policy minute_key)
             [Run 0; Run 1; Run 2; Run 2; Run 0; Run 1]%nat
             (replicate 3 (Enforce "openai" minute_policy), mkCounter ∅ (320 * second)) in
  countb allowed c.1 = 2 /\ countb decided c.1 = 3
  /\ countb allowed c.1 = Z.min (countb decided c.1) (Z.max 0 (Limit minute_policy)).
Proof.
  split; [reflexivity|]. split; [reflexivity|].
  apply (fleet_quota_exact "openai" minute_policy minute_key 3); [lia|reflexivity].
Defined.

(** The decision and the store around it: [Enforce] increments the counter
    of the current window once and allows exactly when the new value is within
    the limit; a failing store allows, with value 0 and the error. *)
Theorem enforce_spec {S} (h : handler CounterE S) provider policy s now s1 k :
  h _ Now s = (now, s1) -> windowKey provider (Window policy) now = Some k ->
  run h (Enforce provider policy) s =
    match h _ (Increment k (Window policy)) s1 with
    | (Ok v, s2) => (Some (if v <=? Limit policy then Allow else Throttle, v, None), s2)
    | (Err e, s2) => (Some (Allow, 0, Some e), s2)
    end.
Proof.
  intros Hn Hk. simpl. rewrite Hn, Hk. simpl.
  by destruct (h _ (Increment _ _) s1) as [[v|e] s2].
Qed.

Lemma enforce_spec_witness :
  run failing_counter (Enforce "openai" minute_policy) 7
    = (Some (Allow, 0, Some (Lib "simulated outage")), 7).
Proof.
  rewrite (enforce_spec failing_counter "openai" minute_policy 7 7 7 "provider:openai:quota:0");
    reflexivity.
Defined.

(** [Headroom] never consumes quota. *)
Lemma headroom_reads_only provider policy s :
  (run fake_counter (Headroom provider policy) s).2 = s.
Proof. simpl. repeat (case_match; simpl; try done). Qed.

