(* ===== verification/Sha256.v ===== *)
(** The hashing and encoding packages the services call: [crypto/sha256]
    (FIPS 180-4) on 32-bit words, [crypto/hmac], [encoding/hex] and
    [encoding/base64].  All are executable and checked on published vectors. *)

From S2P Require Import Prelude Json.
From Stdlib Require Import Ascii.
#[local] Open Scope Z_scope.

(** * 32-bit words *)

Definition w32 (z : Z) : Z := z mod 2^32.
Definition rotr (n x : Z) : Z := Z.lor (Z.shiftr x n) (w32 (Z.shiftl x (32 - n))).

Definition Ch (x y z : Z) : Z := Z.lxor (Z.land x y) (Z.land (2^32 - 1 - x) z).
Definition Maj (x y z : Z) : Z := Z.lxor (Z.land x y) (Z.lxor (Z.land x z) (Z.land y z)).
Definition Sigma0 (x : Z) : Z := Z.lxor (rotr 2 x) (Z.lxor (rotr 13 x) (rotr 22 x)).
Definition Sigma1 (x : Z) : Z := Z.lxor (rotr 6 x) (Z.lxor (rotr 11 x) (rotr 25 x)).
Definition sigma0 (x : Z) : Z := Z.lxor (rotr 7 x) (Z.lxor (rotr 18 x) (Z.shiftr x 3)).
Definition sigma1 (x : Z) : Z := Z.lxor (rotr 17 x) (Z.lxor (rotr 19 x) (Z.shiftr x 10)).

(** The round constants, from their definition: the first 32 bits of the
    fractional parts of the cube roots of the first 64 primes.  [root k n x] is
    the integer [k]-th root of [x], found bit by bit from bit [n]. *)
Fixpoint root (k : Z) (n : nat) (x acc : Z) : Z :=
  let acc' := if (acc + 2 ^ Z.of_nat n) ^ k <=? x then acc + 2 ^ Z.of_nat n else acc in
  match n with
  | O => acc'
  | S n' => root k n' x acc'
  end.

Definition prime (n : nat) : bool :=
  forallb (fun d => negb (Nat.eqb (Nat.modulo n d) 0)) (seq 2 (n - 2)).

Definition primes : list Z := map Z.of_nat (take 64 (List.filter prime (seq 2 310))).

Definition K : list Z :=
  Eval vm_compute in map (fun p => w32 (root 3 40 (p * 2^96) 0)) primes.

Record hstate := mkH { ha : Z; hb : Z; hc : Z; hd : Z; he : Z; hf : Z; hg : Z; hh : Z }.

(** The initial hash value: the same of the square roots of the first 8. *)
Definition H0 : hstate :=
  Eval vm_compute in
  match map (fun p => w32 (root 2 40 (p * 2^64) 0)) (take 8 primes) with
  | [a; b; c; d; e; f; g; h] => mkH a b c d e f g h
  | _ => mkH 0 0 0 0 0 0 0 0
  end.

(** * Bytes and words *)

Fixpoint bytes_of_string (s : string) : list Z :=
  match s with EmptyString => [] | String a s' => byte_of a :: bytes_of_string s' end.

Fixpoint string_of_bytes (l : list Z) : string :=
  match l with [] => "" | z :: l' => String (of_byte z) (string_of_bytes l') end.

(** Big-endian words of four bytes. *)
Fixpoint words (l : list Z) : list Z :=
  match l with
  | a :: b :: c :: d :: l' => (a * 2^24 + b * 2^16 + c * 2^8 + d) :: words l'
  | _ => []
  end.

Definition be32 (z : Z) : list Z :=
  [Z.shiftr z 24 mod 256; Z.shiftr z 16 mod 256; Z.shiftr z 8 mod 256; z mod 256].

(** * The compression function *)

(** The message schedule, latest word first: [n] more words. *)
Fixpoint expand (n : nat) (w : list Z) : list Z :=
  match n with
  | O => w
  | S n' =>
      expand n' (w32 (sigma1 (nth 1 w 0) + nth 6 w 0 + sigma0 (nth 14 w 0) + nth 15 w 0) :: w)
  end.

Definition schedule (block : list Z) : list Z := rev (expand 48 (rev block)).

Definition round (h : hstate) (kw : Z * Z) : hstate :=
  let t1 := hh h + Sigma1 (he h) + Ch (he h) (hf h) (hg h) + fst kw + snd kw in
  let t2 := Sigma0 (ha h) + Maj (ha h) (hb h) (hc h) in
  mkH (w32 (t1 + t2)) (ha h) (hb h) (hc h) (w32 (hd h + t1)) (he h) (hf h) (hg h).

Definition compress (h : hstate) (block : list Z) : hstate :=
  let r := fold_left round (combine K (schedule block)) h in
  mkH (w32 (ha h + ha r)) (w32 (hb h + hb r)) (w32 (hc h + hc r)) (w32 (hd h + hd r))
      (w32 (he h + he r)) (w32 (hf h + hf r)) (w32 (hg h + hg r)) (w32 (hh h + hh r)).

(** The message padded to a multiple of 64 bytes. *)
Definition padded (l : list Z) : list Z :=
  let n := length l in
  let zeros := Z.to_nat ((55 - Z.of_nat n) mod 64) in
  let bits := 8 * Z.of_nat n in
  l ++ [128] ++ replicate zeros 0 ++ be32 (Z.shiftr bits 32) ++ be32 (w32 bits).

Fixpoint blocks (n : nat) (ws : list Z) (h : hstate) : hstate :=
  match n with
  | O => h
  | S n' => blocks n' (drop 16 ws) (compress h (take 16 ws))
  end.

Definition sha256_bytes (l : list Z) : list Z :=
  let ws := words (padded l) in
  let h := blocks (Nat.div (length ws) 16) ws H0 in
  be32 (ha h) ++ be32 (hb h) ++ be32 (hc h) ++ be32 (hd h) ++
  be32 (he h) ++ be32 (hf h) ++ be32 (hg h) ++ be32 (hh h).

(** * hex, base64, HMAC *)

(** [hex.EncodeToString]. *)
Fixpoint hex (l : list Z) : string :=
  match l with
  | [] => ""
  | z :: l' => String (hex_char (z / 16)) (String (hex_char (z mod 16)) (hex l'))
  end.

Definition b64_char (z : Z) : ascii :=
  of_byte (if z <? 26 then 65 + z else if z <? 52 then 71 + z
           else if z <? 62 then z - 4 else if z =? 62 then 43 else 47).

(** [base64.StdEncoding.EncodeToString]. *)
Fixpoint base64 (l : list Z) : string :=
  match l with
  | a :: b :: c :: l' =>
      String (b64_char (a / 4)) (String (b64_char ((a mod 4) * 16 + b / 16))
        (String (b64_char ((b mod 16) * 4 + c / 64)) (String (b64_char (c mod 64)) (base64 l'))))
  | [a; b] =>
      String (b64_char (a / 4)) (String (b64_char ((a mod 4) * 16 + b / 16))
        (String (b64_char ((b mod 16) * 4)) "="))
  | [a] => String (b64_char (a / 4)) (String (b64_char ((a mod 4) * 16)) "==")
  | [] => ""
  end.

(** [hmac.New(sha256.New, key)]: long keys are hashed first. *)
Definition hmac_sha256 (key msg : list Z) : list Z :=
  let k := if (Nat.ltb 64 (length key)) then sha256_bytes key else key in
  let k := k ++ replicate (64 - length k) 0 in
  let inner := sha256_bytes (map (Z.lxor 0x36) k ++ msg) in
  sha256_bytes (map (Z.lxor 0x5c) k ++ inner).

(** [sha256.Sum256] of a string, in lower-case hexadecimal. *)
Definition sha256_hex (s : string) : string := hex (sha256_bytes (bytes_of_string s)).

(** * Published vectors *)

Example sha256_abc :
  sha256_hex "abc" = "ba7816bf8f01cfea414140de5dae2223b00361a396177a9cb410ff61f20015ad".
Proof. vm_compute. reflexivity. Qed.

Example sha256_two_blocks :
  sha256_hex "abcdbcdecdefdefgefghfghighijhijkijkljklmklmnlmnomnopnopq"
  = "248d6a61d20638b8e5c026930c3e6039a33ce45964ff2167f6ecedd419db06c1".
Proof. vm_compute. reflexivity. Qed.

Example hmac_rfc4231_2 :
  hex (hmac_sha256 (bytes_of_string "Jefe") (bytes_of_string "what do ya want for nothing?"))
  = "5bdcc146bf60754e6a042426089575c75a003f089d2739839dec58b964ec3843".
Proof. vm_compute. reflexivity. Qed.

Example base64_foobar : base64 (bytes_of_string "fooba") = "Zm9vYmE=".
Proof. reflexivity. Qed.

(** * Facts the clients use *)

Lemma be32_length z : length (be32 z) = 4%nat.
Proof. done. Qed.

Lemma sha256_length l : length (sha256_bytes l) = 32%nat.
Proof. unfold sha256_bytes. by rewrite !length_app, !be32_length. Qed.

Lemma hex_length l : String.length (hex l) = (2 * length l)%nat.
Proof. induction l as [|z l IH]; simpl in *; lia. Qed.

(** A digest in hexadecimal is 64 characters. *)
Lemma sha256_hex_length s : String.length (sha256_hex s) = 64%nat.
Proof. unfold sha256_hex. by rewrite hex_length, sha256_length. Qed.

#[global] Arguments sha256_bytes : simpl never.
#[global] Arguments hmac_sha256 : simpl never.
