(* ===== verification/Signer.v ===== *)
(** control-plane/internal/vaultclient: the [Signer] interface the registry
    depends on, the law its clients rely on, and the in-memory [FakeSigner] of
    registry/fake.go, which satisfies it. *)

From S2P Require Import Prelude Errors Prog Json Sha256.
#[local] Open Scope Z_scope.

Inductive SignerE : interface :=
| Sign (keyName input : string) : SignerE (res string)
| Verify (keyName input signature : string) : SignerE (res bool).

(** A signer with a keyed signature function: what it signs is [sig key input],
    it accepts a signature exactly when [accepts] holds, and it accepts its own.
    Calls may fail, but the keys never change. *)
Class LawfulSigner {S} (h : handler SignerE S) := {
  signs : S -> string -> string -> string -> Prop;
  sign_signs : forall s k m x s', h _ (Sign k m) s = (Ok x, s') -> signs s k m x;
  verify_sound : forall s k m x s', h _ (Verify k m x) s = (Ok true, s') -> signs s k m x;
  verify_complete : forall s k m x b s', h _ (Verify k m x) s = (Ok b, s') -> signs s k m x -> b = true;
  signs_stable : forall X (e : SignerE X) s k m x, signs (h X e s).2 k m x <-> signs s k m x
}.

(** [FakeSigner]: HMAC-SHA256 under a key derived from the key's name.  The map
    of keys only caches that derivation. *)
Record FakeSigner := mkSigner { keys : gmap string string }.

Definition derived_key (keyName : string) : string := "fake-test-signing-key-" +:+ keyName.

Definition keyFor (keyName : string) (s : FakeSigner) : string * FakeSigner :=
  match keys s !! keyName with
  | Some k => (k, s)
  | None => (derived_key keyName, mkSigner (<[keyName := derived_key keyName]> (keys s)))
  end.

Definition mac (k input : string) : string :=
  "fake:v1:" +:+ base64 (hmac_sha256 (bytes_of_string k) (bytes_of_string input)).

Definition FakeSigner_Sign (keyName input : string) (s : FakeSigner) : res string * FakeSigner :=
  let '(k, s') := keyFor keyName s in (Ok (mac k input), s').

Definition FakeSigner_Verify (keyName input signature : string) (s : FakeSigner)
    : res bool * FakeSigner :=
  match FakeSigner_Sign keyName input s with
  | (Err e, s') => (Err e, s')
  | (Ok expected, s') => (Ok (bool_decide (expected = signature)), s')
  end.

Definition fake_signer : handler SignerE FakeSigner := fun X e s =>
  match e in SignerE X return X * FakeSigner with
  | Sign k m => FakeSigner_Sign k m s
  | Verify k m x => FakeSigner_Verify k m x s
  end.

Lemma keyFor_key k s : (keyFor k s).1 = default (derived_key k) (keys s !! k).
Proof. unfold keyFor. by destruct (keys s !! k). Qed.

Lemma keyFor_stable k k' s :
  default (derived_key k') (keys (keyFor k s).2 !! k') = default (derived_key k') (keys s !! k').
Proof.
  unfold keyFor. destruct (keys s !! k) eqn:E; [done|]. simpl.
  destruct (decide (k = k')) as [<-|Hne]; [by rewrite lookup_insert_eq, E|].
  by rewrite lookup_insert_ne.
Qed.

#[export] Program Instance fake_signer_lawful : LawfulSigner fake_signer := {|
  signs s k m x := x = mac (default (derived_key k) (keys s !! k)) m
|}.
Next Obligation.
  intros s k m x s'. simpl. unfold FakeSigner_Sign.
  pose proof (keyFor_key k s) as H. destruct (keyFor k s). simpl in H. by intros [= <- <-]; subst.
Qed.
Next Obligation.
  intros s k m x s'. simpl. unfold FakeSigner_Verify, FakeSigner_Sign.
  pose proof (keyFor_key k s) as H. destruct (keyFor k s). simpl in H.
  case_bool_decide; [|done]. by intros _; subst.
Qed.
Next Obligation.
  intros s k m x b s'. simpl. unfold FakeSigner_Verify, FakeSigner_Sign.
  pose proof (keyFor_key k s) as H. destruct (keyFor k s). simpl in H.
  intros [= <- <-] ->. rewrite H. by rewrite bool_decide_true.
Qed.
Next Obligation.
  intros X e s k m x. destruct e as [k' m'|k' m' x']; simpl;
    unfold FakeSigner_Verify, FakeSigner_Sign;
    pose proof (keyFor_stable k' k s) as H; destruct (keyFor k' s); simpl in *; by rewrite H.
Qed.
