(* ===== verification/Http.v ===== *)
(** net/http as the services' clients use it: requests, responses, bodies.

    A response body is the bytes that can still be read from it and how it ends.
    The client itself is a call of the interfaces of its users. *)

From S2P Require Import Prelude Errors.
#[local] Open Scope Z_scope.

Record HttpRequest := mkHttpRequest {
  Method : string; URL : string; Headers : list (string * string); hBody : string }.

(** [ending]: [None] is [io.EOF], otherwise the read error. *)
Record Body := mkBody { unread : string; ending : option error }.

Record HttpResponse := mkHttpResponse { StatusCode : Z; rBody : Body }.

(** [io.ReadAll] of a body, its error ignored. *)
Definition read_all (b : Body) : string := unread b.

(** [io.ReadAll]. *)
Definition ReadAll (b : Body) : res string :=
  match ending b with Some e => Err e | None => Ok (unread b) end.

(** A header of a request. *)
Definition header (name : string) (r : HttpRequest) : option string :=
  snd <$> head (List.filter (fun h => bool_decide (h.1 = name)) (Headers r)).
