(* ===== verification/HttpServer.v ===== *)
(** net/http as the services' HTTP ports use it, and the health endpoints.

    [http.ServeMux] over patterns of a method and a path; every service answers
    /healthz while it runs, and /readyz by what it depends on. *)

From S2P Require Import Prelude Errors Prog.
#[local] Open Scope Z_scope.

(** * Routing *)

(** A request as a handler sees it: the path is clean and decoded, a header that
    is not there is empty. *)
Record ServerRequest := mkServerRequest {
  srMethod : string; srPath : string; srHeader : string -> string; srBody : string }.

(** A pattern with GET also takes HEAD. *)
Definition method_matches (pattern method : string) : bool :=
  String.eqb pattern method || (String.eqb pattern "GET" && String.eqb method "HEAD").

Lemma post_only method : method <> "POST" -> method_matches "POST" method = false.
Proof.
  intros Hm. change (String.eqb "POST" method || false = false). rewrite orb_false_r. apply String.eqb_neq. congruence.
Qed.

(** [http.ServeMux] with patterns "METHOD /path". *)
Definition ServeMux {A} (routes : list (string * string * A)) (req : ServerRequest) : (Z * string) + A :=
  let here := List.filter (fun r => String.eqb r.1.2 (srPath req)) routes in
  match List.find (fun r => method_matches r.1.1 (srMethod req)) here with
  | Some r => inr r.2
  | None =>
      let line s := s +:+ String (Ascii.ascii_of_nat 10) "" in
      inl (match here with [] => (404, line "404 page not found") | _ => (405, line "Method Not Allowed") end)
  end.

Definition serve_mux {E : interface} (routes : list (string * string * (ServerRequest -> prog E (Z * string)))) (req : ServerRequest)
    : prog E (Z * string) :=
  match ServeMux routes req with inl r => Ret r | inr h => h req end.

(** * Health *)

Definition healthz {E : interface} (_ : ServerRequest) : prog E (Z * string) := Ret (200, "ok").

Definition not_ready : Z * string := (503, "not ready").
Definition ready : Z * string := (200, "ready").

(** Ready while a ping is answered. *)
Definition ready_when {E : interface} (ping : prog E (res unit)) : prog E (Z * string) :=
  r <- ping ;;
  Ret (match (r : res unit) with Err _ => not_ready | Ok _ => ready end).
