(* ===== verification/Vault.v ===== *)
(** control-plane/internal/vaultclient: the client of Vault's Kubernetes login,
    Transit and KV version 2 endpoints.

    The client's cached token is explicit state; every operation is a program
    over [VaultE]: reading the service-account token, the clock and the HTTP
    client.  [vault_signer] is the client over a Vault, an implementation of the
    [Signer] interface; the section at the end shows that it satisfies the law
    of that interface over any Vault whose Transit engine does. *)

From S2P Require Import Prelude Errors Prog Http Json Sha256 Signer.
From Stdlib Require Import Ascii.
#[local] Open Scope Z_scope.

Inductive VaultE : interface :=
| ReadFile (path : string) : VaultE (res string)
| BuildRequest (method url : string) : VaultE (res unit)
| VaultDo (r : HttpRequest) : VaultE (res HttpResponse)
| VaultNow : VaultE Z.

Definition defaultSATokenPath : string := "/var/run/secrets/kubernetes.io/serviceaccount/token".

Record Client := mkClient {
  addr : string; k8sRole : string; saTokenPath : string; vaultToken : string; tokenExpires : Z }.

Definition New (addr k8sRole : string) : Client := mkClient addr k8sRole defaultSATokenPath "" zero_time.

Definition with_token (token : string) (expires : Z) (c : Client) : Client :=
  mkClient (addr c) (k8sRole c) (saTokenPath c) token expires.

(** [%v] of a slice of strings. *)
Definition show_list (l : list string) : string := "[" +:+ str_join " " l +:+ "]".

(** Building a request, sending it and reading the whole response, each failure
    under the caller's own words. *)
Definition exchange (building calling reading : string) (r : HttpRequest) : prog VaultE (res (Z * string)) :=
  _ <-? wrapped (Wrapf (building +:+ ": %w") []) (call (BuildRequest (Method r) (URL r))) ;;
  resp <-? wrapped (Wrapf (calling +:+ ": %w") []) (call (VaultDo r)) ;;
  Ret (match ReadAll (rBody resp) with
       | Err e => Err (Wrapf (reading +:+ ": %w") [] e)
       | Ok body => Ok (StatusCode resp, body)
       end).

(** * Login *)

Definition k8sLoginRequest (role jwt : string) : json := JObj [("role", JStr role); ("jwt", JStr jwt)].

Record vaultAuthResponse := mkAuth { ClientToken : string; LeaseDuration : Z; authErrors : list string }.

Definition zeroAuth : vaultAuthResponse := mkAuth "" 0 [].

Definition d_auth : decoder vaultAuthResponse := d_struct [
  field "auth" (fun a => (ClientToken a, LeaseDuration a)) (fun x a => mkAuth x.1 x.2 (authErrors a))
    (d_struct [field "client_token" fst (fun t x => (t, x.2)) d_string;
               field "lease_duration" snd (fun n x => (x.1, n)) (d_int 64)]);
  field "errors" authErrors (fun l a => mkAuth (ClientToken a) (LeaseDuration a) l) (d_slice "" d_string)].

Definition login_request (c : Client) (jwt : string) : HttpRequest :=
  mkHttpRequest "POST" (addr c +:+ "/v1/auth/kubernetes/login") [("Content-Type", "application/json")]
    (print (k8sLoginRequest (k8sRole c) jwt)).

(** The expiry is the end of the lease less the renewal buffer. *)
Definition renewal_buffer : Z := 30 * second.

Definition login (c : Client) : prog VaultE (res Client) :=
  jwt <-? wrapped (Wrapf "reading service account token: %w" []) (call (ReadFile (saTokenPath c))) ;;
  r <-? exchange "building login request" "calling Vault kubernetes login" "reading login response"
          (login_request c jwt) ;;
  let '(status, body) := r in
  let '(a, err) := unmarshal d_auth body zeroAuth in
  match err with
  | Some e => Ret (Err (Wrapf "decoding login response (status %d): %w" [itoa status] e))
  | None =>
      if negb (status =? 200) || bool_decide (ClientToken a = "")
      then Ret (Err (Errorf "vault kubernetes login failed (status %d): %v" [itoa status; show_list (authErrors a)]))
      else
        now <- call VaultNow ;;
        Ret (Ok (with_token (ClientToken a)
                   (now + wrap64 (wrap64 (LeaseDuration a * second) - renewal_buffer)) c))
  end.

(** [ensureToken]: the cached token while it lasts, else a new login.  The
    client afterwards has the token; a failed login leaves it as it was. *)
Definition ensureToken (c : Client) : prog VaultE (res Client) :=
  if negb (bool_decide (vaultToken c = "")) then
    now <- call VaultNow ;;
    if now <? tokenExpires c then Ret (Ok c) else login c
  else login c.

(** Every operation: a token, then the operation with it.  The result is the
    operation's and the client's new state. *)
Definition with_auth {A} (c : Client) (op : string -> prog VaultE (res A)) : prog VaultE (res A * Client) :=
  t <- wrapped (Wrapf "vault auth: %w" []) (ensureToken c) ;;
  match t with
  | Err e => Ret (Err e, c)
  | Ok c' => x <- op (vaultToken c') ;; Ret (x, c')
  end.

(** * Transit *)

Definition encoded (input : string) : string := base64 (bytes_of_string input).

Definition transitSignRequest (input : string) : json := JObj [("input", JStr (encoded input))].

Record transitSignResponse := mkSignResponse { Signature : string; signErrors : list string }.

Definition d_sign : decoder transitSignResponse := d_struct [
  field "data" Signature (fun x r => mkSignResponse x (signErrors r))
    (d_struct [field "signature" id (fun x _ => x) d_string]);
  field "errors" signErrors (fun l r => mkSignResponse (Signature r) l) (d_slice "" d_string)].

Definition transit_request (c : Client) (op keyName token : string) (body : json) : HttpRequest :=
  mkHttpRequest "POST" (addr c +:+ "/v1/transit/" +:+ op +:+ "/" +:+ keyName)
    [("Content-Type", "application/json"); ("X-Vault-Token", token)] (print body).

Definition Client_Sign (c : Client) (keyName input : string) : prog VaultE (res string * Client) :=
  with_auth c (fun token =>
    r <-? exchange "building sign request" "calling transit sign" "reading sign response"
            (transit_request c "sign" keyName token (transitSignRequest input)) ;;
    let '(status, body) := r in
    let '(x, err) := unmarshal d_sign body (mkSignResponse "" []) in
    Ret (match err with
         | Some e => Err (Wrapf "decoding sign response (status %d): %w" [itoa status] e)
         | None =>
             if negb (status =? 200) || bool_decide (Signature x = "")
             then Err (Errorf "transit sign failed (status %d): %v" [itoa status; show_list (signErrors x)])
             else Ok (Signature x)
         end)).

Definition transitVerifyRequest (input signature : string) : json :=
  JObj [("input", JStr (encoded input)); ("signature", JStr signature)].

Record transitVerifyResponse := mkVerifyResponse { Valid : bool; verifyErrors : list string }.

Definition zeroVerify : transitVerifyResponse := mkVerifyResponse false [].

Definition d_verify : decoder transitVerifyResponse := d_struct [
  field "data" Valid (fun b r => mkVerifyResponse b (verifyErrors r))
    (d_struct [field "valid" id (fun b _ => b) d_bool]);
  field "errors" verifyErrors (fun l r => mkVerifyResponse (Valid r) l) (d_slice "" d_string)].

(** A 400 is Vault's answer to a signature that is none: not valid, no error. *)
Definition Client_Verify (c : Client) (keyName input signature : string) : prog VaultE (res bool * Client) :=
  with_auth c (fun token =>
    r <-? exchange "building verify request" "calling transit verify" "reading verify response"
            (transit_request c "verify" keyName token (transitVerifyRequest input signature)) ;;
    let '(status, body) := r in
    let '(x, err) := unmarshal d_verify body zeroVerify in
    Ret (if negb (status =? 200) then
           if status =? 400 then Ok false
           else Err (Errorf "transit verify failed (status %d): %v" [itoa status; show_list (verifyErrors x)])
         else match err with
              | Some e => Err (Wrapf "decoding verify response: %w" [] e)
              | None => Ok (Valid x)
              end)).

(** * Provider secrets *)

(** A [map[string]any]: the members by name, a repeated one replaced. *)
Definition d_any_map : decoder (gmap string json) := fun j old =>
  match j with
  | JNull => (∅, true)
  | JObj l => (fold_left (fun m kv => <[kv.1 := kv.2]> m) l old, true)
  | _ => (old, false)
  end.

Record kvReadResponse := mkKv { kvData : gmap string json; kvErrors : list string }.

Definition zeroKv : kvReadResponse := mkKv ∅ [].

Definition d_kv : decoder kvReadResponse := d_struct [
  field "data" kvData (fun m r => mkKv m (kvErrors r))
    (d_struct [field "data" id (fun m _ => m) d_any_map]);
  field "errors" kvErrors (fun l r => mkKv (kvData r) l) (d_slice "" d_string)].

Definition secret_request (c : Client) (provider token : string) : HttpRequest :=
  mkHttpRequest "GET" (addr c +:+ "/v1/secret/data/provider/" +:+ provider) [("X-Vault-Token", token)] "".

Definition ReadProviderSecret (c : Client) (provider : string) : prog VaultE (res string * Client) :=
  with_auth c (fun token =>
    r <-? exchange "building secret read request" "calling secret read" "reading secret read response"
            (secret_request c provider token) ;;
    let '(status, body) := r in
    Ret (if status =? 404 then Err (Errorf "no secret stored at secret/provider/%s" [provider])
         else
           let '(x, err) := unmarshal d_kv body zeroKv in
           if negb (status =? 200)
           then Err (Errorf "secret read failed (status %d): %v" [itoa status; show_list (kvErrors x)])
           else match err with
                | Some e => Err (Wrapf "decoding secret read response: %w" [] e)
                | None =>
                    match kvData x !! "api_key" with
                    | Some (JStr k) =>
                        if bool_decide (k = "")
                        then Err (Errorf "secret/provider/%s has no non-empty api_key field" [provider])
                        else Ok k
                    | _ => Err (Errorf "secret/provider/%s has no non-empty api_key field" [provider])
                    end
                end)).

(** * The client as a signer *)

(** What Vault documents of its Transit engine, over any state of it: a 200 to
    a sign request carries a signature of the input under the named key; a 200 to
    a verify request says whether the signature is one; a signature that is one
    is never answered with a 400; requests do not change what is signed. *)
Class LawfulTransit {V} (c0 : Client) (hv : handler VaultE V) := {
  tsigns : V -> string -> string -> string -> Prop;
  transit_sign : forall v k m token resp v' r,
    hv _ (VaultDo (transit_request c0 "sign" k token (transitSignRequest m))) v = (Ok resp, v') ->
    StatusCode resp = 200 -> unmarshal d_sign (unread (rBody resp)) (mkSignResponse "" []) = (r, None) ->
    Signature r <> "" -> tsigns v k (encoded m) (Signature r);
  transit_verify : forall v k m x token resp v' r,
    hv _ (VaultDo (transit_request c0 "verify" k token (transitVerifyRequest m x))) v = (Ok resp, v') ->
    StatusCode resp = 200 -> unmarshal d_verify (unread (rBody resp)) zeroVerify = (r, None) ->
    (Valid r = true <-> tsigns v k (encoded m) x);
  transit_malformed : forall v k m x token resp v',
    hv _ (VaultDo (transit_request c0 "verify" k token (transitVerifyRequest m x))) v = (Ok resp, v') ->
    StatusCode resp = 400 -> ~ tsigns v k (encoded m) x;
  transit_stable : forall X (e : VaultE X) v k b x, tsigns (hv X e v).2 k b x <-> tsigns v k b x
}.

Section Lawful.
Context {V : Type} (c0 : Client) (hv : handler VaultE V) `{!LawfulTransit c0 hv}.

(** The client's configuration does not change, its session does. *)
Definition same_config (c : Client) : Prop := exists t e, c = with_token t e c0.

Lemma same_config_with t e c : same_config c -> same_config (with_token t e c).
Proof. intros (t' & e' & ->). by exists t, e. Qed.

Lemma same_config_request c op k token body :
  same_config c -> transit_request c op k token body = transit_request c0 op k token body.
Proof. by intros (t & e & ->). Qed.

Lemma run_signs_stable {A} (p : prog VaultE A) v k b x : tsigns (run hv p v).2 k b x <-> tsigns v k b x.
Proof.
  apply (run_preserves hv (fun v v' => tsigns v' k b x <-> tsigns v k b x)); [done| |].
  - intros v1 v2 v3 -> ->. done.
  - intros X e v1. apply transit_stable.
Qed.

(** A login replaces the session and nothing else. *)
Lemma login_config c v c' v' : same_config c -> run hv (login c) v = (Ok c', v') -> same_config c'.
Proof.
  intros Hc. unfold login. rewrite run_rbind. destruct (run hv _ v) as [[jwt|e] v1]; [|done].
  rewrite run_rbind. destruct (run hv _ v1) as [[[status body]|e] v2]; [|done].
  destruct (unmarshal d_auth body zeroAuth) as [a [e|]]; [done|]. destruct (_ || _); [done|].
  rewrite run_bind. destruct (run hv _ v2) as [now v3]. intros [= <- _]. by apply same_config_with.
Qed.

Lemma ensure_config c v c' v' : same_config c -> run hv (ensureToken c) v = (Ok c', v') -> same_config c'.
Proof.
  intros Hc. unfold ensureToken. case_bool_decide; [by apply login_config|]. simpl negb. cbv iota.
  rewrite run_bind. destruct (run hv _ v) as [now v1]. destruct (now <? tokenExpires c); [by intros [= <- _]|].
  by apply login_config.
Qed.

(** An operation with a token that returned a value, from a state that signs
    the same. *)
Lemma with_auth_ok {A} c (op : string -> prog VaultE (res A)) v x c' v' :
  same_config c -> run hv (with_auth c op) v = ((Ok x, c'), v') ->
  same_config c' /\ exists token v1, run hv (op token) v1 = (Ok x, v')
    /\ forall k b s, tsigns v1 k b s <-> tsigns v k b s.
Proof.
  intros Hc. unfold with_auth. rewrite run_bind, run_wrapped.
  pose proof (fun k b s => run_signs_stable (ensureToken c) v k b s) as Hs.
  destruct (run hv (ensureToken c) v) as [[c1|e] v1] eqn:Ht; [|done]. cbn [map_err fst snd].
  rewrite run_bind. destruct (run hv (op (vaultToken c1)) v1) as [r v2] eqn:Ho. intros [= -> <- <-].
  split; [by eapply ensure_config|]. by exists (vaultToken c1), v1.
Qed.

Lemma with_auth_config {A} c (op : string -> prog VaultE (res A)) v x c' v' :
  same_config c -> run hv (with_auth c op) v = ((x, c'), v') -> same_config c'.
Proof.
  intros Hc. unfold with_auth. rewrite run_bind, run_wrapped.
  destruct (run hv (ensureToken c) v) as [[c1|e] v1] eqn:Ht; cbn [map_err fst snd]; [|by intros [= <- <- <-]].
  rewrite run_bind. destruct (run hv (op _) v1) as [r v2]. intros [= <- <- <-]. by eapply ensure_config.
Qed.

(** An exchange that gave a whole response is one that the client's [Do] gave. *)
Lemma exchange_ok b1 b2 b3 r v status body v' :
  run hv (exchange b1 b2 b3 r) v = (Ok (status, body), v') ->
  exists v1 v2 resp, hv _ (VaultDo r) v1 = (Ok resp, v2) /\ StatusCode resp = status /\ unread (rBody resp) = body
    /\ forall k b s, tsigns v1 k b s <-> tsigns v k b s.
Proof.
  unfold exchange. rewrite run_rbind, run_wrapped, run_call.
  pose proof (fun k b s => transit_stable _ (BuildRequest (Method r) (URL r)) v k b s) as Hst.
  destruct (hv _ (BuildRequest _ _) v) as [[[]|e] v1]; [|done]. cbn [map_err fst snd].
  rewrite run_rbind, run_wrapped, run_call. destruct (hv _ (VaultDo r) v1) as [[resp|e] v2] eqn:Hd; [|done].
  cbn [map_err fst snd run]. unfold ReadAll. destruct (ending (rBody resp)); [done|]. intros [= <- <- <-].
  by exists v1, v2, resp.
Qed.
(** The client behind the [Signer] interface; its session is a token with its
    expiry. *)
Definition session : Type := string * Z.

Definition client_of (t : session) : Client := with_token t.1 t.2 c0.

Definition session_of (c : Client) : session := (vaultToken c, tokenExpires c).

Definition vault_signer : handler SignerE (V * session) := fun X e st =>
  match e in SignerE X return X * (V * session) with
  | Sign k m => let '((x, c), v) := run hv (Client_Sign (client_of st.2) k m) st.1 in (x, (v, session_of c))
  | Verify k m sg => let '((x, c), v) := run hv (Client_Verify (client_of st.2) k m sg) st.1 in (x, (v, session_of c))
  end.

Lemma client_of_config t : same_config (client_of t).
Proof. by exists t.1, t.2. Qed.

Lemma sign_signed t v k m x c' v' :
  run hv (Client_Sign (client_of t) k m) v = ((Ok x, c'), v') -> tsigns v k (encoded m) x.
Proof.
  intros H. apply with_auth_ok in H as (_ & token & v1 & H & Hst); [|apply client_of_config].
  rewrite run_rbind, (same_config_request _ _ _ _ _ (client_of_config t)) in H.
  destruct (run hv (exchange _ _ _ _) v1) as [[[status body]|e] v2] eqn:Hx; [|done].
  apply exchange_ok in Hx as (v3 & v4 & resp & Hd & Hs & Hb & Hst3).
  destruct (unmarshal d_sign body (mkSignResponse "" [])) as [r [e|]] eqn:Hu; [done|].
  destruct (negb (status =? 200) || bool_decide (Signature r = "")) eqn:Hg; [done|].
  apply orb_false_iff in Hg as [H200 Hne]. apply negb_false_iff in H200. zbool. apply bool_decide_eq_false in Hne.
  injection H as <- <-. apply Hst, Hst3. eapply transit_sign; [exact Hd|congruence|by rewrite Hb|done].
Qed.

Lemma verify_verified t v k m sg b c' v' :
  run hv (Client_Verify (client_of t) k m sg) v = ((Ok b, c'), v') -> b = true <-> tsigns v k (encoded m) sg.
Proof.
  intros H. apply with_auth_ok in H as (_ & token & v1 & H & Hst); [|apply client_of_config].
  rewrite run_rbind, (same_config_request _ _ _ _ _ (client_of_config t)) in H.
  destruct (run hv (exchange _ _ _ _) v1) as [[[status body]|e] v2] eqn:Hx; [|done].
  apply exchange_ok in Hx as (v3 & v4 & resp & Hd & Hs & Hb & Hst3). rewrite <- Hst, <- Hst3.
  destruct (unmarshal d_verify body zeroVerify) as [r err] eqn:Hu.
  destruct (status =? 200) eqn:H200; simpl in H; zbool.
  - destruct err as [e|]; [done|]. injection H as <- <-.
    eapply transit_verify; [exact Hd|congruence|by rewrite Hb].
  - destruct (status =? 400) eqn:H400; [|done]. zbool. injection H as <- <-.
    split; [done|]. intros Hc. exfalso. refine (transit_malformed _ _ _ _ _ _ _ Hd _ Hc). congruence.
Qed.

Lemma vault_signer_stable X (e : SignerE X) st k b x : tsigns (vault_signer X e st).2.1 k b x <-> tsigns st.1 k b x.
Proof.
  destruct e as [k' m'|k' m' x']; simpl.
  - pose proof (run_signs_stable (Client_Sign (client_of st.2) k' m') st.1 k b x) as H.
    by destruct (run hv (Client_Sign _ _ _) st.1) as [[? ?] ?].
  - pose proof (run_signs_stable (Client_Verify (client_of st.2) k' m' x') st.1 k b x) as H.
    by destruct (run hv (Client_Verify _ _ _ _) st.1) as [[? ?] ?].
Qed.

#[export] Program Instance vault_signer_lawful : LawfulSigner vault_signer := {|
  signs st k m x := tsigns st.1 k (encoded m) x
|}.
Next Obligation.
  intros st k m x s'. simpl. destruct (run hv _ st.1) as [[r c] v] eqn:Hr. intros [= -> <-]. by apply sign_signed in Hr.
Qed.
Next Obligation.
  intros st k m x s'. simpl. destruct (run hv _ st.1) as [[r c] v] eqn:Hr. intros [= -> <-].
  by apply verify_verified in Hr as [Hr _]; apply Hr.
Qed.
Next Obligation.
  intros st k m x b s'. simpl. destruct (run hv _ st.1) as [[r c] v] eqn:Hr. intros [= -> <-].
  by apply verify_verified in Hr as [_ Hr].
Qed.
Next Obligation. intros X e st k m x. apply vault_signer_stable. Qed.
End Lawful.

(** C30. Signatures hold.  Over any Vault whose Transit engine keeps its
    documented contract: a signature the client returned is accepted whenever a
    verification of it gets an answer, whatever was signed and verified in
    between and however often the client had to log in again; and what a
    verification accepts is a signature of that input under that key. *)
Theorem vault_signature_verifies {V} (c0 : Client) (hv : handler VaultE V) (L : LawfulTransit c0 hv)
    k m x st st1 (p : prog SignerE unit) :
  vault_signer c0 hv _ (Sign k m) st = (Ok x, st1) ->
  let st2 := (run (vault_signer c0 hv) p st1).2 in
  (forall b st3, vault_signer c0 hv _ (Verify k m x) st2 = (Ok b, st3) -> b = true)
  /\ (forall k' m' x' st3, vault_signer c0 hv _ (Verify k' m' x') st2 = (Ok true, st3) ->
        tsigns st.1 k' (encoded m') x').
Proof.
  intros Hs st2.
  assert (forall k' m' x', signs st2 k' m' x' <-> signs st k' m' x') as Hstable.
  { intros k' m' x'. transitivity (signs st1 k' m' x').
    - apply (run_preserves (vault_signer c0 hv) (fun s s' => signs s' k' m' x' <-> signs s k' m' x')); [done| |].
      + intros s1 s2 s3 -> ->. done.
      + intros X e s. apply signs_stable.
    - pose proof (signs_stable _ (Sign k m) st k' m' x') as H. by rewrite Hs in H. }
  split.
  - intros b st3 Hv. apply verify_complete in Hv; [done|]. apply Hstable. by eapply sign_signs.
  - intros k' m' x' st3 Hv. apply verify_sound in Hv. by apply Hstable in Hv.
Qed.

(** * A Vault for the examples: one token, signatures in the clear, secrets in a
    map *)

Record DevVault := mkDevVault { secrets : gmap string string; dev_clock : Z }.

Definition dev_mac (k b : string) : string := "vault:v1:" +:+ base64 (bytes_of_string (k +:+ ":" +:+ b)).

#[global] Arguments dev_mac : simpl never.

Definition d_verify_request : decoder (string * string) := d_struct [
  field "input" fst (fun b x => (b, x.2)) d_string; field "signature" snd (fun s x => (x.1, s)) d_string].

Definition answer (status : Z) (j : json) : HttpResponse := mkHttpResponse status (mkBody (print j) None).

Definition dev_respond (a : string) (r : HttpRequest) (ss : gmap string string) : HttpResponse :=
  let under op := has_prefix (a +:+ op) (URL r) in
  let rest op := trim_prefix (a +:+ op) (URL r) in
  if under "/v1/auth/kubernetes/login" then
    answer 200 (JObj [("auth", JObj [("client_token", JStr "s.1"); ("lease_duration", JNum "900")])])
  else if under "/v1/transit/sign/" then
    let '((b, _), _) := unmarshal d_verify_request (hBody r) ("", "") in
    answer 200 (JObj [("data", JObj [("signature", JStr (dev_mac (rest "/v1/transit/sign/") b))])])
  else if under "/v1/transit/verify/" then
    let '((b, sg), _) := unmarshal d_verify_request (hBody r) ("", "") in
    answer 200 (JObj [("data", JObj [("valid", JBool (bool_decide (sg = to_valid (dev_mac (rest "/v1/transit/verify/") b))))])])
  else if under "/v1/secret/data/provider/" then
    match ss !! rest "/v1/secret/data/provider/" with
    | Some k => answer 200 (JObj [("data", JObj [("data", JObj [("api_key", JStr k)])])])
    | None => answer 404 (JObj [("errors", JArr [])])
    end
  else answer 404 (JObj [("errors", JArr [])]).

Definition dev_vault (a : string) : handler VaultE DevVault := fun X e v =>
  match e in VaultE X return X * DevVault with
  | ReadFile _ => (Ok "jwt", v)
  | BuildRequest _ _ => (Ok tt, v)
  | VaultDo r => (Ok (dev_respond a r (secrets v)), v)
  | VaultNow => (dev_clock v, v)
  end.

Lemma between_of_byte z : 0 <= z < 128 -> between 0 127 (of_byte z) = true.
Proof.
  intros H. unfold between, byte_of, of_byte. rewrite N_ascii_embedding by lia.
  rewrite Z2N.id by lia. apply andb_true_iff. split; apply Z.leb_le; lia.
Qed.

Lemma b64_ascii z : 0 <= z < 64 -> between 0 127 (b64_char z) = true.
Proof. intros H. unfold b64_char. apply between_of_byte. repeat case_match; zbool; lia. Qed.

Lemma bytes_range s : Forall (fun z => 0 <= z < 256) (bytes_of_string s).
Proof.
  induction s as [|a s IH]; simpl; [done|]. constructor; [|done]. unfold byte_of.
  pose proof (N_ascii_bounded a). lia.
Qed.

Lemma base64_utf8 l : Forall (fun z => 0 <= z < 256) l -> utf8 (base64 l) = true.
Proof.
  remember (length l) as n eqn:Hn. revert l Hn. induction (lt_wf n) as [n _ IH]. intros l -> Hl.
  assert (forall x y, 0 <= x < 256 -> 0 <= y < 256 -> 0 <= (x mod 4) * 16 + y / 16 < 64) as H1.
  { intros x y Hx Hy. pose proof (Z.mod_pos_bound x 4). pose proof (Z.div_lt_upper_bound y 16 16).
    pose proof (Z.div_pos y 16). lia. }
  assert (forall x y, 0 <= x < 256 -> 0 <= y < 256 -> 0 <= (x mod 16) * 4 + y / 64 < 64) as H2.
  { intros x y Hx Hy. pose proof (Z.mod_pos_bound x 16). pose proof (Z.div_lt_upper_bound y 64 4).
    pose proof (Z.div_pos y 64). lia. }
  assert (forall x, 0 <= x < 256 -> 0 <= x / 4 < 64) as H3.
  { intros x Hx. pose proof (Z.div_lt_upper_bound x 4 64). pose proof (Z.div_pos x 4). lia. }
  destruct l as [|a [|b [|c l]]]; [done|..]; inversion Hl as [|? ? Ha Hl1]; subst.
  - simpl. rewrite !b64_ascii; [done| |auto]. pose proof (Z.mod_pos_bound a 4). lia.
  - inversion Hl1 as [|? ? Hb _]; subst. simpl. rewrite !b64_ascii; [done| |auto..].
    pose proof (Z.mod_pos_bound b 16). lia.
  - inversion Hl1 as [|? ? Hb Hl2]; subst. inversion Hl2 as [|? ? Hc Hl3]; subst. simpl.
    rewrite !b64_ascii; [|by apply Z.mod_pos_bound|auto..]. eapply IH; [|done|done]. simpl. lia.
Qed.

Lemma encoded_utf8 m : utf8 (encoded m) = true.
Proof. apply base64_utf8, bytes_range. Qed.

Lemma dev_mac_utf8 k b : utf8 (dev_mac k b) = true.
Proof. unfold dev_mac. simpl utf8. apply base64_utf8, bytes_range. Qed.

Lemma has_prefix_same a p q : has_prefix (a +:+ p) (a +:+ q) = has_prefix p q.
Proof. induction a as [|c a IH]; [done|]. simpl. by rewrite bool_decide_true, IH. Qed.

Lemma unmarshal_sent {T} (d : decoder T) l old v :
  wf_numbers (JObj l) -> (depth (JObj l) <= max_depth)%nat -> d (canon (JObj l)) old = (v, true) ->
  unmarshal d (print (JObj l)) old = (v, None).
Proof. intros Hw Hd H. by rewrite unmarshal_print, H. Qed.

Section DevLaw.
Context (a role : string).

Lemma dev_sign k m token ss :
  dev_respond a (transit_request (New a role) "sign" k token (transitSignRequest m)) ss
  = answer 200 (JObj [("data", JObj [("signature", JStr (dev_mac k (encoded m)))])]).
Proof.
  unfold dev_respond, transitSignRequest. cbn [URL hBody transit_request addr New].
  change (a +:+ "/v1/transit/" +:+ "sign" +:+ "/" +:+ k) with (a +:+ ("/v1/transit/sign/" +:+ k)).
  rewrite !has_prefix_same, has_prefix_app. rewrite <- !str_app_assoc, trim_prefix_app.
  rewrite (unmarshal_sent _ _ _ (encoded m, "")); [done|simpl; auto with onezox|apply le_max_depth; simpl; lia|].
  simpl. unfold field. simpl. by rewrite to_valid_utf8 by apply encoded_utf8.
Qed.

Lemma dev_verify k m x token ss :
  dev_respond a (transit_request (New a role) "verify" k token (transitVerifyRequest m x)) ss
  = answer 200 (JObj [("data", JObj [("valid", JBool (bool_decide (to_valid x = dev_mac k (encoded m))))])]).
Proof.
  unfold dev_respond, transitVerifyRequest. cbn [URL hBody transit_request addr New].
  change (a +:+ "/v1/transit/" +:+ "verify" +:+ "/" +:+ k) with (a +:+ ("/v1/transit/verify/" +:+ k)).
  rewrite !has_prefix_same, has_prefix_app. rewrite <- !str_app_assoc, trim_prefix_app.
  rewrite (unmarshal_sent _ _ _ (encoded m, to_valid x)); [|simpl; auto with onezox|apply le_max_depth; simpl; lia|].
  - cbv zeta. by rewrite (to_valid_utf8 (dev_mac _ _)) by apply dev_mac_utf8.
  - simpl. unfold field. simpl. by rewrite (to_valid_utf8 (encoded m)) by apply encoded_utf8.
Qed.

#[export] Program Instance dev_vault_lawful : LawfulTransit (New a role) (dev_vault a) := {|
  tsigns v k b x := to_valid x = dev_mac k b
|}.
Next Obligation.
  intros v k m token resp v' r. cbn [dev_vault]. rewrite dev_sign. intros [= <- _] _.
  cbn [answer rBody unread]. rewrite (unmarshal_sent _ _ _ (mkSignResponse (dev_mac k (encoded m)) []));
    [|simpl; auto with onezox|apply le_max_depth; simpl; lia|].
  - intros [= <-] _. apply to_valid_utf8, dev_mac_utf8.
  - simpl. unfold field. simpl. by rewrite to_valid_utf8 by apply dev_mac_utf8.
Qed.
Next Obligation.
  intros v k m x token resp v' r. cbn [dev_vault]. rewrite dev_verify. intros [= <- _] _.
  cbn [answer rBody unread].
  rewrite (unmarshal_sent _ _ _ (mkVerifyResponse (bool_decide (to_valid x = dev_mac k (encoded m))) []));
    [|simpl; auto with onezox|apply le_max_depth; simpl; lia|done].
  intros [= <-]. apply bool_decide_eq_true.
Qed.
Next Obligation. intros v k m x token resp v'. cbn [dev_vault]. rewrite dev_verify. by intros [= <- _]. Qed.
Next Obligation. intros X e v k b x. by destruct e. Qed.
End DevLaw.

Lemma vault_signature_verifies_witness :
  let c := New "http://vault" "control-plane" in
  let st := (mkDevVault ∅ 0, ("", zero_time)) in
  let st1 := (vault_signer c (dev_vault "http://vault") _ (Sign "k" "hello") st).2 in
  let mac := dev_mac "k" (encoded "hello") in
  exists b st3,
    vault_signer c (dev_vault "http://vault") _ (Verify "k" "hello" mac) st1 = (Ok b, st3)
    /\ b = true.
Proof.
  intros c st st1 mac.
  assert (E : vault_signer c (dev_vault "http://vault") _ (Verify "k" "hello" mac) st1
              = (Ok true, (vault_signer c (dev_vault "http://vault") _ (Verify "k" "hello" mac) st1).2))
    by (vm_compute; reflexivity).
  refine (ex_intro _ true (ex_intro _ _ (conj E _))).
  refine (proj1 (vault_signature_verifies c (dev_vault "http://vault")
    (dev_vault_lawful "http://vault" "control-plane")
    "k" "hello" mac st st1 (Ret tt) _) _ _ E).
  vm_compute. reflexivity.
Defined.

(** An expired session logs in again; an unknown secret is an error. *)
Example dev_session :
  let c := New "http://vault" "control-plane" in
  let v := mkDevVault {[ "openai" := "sk-1" ]} (100 * second) in
  let '((r, c1), v1) := run (dev_vault "http://vault") (ReadProviderSecret c "openai") v in
  let '((r2, c2), _) := run (dev_vault "http://vault") (ReadProviderSecret c1 "nobody") v1 in
  r = Ok "sk-1" /\ vaultToken c1 = "s.1" /\ tokenExpires c1 = 970 * second /\ c2 = c1
  /\ r2 = Err (Errorf "no secret stored at secret/provider/%s" ["nobody"]).
Proof. vm_compute. auto. Qed.
