(* ===== verification/ProviderToken.v ===== *)
(** control-plane/internal/providertoken: handing a provider's key out with a
    time to live. *)

From S2P Require Import Prelude Errors Prog.
#[local] Open Scope Z_scope.

Inductive SecretReader : interface :=
| ReadProviderSecret (provider : string) : SecretReader (res string).

(** The service's configuration. *)
Record Service := NewService { ttl : Z }.

Definition IssueToken (s : Service) (provider scope : string) : prog SecretReader (res (string * Z)) :=
  apiKey <-? call (ReadProviderSecret provider) ;;
  Ret (Ok (apiKey, int_seconds (ttl s))).

(** [FakeSecretReader]. *)
Definition FakeSecretReader : Type := gmap string string.

Definition errNotFound (provider : string) : error := Errorf "no fake secret for provider: " [provider].

Definition fake_secret_reader : handler SecretReader FakeSecretReader := fun X e m =>
  match e in SecretReader X return X * FakeSecretReader with
  | ReadProviderSecret p => (match m !! p with Some k => Ok k | None => Err (errNotFound p) end, m)
  end.

(** Only the requested provider's secret is ever read. *)
Lemma issue_scoped s provider scope (m m' : FakeSecretReader) :
  m !! provider = m' !! provider ->
  (run fake_secret_reader (IssueToken s provider scope) m).1
  = (run fake_secret_reader (IssueToken s provider scope) m').1.
Proof. intros H. cbn. rewrite H. by destruct (m' !! provider). Qed.
