(* ===== verification/Etcd.v ===== *)
(** control-plane/internal/etcdclient: the JSON envelopes distributed through
    etcd, and the keys they are put under.

    [EtcdE] is the one etcd operation the client issues.  The readers of the
    envelopes live in other services and languages; [manifest_of_etcd] and
    [active_of_etcd] read them with encoding/json, and the round-trip theorem
    states the package comment's claim that the encoding loses nothing. *)

From S2P Require Import Prelude Errors Prog Json.
From Stdlib Require Import Ascii.
#[local] Open Scope Z_scope.

Record ManifestEnvelope := mkManifestEnvelope {
  meVersionID : string; meModelRef : string; meSpecJSON : string; meSignature : string;
  meCreatedBy : string; meCreatedAt : string; meStatus : string }.

Record ActiveEnvelope := mkActiveEnvelope { Stable : string; Canary : string; CanaryPercent : Z }.

#[global] Instance ActiveEnvelope_eq_dec : EqDecision ActiveEnvelope.
Proof. solve_decision. Defined.

(** [json.Marshal] of the two structs, by their struct tags. *)
Definition manifest_json (m : ManifestEnvelope) : json :=
  JObj [("version_id", JStr (meVersionID m)); ("model_ref", JStr (meModelRef m));
        ("spec_json", JStr (meSpecJSON m)); ("signature", JStr (meSignature m));
        ("created_by", JStr (meCreatedBy m)); ("created_at", JStr (meCreatedAt m));
        ("status", JStr (meStatus m))].

Definition active_json (e : ActiveEnvelope) : json :=
  JObj [("stable", JStr (Stable e)); ("canary", JStr (Canary e));
        ("canary_percent", JNum (itoa (CanaryPercent e)))].

(** [c.cli.Put]. *)
Inductive EtcdE : interface :=
| EtcdPut (key value : string) : EtcdE (res unit).

Definition manifest_key (modelRef versionID : string) : string :=
  "/onezox/manifests/" +:+ modelRef +:+ "/" +:+ versionID.
Definition active_key (modelRef : string) : string := "/onezox/active/" +:+ modelRef.

Definition PublishManifest (versionID modelRef specJSON signature createdBy createdAt status : string)
    : prog EtcdE (res unit) :=
  let m := mkManifestEnvelope versionID modelRef specJSON signature createdBy createdAt status in
  let data := print (manifest_json m) in
  wrapped (Wrapf "publishing manifest to etcd: %w" [])
    (call (EtcdPut (manifest_key modelRef versionID) data)).

Definition publishActiveEnvelope (modelRef : string) (env : ActiveEnvelope) : prog EtcdE (res unit) :=
  let data := print (active_json env) in
  wrapped (Wrapf "publishing active pointer to etcd: %w" [])
    (call (EtcdPut (active_key modelRef) data)).

Definition PublishActive (modelRef versionID : string) : prog EtcdE (res unit) :=
  publishActiveEnvelope modelRef (mkActiveEnvelope versionID "" 0).

Definition PublishCanaryState (modelRef stableVersionID canaryVersionID : string) (percent : Z)
    : prog EtcdE (res unit) :=
  publishActiveEnvelope modelRef (mkActiveEnvelope stableVersionID canaryVersionID percent).

#[global] Arguments manifest_key : simpl never.
#[global] Arguments active_key : simpl never.
#[global] Arguments manifest_json : simpl never.
#[global] Arguments active_json : simpl never.

(** * Reading the envelopes *)

Definition active_fields : fields ActiveEnvelope :=
  [field "stable" Stable (fun v e => mkActiveEnvelope v (Canary e) (CanaryPercent e)) d_string;
   field "canary" Canary (fun v e => mkActiveEnvelope (Stable e) v (CanaryPercent e)) d_string;
   field "canary_percent" CanaryPercent (fun v e => mkActiveEnvelope (Stable e) (Canary e) v) (d_int 64)].

Definition active_of_etcd (data : string) : ActiveEnvelope * option error :=
  unmarshal (d_struct active_fields) data (mkActiveEnvelope "" "" 0).

Definition manifest_fields : fields ManifestEnvelope :=
  let mk := mkManifestEnvelope in
  [field "version_id" meVersionID (fun v '(mkManifestEnvelope _ b c d e f g) => mk v b c d e f g) d_string;
   field "model_ref" meModelRef (fun v '(mkManifestEnvelope a _ c d e f g) => mk a v c d e f g) d_string;
   field "spec_json" meSpecJSON (fun v '(mkManifestEnvelope a b _ d e f g) => mk a b v d e f g) d_string;
   field "signature" meSignature (fun v '(mkManifestEnvelope a b c _ e f g) => mk a b c v e f g) d_string;
   field "created_by" meCreatedBy (fun v '(mkManifestEnvelope a b c d _ f g) => mk a b c d v f g) d_string;
   field "created_at" meCreatedAt (fun v '(mkManifestEnvelope a b c d e _ g) => mk a b c d e v g) d_string;
   field "status" meStatus (fun v '(mkManifestEnvelope a b c d e f _) => mk a b c d e f v) d_string].

Definition manifest_of_etcd (data : string) : ManifestEnvelope * option error :=
  unmarshal (d_struct manifest_fields) data (mkManifestEnvelope "" "" "" "" "" "" "").

Lemma active_roundtrip_gen e :
  in64 (CanaryPercent e) ->
  active_of_etcd (print (active_json e)) =
    (mkActiveEnvelope (to_valid (Stable e)) (to_valid (Canary e)) (CanaryPercent e), None).
Proof.
  intros He. unfold active_of_etcd.
  unfold active_json, manifest_json. rewrite unmarshal_print; [|simpl; auto with onezox | apply le_max_depth; simpl; lia].
  simpl. unfold field. simpl. unfold in64 in He. rewrite d_int_itoa by (simpl; lia). done.
Qed.

Lemma active_roundtrip e :
  in64 (CanaryPercent e) -> utf8 (Stable e) = true -> utf8 (Canary e) = true ->
  active_of_etcd (print (active_json e)) = (e, None).
Proof. intros Hp Hs Hc. rewrite active_roundtrip_gen, !to_valid_utf8 by done. by destruct e. Qed.

(** Exactly the text that went in comes out, whatever the manifest's content,
    up to bytes that are not UTF-8. *)
Lemma manifest_roundtrip_gen m :
  manifest_of_etcd (print (manifest_json m)) =
    (mkManifestEnvelope (to_valid (meVersionID m)) (to_valid (meModelRef m)) (to_valid (meSpecJSON m))
       (to_valid (meSignature m)) (to_valid (meCreatedBy m)) (to_valid (meCreatedAt m))
       (to_valid (meStatus m)), None).
Proof.
  unfold manifest_of_etcd.
  unfold active_json, manifest_json. rewrite unmarshal_print; [|simpl; tauto | apply le_max_depth; simpl; lia]. done.
Qed.

Lemma active_key_inj m m' : active_key m = active_key m' -> m = m'.
Proof. unfold active_key. apply (str_app_inj_l "/onezox/active/"). Qed.

(** An active pointer and a manifest are never put under the same key. *)
Lemma active_manifest_keys m m' v : active_key m <> manifest_key m' v.
Proof. discriminate. Qed.

(** The manifest keys are unambiguous as long as version ids hold no slash, as
    UUIDs do not. *)
Fixpoint rev_str (s : string) : string :=
  match s with EmptyString => "" | String a s' => rev_str s' +:+ String a "" end.

Lemma rev_str_app s t : rev_str (s +:+ t) = rev_str t +:+ rev_str s.
Proof. induction s as [|a s IH]; simpl; [by rewrite str_app_nil_r|]. by rewrite IH, str_app_assoc. Qed.

Lemma rev_str_inj s t : rev_str s = rev_str t -> s = t.
Proof.
  assert (forall u, rev_str (rev_str u) = u) as Hinv.
  { induction u as [|a u IH]; simpl; [done|]. rewrite rev_str_app. simpl. by rewrite IH. }
  intros H. by rewrite <- (Hinv s), H, Hinv.
Qed.

Lemma lacks_rev c s : lacks c (rev_str s) = lacks c s.
Proof. induction s as [|a s IH]; simpl; [done|]. rewrite lacks_app, IH. simpl. by rewrite andb_true_r, andb_comm. Qed.

Lemma manifest_key_inj m v m' v' :
  lacks "/"%char v = true -> lacks "/"%char v' = true ->
  manifest_key m v = manifest_key m' v' -> m = m' /\ v = v'.
Proof.
  intros Hv Hv' E. apply str_app_inj_l, (f_equal rev_str) in E.
  rewrite !rev_str_app in E. simpl in E. rewrite !str_app_assoc in E.
  rewrite <- (lacks_rev _ v) in Hv. rewrite <- (lacks_rev _ v') in Hv'.
  apply (split_at_inj "/"%char) in E as [E1 E2]; [|done..].
  split; by apply rev_str_inj.
Qed.
