(* ===== verification/Registry.v ===== *)
(** control-plane/internal/registry: signed, versioned, immutable model
    manifests.

    [RegisterModelManifest], [ActivateVersion], [GetModelManifest] and
    [ListModels] over the interfaces of the Go [Service]: its [Store], its
    [vaultclient.Signer] and its [Publisher], the clock and the UUID library.
    [FakeStore] is fake.go; [CockroachStore] is cockroach_store.go as the effect
    of its SQL statements on the two tables, with the constraints of
    data/migrations 0008 and 0009; [etcd_publisher] is the etcd client. *)

From S2P Require Import Prelude Errors Prog Json GoTime Signer Etcd.
From Stdlib Require Import Ascii.
#[local] Open Scope Z_scope.

Definition SigningKeyName : string := "model-manifest-signing".

Definition ErrNotFound : error := Sentinel "registry.ErrNotFound".
Definition ErrInvalidSignature : error := Sentinel "registry.ErrInvalidSignature".

Record Manifest := mkManifest {
  VersionID : string; ModelRef : string; SpecJSON : string; Signature : string;
  CreatedBy : string; CreatedAt : Z; Status : string }.

Record Entry := mkEntry { eModelRef : string; ActiveVersionID : string }.

#[global] Instance Manifest_eq_dec : EqDecision Manifest.
Proof. solve_decision. Defined.

Inductive StoreE : interface :=
| InsertManifest (versionID modelRef specJSON signature createdBy : string) (createdAt : Z)
    : StoreE (res unit)
| SetActive (modelRef versionID : string) : StoreE (res unit)
| GetManifestByVersion (versionID : string) : StoreE (res Manifest)
| GetActiveManifest (modelRef : string) : StoreE (res Manifest)
| ListActive : StoreE (res (list Entry))
| HasActiveVersion (modelRef : string) : StoreE (res bool).

Inductive PublisherE : interface :=
| PubManifest (versionID modelRef specJSON signature createdBy createdAt status : string)
    : PublisherE (res unit)
| PubActive (modelRef versionID : string) : PublisherE (res unit).

(** Everything the service calls. *)
Inductive RegE : interface :=
| RStore {X} (e : StoreE X) : RegE X
| RSigner {X} (e : SignerE X) : RegE X
| RPublisher {X} (e : PublisherE X) : RegE X
| NewUUID : RegE string
| TimeNow : RegE Z.

Definition signedPayload (versionID modelRef specJSON : string) : string :=
  versionID +:+ "|" +:+ modelRef +:+ "|" +:+ specJSON.

Definition manifestStatus : string := "published".

Definition ActivateVersion (modelRef versionID : string) : prog RegE (res unit) :=
  _ <-? wrapped (Wrapf "setting active version: %w" [])
          (call (RStore (SetActive modelRef versionID))) ;;
  wrapped (Wrapf "publishing active pointer to etcd: %w" [])
    (call (RPublisher (PubActive modelRef versionID))).

Definition RegisterModelManifest (modelRef specJSON createdBy : string) : prog RegE (res string) :=
  if negb (valid specJSON) then Ret (Err (Errorf "spec_json is not valid JSON" [])) else
  versionID <- call NewUUID ;;
  createdAt <- call TimeNow ;;
  signature <-? wrapped (Wrapf "signing manifest: %w" [])
    (call (RSigner (Sign SigningKeyName (signedPayload versionID modelRef specJSON)))) ;;
  _ <-? wrapped (Wrapf "inserting manifest: %w" [])
    (call (RStore (InsertManifest versionID modelRef specJSON signature createdBy createdAt))) ;;
  let createdAtStr := rfc3339 createdAt in
  _ <-? wrapped (Wrapf "publishing manifest to etcd: %w" [])
    (call (RPublisher (PubManifest versionID modelRef specJSON signature createdBy createdAtStr
                         manifestStatus))) ;;
  hasActive <-? wrapped (Wrapf "checking existing active version: %w" [])
    (call (RStore (HasActiveVersion modelRef))) ;;
  if (hasActive : bool) then Ret (Ok versionID)
  else (_ <-? ActivateVersion modelRef versionID ;; Ret (Ok versionID)).

Definition GetModelManifest (modelRef versionID : string) : prog RegE (res Manifest) :=
  m <-? (if bool_decide (versionID = "") then call (RStore (GetActiveManifest modelRef))
         else call (RStore (GetManifestByVersion versionID))) ;;
  valid <-? wrapped (Wrapf "verifying manifest signature: %w" [])
    (call (RSigner (Verify SigningKeyName
                      (signedPayload (VersionID m) (ModelRef m) (SpecJSON m)) (Signature m)))) ;;
  if (valid : bool) then Ret (Ok m) else Ret (Err ErrInvalidSignature).

Definition ListModels : prog RegE (res (list Entry)) := call (RStore ListActive).

(** * The stores *)

Record FakeStore := mkFakeStore { manifests : gmap string Manifest; active : gmap string string }.

Definition NewFakeStore : FakeStore := mkFakeStore ∅ ∅.

Definition FakeStore_GetManifestByVersion (versionID : string) (s : FakeStore) : res Manifest :=
  match manifests s !! versionID with Some m => Ok m | None => Err ErrNotFound end.

Definition FakeStore_InsertManifest (versionID modelRef specJSON signature createdBy : string)
    (createdAt : Z) (s : FakeStore) : res unit * FakeStore :=
  match manifests s !! versionID with
  | Some _ => (Err (Errorf "version_id collision: %s" [versionID]), s)
  | None =>
      (Ok tt, mkFakeStore
        (<[versionID := mkManifest versionID modelRef specJSON signature createdBy createdAt "published"]>
           (manifests s)) (active s))
  end.

(** Go's map order is random; here it is the order of the [gmap]. *)
Definition FakeStore_ListActive (s : FakeStore) : list Entry :=
  map (fun '(m, v) => mkEntry m v) (map_to_list (active s)).

Definition fake_store : handler StoreE FakeStore := fun X e s =>
  match e in StoreE X return X * FakeStore with
  | InsertManifest v m j x c t => FakeStore_InsertManifest v m j x c t s
  | SetActive m v => (Ok tt, mkFakeStore (manifests s) (<[m := v]> (active s)))
  | GetManifestByVersion v => (FakeStore_GetManifestByVersion v s, s)
  | GetActiveManifest m =>
      (match active s !! m with
       | Some v => FakeStore_GetManifestByVersion v s
       | None => Err ErrNotFound
       end, s)
  | ListActive => (Ok (FakeStore_ListActive s), s)
  | HasActiveVersion m => (Ok (bool_decide (is_Some (active s !! m))), s)
  end.

(** [TamperManifest]: a change behind the service's back. *)
Definition TamperManifest (versionID : string) (mutate : Manifest -> Manifest) (s : FakeStore)
    : FakeStore :=
  mkFakeStore (alter mutate versionID (manifests s)) (active s).

(** The tables model_manifest and model_active, and whether the database
    answers. *)
Record Tables := mkTables {
  model_manifest : gmap string Manifest;
  model_active : gmap string string;
  db_up : bool }.

Definition db_error : error := Lib "cockroach".

(** A query of one row, scanned by [scanManifest]. *)
Definition scanManifest (row : option Manifest) : res Manifest :=
  match row with Some m => Ok m | None => Err ErrNotFound end.

(** INSERT INTO model_manifest: the primary key refuses a second row, and the
    column [status] has its default. *)
Definition Cockroach_InsertManifest (versionID modelRef specJSON signature createdBy : string)
    (createdAt : Z) (t : Tables) : res unit * Tables :=
  match model_manifest t !! versionID with
  | Some _ => (Err db_error, t)
  | None =>
      (Ok tt, mkTables
        (<[versionID := mkManifest versionID modelRef specJSON signature createdBy createdAt "published"]>
           (model_manifest t)) (model_active t) (db_up t))
  end.

(** INSERT ... ON CONFLICT DO UPDATE on model_active; its foreign key asks for
    an existing version. *)
Definition Cockroach_SetActive (modelRef versionID : string) (t : Tables) : res unit * Tables :=
  match model_manifest t !! versionID with
  | None => (Err db_error, t)
  | Some _ =>
      (Ok tt, mkTables (model_manifest t) (<[modelRef := versionID]> (model_active t)) (db_up t))
  end.

(** SELECT ... FROM model_manifest JOIN model_active. *)
Definition Cockroach_GetActiveManifest (modelRef : string) (t : Tables) : res Manifest :=
  scanManifest (model_active t !! modelRef ≫= fun v => model_manifest t !! v).

Definition Cockroach_GetManifestByVersion (versionID : string) (t : Tables) : res Manifest :=
  scanManifest (model_manifest t !! versionID).

Definition Cockroach_HasActiveVersion (modelRef : string) (t : Tables) : bool :=
  bool_decide (is_Some (model_active t !! modelRef)).

(** ORDER BY model_ref. *)
Fixpoint insert_entry (e : Entry) (l : list Entry) : list Entry :=
  match l with
  | [] => [e]
  | e' :: l' =>
      if String.leb (eModelRef e) (eModelRef e') then e :: l else e' :: insert_entry e l'
  end.

Definition Cockroach_ListActive (t : Tables) : list Entry :=
  foldr insert_entry [] (map (fun '(m, v) => mkEntry m v) (map_to_list (model_active t))).

Definition cockroach_store : handler StoreE Tables := fun X e t =>
  match e in StoreE X return X * Tables with
  | InsertManifest v m j x c at_ =>
      if db_up t then Cockroach_InsertManifest v m j x c at_ t else (Err db_error, t)
  | SetActive m v => if db_up t then Cockroach_SetActive m v t else (Err db_error, t)
  | GetManifestByVersion v =>
      (if db_up t then Cockroach_GetManifestByVersion v t else Err db_error, t)
  | GetActiveManifest m =>
      (if db_up t then Cockroach_GetActiveManifest m t else Err db_error, t)
  | ListActive => (if db_up t then Ok (Cockroach_ListActive t) else Err db_error, t)
  | HasActiveVersion m =>
      (if db_up t then Ok (Cockroach_HasActiveVersion m t) else Err db_error, t)
  end.

(** [*etcdclient.Client] satisfies [Publisher] as it is. *)
Definition etcd_publisher : forall X, PublisherE X -> prog EtcdE X := fun X e =>
  match e in PublisherE X return prog EtcdE X with
  | PubManifest v m j x c t st => PublishManifest v m j x c t st
  | PubActive m v => PublishActive m v
  end.

(** etcd: the current value of every key, and whether it answers. *)
Record Etcd := mkEtcd { kv : gmap string string; etcd_up : bool }.

Definition etcd : handler EtcdE Etcd := fun X e s =>
  match e in EtcdE X return X * Etcd with
  | EtcdPut k v =>
      if etcd_up s then (Ok tt, mkEtcd (<[k := v]> (kv s)) true) else (Err (Lib "etcd"), s)
  end.

(** [FakePublisher]: what was published, and an induced failure. *)
Record PublishedManifest := mkPublished {
  pubVersionID : string; pubModelRef : string; pubSpecJSON : string; pubSignature : string;
  pubCreatedBy : string; pubCreatedAt : string; pubStatus : string }.

Record FakePublisher := mkFakePublisher {
  pubManifests : list PublishedManifest; pubActive : gmap string string; pubErr : option error }.

Definition NewFakePublisher : FakePublisher := mkFakePublisher [] ∅ None.

Definition fake_publisher : handler PublisherE FakePublisher := fun X e f =>
  match pubErr f with
  | Some err => (match e in PublisherE X return X with PubManifest _ _ _ _ _ _ _ => Err err | PubActive _ _ => Err err end, f)
  | None =>
      match e in PublisherE X return X * FakePublisher with
      | PubManifest v m j x c t st =>
          (Ok tt, mkFakePublisher (pubManifests f ++ [mkPublished v m j x c t st]) (pubActive f) None)
      | PubActive m v => (Ok tt, mkFakePublisher (pubManifests f) (<[m := v]> (pubActive f)) None)
      end
  end.

(** The double stands for etcd: it fails when etcd does, and the versions it
    says are active are the ones etcd has. *)
Definition stands_for (f : FakePublisher) (k : Etcd) : Prop :=
  etcd_up k = bool_decide (pubErr f = None)
  /\ forall m v, pubActive f !! m = Some v -> kv k !! active_key m = Some (print (active_json (mkActiveEnvelope v "" 0))).

Lemma fake_publisher_stands_for X (e : PublisherE X) f k :
  stands_for f k ->
  stands_for (fake_publisher X e f).2 (run etcd (etcd_publisher X e) k).2
  /\ match e in PublisherE X return X -> X -> Prop with
     | PubManifest _ _ _ _ _ _ _ => fun r r' => is_ok r = is_ok r'
     | PubActive _ _ => fun r r' => is_ok r = is_ok r'
     end (fake_publisher X e f).1 (run etcd (etcd_publisher X e) k).1.
Proof.
  destruct f as [ms a err], k as [kv up]. intros [Hup Ha]. cbn in Hup, Ha. subst up.
  destruct err as [err|]; [rewrite bool_decide_false by done|rewrite bool_decide_true by done]; destruct e; cbn.
  - split; [|done]. split; [by rewrite bool_decide_false|done].
  - split; [|done]. split; [by rewrite bool_decide_false|done].
  - split; [|done]. split; [by rewrite bool_decide_true|]. cbn. intros m v Hm.
    rewrite lookup_insert_ne by (intros He; by apply (active_manifest_keys m modelRef versionID)). auto.
  - split; [|done]. split; [by rewrite bool_decide_true|]. cbn. intros m v.
    destruct (decide (m = modelRef)) as [->|Hne].
    + rewrite !lookup_insert_eq. by intros [= ->].
    + rewrite lookup_insert_ne by done. rewrite lookup_insert_ne by (by intros ?%active_key_inj). auto.
Qed.

(** * The deployed service *)

(** The state the service runs on: a store, etcd, the signer, the clock, and
    how many UUIDs were drawn. *)
Record World (T S : Type) := mkWorld {
  store : T; etcd_of : Etcd; signer_of : S; clock : Z; drawn : nat }.
Arguments mkWorld {T S}.
Arguments store {T S}. Arguments etcd_of {T S}. Arguments signer_of {T S}.
Arguments clock {T S}. Arguments drawn {T S}.

Section Deployed.
Context {T S : Type} (hstore : handler StoreE T) (hsigner : handler SignerE S).
(** The UUID library: the [n]-th identifier drawn. *)
Context (uuid : nat -> string).

Definition world : handler RegE (World T S) := fun X e w =>
  match e in RegE X return X * World T S with
  | RStore e =>
      let '(x, t) := hstore _ e (store w) in
      (x, mkWorld t (etcd_of w) (signer_of w) (clock w) (drawn w))
  | RSigner e =>
      let '(x, s) := hsigner _ e (signer_of w) in
      (x, mkWorld (store w) (etcd_of w) s (clock w) (drawn w))
  | RPublisher e =>
      let '(x, k) := run etcd (etcd_publisher _ e) (etcd_of w) in
      (x, mkWorld (store w) k (signer_of w) (clock w) (drawn w))
  | NewUUID => (uuid (drawn w), mkWorld (store w) (etcd_of w) (signer_of w) (clock w) (1 + drawn w))
  | TimeNow => (clock w, w)
  end.

Lemma run_call_world {X} (e : RegE X) w : run world (call e) w = world X e w.
Proof. simpl. by destruct (world X e w). Qed.
End Deployed.

(** * What the service guarantees *)

Section AnyStore.
Context {T S : Type} (hstore : handler StoreE T) (hsigner : handler SignerE S).
Context `{!LawfulSigner hsigner} (uuid : nat -> string).
Abbreviation world := (world hstore hsigner uuid).

(** The lookup of [GetModelManifest]. *)
Definition lookup (modelRef versionID : string) (w : World T S) : res Manifest * World T S :=
  run world (if bool_decide (versionID = "") then call (RStore (GetActiveManifest modelRef))
             else call (RStore (GetManifestByVersion versionID))) w.

Lemma lookup_signer modelRef versionID w :
  signer_of (lookup modelRef versionID w).2 = signer_of w.
Proof.
  unfold lookup. case_bool_decide; rewrite run_call_world; simpl; by destruct (hstore _ _ _).
Qed.

Lemma get_run modelRef versionID w :
  run world (GetModelManifest modelRef versionID) w =
    match lookup modelRef versionID w with
    | (Err e, w1) => (Err e, w1)
    | (Ok m, w1) =>
        let '(v, s) := hsigner _ (Verify SigningKeyName
              (signedPayload (VersionID m) (ModelRef m) (SpecJSON m)) (Signature m)) (signer_of w1) in
        let w2 := mkWorld (store w1) (etcd_of w1) s (clock w1) (drawn w1) in
        (match v with
         | Err e => Err (Wrapf "verifying manifest signature: %w" [] e)
         | Ok true => Ok m
         | Ok false => Err ErrInvalidSignature
         end, w2)
    end.
Proof.
  unfold GetModelManifest. rewrite run_rbind. fold (lookup modelRef versionID w).
  destruct (lookup modelRef versionID w) as [[m|e] w1]; [|done].
  rewrite run_rbind, run_wrapped, run_call_world. simpl.
  by destruct (hsigner _ _ _) as [[[]|e] s].
Qed.

Lemma get_served modelRef versionID w m w' :
  run world (GetModelManifest modelRef versionID) w = (Ok m, w') ->
  signs (signer_of w) SigningKeyName (signedPayload (VersionID m) (ModelRef m) (SpecJSON m))
    (Signature m)
  /\ exists w1, lookup modelRef versionID w = (Ok m, w1).
Proof.
  rewrite get_run. pose proof (lookup_signer modelRef versionID w) as Hs.
  destruct (lookup modelRef versionID w) as [[x|e] w1]; [|done]. simpl in Hs.
  destruct (hsigner _ _ _) as [[[]|e] s] eqn:Hv; try done.
  intros [= -> _]. rewrite Hs in Hv. apply verify_sound in Hv. eauto.
Qed.
End AnyStore.

(** The payload determines the manifest: ids and model names hold no bar. *)
Lemma signedPayload_inj v m j v' m' j' :
  lacks "|"%char v = true -> lacks "|"%char v' = true ->
  lacks "|"%char m = true -> lacks "|"%char m' = true ->
  signedPayload v m j = signedPayload v' m' j' -> v = v' /\ m = m' /\ j = j'.
Proof.
  intros Hv Hv' Hm Hm' E. apply (split_at_inj "|"%char) in E as [-> E]; [|done..].
  apply (split_at_inj "|"%char) in E as [-> E]; [|done..]. done.
Qed.

(** Model names with a bar: two different manifests share one payload. *)
Lemma signedPayload_bar :
  signedPayload "v" "a|b" "1" = signedPayload "v" "a" "b|1" /\ valid "1" = true.
Proof. split; reflexivity. Qed.

Section Cockroach.
Context {S : Type} (hsigner : handler SignerE S) `{!LawfulSigner hsigner} (uuid : nat -> string).
Abbreviation World := (World Tables S).
Abbreviation world := (world cockroach_store hsigner uuid).

(** The row a registration writes. *)
Definition registered_row (w : World) (modelRef specJSON createdBy sig : string) : Manifest :=
  mkManifest (uuid (drawn w)) modelRef specJSON sig createdBy (clock w) "published".

Definition envelope_of (m : Manifest) : ManifestEnvelope :=
  mkManifestEnvelope (VersionID m) (ModelRef m) (SpecJSON m) (Signature m) (CreatedBy m)
    (rfc3339 (CreatedAt m)) (Status m).

Definition has_active (w : World) (modelRef : string) : bool :=
  Cockroach_HasActiveVersion modelRef (store w).

(** Where a successful registration leaves the two tables and etcd. *)
Definition registered (w : World) (modelRef : string) (row : Manifest) : Tables * Etcd :=
  let t := store w in
  let mm := <[VersionID row := row]> (model_manifest t) in
  let k := <[manifest_key modelRef (VersionID row) := print (manifest_json (envelope_of row))]>
             (kv (etcd_of w)) in
  if has_active w modelRef then (mkTables mm (model_active t) true, mkEtcd k true)
  else (mkTables mm (<[modelRef := VersionID row]> (model_active t)) true,
        mkEtcd (<[active_key modelRef := print (active_json (mkActiveEnvelope (VersionID row) "" 0))]> k) true).

Lemma register_run modelRef specJSON createdBy w :
  run world (RegisterModelManifest modelRef specJSON createdBy) w =
  if negb (valid specJSON) then (Err (Errorf "spec_json is not valid JSON" []), w) else
  let v := uuid (drawn w) in
  let '(sig, s) := hsigner _ (Sign SigningKeyName (signedPayload v modelRef specJSON)) (signer_of w) in
  let w1 t k := mkWorld t k s (clock w) (1 + drawn w)%nat in
  match sig with
  | Err e => (Err (Wrapf "signing manifest: %w" [] e), w1 (store w) (etcd_of w))
  | Ok sig =>
      let row := registered_row w modelRef specJSON createdBy sig in
      if negb (db_up (store w) && bool_decide (model_manifest (store w) !! v = None)) then
        (Err (Wrapf "inserting manifest: %w" [] db_error), w1 (store w) (etcd_of w))
      else if negb (etcd_up (etcd_of w)) then
        (Err (Wrapf "publishing manifest to etcd: %w" []
                (Wrapf "publishing manifest to etcd: %w" [] (Lib "etcd"))),
         w1 (mkTables (<[v := row]> (model_manifest (store w))) (model_active (store w)) true)
            (etcd_of w))
      else let '(t, k) := registered w modelRef row in (Ok v, w1 t k)
  end.
Proof.
  unfold RegisterModelManifest. destruct (valid specJSON); [|done]. simpl negb. cbv iota.
  destruct w as [[mm ma up] [k eup] sg ck n].
  rewrite run_bind, run_call_world. simpl world. cbv iota beta.
  rewrite run_bind, run_call_world. simpl world. cbv iota beta.
  rewrite run_rbind, run_wrapped, run_call_world. simpl world. simpl signer_of. simpl drawn.
  destruct (hsigner _ _ sg) as [[sig|e] s]; [|done]. cbn [map_err fst snd]. cbv iota beta.
  rewrite run_rbind, run_wrapped, run_call_world. simpl world. simpl store.
  unfold Cockroach_InsertManifest. simpl model_manifest. simpl db_up.
  destruct up; [|done]. destruct (mm !! uuid n) eqn:Hv; simpl; [done|].
  destruct eup; simpl; [|done].
  unfold Cockroach_HasActiveVersion, registered, has_active, Cockroach_HasActiveVersion. simpl.
  case_bool_decide; simpl; [done|].
  unfold Cockroach_SetActive. simpl. rewrite lookup_insert_eq. done.
Qed.

Lemma register_ok modelRef specJSON createdBy w v w' :
  run world (RegisterModelManifest modelRef specJSON createdBy) w = (Ok v, w') ->
  exists sig,
    let row := registered_row w modelRef specJSON createdBy sig in
    valid specJSON = true /\ v = uuid (drawn w) /\ db_up (store w) = true /\ etcd_up (etcd_of w) = true
    /\ model_manifest (store w) !! v = None
    /\ signs (signer_of w') SigningKeyName (signedPayload v modelRef specJSON) sig
    /\ (store w', etcd_of w') = registered w modelRef row.
Proof.
  rewrite register_run. cbv zeta. destruct (valid specJSON); [|done]. simpl negb. cbv iota.
  destruct (hsigner _ _ _) as [[sig|e] s] eqn:Hs; [|done].
  pose proof (sign_signs _ _ _ _ _ Hs) as Hsg.
  apply (signs_stable _ (Sign SigningKeyName (signedPayload (uuid (drawn w)) modelRef specJSON))) in Hsg.
  rewrite Hs in Hsg. simpl in Hsg.
  destruct (db_up (store w)); simpl negb; cbv iota; [|done].
  case_bool_decide as Hn; simpl negb; cbv iota; [|done].
  destruct (etcd_up (etcd_of w)) eqn:Ee; simpl negb; cbv iota; [|done].
  destruct (registered _ _ _) as [t k] eqn:Hr. intros [= <- <-].
  exists sig. simpl. rewrite Hr. done.
Qed.

Lemma register_err modelRef specJSON createdBy w e w' :
  run world (RegisterModelManifest modelRef specJSON createdBy) w = (Err e, w') ->
  model_active (store w') = model_active (store w) /\ etcd_of w' = etcd_of w.
Proof.
  rewrite register_run. cbv zeta. destruct (valid specJSON); [|by intros [= <- <-]]. simpl negb. cbv iota.
  destruct (hsigner _ _ _) as [[sig|e0] s]; [|by intros [= <- <-]].
  destruct (negb (db_up _ && _)); [by intros [= <- <-]|].
  destruct (negb (etcd_up _)); [by intros [= <- <-]|].
  destruct (registered _ _ _). done.
Qed.

Lemma registered_lookup w modelRef row t k :
  registered w modelRef row = (t, k) ->
  model_manifest t !! VersionID row = Some row /\ db_up t = true.
Proof.
  unfold registered. destruct (has_active w modelRef); intros [= <- <-]; simpl;
    by rewrite lookup_insert_eq.
Qed.

Lemma registered_etcd w modelRef row :
  kv (registered w modelRef row).2 !! manifest_key modelRef (VersionID row)
    = Some (print (manifest_json (envelope_of row))).
Proof.
  unfold registered. destruct (has_active w modelRef); cbn [snd kv].
  - apply lookup_insert_eq.
  - rewrite lookup_insert_ne by apply active_manifest_keys. apply lookup_insert_eq.
Qed.

Lemma registered_others w modelRef row m :
  m <> modelRef \/ has_active w modelRef = true ->
  model_active (registered w modelRef row).1 !! m = model_active (store w) !! m
  /\ kv (registered w modelRef row).2 !! active_key m = kv (etcd_of w) !! active_key m.
Proof.
  unfold registered. intros Hm.
  destruct (has_active w modelRef); cbn [fst snd kv model_active].
  - split; [done|]. apply lookup_insert_ne. intros E. by eapply active_manifest_keys.
  - destruct Hm as [Hm|Hm]; [|done]. rewrite !lookup_insert_ne; [done| | |done].
    + intros E. by eapply active_manifest_keys.
    + by intros ?%active_key_inj.
Qed.

Lemma registered_active w modelRef row :
  has_active w modelRef = false ->
  model_active (registered w modelRef row).1 !! modelRef = Some (VersionID row)
  /\ kv (registered w modelRef row).2 !! active_key modelRef
     = Some (print (active_json (mkActiveEnvelope (VersionID row) "" 0))).
Proof.
  unfold registered. intros ->. cbn [fst snd kv model_active]. by rewrite !lookup_insert_eq.
Qed.

Lemma get_stored modelRef v row w :
  v <> "" -> db_up (store w) = true -> model_manifest (store w) !! v = Some row ->
  signs (signer_of w) SigningKeyName
    (signedPayload (VersionID row) (ModelRef row) (SpecJSON row)) (Signature row) ->
  match (run world (GetModelManifest modelRef v) w).1 with
  | Ok m => m = row
  | Err e => exists e', e = Wrapf "verifying manifest signature: %w" [] e'
  end.
Proof.
  intros Hv Hup Hr Hs. rewrite get_run.
  pose proof (lookup_signer cockroach_store hsigner uuid modelRef v w) as Hsg.
  unfold lookup in *. rewrite bool_decide_false in * by done.
  rewrite run_call_world in *. simpl in *. rewrite Hup in *.
  unfold Cockroach_GetManifestByVersion in *. rewrite Hr in *. simpl in *.
  destruct (hsigner _ _ _) as [[b|e] s] eqn:Hver; [|by eexists].
  rewrite (verify_complete _ _ _ _ _ _ Hver Hs). done.
Qed.

(** C36. Registration and reading fit together: a manifest that
    [RegisterModelManifest] accepted is served back by its version id with
    exactly the content that was registered, unless the signer itself cannot
    be reached; its row was new, and the copy in etcd carries the same fields
    and the same signature. *)
Theorem registered_manifest_served modelRef specJSON createdBy w v w' anyRef :
  run world (RegisterModelManifest modelRef specJSON createdBy) w = (Ok v, w') -> v <> "" ->
  exists sig,
    let row := mkManifest v modelRef specJSON sig createdBy (clock w) "published" in
    model_manifest (store w) !! v = None
    /\ match (run world (GetModelManifest anyRef v) w').1 with
       | Ok m => m = row
       | Err e => exists e', e = Wrapf "verifying manifest signature: %w" [] e'
       end
    /\ kv (etcd_of w') !! manifest_key modelRef v = Some (print (manifest_json (envelope_of row))).
Proof.
  intros Hrun Hv. apply register_ok in Hrun as (sig & _ & -> & _ & _ & Hn & Hs & Hr).
  exists sig. symmetry in Hr. split; [done|]. split.
  - destruct (registered_lookup _ _ _ _ _ Hr) as [Hl Hu]. exact (get_stored anyRef _ _ w' Hv Hu Hl Hs).
  - apply (f_equal snd) in Hr. cbn [snd] in Hr. rewrite <- Hr. apply registered_etcd.
Qed.

(** Only the first registration of a model activates.  Whatever a
    registration returns, the pointers of every other model, in the database
    and in etcd, stay what they were; when it fails or when the model already
    had a live version its own pointers stay too; otherwise both pointers
    become the new version with no canary. *)
Theorem register_activates_first_only modelRef specJSON createdBy w r w' :
  run world (RegisterModelManifest modelRef specJSON createdBy) w = (r, w') ->
  (forall m, m <> modelRef ->
     model_active (store w') !! m = model_active (store w) !! m
     /\ kv (etcd_of w') !! active_key m = kv (etcd_of w) !! active_key m)
  /\ match r with
     | Ok v =>
         if bool_decide (is_Some (model_active (store w) !! modelRef)) then
           model_active (store w') !! modelRef = model_active (store w) !! modelRef
           /\ kv (etcd_of w') !! active_key modelRef = kv (etcd_of w) !! active_key modelRef
         else
           model_active (store w') !! modelRef = Some v
           /\ active_of_etcd <$> kv (etcd_of w') !! active_key modelRef
              = Some (mkActiveEnvelope (to_valid v) "" 0, None)
     | Err _ => model_active (store w') = model_active (store w) /\ etcd_of w' = etcd_of w
     end.
Proof.
  intros Hrun. destruct r as [v|e].
  2: { destruct (register_err _ _ _ _ _ _ Hrun) as [-> ->]. done. }
  apply register_ok in Hrun as (sig & _ & -> & _ & _ & _ & _ & Hr).
  assert (store w' = (registered w modelRef (registered_row w modelRef specJSON createdBy sig)).1
    /\ etcd_of w' = (registered w modelRef (registered_row w modelRef specJSON createdBy sig)).2)
    as [-> ->] by (by rewrite <- Hr).
  split; [intros m Hm; apply registered_others; by left|].
  change (bool_decide _) with (has_active w modelRef).
  destruct (has_active w modelRef) eqn:Ha.
  - apply registered_others. by right.
  - pose proof (registered_active w modelRef (registered_row w modelRef specJSON createdBy sig) Ha)
      as [H1 H2].
    split; [exact H1|]. rewrite H2. cbn [fmap option_fmap option_map].
    rewrite active_roundtrip_gen by done. done.
Qed.
End Cockroach.

(** * Tampering *)

Section Tamper.
Context {T S : Type} (hstore : handler StoreE T) (hsigner : handler SignerE S) `{!LawfulSigner hsigner} (uuid : nat -> string).
Abbreviation world := (world hstore hsigner uuid).
(** No signature is a signature of two payloads. *)
Hypothesis unforgeable : forall s k a b x, signs s k a x -> signs s k b x -> a = b.

(** C37. Only what was signed is served.  Let the store, whichever it is, come up with
    a row, read by its id or as the live version of a model, whose signature was
    made for the version [v], the model [m] and the content [j].  If the row has
    another version id, another model or another content, because it was changed
    behind the service's back or because it was given another row's signature,
    then it is not served: the reading is a signature failure (or the signer
    cannot be reached).  Version ids and model names hold no bar. *)
Theorem tampered_manifest_refused modelRef versionID row v m j (w w1 : World T S) :
  lookup hstore hsigner uuid modelRef versionID w = (Ok row, w1) ->
  signs (signer_of w) SigningKeyName (signedPayload v m j) (Signature row) ->
  lacks "|"%char v = true -> lacks "|"%char (VersionID row) = true ->
  lacks "|"%char m = true -> lacks "|"%char (ModelRef row) = true ->
  (VersionID row, ModelRef row, SpecJSON row) <> (v, m, j) ->
  match (run world (GetModelManifest modelRef versionID) w).1 with
  | Ok _ => False
  | Err e => e = ErrInvalidSignature \/ exists e', e = Wrapf "verifying manifest signature: %w" [] e'
  end.
Proof.
  intros Hl Hs Hv Hv' Hm Hm' Hne. destruct (run world (GetModelManifest modelRef versionID) w) as [[x|e] w2] eqn:Hrun.
  - apply (get_served hstore hsigner uuid) in Hrun as (Hx & w3 & Hl'). rewrite Hl in Hl'. injection Hl' as -> ->.
    apply Hne. pose proof (unforgeable _ _ _ _ _ Hx Hs) as Hp. apply signedPayload_inj in Hp as (-> & -> & ->); done.
  - rewrite get_run, Hl in Hrun. destruct (hsigner _ _ _) as [[[]|e'] s]; simplify_eq/=; eauto.
Qed.
End Tamper.

(** * Concrete instances *)

(** A signer whose signatures can be read off. *)
Definition clear_sig (k m : string) : string := k +:+ m.

Definition clear_signer : handler SignerE unit := fun X e s =>
  match e in SignerE X return X * unit with
  | Sign k m => (Ok (clear_sig k m), s)
  | Verify k m x => (Ok (bool_decide (x = clear_sig k m)), s)
  end.

#[export] Program Instance clear_signer_lawful : LawfulSigner clear_signer := {|
  signs _ k m x := x = clear_sig k m
|}.
Next Obligation. intros ? k m x s' H. injection H as <-. done. Qed.
Next Obligation. intros ? k m x s'. simpl. by case_bool_decide. Qed.
Next Obligation. intros ? k m x b s' H ->. injection H as <-. by rewrite bool_decide_true. Qed.
Next Obligation. done. Qed.

Definition test_uuid (n : nat) : string := "uuid-" +:+ itoa (Z.of_nat n).

Definition empty_world {S} (s : S) : World Tables S :=
  mkWorld (mkTables ∅ ∅ true) (mkEtcd ∅ true) s (1767225599 * second) 0.

Definition register_openai : prog RegE (res string) := RegisterModelManifest "openai" "[1]" "ci".

Lemma registered_manifest_served_witness :
  let w := empty_world (mkSigner ∅) in
  let w' := (run (world cockroach_store fake_signer test_uuid) register_openai w).2 in
  exists sig,
    let row := mkManifest "uuid-0" "openai" "[1]" sig "ci" (clock w) "published" in
    model_manifest (store w) !! "uuid-0" = None
    /\ match (run (world cockroach_store fake_signer test_uuid) (GetModelManifest "x" "uuid-0") w').1 with
       | Ok m => m = row
       | Err e => exists e', e = Wrapf "verifying manifest signature: %w" [] e'
       end
    /\ kv (etcd_of w') !! manifest_key "openai" "uuid-0" = Some (print (manifest_json (envelope_of row))).
Proof.
  intros w w'.
  apply (registered_manifest_served fake_signer test_uuid "openai" "[1]" "ci" w "uuid-0" w' "x");
    [|done].
  vm_compute. reflexivity.
Defined.

Lemma register_activates_first_only_witness :
  let w := empty_world tt in
  let w' := (run (world cockroach_store clear_signer test_uuid) register_openai w).2 in
  model_active (store w') !! "openai" = Some "uuid-0".
Proof.
  intros w w'.
  destruct (register_activates_first_only clear_signer test_uuid "openai" "[1]" "ci" w (Ok "uuid-0") w')
    as [_ [H _]]; [vm_compute; reflexivity|]. exact H.
Defined.

Definition signed_row : Manifest :=
  mkManifest "v1" "openai" "[1]" (clear_sig SigningKeyName (signedPayload "v1" "openai" "[1]"))
    "ci" 0 "published".

Definition backdoor (m : Manifest) : Manifest :=
  mkManifest (VersionID m) (ModelRef m) "[2]" (Signature m) (CreatedBy m) (CreatedAt m) (Status m).

(** The tests' [TamperManifest]: the row, changed behind the service and live, is
    served neither by its id nor as the live version. *)
Lemma tampered_manifest_refused_witness :
  let w := mkWorld (TamperManifest "v1" backdoor (mkFakeStore {[ "v1" := signed_row ]} {[ "openai" := "v1" ]})) (mkEtcd ∅ true) tt 0 0 in
  let refused (r : res Manifest) := match r with
                   | Ok _ => False
                   | Err e => e = ErrInvalidSignature \/ exists e', e = Wrapf "verifying manifest signature: %w" [] e'
                   end in
  refused (run (world fake_store clear_signer test_uuid) (GetModelManifest "openai" "v1") w).1
  /\ refused (run (world fake_store clear_signer test_uuid) (GetModelManifest "openai" "") w).1.
Proof.
  intros w refused.
  assert (Hun : forall (s : unit) k a b x, signs s k a x -> signs s k b x -> a = b).
  { intros s k a b x Ha Hb. simpl in Ha, Hb. subst x. symmetry. by apply (str_app_inj_l k). }
  split; (eapply (tampered_manifest_refused fake_store clear_signer test_uuid Hun _ _ (backdoor signed_row) "v1" "openai" "[1]");
    [vm_compute; reflexivity|reflexivity..|discriminate]).
Defined.

(** What is not signed is not protected: another author is served. *)
Example author_not_signed :
  let forge m := mkManifest (VersionID m) (ModelRef m) (SpecJSON m) (Signature m) "mallory" (CreatedAt m) (Status m) in
  let w := mkWorld (TamperManifest "v1" forge (mkFakeStore {[ "v1" := signed_row ]} ∅)) (mkEtcd ∅ true) tt 0 0 in
  match (run (world fake_store clear_signer test_uuid) (GetModelManifest "openai" "v1") w).1 with
  | Ok m => CreatedBy m = "mallory"
  | Err _ => False
  end.
Proof. vm_compute. reflexivity. Qed.
