(* ===== verification/Rollout.v ===== *)
(** control-plane/internal/rollout: the staged-canary state machine.

    [Service]'s operations are programs over the three interfaces the Go struct
    holds ([StoreE], [CanaryPublisher], [RegistryI]), the clock and the UUID
    library.  [cockroach_rollouts] is cockroach_store.go as the effect of its
    SQL statements on the rollout table (data/migrations 0016, 0019, 0021),
    [fake_rollouts] the in-memory store of fake.go.

    The abstract machine is [transition] on (stage, status): what the theorems
    call legal. *)

From S2P Require Import Prelude Errors Prog Json Registry.
#[local] Open Scope Z_scope.

Definition ErrNotFound : error := Sentinel "rollout.ErrNotFound".
Definition ErrNotRunning : error := Sentinel "rollout.ErrNotRunning".
Definition ErrAlreadyRunning : error := Sentinel "rollout.ErrAlreadyRunning".
Definition ErrNoActiveVersion : error := Sentinel "rollout.ErrNoActiveVersion".
Definition ErrAlreadyFullyPromoted : error := Sentinel "rollout.ErrAlreadyFullyPromoted".
Definition ErrConcurrentUpdate : error := Sentinel "rollout.ErrConcurrentUpdate".

Definition stageOrder : list string := ["pending"; "canary_1"; "canary_10"; "canary_50"; "stable"].

(** The map literal; a missing key reads as 0. *)
Definition stagePercent (stage : string) : Z :=
  if bool_decide (stage = "pending") then 0
  else if bool_decide (stage = "canary_1") then 1
  else if bool_decide (stage = "canary_10") then 10
  else if bool_decide (stage = "canary_50") then 50
  else if bool_decide (stage = "stable") then 100
  else 0.

Definition StagePercent (stage : string) : Z := stagePercent stage.

Fixpoint next_in (order : list string) (current : string) : option string :=
  match order with
  | [] => None
  | s :: rest => if bool_decide (s = current) then head rest else next_in rest current
  end.

Definition nextStage (current : string) : option string := next_in stageOrder current.

Record Rollout := mkRollout {
  RolloutID : string; rModelRef : string; rVersionID : string; StrategyJSON : string;
  Stage : string; rStatus : string; StableVersionID : string;
  StartedAt : Z; EndedAt : option Z; StageEnteredAt : Z }.

#[global] Instance Rollout_eq_dec : EqDecision Rollout.
Proof. solve_decision. Defined.

Inductive StoreE : interface :=
| InsertRollout (r : Rollout) : StoreE (res unit)
| GetRollout (rolloutID : string) : StoreE (res (option Rollout))
| GetRunningRolloutByModelRef (modelRef : string) : StoreE (res (option Rollout))
| GetMostRecentRolloutByModelRef (modelRef : string) : StoreE (res (option Rollout))
| ListRunningRollouts : StoreE (res (list Rollout))
| ListRollouts (modelRef : string) (limit : Z) : StoreE (res (list Rollout))
| UpdateRollout (rolloutID expectedStage stage status : string) (endedAt : option Z)
    : StoreE (res unit).

Inductive CanaryPublisher : interface :=
| PublishCanaryState (modelRef stableVersionID canaryVersionID : string) (percent : Z)
    : CanaryPublisher (res unit).

Inductive RegistryI : interface :=
| GetModelManifest (modelRef versionID : string) : RegistryI (res Manifest)
| ActivateVersion (modelRef versionID : string) : RegistryI (res unit).

Inductive RolloutE : interface :=
| Store {X} (e : StoreE X) : RolloutE X
| Publisher {X} (e : CanaryPublisher X) : RolloutE X
| Reg {X} (e : RegistryI X) : RolloutE X
| NewUUID : RolloutE string
| TimeNow : RolloutE Z.

(** * The service *)

Definition advanceStage (rolloutID requireStage : string) : prog RolloutE (res string) :=
  r <-? call (Store (GetRollout rolloutID)) ;;
  match (r : option Rollout) with
  | None => Ret (Err ErrNotFound)
  | Some r =>
      if negb (bool_decide (requireStage = "")) && negb (bool_decide (Stage r = requireStage))
      then Ret (Err ErrConcurrentUpdate)
      else if negb (bool_decide (rStatus r = "running")) then Ret (Err ErrNotRunning)
      else match nextStage (Stage r) with
      | None => Ret (Err ErrAlreadyFullyPromoted)
      | Some next =>
          if bool_decide (next = "stable") then
            _ <-? wrapped (Wrapf "activating promoted version: %w" [])
                    (call (Reg (ActivateVersion (rModelRef r) (rVersionID r)))) ;;
            endedAt <- call TimeNow ;;
            _ <-? wrapped (Wrapf "recording promotion: %w" [])
                    (call (Store (UpdateRollout rolloutID (Stage r) next "promoted" (Some endedAt)))) ;;
            Ret (Ok next)
          else
            _ <-? wrapped (Wrapf "publishing canary state: %w" [])
                    (call (Publisher (PublishCanaryState (rModelRef r) (StableVersionID r) (rVersionID r)
                                        (stagePercent next)))) ;;
            _ <-? wrapped (Wrapf "recording stage advance: %w" [])
                    (call (Store (UpdateRollout rolloutID (Stage r) next "running" None))) ;;
            Ret (Ok next)
      end
  end.

Definition revertCanary (rolloutID resultStatus requireStage : string) : prog RolloutE (res unit) :=
  r <-? call (Store (GetRollout rolloutID)) ;;
  match (r : option Rollout) with
  | None => Ret (Err ErrNotFound)
  | Some r =>
      if negb (bool_decide (requireStage = "")) && negb (bool_decide (Stage r = requireStage))
      then Ret (Err ErrConcurrentUpdate)
      else if negb (bool_decide (rStatus r = "running")) then Ret (Err ErrNotRunning)
      else
        _ <-? wrapped (Wrapf "reverting canary state: %w" [])
                (call (Publisher (PublishCanaryState (rModelRef r) (StableVersionID r) "" 0))) ;;
        endedAt <- call TimeNow ;;
        wrapped (Wrapf "recording revert: %w" [])
          (call (Store (UpdateRollout rolloutID (Stage r) (Stage r) resultStatus (Some endedAt))))
  end.

Definition CreateRollout (modelRef versionID strategyJSON : string) : prog RolloutE (res string) :=
  if negb (valid strategyJSON) then Ret (Err (Errorf "strategy_json is not valid JSON" [])) else
  _ <-? wrapped (Wrapf "target version invalid: %w" [])
          (call (Reg (GetModelManifest modelRef versionID))) ;;
  activeManifest <-? wrapped (Wrapv "%w: %v" ErrNoActiveVersion)
          (call (Reg (GetModelManifest modelRef ""))) ;;
  running <-? wrapped (Wrapf "checking for an existing rollout: %w" [])
          (call (Store (GetRunningRolloutByModelRef modelRef))) ;;
  match (running : option Rollout) with
  | Some _ => Ret (Err ErrAlreadyRunning)
  | None =>
      rolloutID <- call NewUUID ;;
      startedAt <- call TimeNow ;;
      let r := mkRollout rolloutID modelRef versionID strategyJSON "pending" "running"
                 (VersionID activeManifest) startedAt None zero_time in
      _ <-? wrapped (Wrapf "inserting rollout: %w" []) (call (Store (InsertRollout r))) ;;
      _ <-? wrapped (Wrapf "starting canary: %w" []) (advanceStage rolloutID "") ;;
      Ret (Ok rolloutID)
  end.

Definition PromoteRollout (rolloutID : string) : prog RolloutE (res string) :=
  advanceStage rolloutID "".

Definition AbortRollout (rolloutID : string) : prog RolloutE (res unit) :=
  revertCanary rolloutID "aborted" "".

Definition AutoAdvance (rolloutID fromStage : string) : prog RolloutE (res string) :=
  advanceStage rolloutID fromStage.

Definition AutoRollback (rolloutID fromStage : string) : prog RolloutE (res unit) :=
  revertCanary rolloutID "rolled_back" fromStage.

Definition Service_ListRunningRollouts : prog RolloutE (res (list Rollout)) :=
  call (Store ListRunningRollouts).

Definition some_or_not_found (r : option Rollout) : prog RolloutE (res Rollout) :=
  match r with None => Ret (Err ErrNotFound) | Some r => Ret (Ok r) end.

Definition GetRolloutStatus (rolloutID modelRef : string) : prog RolloutE (res Rollout) :=
  if negb (bool_decide (rolloutID = "")) then
    r <-? call (Store (GetRollout rolloutID)) ;; some_or_not_found r
  else if bool_decide (modelRef = "") then
    Ret (Err (Errorf "either rollout_id or model_ref is required" []))
  else
    r <-? call (Store (GetMostRecentRolloutByModelRef modelRef)) ;; some_or_not_found r.

Definition DefaultRolloutListLimit : Z := 50.
Definition maxRolloutListLimit : Z := 500.

Definition clamp_limit (limit : Z) : Z :=
  let limit := if limit <=? 0 then DefaultRolloutListLimit else limit in
  if maxRolloutListLimit <? limit then maxRolloutListLimit else limit.

Definition Service_ListRollouts (modelRef : string) (limit : Z) : prog RolloutE (res (list Rollout)) :=
  call (Store (ListRollouts modelRef (clamp_limit limit))).

(** * The stores *)

Definition known_stage (s : string) : bool := bool_decide (s ∈ stageOrder).
Definition known_status (s : string) : bool :=
  bool_decide (s ∈ ["running"; "promoted"; "rolled_back"; "aborted"]).

(** Rows by [started_at DESC]. *)
Fixpoint insert_desc (r : Rollout) (l : list Rollout) : list Rollout :=
  match l with
  | [] => [r]
  | r' :: l' => if StartedAt r' <=? StartedAt r then r :: l else r' :: insert_desc r l'
  end.

Definition sort_desc (l : list Rollout) : list Rollout := foldr insert_desc [] l.

Abbreviation table := (gmap string Rollout).

Definition all_rows (t : table) : list Rollout := map snd (map_to_list t).

Definition of_model (modelRef : string) (r : Rollout) : bool := bool_decide (rModelRef r = modelRef).
Definition is_running (r : Rollout) : bool := bool_decide (rStatus r = "running").

(** INSERT INTO rollout: primary key, CHECK constraints, the columns the
    statement names, the defaults of the others ([ended_at] NULL,
    [stage_entered_at] now()). *)
Definition Cockroach_InsertRollout (now : Z) (r : Rollout) (t : table) : res unit * table :=
  if bool_decide (is_Some (t !! RolloutID r)) || negb (known_stage (Stage r))
     || negb (known_status (rStatus r))
  then (Err db_error, t)
  else (Ok tt, <[RolloutID r :=
          mkRollout (RolloutID r) (rModelRef r) (rVersionID r) (StrategyJSON r) (Stage r) (rStatus r)
            (StableVersionID r) (StartedAt r) None now]> t).

(** UPDATE rollout SET ... WHERE rollout_id = $1 AND stage = $2 AND
    status = 'running'; no row affected is [ErrConcurrentUpdate]. *)
Definition Cockroach_UpdateRollout (now : Z) (rolloutID expectedStage stage status : string)
    (endedAt : option Z) (t : table) : res unit * table :=
  match t !! rolloutID with
  | None => (Err ErrConcurrentUpdate, t)
  | Some r =>
      if bool_decide (Stage r = expectedStage) && is_running r then
        if known_stage stage && known_status status then
          (Ok tt, <[rolloutID :=
             mkRollout (RolloutID r) (rModelRef r) (rVersionID r) (StrategyJSON r) stage status
               (StableVersionID r) (StartedAt r) endedAt now]> t)
        else (Err db_error, t)
      else (Err ErrConcurrentUpdate, t)
  end.

(** The SELECTs. *)
Definition Cockroach_GetRunningRolloutByModelRef (modelRef : string) (t : table) : option Rollout :=
  head (sort_desc (List.filter (fun r => of_model modelRef r && is_running r) (all_rows t))).

Definition Cockroach_GetMostRecentRolloutByModelRef (modelRef : string) (t : table) : option Rollout :=
  head (sort_desc (List.filter (of_model modelRef) (all_rows t))).

Definition Cockroach_ListRunningRollouts (t : table) : list Rollout :=
  List.filter is_running (all_rows t).

Definition Cockroach_ListRollouts (modelRef : string) (limit : Z) (t : table) : list Rollout :=
  take (Z.to_nat limit)
    (sort_desc (if bool_decide (modelRef = "") then all_rows t
                else List.filter (of_model modelRef) (all_rows t))).

(** The rollout table, whether the database answers, and its clock. *)
Record RDB := mkRDB { rows : table; rdb_up : bool; db_now : Z }.

Definition on_rows {X} (s : RDB) (f : table -> res X * table) : res X * RDB :=
  if rdb_up s then let '(x, t) := f (rows s) in (x, mkRDB t true (db_now s))
  else (Err db_error, s).

Definition cockroach_rollouts : handler StoreE RDB := fun X e s =>
  match e in StoreE X return X * RDB with
  | InsertRollout r => on_rows s (Cockroach_InsertRollout (db_now s) r)
  | GetRollout id => on_rows s (fun t => (Ok (t !! id), t))
  | GetRunningRolloutByModelRef m =>
      on_rows s (fun t => (Ok (Cockroach_GetRunningRolloutByModelRef m t), t))
  | GetMostRecentRolloutByModelRef m =>
      on_rows s (fun t => (Ok (Cockroach_GetMostRecentRolloutByModelRef m t), t))
  | ListRunningRollouts => on_rows s (fun t => (Ok (Cockroach_ListRunningRollouts t), t))
  | ListRollouts m n => on_rows s (fun t => (Ok (Cockroach_ListRollouts m n t), t))
  | UpdateRollout id ex st status en =>
      on_rows s (Cockroach_UpdateRollout (db_now s) id ex st status en)
  end.

(** [FakeStore]. *)
Record FakeStore := mkFakeStore { rollouts : table; LastListLimit : Z; fake_now : Z }.

Definition NewFakeStore (now : Z) : FakeStore := mkFakeStore ∅ 0 now.

Definition with_rollouts (t : table) (s : FakeStore) : FakeStore :=
  mkFakeStore t (LastListLimit s) (fake_now s).

Definition FakeStore_UpdateRollout (id expectedStage stage status : string) (endedAt : option Z)
    (s : FakeStore) : res unit * FakeStore :=
  match rollouts s !! id with
  | None => (Ok tt, s)
  | Some r =>
      if negb (bool_decide (Stage r = expectedStage)) || negb (is_running r)
      then (Err ErrConcurrentUpdate, s)
      else (Ok tt, with_rollouts (<[id :=
              mkRollout (RolloutID r) (rModelRef r) (rVersionID r) (StrategyJSON r) stage status
                (StableVersionID r) (StartedAt r) endedAt (fake_now s)]> (rollouts s)) s)
  end.

(** The latest by [StartedAt], the first of equals. *)
Definition most_recent (l : list Rollout) : option Rollout :=
  fold_left (fun most r =>
    match most with
    | None => Some r
    | Some m => if StartedAt m <? StartedAt r then Some r else most
    end) l None.

Definition FakeStore_ListRollouts (modelRef : string) (limit : Z) (s : FakeStore)
    : list Rollout * FakeStore :=
  let out := sort_desc (if bool_decide (modelRef = "") then all_rows (rollouts s)
                        else List.filter (of_model modelRef) (all_rows (rollouts s))) in
  (if (0 <? limit) && (limit <? Z.of_nat (length out)) then take (Z.to_nat limit) out else out,
   mkFakeStore (rollouts s) limit (fake_now s)).

Definition fake_rollouts : handler StoreE FakeStore := fun X e s =>
  match e in StoreE X return X * FakeStore with
  | InsertRollout r => (Ok tt, with_rollouts (<[RolloutID r := r]> (rollouts s)) s)
  | GetRollout id => (Ok (rollouts s !! id), s)
  | GetRunningRolloutByModelRef m =>
      (Ok (head (List.filter (fun r => of_model m r && is_running r) (all_rows (rollouts s)))), s)
  | GetMostRecentRolloutByModelRef m =>
      (Ok (most_recent (List.filter (of_model m) (all_rows (rollouts s)))), s)
  | ListRunningRollouts => (Ok (List.filter is_running (all_rows (rollouts s))), s)
  | ListRollouts m n => let '(l, s') := FakeStore_ListRollouts m n s in (Ok l, s')
  | UpdateRollout id ex st status en => FakeStore_UpdateRollout id ex st status en s
  end.

(** * The abstract machine *)

(** One step of a rollout, as (stage, status). *)
Inductive transition : string * string -> string * string -> Prop :=
| advance s s' : nextStage s = Some s' -> s' <> "stable" ->
    transition (s, "running") (s', "running")
| promote s : nextStage s = Some "stable" ->
    transition (s, "running") ("stable", "promoted")
| revert s status : status = "aborted" \/ status = "rolled_back" ->
    transition (s, "running") (s, status).

Definition at_ (r : Rollout) : string * string := (Stage r, rStatus r).

(** What identifies a rollout and never changes. *)
Definition same_rollout (r r' : Rollout) : Prop :=
  RolloutID r = RolloutID r' /\ rModelRef r = rModelRef r' /\ rVersionID r = rVersionID r'
  /\ StrategyJSON r = StrategyJSON r' /\ StableVersionID r = StableVersionID r'
  /\ StartedAt r = StartedAt r'.

#[export] Instance same_rollout_preorder : PreOrder same_rollout.
Proof. split; [done|]. unfold same_rollout. intros x y z H1 H2. intuition congruence. Qed.

(** The history of a table: every row goes on from where it was by legal steps,
    and a new row started at pending / running. *)
Definition table_history (t t' : table) : Prop :=
  (forall id r, t !! id = Some r ->
     exists r', t' !! id = Some r' /\ same_rollout r r' /\ rtc transition (at_ r) (at_ r'))
  /\ (forall id r', t' !! id = Some r' -> t !! id = None ->
     rtc transition ("pending", "running") (at_ r')).

Lemma table_history_refl t : table_history t t.
Proof. split; [|by intros ? ? -> ?]. intros id r Hr. by exists r. Qed.

Lemma table_history_trans t1 t2 t3 :
  table_history t1 t2 -> table_history t2 t3 -> table_history t1 t3.
Proof.
  intros [H1 N1] [H2 N2]. split.
  - intros id r Hr. destruct (H1 id r Hr) as (r2 & Hr2 & S2 & T2).
    destruct (H2 id r2 Hr2) as (r3 & Hr3 & S3 & T3). exists r3.
    split; [done|]. split; [by etrans|]. by etrans.
  - intros id r3 Hr3 Hn. destruct (t2 !! id) as [r2|] eqn:Hr2.
    + destruct (H2 id r2 Hr2) as (r3' & Hr3' & _ & T3). simplify_eq.
      etrans; [by eapply N1|done].
    + by eapply N2.
Qed.

#[export] Instance table_history_preorder : PreOrder table_history.
Proof. split; [exact table_history_refl | exact table_history_trans]. Qed.

(** The calls that keep to the machine. *)
Definition legal_update (ex st status : string) : Prop :=
  transition (ex, "running") (st, status).

Definition legal : forall X, StoreE X -> Prop := fun X e =>
  match e with
  | InsertRollout r => at_ r = ("pending", "running")
  | UpdateRollout _ ex st status _ => legal_update ex st status
  | _ => True
  end.

Lemma insert_history now r t :
  at_ r = ("pending", "running") -> table_history t (Cockroach_InsertRollout now r t).2.
Proof.
  intros Hr. unfold Cockroach_InsertRollout. case_match eqn:E; [apply table_history_refl|].
  apply orb_false_iff in E as [E _]. apply orb_false_iff in E as [E _].
  apply bool_decide_eq_false, eq_None_not_Some in E.
  simpl. split.
  - intros id r' Hr'. rewrite lookup_insert_ne by (intros <-; congruence). by exists r'.
  - intros id r' Hr' Hn. destruct (decide (RolloutID r = id)) as [<-|Hne].
    + rewrite lookup_insert_eq in Hr'. injection Hr' as <-. by rewrite <- Hr.
    + rewrite lookup_insert_ne in Hr' by done. congruence.
Qed.

Lemma update_history now id ex st status en t :
  legal_update ex st status -> table_history t (Cockroach_UpdateRollout now id ex st status en t).2.
Proof.
  intros Hl. unfold Cockroach_UpdateRollout.
  destruct (t !! id) as [r|] eqn:Hr; [|apply table_history_refl].
  case_match eqn:E; [|apply table_history_refl].
  case_match; [|apply table_history_refl].
  apply andb_true_iff in E as [E1 E2]. unfold is_running in E2.
  apply bool_decide_eq_true in E1, E2. simpl. split.
  - intros id' r' Hr'. destruct (decide (id = id')) as [<-|Hne].
    + rewrite lookup_insert_eq. eexists. split; [done|]. simplify_eq. split; [done|].
      apply rtc_once. unfold at_. rewrite E2. apply Hl.
    + rewrite lookup_insert_ne by done. by exists r'.
  - intros id' r' Hr' Hn. rewrite lookup_insert_ne in Hr' by congruence. congruence.
Qed.

(** Every legal call of the store keeps to the machine. *)
Lemma store_history X (e : StoreE X) s :
  legal X e -> table_history (rows s) (rows (cockroach_rollouts X e s).2).
Proof.
  destruct e; simpl; intros Hl; unfold on_rows; destruct (rdb_up s); simpl;
    try apply table_history_refl.
  - pose proof (insert_history (db_now s) r (rows s) Hl). by destruct (Cockroach_InsertRollout _ _ _).
  - pose proof (update_history (db_now s) rolloutID expectedStage stage status endedAt (rows s) Hl).
    by destruct (Cockroach_UpdateRollout _ _ _ _ _ _ _).
Qed.

(** * The service keeps to the machine *)

Definition legal_rollout : forall X, RolloutE X -> Prop := fun X e =>
  match e with Store e => legal _ e | _ => True end.

Lemma calls_wrapped {E : interface} {A} (P : forall X, E X -> Prop) w (p : prog E (res A)) :
  calls any P p -> calls any P (wrapped w p).
Proof. intros Hp. apply calls_bind; [done|]. done. Qed.

Lemma calls_any {E : interface} {X} (P : forall X, E X -> Prop) (e : E X) :
  P _ e -> calls any P (call e).
Proof. by apply calls_call. Qed.

#[export] Hint Resolve calls_bind calls_rbind calls_wrapped calls_any : onezox.

(** Split a program into its calls and give each one to [tac]. *)
Ltac split_calls :=
  repeat match goal with
  | |- calls _ _ (rbind _ _) => apply calls_rbind; [|intros ?]
  | |- calls _ _ (wrapped _ _) => apply calls_wrapped
  | |- calls _ _ (bind _ _) => apply calls_bind; [|intros ?]
  | |- calls _ _ (call _) => apply calls_any; simpl
  | |- calls _ _ (match _ with _ => _ end) => case_match
  | |- calls _ _ (Ret _) => exact I
  | |- True => exact I
  end.

Lemma advance_legal id from : calls any legal_rollout (advanceStage id from).
Proof.
  unfold advanceStage. split_calls.
  - case_bool_decide; [simplify_eq|done]. apply promote. by subst.
  - case_bool_decide; [done|]. by apply advance.
Qed.

Lemma revert_legal id status from :
  status = "aborted" \/ status = "rolled_back" ->
  calls any legal_rollout (revertCanary id status from).
Proof. intros Hs. unfold revertCanary. split_calls. by apply revert. Qed.

Lemma create_legal m v j : calls any legal_rollout (CreateRollout m v j).
Proof. unfold CreateRollout. split_calls; [done|apply advance_legal]. Qed.

(** ** Ranks *)

Definition rank (stage : string) : Z :=
  if bool_decide (stage = "pending") then 0
  else if bool_decide (stage = "canary_1") then 1
  else if bool_decide (stage = "canary_10") then 2
  else if bool_decide (stage = "canary_50") then 3
  else if bool_decide (stage = "stable") then 4
  else 5.

(** The next stage is the one of the next rank: no stage is skipped. *)
Lemma nextStage_rank s s' : nextStage s = Some s' -> rank s' = rank s + 1 /\ rank s < 4.
Proof.
  unfold nextStage, stageOrder. simpl.
  repeat (case_bool_decide; [subst; simpl; intros [= <-]; vm_compute; split; congruence|]).
  done.
Qed.

(** A rollout that has left a running stage. *)
Definition past (stage : string) (p : string * string) : Prop :=
  p.2 <> "running" \/ rank stage < rank p.1.

Lemma transition_past s p : transition (s, "running") p -> past s p.
Proof.
  inversion 1 as [? ? Hn|?|? ? Hs]; subst; unfold past; simpl.
  - right. apply nextStage_rank in Hn. lia.
  - by left.
  - left. by destruct Hs; subst.
Qed.

Lemma transition_from_running p q : transition p q -> p.2 = "running".
Proof. by inversion 1. Qed.

Lemma past_kept s p q : rtc transition p q -> past s p -> past s q.
Proof.
  induction 1 as [|p p1 q Hpq _ IH]; [done|]. intros Hp. apply IH.
  destruct Hp as [Hp|Hp]; [by apply transition_from_running in Hpq|].
  destruct p as [s0 st]. pose proof (transition_from_running _ _ Hpq) as Hst. simpl in *. subst st.
  destruct (transition_past _ _ Hpq) as [H|H]; unfold past; [by left|right; lia].
Qed.

(** A rollout that is over stays as it is. *)
Lemma terminal_kept p q : rtc transition p q -> p.2 <> "running" -> q = p.
Proof.
  intros Hr Hp. inversion Hr as [|? y ? Hxy]; [done|]. by apply transition_from_running in Hxy.
Qed.

(** * The other test doubles of fake.go *)

Record CanaryWrite := mkCanaryWrite {
  cwModelRef : string; cwStableVersionID : string; cwCanaryVersionID : string; cwPercent : Z }.

(** Records every write; [publisher_err], when set, refuses them. *)
Record FakePublisher := mkFakePublisher { Calls : list CanaryWrite; publisher_err : option error }.

Definition NewFakePublisher : FakePublisher := mkFakePublisher [] None.

Definition fake_publisher : handler CanaryPublisher FakePublisher := fun X e p =>
  match e in CanaryPublisher X return X * FakePublisher with
  | PublishCanaryState m s c n =>
      match publisher_err p with
      | Some err => (Err err, p)
      | None => (Ok tt, mkFakePublisher (Calls p ++ [mkCanaryWrite m s c n]) None)
      end
  end.

Definition LastCall (p : FakePublisher) : CanaryWrite :=
  default (mkCanaryWrite "" "" "" 0) (last (Calls p)).

(** [FakeRegistry]: manifests by model_ref/version_id, and the active pointers. *)
Record FakeRegistry := mkFakeRegistry {
  fr_manifests : gmap string Manifest; fr_active : gmap string string; ActivateErr : option error }.

Definition NewFakeRegistry : FakeRegistry := mkFakeRegistry ∅ ∅ None.

Definition Seed (modelRef versionID : string) (r : FakeRegistry) : FakeRegistry :=
  mkFakeRegistry
    (<[modelRef +:+ "/" +:+ versionID := mkManifest versionID modelRef "" "" "" zero_time ""]>
       (fr_manifests r)) (fr_active r) (ActivateErr r).

Definition SeedActive (modelRef versionID : string) (r : FakeRegistry) : FakeRegistry :=
  let r := Seed modelRef versionID r in
  mkFakeRegistry (fr_manifests r) (<[modelRef := versionID]> (fr_active r)) (ActivateErr r).

Definition CurrentActive (modelRef : string) (r : FakeRegistry) : string :=
  default "" (fr_active r !! modelRef).

Definition FakeRegistry_GetModelManifest (modelRef versionID : string) (r : FakeRegistry) : res Manifest :=
  let versionID := if bool_decide (versionID = "") then CurrentActive modelRef r else versionID in
  if bool_decide (versionID = "") then Err Registry.ErrNotFound
  else match fr_manifests r !! (modelRef +:+ "/" +:+ versionID) with
  | Some m => Ok m
  | None => Err Registry.ErrNotFound
  end.

Definition fake_registry : handler RegistryI FakeRegistry := fun X e r =>
  match e in RegistryI X return X * FakeRegistry with
  | GetModelManifest m v => (FakeRegistry_GetModelManifest m v r, r)
  | ActivateVersion m v =>
      match ActivateErr r with
      | Some err => (Err err, r)
      | None => (Ok tt, mkFakeRegistry (fr_manifests r) (<[m := v]> (fr_active r)) None)
      end
  end.

(** A service over the fakes, as the tests build it; [uuid] is the UUID
    library. *)
Record FakeService := mkFakeService {
  fs_store : FakeStore; fs_publisher : FakePublisher; fs_registry : FakeRegistry; fs_drawn : nat }.

Definition fake_service (uuid : nat -> string) : handler RolloutE FakeService := fun X e s =>
  match e in RolloutE X return X * FakeService with
  | Store e =>
      let '(x, t) := fake_rollouts _ e (fs_store s) in
      (x, mkFakeService t (fs_publisher s) (fs_registry s) (fs_drawn s))
  | Publisher e =>
      let '(x, p) := fake_publisher _ e (fs_publisher s) in
      (x, mkFakeService (fs_store s) p (fs_registry s) (fs_drawn s))
  | Reg e =>
      let '(x, r) := fake_registry _ e (fs_registry s) in
      (x, mkFakeService (fs_store s) (fs_publisher s) r (fs_drawn s))
  | NewUUID => (uuid (fs_drawn s), mkFakeService (fs_store s) (fs_publisher s) (fs_registry s) (1 + fs_drawn s))
  | TimeNow => (fake_now (fs_store s), s)
  end.
