(* ===== verification/Deploy.v ===== *)
(** The control plane as deployed (control-plane/main.go): the rollout service
    linked with the registry service, the etcd client, the two CockroachDB
    stores and the Vault signer.

    [CpE] is the primitive calls left after linking: one SQL statement, one etcd
    put, one signer call.  Each is one atomic step, so the replicas of the
    service and the RPCs of one replica interleave between them; [cp_env] is
    what happens around them (time, outages). *)

From S2P Require Import Prelude Errors Prog Json Signer Etcd Registry Rollout.
#[local] Open Scope Z_scope.

Inductive CpE : interface :=
| DbRegistry {X} (e : Registry.StoreE X) : CpE X
| DbRollout {X} (e : Rollout.StoreE X) : CpE X
| EtcdCall {X} (e : EtcdE X) : CpE X
| SignerCall {X} (e : SignerE X) : CpE X
| Uuid : CpE string
| Clock : CpE Z.

Definition over_etcd {A} (p : prog EtcdE A) : prog CpE A := link (fun X e => call (EtcdCall e)) p.

(** [registry.NewService(registry.NewCockroachStore(db), vaultClient, etcdCli, log)]. *)
Definition registry_deps : forall X, RegE X -> prog CpE X := fun X e =>
  match e in RegE X return prog CpE X with
  | RStore e => call (DbRegistry e)
  | RSigner e => call (SignerCall e)
  | RPublisher e => over_etcd (etcd_publisher _ e)
  | Registry.NewUUID => call Uuid
  | Registry.TimeNow => call Clock
  end.

(** [rollout.NewService(rollout.NewCockroachStore(db), etcdCli, registrySvc, log)]. *)
Definition rollout_deps : forall X, RolloutE X -> prog CpE X := fun X e =>
  match e in RolloutE X return prog CpE X with
  | Store e => call (DbRollout e)
  | Publisher e =>
      match e in CanaryPublisher X return prog CpE X with
      | Rollout.PublishCanaryState m s c p => over_etcd (Etcd.PublishCanaryState m s c p)
      end
  | Reg e =>
      match e in RegistryI X return prog CpE X with
      | Rollout.GetModelManifest m v => link registry_deps (Registry.GetModelManifest m v)
      | Rollout.ActivateVersion m v => link registry_deps (Registry.ActivateVersion m v)
      end
  | Rollout.NewUUID => call Uuid
  | Rollout.TimeNow => call Clock
  end.

Definition deployed {A} (p : prog RolloutE A) : prog CpE A := link rollout_deps p.
Definition deployed_registry {A} (p : prog RegE A) : prog CpE A := link registry_deps p.

(** The shared state. *)
Record Cp (S : Type) := mkCp {
  cp_tables : Tables; cp_rollouts : RDB; cp_etcd : Etcd; cp_signer : S;
  cp_clock : Z; cp_drawn : nat }.
Arguments mkCp {S}. Arguments cp_tables {S}. Arguments cp_rollouts {S}. Arguments cp_etcd {S}.
Arguments cp_signer {S}. Arguments cp_clock {S}. Arguments cp_drawn {S}.

Section Deploy.
Context {S : Type} (hsigner : handler SignerE S) (uuid : nat -> string).

Definition cp : handler CpE (Cp S) := fun X e w =>
  match e in CpE X return X * Cp S with
  | DbRegistry e =>
      let '(x, t) := cockroach_store _ e (cp_tables w) in
      (x, mkCp t (cp_rollouts w) (cp_etcd w) (cp_signer w) (cp_clock w) (cp_drawn w))
  | DbRollout e =>
      let '(x, t) := cockroach_rollouts _ e (cp_rollouts w) in
      (x, mkCp (cp_tables w) t (cp_etcd w) (cp_signer w) (cp_clock w) (cp_drawn w))
  | EtcdCall e =>
      let '(x, k) := etcd _ e (cp_etcd w) in
      (x, mkCp (cp_tables w) (cp_rollouts w) k (cp_signer w) (cp_clock w) (cp_drawn w))
  | SignerCall e =>
      let '(x, s) := hsigner _ e (cp_signer w) in
      (x, mkCp (cp_tables w) (cp_rollouts w) (cp_etcd w) s (cp_clock w) (cp_drawn w))
  | Uuid =>
      (uuid (cp_drawn w),
       mkCp (cp_tables w) (cp_rollouts w) (cp_etcd w) (cp_signer w) (cp_clock w) (1 + cp_drawn w))
  | Clock => (cp_clock w, w)
  end.

(** The interface of the rollout service, as the deployment implements it. *)
Definition svc : handler RolloutE (Cp S) := fun X e => run cp (rollout_deps X e).

Lemma run_deployed {A} (p : prog RolloutE A) w : run cp (deployed p) w = run svc p w.
Proof. apply run_link. Qed.

Lemma svc_store {X} (e : Rollout.StoreE X) w : svc _ (Store e) w = cp _ (DbRollout e) w.
Proof. unfold svc. cbn [rollout_deps]. apply run_call. Qed.
Lemma svc_uuid w : svc _ Rollout.NewUUID w = cp _ Uuid w.
Proof. unfold svc. cbn [rollout_deps]. apply run_call. Qed.
Lemma svc_now w : svc _ Rollout.TimeNow w = cp _ Clock w.
Proof. unfold svc. cbn [rollout_deps]. apply run_call. Qed.

(** What happens to the deployment from outside. *)
Inductive event := SetClock (t : Z) | SetDB (up : bool) | SetEtcd (up : bool).

Definition cp_env (v : event) (w : Cp S) : Cp S :=
  match v with
  | SetClock t =>
      mkCp (cp_tables w) (mkRDB (rows (cp_rollouts w)) (rdb_up (cp_rollouts w)) t)
        (cp_etcd w) (cp_signer w) t (cp_drawn w)
  | SetDB up =>
      mkCp (mkTables (model_manifest (cp_tables w)) (model_active (cp_tables w)) up)
        (mkRDB (rows (cp_rollouts w)) up (db_now (cp_rollouts w)))
        (cp_etcd w) (cp_signer w) (cp_clock w) (cp_drawn w)
  | SetEtcd up =>
      mkCp (cp_tables w) (cp_rollouts w) (mkEtcd (kv (cp_etcd w)) up)
        (cp_signer w) (cp_clock w) (cp_drawn w)
  end.

(** The state-changing entry points: the RPC handlers' and the reconciler's
    calls. *)
Inductive request :=
| DoRegister (modelRef specJSON createdBy : string)
| DoCreate (modelRef versionID strategyJSON : string)
| DoPromote (rolloutID : string)
| DoAbort (rolloutID : string)
| DoAutoAdvance (rolloutID fromStage : string)
| DoAutoRollback (rolloutID fromStage : string).

(** The empty string stands for a successful result without a value. *)
Definition no_value (p : prog CpE (res unit)) : prog CpE (res string) :=
  _ <-? p ;; Ret (Ok "").

Definition serve (r : request) : prog CpE (res string) :=
  match r with
  | DoRegister m j c => deployed_registry (RegisterModelManifest m j c)
  | DoCreate m v j => deployed (CreateRollout m v j)
  | DoPromote id => deployed (PromoteRollout id)
  | DoAbort id => no_value (deployed (AbortRollout id))
  | DoAutoAdvance id from => deployed (AutoAdvance id from)
  | DoAutoRollback id from => no_value (deployed (AutoRollback id from))
  end.

Definition legal_cp : forall X, CpE X -> Prop := fun X e =>
  match e with DbRollout e => legal _ e | _ => True end.

Lemma over_etcd_legal {A} (p : prog EtcdE A) : calls any legal_cp (over_etcd p).
Proof.
  apply (calls_link _ (fun _ _ => True)); [by intros; apply calls_any|].
  induction p; simpl; auto.
Qed.

Lemma registry_deps_legal X (e : RegE X) : calls any legal_cp (registry_deps X e).
Proof. destruct e; simpl; try (split; done). apply over_etcd_legal. Qed.

Lemma registry_legal {A} (p : prog RegE A) : calls any legal_cp (deployed_registry p).
Proof.
  apply (calls_link _ (fun _ _ => True)); [intros; apply registry_deps_legal|].
  induction p; simpl; auto.
Qed.

Lemma rollout_deps_legal X (e : RolloutE X) :
  legal_rollout X e -> calls any legal_cp (rollout_deps X e).
Proof.
  destruct e as [X e|X e|X e| |]; intros Hl; try (split; done).
  - destruct e. apply over_etcd_legal.
  - destruct e; apply registry_legal.
Qed.

Lemma deployed_legal {A} (p : prog RolloutE A) :
  calls any legal_rollout p -> calls any legal_cp (deployed p).
Proof. apply calls_link, rollout_deps_legal. Qed.

Lemma serve_legal r : calls any legal_cp (serve r).
Proof.
  destruct r; cbn [serve].
  - apply registry_legal.
  - apply deployed_legal, create_legal.
  - apply deployed_legal, advance_legal.
  - apply calls_rbind; [|done]. apply deployed_legal, revert_legal. by left.
  - apply deployed_legal, advance_legal.
  - apply calls_rbind; [|done]. apply deployed_legal, revert_legal. by right.
Qed.

(** The history of the rollout table, of the whole deployment. *)
Definition cp_history (w w' : Cp S) : Prop :=
  table_history (rows (cp_rollouts w)) (rows (cp_rollouts w')).

#[export] Instance cp_history_preorder : PreOrder cp_history.
Proof.
  split; [intros w; apply table_history_refl|].
  intros w1 w2 w3. apply table_history_trans.
Qed.

Lemma cp_step_history X (e : CpE X) w : legal_cp X e -> cp_history w (cp X e w).2.
Proof.
  unfold cp_history. destruct e as [X e|X e|X e|X e| |]; simpl; intros Hl;
    try apply table_history_refl.
  - destruct (cockroach_store _ _ _). apply table_history_refl.
  - pose proof (store_history X e (cp_rollouts w) Hl).
    by destruct (cockroach_rollouts X e (cp_rollouts w)).
  - destruct (etcd _ _ _). apply table_history_refl.
  - destruct (hsigner _ _ _). apply table_history_refl.
Qed.

Lemma cp_env_history v w : cp_history w (cp_env v w).
Proof. destruct v; apply table_history_refl. Qed.

Lemma serve_all_legal rs : Forall (calls any legal_cp) (map serve rs).
Proof. apply Forall_map, Forall_forall. intros r _. apply serve_legal. Qed.

(** C4. The staged gate.  Whatever registrations, creations, promotions,
    aborts, automatic advances and rollbacks are in flight on any number of
    replicas, in whatever order their SQL statements, etcd puts and signer
    calls interleave, with time passing and the database or etcd failing at
    any point: every rollout that existed keeps its identity and moves only
    along the chain pending, canary_1, canary_10, canary_50, stable one stage
    at a time, or ends where it stands; a rollout that is over never changes;
    and a new rollout starts at pending. *)
Theorem staged_chain rs w ds :
  let t := rows (cp_rollouts w) in
  let t' := rows (cp_rollouts (sched cp cp_env ds (map serve rs, w)).2) in
  table_history t t'
  /\ (forall id r, t !! id = Some r -> rStatus r <> "running" ->
       exists r', t' !! id = Some r' /\ at_ r' = at_ r).
Proof.
  assert (cp_history w (sched cp cp_env ds (map serve rs, w)).2) as H.
  { apply (sched_history cp cp_env legal_cp cp_history);
      auto using cp_step_history, cp_env_history, serve_all_legal. }
  split; [exact H|]. intros id r Hr Hs. destruct H as [H _].
  destruct (H id r Hr) as (r' & Hr' & _ & Ht). exists r'. split; [done|].
  by apply (terminal_kept _ _ Ht).
Qed.

(** ** One verdict, one advance *)

(** The successful compare-and-swap of rollout [id] at stage [from]. *)
Definition is_cas (id from : string) : forall X, CpE X -> X -> bool := fun X e =>
  match e in CpE X return X -> bool with
  | DbRollout e =>
      match e in Rollout.StoreE X return X -> bool with
      | UpdateRollout id' ex _ _ _ =>
          fun x => bool_decide (id' = id) && bool_decide (ex = from) && is_ok x
      | _ => fun _ => false
      end
  | _ => fun _ => false
  end.

(** A finished call that reported success. *)
Definition is_won (p : prog CpE (res string)) : bool :=
  match p with Ret (Ok _) => true | _ => false end.

Definition won_next (from : string) (p : prog CpE (res string)) : Prop :=
  exists s, p = Ret (Ok s) /\ nextStage from = Some s.

(** Success only right after that compare-and-swap. *)
Fixpoint guarded (id from : string) (p : prog CpE (res string)) : Prop :=
  match p with
  | Ret r => is_ok r = false
  | Do e k => forall x, if is_cas id from _ e x then won_next from (k x) else guarded id from (k x)
  end.

Definition no_update : forall X, CpE X -> Prop := fun X e =>
  match e with DbRollout (UpdateRollout _ _ _ _ _) => False | _ => True end.

Lemma guarded_bind id from {X} (p : prog CpE X) f :
  calls any no_update p -> (forall x, guarded id from (f x)) -> guarded id from (bind p f).
Proof.
  intros Hp Hf. induction p as [a|Y e k IH]; simpl; [done|]. destruct Hp as [He Hk].
  intros x. assert (is_cas id from Y e x = false) as ->.
  { destruct e as [Y e|Y e|Y e|Y e| |]; try done. by destruct e. }
  apply IH, Hk. done.
Qed.

Lemma guarded_rbind id from {X} (p : prog CpE (res X)) f :
  calls any no_update p -> (forall x, guarded id from (f x)) -> guarded id from (rbind p f).
Proof. intros Hp Hf. apply guarded_bind; [done|]. by intros [x|e]. Qed.

Lemma over_etcd_no_update {A} (p : prog EtcdE A) : calls any no_update (over_etcd p).
Proof.
  apply (calls_link _ (fun _ _ => True)); [by intros; apply calls_any|].
  induction p; simpl; auto.
Qed.

Lemma registry_no_update {A} (p : prog RegE A) : calls any no_update (deployed_registry p).
Proof.
  apply (calls_link _ (fun _ _ => True)).
  - intros X e _. destruct e; simpl; try (split; done). apply over_etcd_no_update.
  - induction p; simpl; auto.
Qed.

Definition is_cas_rollout (id from : string) : forall X, RolloutE X -> X -> bool := fun X e =>
  match e in RolloutE X return X -> bool with
  | Store e => is_cas id from _ (DbRollout e)
  | _ => fun _ => false
  end.

(** The same, before linking. *)
Fixpoint guarded_rollout (id from : string) (p : prog RolloutE (res string)) : Prop :=
  match p with
  | Ret r => is_ok r = false
  | Do e k => forall x,
      if is_cas_rollout id from _ e x
      then exists s, k x = Ret (Ok s) /\ nextStage from = Some s
      else guarded_rollout id from (k x)
  end.

Lemma guarded_link id from p : guarded_rollout id from p -> guarded id from (deployed p).
Proof.
  unfold deployed. induction p as [r|X e k IH]; simpl; [done|]. intros Hk.
  destruct e as [X e|X e|X e| |].
  - cbn [rollout_deps bind call guarded]. intros x. specialize (Hk x). unfold is_cas_rollout in Hk.
    destruct (is_cas id from X (DbRollout e) x); [|by apply IH].
    destruct Hk as (s & Hs & Hn). rewrite Hs. by exists s.
  - apply guarded_bind; [|intros x; apply IH, Hk].
    destruct e; cbn [rollout_deps]; apply over_etcd_no_update.
  - apply guarded_bind; [|intros x; apply IH, Hk].
    destruct e; cbn [rollout_deps]; apply registry_no_update.
  - simpl. intros x. by apply IH, Hk.
  - simpl. intros x. by apply IH, Hk.
Qed.

(** Both updates of [advanceStage] end in the stage they recorded. *)
Lemma guarded_record id from st status en w next :
  nextStage from = Some next ->
  guarded_rollout id from
    (_ <-? wrapped w (call (Store (UpdateRollout id from st status en))) ;; Ret (Ok next)).
Proof.
  intros Hn. simpl. intros [[]|e]; simpl; rewrite !bool_decide_true by done; simpl; [|done].
  by exists next.
Qed.

Lemma guarded_advance id from :
  from <> "" -> guarded_rollout id from (advanceStage id from).
Proof.
  intros Hf. unfold advanceStage. cbn [rbind bind call guarded_rollout is_cas_rollout is_cas].
  intros [[r|]|e]; simpl; [|done..]. rewrite (bool_decide_false (from = "")) by done. simpl.
  case_bool_decide as Hs; simpl; [|done]. subst from.
  destruct (bool_decide (rStatus r = "running")); simpl; [|done].
  destruct (nextStage (Stage r)) as [next|] eqn:Hn; simpl; [|done].
  case_bool_decide.
  - simpl. intros [u|e]; simpl; [|done]. intros t.
    exact (guarded_record id (Stage r) next "promoted" (Some t) (Wrapf "recording promotion: %w" []) next Hn).
  - simpl. intros [u|e]; simpl; [|done].
    exact (guarded_record id (Stage r) next "running" None (Wrapf "recording stage advance: %w" []) next Hn).
Qed.

(** The rollout has moved past stage [from]. *)
Definition gone (id from : string) (w : Cp S) : Prop :=
  exists r, rows (cp_rollouts w) !! id = Some r /\ past from (at_ r).

Lemma gone_kept id from w w' : cp_history w w' -> gone id from w -> gone id from w'.
Proof.
  intros [H _] (r & Hr & Hp). destruct (H id r Hr) as (r' & Hr' & _ & Ht).
  exists r'. split; [done|]. by eapply past_kept.
Qed.

(** A compare-and-swap that succeeds finds the rollout at its stage and leaves
    it past that stage. *)
Lemma cas_gone id from X (e : CpE X) w :
  legal_cp X e -> is_cas id from X e (cp X e w).1 = true ->
  ~ gone id from w /\ gone id from (cp X e w).2.
Proof.
  intros Hl Hc. destruct e as [X e|X e|X e|X e| |]; try done.
  destruct e; try done. cbn [is_cas legal_cp legal] in *.
  simpl in Hc |- *. unfold on_rows in *.
  destruct (rdb_up (cp_rollouts w)); simpl in *; [|by rewrite !andb_false_r in Hc].
  unfold Cockroach_UpdateRollout in *.
  destruct (rows (cp_rollouts w) !! rolloutID) as [r|] eqn:Hr; [|by rewrite andb_false_r in Hc].
  destruct (bool_decide (Stage r = expectedStage)) eqn:Hs; simpl in *;
    [|by rewrite andb_false_r in Hc].
  destruct (is_running r) eqn:Hrun; simpl in *; [|by rewrite andb_false_r in Hc].
  destruct (known_stage stage && known_status status); simpl in *; [|by rewrite andb_false_r in Hc].
  rewrite andb_true_r in Hc. apply andb_true_iff in Hc as [Hid Hfr].
  unfold is_running in Hrun. apply bool_decide_eq_true in Hid, Hfr, Hs, Hrun. subst.
  split.
  - intros (r0 & Hr0 & Hp). simplify_eq. destruct Hp as [Hp|Hp]; simpl in *; [done|lia].
  - eexists. simpl. rewrite lookup_insert_eq. split; [done|]. by apply transition_past in Hl.
Qed.

Section OneWinner.
Context (id from : string) (n : nat).

Definition settled (p : prog CpE (res string)) : Prop :=
  guarded id from p \/ won_next from p.

(** Of the first [n] threads at most one has won, and then the rollout has
    moved on. *)
Definition winner_inv (c : pool) : Prop :=
  Forall (calls any legal_cp) c.1
  /\ Forall settled (take n c.1)
  /\ (countb is_won (take n c.1) = 0
      \/ countb is_won (take n c.1) = 1 /\ gone id from c.2).

Lemma guarded_not_won p : guarded id from p -> is_won p = false.
Proof. by destruct p as [[]|]. Qed.

Lemma winner_step c c' : winner_inv c -> pstep cp cp_env c c' -> winner_inv c'.
Proof.
  intros (Hl & Hs & Hw) Hst. destruct Hst as [ts w i p p' w' Hi Hp|ts w v]; simpl in *.
  2: { split; [done|]. split; [done|]. destruct Hw as [Hw|[Hw Hg]]; [by left|right].
       split; [done|]. by apply (gone_kept _ _ w), Hg; apply cp_env_history. }
  pose proof (Forall_lookup_1 _ _ _ _ Hl Hi) as Hc.
  destruct p as [a|X e k]; [done|]. simpl in Hp, Hc. destruct Hc as [He Hk].
  pose proof (cp_step_history X e w He) as Hh. pose proof (cas_gone id from X e w He) as Hcas.
  destruct (cp X e w) as [x w2] eqn:Hx. injection Hp as <- <-. simpl in *.
  split; [by apply Forall_insert, Hk|]. cbn [fst snd].
  assert (countb is_won (take n ts) = 0 \/ countb is_won (take n ts) = 1 /\ gone id from w2) as Hw'.
  { destruct Hw as [Hw|[Hw Hg]]; [by left|right]. split; [done|]. by eapply gone_kept. }
  destruct (decide (i < n)%nat) as [Hin|Hin].
  2: { rewrite take_insert_ge by lia. done. }
  rewrite take_insert_lt by done.
  assert (take n ts !! i = Some (Do e k)) as Hti by (by rewrite lookup_take_lt).
  pose proof (Forall_lookup_1 _ _ _ _ Hs Hti) as [Hgu|(s & ? & _)]; [|done].
  simpl in Hgu. specialize (Hgu x).
  rewrite (countb_insert _ _ _ _ _ Hti). simpl (is_won (Do e k)). simpl b2z.
  destruct (is_cas id from X e x) eqn:Hci.
  - destruct (Hcas eq_refl) as [Hng Hg]. split; [apply Forall_insert; [done|by right]|].
    right. split; [|done]. destruct Hw as [->|[_ ?]]; [|done].
    destruct Hgu as (s & -> & _). done.
  - split; [apply Forall_insert; [done|by left]|].
    rewrite (guarded_not_won _ Hgu). simpl b2z. rewrite Z.sub_0_r, Z.add_0_r. done.
Qed.
End OneWinner.

(** C12. One verdict, one advance.  However many replicas act on the same
    analysis verdict for a stage, and whatever else runs or fails around them,
    at most one of their [AutoAdvance] calls succeeds, and what it returns is
    the stage right after the one the verdict was about. *)
Theorem one_advance_per_verdict id from n rs w ds :
  from <> "" ->
  let ts := (sched cp cp_env ds
               (replicate n (serve (DoAutoAdvance id from)) ++ map serve rs, w)).1 in
  countb is_won (take n ts) <= 1
  /\ Forall (fun p => is_won p = true -> won_next from p) (take n ts).
Proof.
  intros Hf. cbv zeta.
  enough (winner_inv id from n (sched cp cp_env ds
            (replicate n (serve (DoAutoAdvance id from)) ++ map serve rs, w))) as (_ & Hs & Hc).
  { split; [lia|]. eapply Forall_impl; [exact Hs|]. simpl.
    intros p [Hg|Hg] Hp; [|done]. by rewrite (guarded_not_won id from) in Hp. }
  apply (sched_invariant cp cp_env (winner_inv id from n)); [|apply winner_step].
  unfold winner_inv. simpl. rewrite take_app_length' by (by rewrite length_replicate).
  split; [apply Forall_app; split; [apply Forall_replicate, (serve_legal (DoAutoAdvance id from))|apply serve_all_legal]|].
  split; [apply Forall_replicate; left; by apply guarded_link, guarded_advance|].
  left. rewrite countb_replicate.
  rewrite (guarded_not_won id from); [simpl; lia|]. by apply guarded_link, guarded_advance.
Qed.
End Deploy.
