(* ===== verification/RolloutSpec.v ===== *)
(** What one call of the rollout service does to the deployment when nothing
    interleaves with it: the outcome of every branch of [advanceStage] and
    [revertCanary], the promotion chain, the revert, and the creation of a
    rollout; and the executions in which calls do interleave or the services
    fail between two writes, as evaluated counterexamples. *)

From S2P Require Import Prelude Errors Prog Json GoTime Signer Etcd Registry Rollout Deploy.
From stdpp Require Import sorting.
#[local] Open Scope Z_scope.

Section Seq.
Context {S : Type} (hsigner : handler SignerE S) (uuid : nat -> string).
Abbreviation cp := (cp hsigner uuid).

Definition set_rows (t : table) (w : Cp S) : Cp S :=
  mkCp (cp_tables w) (mkRDB t (rdb_up (cp_rollouts w)) (db_now (cp_rollouts w))) (cp_etcd w)
    (cp_signer w) (cp_clock w) (cp_drawn w).

Definition set_kv (m : string) (e : ActiveEnvelope) (w : Cp S) : Cp S :=
  mkCp (cp_tables w) (cp_rollouts w)
    (mkEtcd (<[active_key m := print (active_json e)]> (kv (cp_etcd w))) (etcd_up (cp_etcd w)))
    (cp_signer w) (cp_clock w) (cp_drawn w).

Definition set_active (m v : string) (w : Cp S) : Cp S :=
  mkCp (mkTables (model_manifest (cp_tables w)) (<[m := v]> (model_active (cp_tables w)))
          (db_up (cp_tables w)))
    (cp_rollouts w) (cp_etcd w) (cp_signer w) (cp_clock w) (cp_drawn w).

Definition moved (r : Rollout) (stage status : string) (ended : option Z) (now : Z) : Rollout :=
  mkRollout (RolloutID r) (rModelRef r) (rVersionID r) (StrategyJSON r) stage status
    (StableVersionID r) (StartedAt r) ended now.

Definition put_row (id : string) (r : Rollout) (w : Cp S) : Cp S :=
  set_rows (<[id := r]> (rows (cp_rollouts w))) w.

Definition row (id : string) (w : Cp S) : option Rollout := rows (cp_rollouts w) !! id.
Definition now (w : Cp S) : Z := db_now (cp_rollouts w).

(** The guards every advance and revert starts with. *)
Definition guard (id from : string) (w : Cp S) : res Rollout :=
  if negb (rdb_up (cp_rollouts w)) then Err db_error
  else match row id w with
  | None => Err Rollout.ErrNotFound
  | Some r =>
      if negb (bool_decide (from = "")) && negb (bool_decide (Stage r = from))
      then Err ErrConcurrentUpdate
      else if negb (bool_decide (rStatus r = "running")) then Err ErrNotRunning
      else Ok r
  end.

Definition etcd_error : error := Wrapf "publishing active pointer to etcd: %w" [] (Lib "etcd").

Definition advance_outcome (id from : string) (w : Cp S) : res string * Cp S :=
  match guard id from w with
  | Err e => (Err e, w)
  | Ok r =>
      match nextStage (Stage r) with
      | None => (Err ErrAlreadyFullyPromoted, w)
      | Some next =>
          if bool_decide (next = "stable") then
            if negb (db_up (cp_tables w)
                     && bool_decide (is_Some (model_manifest (cp_tables w) !! rVersionID r))) then
              (Err (Wrapf "activating promoted version: %w" []
                      (Wrapf "setting active version: %w" [] db_error)), w)
            else if negb (etcd_up (cp_etcd w)) then
              (Err (Wrapf "activating promoted version: %w" []
                      (Wrapf "publishing active pointer to etcd: %w" [] etcd_error)),
               set_active (rModelRef r) (rVersionID r) w)
            else
              (Ok next,
               put_row id (moved r next "promoted" (Some (cp_clock w)) (now w))
                 (set_kv (rModelRef r) (mkActiveEnvelope (rVersionID r) "" 0)
                    (set_active (rModelRef r) (rVersionID r) w)))
          else if negb (etcd_up (cp_etcd w)) then
            (Err (Wrapf "publishing canary state: %w" [] etcd_error), w)
          else
            (Ok next,
             put_row id (moved r next "running" None (now w))
               (set_kv (rModelRef r)
                  (mkActiveEnvelope (StableVersionID r) (rVersionID r) (stagePercent next)) w))
      end
  end.

Definition revert_outcome (id status from : string) (w : Cp S) : res unit * Cp S :=
  match guard id from w with
  | Err e => (Err e, w)
  | Ok r =>
      if negb (etcd_up (cp_etcd w)) then
        (Err (Wrapf "reverting canary state: %w" [] etcd_error), w)
      else
        (Ok tt,
         put_row id (moved r (Stage r) status (Some (cp_clock w)) (now w))
           (set_kv (rModelRef r) (mkActiveEnvelope (StableVersionID r) "" 0) w))
  end.

Lemma guard_ok id from w r :
  guard id from w = Ok r ->
  rdb_up (cp_rollouts w) = true /\ row id w = Some r /\ rStatus r = "running"
  /\ (from <> "" -> Stage r = from).
Proof.
  unfold guard. destruct (rdb_up _); [|done]. simpl.
  destruct (row id w) as [r'|]; [|done].
  repeat case_bool_decide; simpl; try done; intros [= ->]; done.
Qed.

Lemma next_known s s' : nextStage s = Some s' -> known_stage s' = true /\ known_stage s = true.
Proof.
  unfold nextStage, stageOrder. simpl.
  repeat (case_bool_decide; [subst; simpl; intros [= <-]; vm_compute; done|]). done.
Qed.

(** Running to the result of the guards. *)
Lemma run_guard {A} id from (f : Rollout -> prog RolloutE (res A)) w :
  run cp (deployed
    (r <-? call (Store (GetRollout id)) ;;
     match (r : option Rollout) with
     | None => Ret (Err Rollout.ErrNotFound)
     | Some r =>
         if negb (bool_decide (from = "")) && negb (bool_decide (Stage r = from))
         then Ret (Err ErrConcurrentUpdate)
         else if negb (bool_decide (rStatus r = "running")) then Ret (Err ErrNotRunning)
         else f r
     end)) w
  = match guard id from w with
    | Err e => (Err e, w)
    | Ok r => run cp (deployed (f r)) w
    end.
Proof.
  destruct w as [tb [rt up tn] ke sg ck dr]. unfold guard, row. simpl.
  unfold on_rows. simpl. destruct up; simpl; [|done].
  destruct (rt !! id) as [r|]; simpl; [|done].
  destruct (negb _ && negb _); simpl; [done|].
  destruct (negb _); simpl; done.
Qed.

Lemma update_run id r stage status en t :
  t !! id = Some r -> rStatus r = "running" -> known_stage stage = true ->
  known_status status = true -> forall n,
  Cockroach_UpdateRollout n id (Stage r) stage status en t
    = (Ok tt, <[id := moved r stage status en n]> t).
Proof.
  intros Hr Hs Hk Hk' n. unfold Cockroach_UpdateRollout. rewrite Hr.
  unfold is_running. by rewrite !bool_decide_true, Hk, Hk'.
Qed.

Lemma advance_run id from w :
  run cp (deployed (advanceStage id from)) w = advance_outcome id from w.
Proof.
  unfold advanceStage. rewrite run_guard. unfold advance_outcome.
  destruct (guard id from w) as [r|e] eqn:Hg; [|done].
  apply guard_ok in Hg as (Hup & Hr & Hst & _). unfold row in Hr.
  destruct w as [[mm ma dup] [rt up tn] [k eup] sg ck dr]. simpl in Hup, Hr. subst up.
  destruct (nextStage (Stage r)) as [next|] eqn:Hn; [|done].
  destruct (next_known _ _ Hn) as [Hk _].
  case_bool_decide as Hst'; simpl.
  - destruct dup; simpl; [|done]. unfold Cockroach_SetActive. simpl.
    destruct (mm !! rVersionID r) as [m|] eqn:Hm; simpl; [|done].
    destruct eup; simpl; [|done]. unfold on_rows. simpl.
    rewrite (update_run id r next "promoted" (Some ck) rt Hr Hst Hk eq_refl). done.
  - destruct eup; simpl; [|done]. unfold on_rows. simpl.
    rewrite (update_run id r next "running" None rt Hr Hst Hk eq_refl). done.
Qed.

Lemma revert_run id status from w :
  (forall r, row id w = Some r -> known_stage (Stage r) = true) -> known_status status = true ->
  run cp (deployed (revertCanary id status from)) w = revert_outcome id status from w.
Proof.
  intros Hks Hk'. unfold revertCanary. rewrite run_guard. unfold revert_outcome.
  destruct (guard id from w) as [r|e] eqn:Hg; [|done].
  apply guard_ok in Hg as (Hup & Hr & Hst & _). pose proof (Hks _ Hr) as Hk. unfold row in Hr.
  destruct w as [[mm ma dup] [rt up tn] [k eup] sg ck dr]. simpl in Hup, Hr. subst up.
  simpl. destruct eup; simpl; [|done]. unfold on_rows. simpl.
  rewrite (update_run id r (Stage r) status (Some ck) rt Hr Hst Hk Hk'). done.
Qed.

(** ** The promotion chain *)

Definition healthy (w : Cp S) : Prop :=
  db_up (cp_tables w) = true /\ rdb_up (cp_rollouts w) = true /\ etcd_up (cp_etcd w) = true.

(** Calls one after the other, none interleaving. *)
Fixpoint serve_all (rs : list request) (w : Cp S) : list (res string) * Cp S :=
  match rs with
  | [] => ([], w)
  | r :: rs' =>
      let '(x, w1) := run cp (serve r) w in
      let '(xs, w2) := serve_all rs' w1 in (x :: xs, w2)
  end.

(** What etcd says about a model. *)
Definition published (m : string) (w : Cp S) : option ActiveEnvelope :=
  match active_of_etcd <$> kv (cp_etcd w) !! active_key m with
  | Some (e, None) => Some e
  | _ => None
  end.

Lemma published_set m e w :
  in64 (CanaryPercent e) -> utf8 (Stable e) = true -> utf8 (Canary e) = true ->
  published m (set_kv m e w) = Some e.
Proof.
  intros H1 H2 H3. unfold published, set_kv. simpl. rewrite lookup_insert_eq. simpl.
  by rewrite active_roundtrip.
Qed.

(** A running rollout at [stage], whose version is registered. *)
Definition running_at (id stage : string) (r0 : Rollout) (w : Cp S) : Prop :=
  healthy w
  /\ (exists r, row id w = Some r /\ same_rollout r0 r /\ at_ r = (stage, "running"))
  /\ is_Some (model_manifest (cp_tables w) !! rVersionID r0).

Lemma advance_canary id stage next r0 w :
  running_at id stage r0 w -> nextStage stage = Some next -> next <> "stable" ->
  exists w', run cp (serve (DoPromote id)) w = (Ok next, w')
    /\ running_at id next r0 w'
    /\ cp_clock w' = cp_clock w
    /\ exists w1, w' = put_row id (default r0 (row id w')) (set_kv (rModelRef r0)
         (mkActiveEnvelope (StableVersionID r0) (rVersionID r0) (stagePercent next)) w1).
Proof.
  intros (Hh & (r & Hr & Hs & Ha) & Hm) Hn Hne.
  pose proof Hs as (H1 & H2 & H3 & H4 & H5 & H6). destruct Hh as (Hd & Hu & He).
  unfold at_ in Ha. injection Ha as Hst Hrun.
  cbn [serve]. unfold PromoteRollout. rewrite advance_run. unfold advance_outcome, guard.
  rewrite Hu, Hr, Hrun. simpl. rewrite Hst, Hn, (bool_decide_false _ Hne), He. simpl.
  eexists. split; [done|]. split; [|split; [done|]].
  - split; [done|]. split; [|done].
    eexists. unfold row. simpl. rewrite lookup_insert_eq. done.
  - exists w. unfold row. simpl. rewrite lookup_insert_eq. simpl. by rewrite H2, H3, H5.
Qed.

Lemma advance_promote id r0 w :
  running_at id "canary_50" r0 w ->
  exists w' r', run cp (serve (DoPromote id)) w = (Ok "stable", w')
    /\ healthy w'
    /\ row id w' = Some r' /\ at_ r' = ("stable", "promoted") /\ EndedAt r' = Some (cp_clock w)
    /\ model_active (cp_tables w') !! rModelRef r0 = Some (rVersionID r0)
    /\ kv (cp_etcd w') !! active_key (rModelRef r0)
         = Some (print (active_json (mkActiveEnvelope (rVersionID r0) "" 0))).
Proof.
  intros (Hh & (r & Hr & Hs & Ha) & Hm).
  pose proof Hs as (H1 & H2 & H3 & H4 & H5 & H6). destruct Hh as (Hd & Hu & He).
  unfold at_ in Ha. injection Ha as Hst Hrun.
  cbn [serve]. unfold PromoteRollout. rewrite advance_run. unfold advance_outcome, guard.
  rewrite Hu, Hr, Hrun. simpl. rewrite Hst. simpl. rewrite Hd, He, <- H3.
  rewrite bool_decide_true by done. simpl.
  do 2 eexists. split; [done|]. split; [done|]. split; [apply lookup_insert_eq|].
  split; [done|]. split; [done|]. simpl. rewrite <- H2.
  split; [by rewrite lookup_insert_eq|]. by rewrite lookup_insert_eq.
Qed.

Lemma serve_all_cons r rs x xs w w1 w2 :
  run cp (serve r) w = (x, w1) -> serve_all rs w1 = (xs, w2) ->
  serve_all (r :: rs) w = (x :: xs, w2).
Proof. intros H1 H2. simpl. by rewrite H1, H2. Qed.

(** C15. Promotion reaches stable.  On a healthy deployment, promoting a
    freshly created rollout again and again answers canary_1, canary_10,
    canary_50, stable and then refuses; the rollout ends promoted, and its
    version is the live one, in the database and in etcd, with no canary. *)
Theorem promotion_chain id r0 w :
  running_at id "pending" r0 w ->
  exists w' r',
    serve_all (replicate 5 (DoPromote id)) w
      = ([Ok "canary_1"; Ok "canary_10"; Ok "canary_50"; Ok "stable"; Err ErrNotRunning], w')
    /\ row id w' = Some r' /\ at_ r' = ("stable", "promoted") /\ EndedAt r' = Some (cp_clock w)
    /\ model_active (cp_tables w') !! rModelRef r0 = Some (rVersionID r0)
    /\ (utf8 (rVersionID r0) = true ->
        published (rModelRef r0) w' = Some (mkActiveEnvelope (rVersionID r0) "" 0)).
Proof.
  intros H0.
  destruct (advance_canary id "pending" "canary_1" r0 w H0) as (w1 & E1 & H1 & C1 & _); [done..|].
  destruct (advance_canary id "canary_1" "canary_10" r0 w1 H1) as (w2 & E2 & H2 & C2 & _); [done..|].
  destruct (advance_canary id "canary_10" "canary_50" r0 w2 H2) as (w3 & E3 & H3 & C3 & _); [done..|].
  destruct (advance_promote id r0 w3 H3) as (w4 & r4 & E4 & Hh & Hr & Ha & He & Hm & Hk).
  assert (run cp (serve (DoPromote id)) w4 = (Err ErrNotRunning, w4)) as E5.
  { cbn [serve]. unfold PromoteRollout. rewrite advance_run. unfold advance_outcome, guard.
    destruct Hh as (_ & -> & _). rewrite Hr. unfold at_ in Ha. injection Ha as Hst Hs.
    by rewrite Hs. }
  exists w4, r4. split.
  { repeat (eapply serve_all_cons; [eassumption|]). done. }
  split; [done|]. split; [done|]. split; [by rewrite He, C3, C2, C1|]. split; [done|].
  intros Hv. unfold published. rewrite Hk. simpl. by rewrite active_roundtrip.
Qed.

(** C20. While a rollout is in progress etcd always routes the percentage of
    its stage: after a successful advance to an intermediate stage the
    envelope holds the version that was stable when the rollout began, the
    rollout's version, and 1, 10 or 50 percent; nothing else in etcd
    changes. *)
Theorem advance_publishes_stage id from w next w' r :
  run cp (serve (DoAutoAdvance id from)) w = (Ok next, w') -> next <> "stable" ->
  row id w = Some r ->
  nextStage (Stage r) = Some next
  /\ kv (cp_etcd w') = <[active_key (rModelRef r) := print (active_json
       (mkActiveEnvelope (StableVersionID r) (rVersionID r) (stagePercent next)))]> (kv (cp_etcd w))
  /\ stagePercent next ∈ [1; 10; 50]
  /\ cp_tables w' = cp_tables w.
Proof.
  cbn [serve]. unfold AutoAdvance. rewrite advance_run. unfold advance_outcome.
  intros Hrun Hne Hr. destruct (guard id from w) as [r'|e] eqn:Hg; [|done].
  apply guard_ok in Hg as (_ & Hr' & _). assert (r' = r) as -> by congruence.
  destruct (nextStage (Stage r)) as [n|] eqn:Hn; [|done].
  case_bool_decide as Hst.
  { destruct (negb (_ && _)); [done|]. destruct (negb _); [done|]. by injection Hrun as <- _. }
  destruct (negb _); [done|]. injection Hrun as <- <-. simpl.
  split; [done|]. split; [done|]. split; [|done].
  revert Hn. unfold nextStage, stageOrder. simpl.
  repeat (case_bool_decide; [intros [= <-]; vm_compute; set_solver|]). done.
Qed.

(** C21. The revert.  Aborting (or rolling back) a running rollout restores
    exactly the version that was stable when it began, with no canary, and
    closes the rollout at its stage; everything else is left alone. *)
Theorem revert_restores_stable id r w :
  healthy w -> row id w = Some r -> rStatus r = "running" -> known_stage (Stage r) = true ->
  utf8 (StableVersionID r) = true ->
  exists w', run cp (serve (DoAbort id)) w = (Ok "", w')
    /\ row id w' = Some (moved r (Stage r) "aborted" (Some (cp_clock w)) (now w))
    /\ published (rModelRef r) w' = Some (mkActiveEnvelope (StableVersionID r) "" 0)
    /\ (forall id', id' <> id -> row id' w' = row id' w)
    /\ (forall k, k <> active_key (rModelRef r) -> kv (cp_etcd w') !! k = kv (cp_etcd w) !! k)
    /\ cp_tables w' = cp_tables w.
Proof.
  intros (Hd & Hu & He) Hr Hs Hk Hv. cbn [serve]. unfold no_value, AbortRollout.
  rewrite run_rbind, revert_run; [|by intros ? ?; simplify_eq|done].
  unfold revert_outcome, guard. rewrite Hu, Hr, Hs, He. simpl.
  eexists. split; [done|]. split; [apply lookup_insert_eq|].
  split; [by apply (published_set (rModelRef r))|].
  split; [intros id' Hid; unfold row; simpl; by rewrite lookup_insert_ne|].
  split; [intros k Hk'; simpl; by rewrite lookup_insert_ne|done].
Qed.

(** A refused or failed advance leaves no trace.  Whatever the outages, an
    advance that returns an error has changed neither the rollout table nor
    etcd; the one write it may leave behind is the database's active pointer,
    when etcd fails during the final promotion. *)
Theorem failed_advance_leaves_no_trace id from w e w' :
  run cp (serve (DoAutoAdvance id from)) w = (Err e, w') ->
  cp_rollouts w' = cp_rollouts w /\ cp_etcd w' = cp_etcd w
  /\ (w' = w \/ etcd_up (cp_etcd w) = false /\
       exists r, row id w = Some r /\ nextStage (Stage r) = Some "stable"
                 /\ w' = set_active (rModelRef r) (rVersionID r) w).
Proof.
  cbn [serve]. unfold AutoAdvance. rewrite advance_run. unfold advance_outcome. intros Hrun.
  destruct (guard id from w) as [r|e'] eqn:Hg; [|injection Hrun as _ <-; auto].
  apply guard_ok in Hg as (_ & Hr & _).
  destruct (nextStage (Stage r)) as [n|] eqn:Hn; [|injection Hrun as _ <-; auto].
  case_bool_decide as Hst.
  - destruct (negb (_ && _)); [injection Hrun as _ <-; auto|].
    destruct (etcd_up (cp_etcd w)) eqn:He; simpl in Hrun; [done|].
    injection Hrun as _ <-. split; [done|]. split; [done|]. right. split; [done|].
    exists r. by subst n.
  - destruct (negb _); [injection Hrun as _ <-; auto|done].
Qed.
End Seq.

(** * Creating a rollout *)

Lemma insert_desc_nil r l : insert_desc r l <> [].
Proof. destruct l; simpl; [done|]. by case_match. Qed.

Lemma sort_desc_nil l : sort_desc l = [] -> l = [].
Proof. destruct l as [|r l]; [done|]. simpl. intros H. by apply insert_desc_nil in H. Qed.

Lemma elem_of_all_rows (t : table) id r : t !! id = Some r -> In r (all_rows t).
Proof.
  intros H. unfold all_rows. apply in_map_iff. exists (id, r). split; [done|].
  apply list_elem_of_In, elem_of_map_to_list, H.
Qed.

Lemma no_running_row (t : table) m id r :
  Cockroach_GetRunningRolloutByModelRef m t = None ->
  t !! id = Some r -> rModelRef r = m -> rStatus r <> "running".
Proof.
  unfold Cockroach_GetRunningRolloutByModelRef. intros Hh Hr Hm Hs.
  destruct (sort_desc _) as [|x l] eqn:E; [|done]. apply sort_desc_nil in E.
  apply elem_of_all_rows in Hr.
  assert (In r (List.filter (fun r => of_model m r && is_running r) (all_rows t))) as Hin.
  { apply filter_In. split; [done|]. unfold of_model, is_running. by rewrite !bool_decide_true. }
  by rewrite E in Hin.
Qed.

Section Create.
Context {S : Type} (hsigner : handler SignerE S) `{!LawfulSigner hsigner} (uuid : nat -> string).
Abbreviation cp := (cp hsigner uuid).

(** The row [GetModelManifest] reads, before its signature is checked. *)
Definition read_manifest (m v : string) (w : Cp S) : res Manifest :=
  if negb (db_up (cp_tables w)) then Err db_error
  else if bool_decide (v = "") then Cockroach_GetActiveManifest m (cp_tables w)
  else Cockroach_GetManifestByVersion v (cp_tables w).

Definition set_signer (s : S) (w : Cp S) : Cp S :=
  mkCp (cp_tables w) (cp_rollouts w) (cp_etcd w) s (cp_clock w) (cp_drawn w).

Definition payload_of (m : Manifest) : string :=
  signedPayload (VersionID m) (ModelRef m) (SpecJSON m).

Lemma get_manifest_run m v w :
  run cp (link registry_deps (Registry.GetModelManifest m v)) w =
    match read_manifest m v w with
    | Err e => (Err e, w)
    | Ok x =>
        let '(b, s) := hsigner _ (Verify SigningKeyName (payload_of x) (Signature x)) (cp_signer w) in
        (match b with
         | Err e => Err (Wrapf "verifying manifest signature: %w" [] e)
         | Ok true => Ok x
         | Ok false => Err ErrInvalidSignature
         end, set_signer s w)
    end.
Proof.
  unfold Registry.GetModelManifest, read_manifest.
  destruct w as [[mm ma dup] [rt up tn] ke sg ck dr].
  case_bool_decide; simpl; (destruct dup; simpl; [|done]).
  - destruct (Cockroach_GetActiveManifest _ _); simpl; [|done].
    destruct (hsigner _ _ sg) as [[[]|] s]; done.
  - destruct (Cockroach_GetManifestByVersion _ _); simpl; [|done].
    destruct (hsigner _ _ sg) as [[[]|] s]; done.
Qed.

Lemma get_manifest_ok m v w x w' :
  run cp (link registry_deps (Registry.GetModelManifest m v)) w = (Ok x, w') ->
  read_manifest m v w = Ok x /\ signs (cp_signer w) SigningKeyName (payload_of x) (Signature x)
  /\ exists s, w' = set_signer s w.
Proof.
  rewrite get_manifest_run. destruct (read_manifest m v w) as [x'|e]; [|done].
  destruct (hsigner _ _ _) as [[[]|] s] eqn:Hv; try done. intros [= -> <-].
  apply verify_sound in Hv. eauto.
Qed.

(** Parts of the state that a call has not touched. *)
Definition only_signer (w w' : Cp S) : Prop := exists s, w' = set_signer s w.

Lemma get_manifest_only_signer m v w :
  only_signer w (run cp (link registry_deps (Registry.GetModelManifest m v)) w).2.
Proof.
  rewrite get_manifest_run.
  assert (set_signer (cp_signer w) w = w) as E by (by destruct w).
  destruct (read_manifest m v w); [|exists (cp_signer w); by rewrite E].
  destruct (hsigner _ _ _) as [b s]. by exists s.
Qed.

(** The row a creation inserts. *)
Definition created_row (m v j : string) (stable : Manifest) (w : Cp S) (stage : string) : Rollout :=
  mkRollout (uuid (cp_drawn w)) m v j stage "running" (VersionID stable) (cp_clock w) None
    (db_now (cp_rollouts w)).

(** After the checks: the UUID, the insert, the first advance. *)
Definition create_tail (m v j : string) (stable : Manifest) : prog RolloutE (res string) :=
  rolloutID <- call Rollout.NewUUID ;;
  startedAt <- call Rollout.TimeNow ;;
  let r := mkRollout rolloutID m v j "pending" "running" (VersionID stable) startedAt None zero_time in
  _ <-? wrapped (Wrapf "inserting rollout: %w" []) (call (Store (InsertRollout r))) ;;
  _ <-? wrapped (Wrapf "starting canary: %w" []) (advanceStage rolloutID "") ;;
  Ret (Ok rolloutID).

(** Where the creation may leave etcd and the rollout table. *)
Definition create_result (m v j : string) (stable : Manifest) (w : Cp S) (x : res string) (w' : Cp S)
    : Prop :=
  let id := uuid (cp_drawn w) in
  cp_tables w' = cp_tables w /\
  match x with
  | Ok id' =>
      id' = id /\ row id w = None
      /\ rows (cp_rollouts w') = <[id := created_row m v j stable w "canary_1"]> (rows (cp_rollouts w))
      /\ kv (cp_etcd w') = <[active_key m := print (active_json
            (mkActiveEnvelope (VersionID stable) v 1))]> (kv (cp_etcd w))
  | Err e =>
      cp_etcd w' = cp_etcd w
      /\ (rows (cp_rollouts w') = rows (cp_rollouts w)
          \/ etcd_up (cp_etcd w) = false /\
             rows (cp_rollouts w') = <[id := created_row m v j stable w "pending"]> (rows (cp_rollouts w)))
  end.

Lemma advance_inserted m v j stable (w : Cp S) t k sg ck dr tn :
  let id := uuid (cp_drawn w) in
  let r := created_row m v j stable w "pending" in
  let w1 := mkCp t (mkRDB (<[id := r]> (rows (cp_rollouts w))) true tn) k sg ck dr in
  run cp (deployed (advanceStage id "")) w1 =
    if etcd_up k then (Ok "canary_1", put_row id (moved r "canary_1" "running" None tn)
              (set_kv m (mkActiveEnvelope (VersionID stable) v 1) w1))
    else (Err (Wrapf "publishing canary state: %w" [] etcd_error), w1).
Proof.
  intros id r w1. rewrite advance_run. unfold advance_outcome, guard, row. simpl.
  rewrite lookup_insert_eq. simpl. by destruct (etcd_up k).
Qed.

Lemma create_tail_run m v j stable w x w' :
  run cp (deployed (create_tail m v j stable)) w = (x, w') -> create_result m v j stable w x w'.
Proof.
  rewrite run_deployed. unfold create_tail, create_result, row.
  destruct w as [tb [rt up tn] [k eup] sg ck dr].
  rewrite run_bind, run_call, svc_uuid. cbn [Deploy.cp].
  rewrite run_bind, run_call, svc_now. cbn [Deploy.cp].
  cbv zeta. rewrite run_rbind, run_wrapped, run_call, svc_store.
  cbn [Deploy.cp cockroach_rollouts cp_rollouts cp_clock cp_drawn cp_tables cp_etcd rows].
  unfold on_rows. cbn [rdb_up rows db_now]. destruct up; cbn [map_err fst snd rows];
    [|intros [= <- <-]; simpl; auto].
  unfold Cockroach_InsertRollout. cbn [RolloutID Stage rStatus]. simpl (known_stage _).
  simpl (known_status _). simpl negb. rewrite !orb_false_r.
  case_bool_decide as Hin; cbn [map_err fst snd]; [intros [= <- <-]; simpl; auto|].
  apply eq_None_not_Some in Hin.
  rewrite run_rbind, run_wrapped, <- run_deployed.
  pose proof (advance_inserted m v j stable (mkCp tb (mkRDB rt true tn) (mkEtcd k eup) sg ck dr)
                tb (mkEtcd k eup) sg ck (1 + dr)%nat tn) as Ha.
  unfold created_row in Ha. cbn [cp_drawn cp_rollouts cp_clock rows db_now etcd_up] in Ha.
  cbn [rModelRef rVersionID StrategyJSON StableVersionID StartedAt Stage rStatus cp_signer].
  rewrite Ha. destruct eup; cbn [map_err fst snd].
  - intros [= <- <-]. simpl. rewrite insert_insert_eq. auto.
  - intros [= <- <-]. simpl. split; [done|]. split; [done|]. right. done.
Qed.

(** What the created rollout was checked against. *)
Definition create_checked (m v : string) (act : Manifest) (w : Cp S) : Prop :=
  (exists target, read_manifest m v w = Ok target
     /\ signs (cp_signer w) SigningKeyName (payload_of target) (Signature target))
  /\ read_manifest m "" w = Ok act
  /\ signs (cp_signer w) SigningKeyName (payload_of act) (Signature act)
  /\ (forall id r, row id w = Some r -> rModelRef r = m -> rStatus r <> "running").

Lemma svc_get m v w :
  svc hsigner uuid _ (Reg (GetModelManifest m v)) w
    = run cp (link registry_deps (Registry.GetModelManifest m v)) w.
Proof. done. Qed.

Lemma signs_set s w k m v b (x : Manifest) :
  hsigner _ (Verify k m v) (cp_signer w) = (b, s) ->
  signs (cp_signer (set_signer s w)) SigningKeyName (payload_of x) (Signature x) ->
  signs (cp_signer w) SigningKeyName (payload_of x) (Signature x).
Proof.
  intros Hv Hs. simpl in Hs.
  apply (signs_stable _ (Verify k m v) (cp_signer w)). by rewrite Hv.
Qed.

Lemma get_ok_signer m v w x w' y :
  run cp (link registry_deps (Registry.GetModelManifest m v)) w = (Ok x, w') ->
  signs (cp_signer w') SigningKeyName (payload_of y) (Signature y) ->
  signs (cp_signer w) SigningKeyName (payload_of y) (Signature y).
Proof.
  rewrite get_manifest_run. destruct (read_manifest m v w) as [x'|e]; [|done].
  destruct (hsigner _ _ _) as [b s] eqn:Hv. intros [= _ <-]. by eapply signs_set.
Qed.

Lemma get_err_signer m v w e w' :
  run cp (link registry_deps (Registry.GetModelManifest m v)) w = (Err e, w') -> only_signer w w'.
Proof. intros H. pose proof (get_manifest_only_signer m v w) as Ho. by rewrite H in Ho. Qed.

Lemma create_run m v j w x w' :
  run cp (deployed (CreateRollout m v j)) w = (x, w') ->
  (exists e, x = Err e /\ only_signer w w')
  \/ (valid j = true /\ exists act, create_checked m v act w /\ create_result m v j act w x w').
Proof.
  assert (only_signer w w) as Hrefl by (exists (cp_signer w); by destruct w).
  rewrite run_deployed. unfold CreateRollout. destruct (valid j); simpl negb; cbv iota;
    [|intros [= <- <-]; left; eauto].
  rewrite run_rbind, run_wrapped, run_call, svc_get.
  destruct (run cp _ w) as [[target|e] w1] eqn:E1; cbn [map_err fst snd];
    [|intros [= <- <-]; left; eauto using get_err_signer].
  destruct (get_manifest_ok _ _ _ _ _ E1) as (R1 & S1 & s1 & H1).
  rewrite run_rbind, run_wrapped, run_call, svc_get.
  destruct (run cp _ w1) as [[act|e] w2] eqn:E2; cbn [map_err fst snd].
  2: { intros [= <- <-]. left. eexists. split; [done|].
       apply get_err_signer in E2 as [s2 ->]. subst w1. by exists s2. }
  destruct (get_manifest_ok _ _ _ _ _ E2) as (R2 & S2 & s2 & H2).
  apply (get_ok_signer _ _ _ _ _ _ E1) in S2.
  assert (w2 = set_signer s2 w) as H2' by (subst; done). clear E1 E2 H2.
  rewrite run_rbind, run_wrapped, run_call, svc_store, H2'.
  cbn [Deploy.cp cockroach_rollouts cp_rollouts set_signer]. unfold on_rows.
  destruct (rdb_up (cp_rollouts w)) eqn:Hup; cbn [map_err fst snd].
  2: { intros [= <- <-]. left. eexists. split; [done|]. exists s2. by destruct w. }
  destruct (Cockroach_GetRunningRolloutByModelRef m (rows (cp_rollouts w))) as [r|] eqn:Hrun.
  { intros [= <- <-]. left. eexists. split; [done|]. exists s2. destruct w as [? []]. simpl in *. by subst. }
  fold (create_tail m v j act). rewrite <- run_deployed. intros Ht.
  right. split; [done|]. exists act. subst w1. split.
  - split; [eauto|]. split; [exact R2|]. split; [done|].
    intros id r Hr. unfold row in Hr. by eapply no_running_row.
  - apply create_tail_run in Ht. destruct w as [tb [rt up tn] ke sg ck dr].
    simpl in Hup. subst up. exact Ht.
Qed.

(** Creation.  A [CreateRollout] that succeeds was checked against a
    signed target version and the signed live version, found no running
    rollout of that model, and leaves one new row, already at canary_1, and
    one percent of the traffic in etcd; the registry is untouched.  One that
    fails leaves etcd and the registry as they were, and the rollout table too
    unless etcd was down, when the pending row stays. *)
Theorem create_rollout_outcome m v j w x w' :
  run cp (serve (DoCreate m v j)) w = (x, w') ->
  cp_tables w' = cp_tables w /\
  match x with
  | Ok id =>
      exists act, create_checked m v act w
      /\ id = uuid (cp_drawn w) /\ row id w = None
      /\ rows (cp_rollouts w')
           = <[id := created_row m v j act w "canary_1"]> (rows (cp_rollouts w))
      /\ kv (cp_etcd w') = <[active_key m := print (active_json
             (mkActiveEnvelope (VersionID act) v 1))]> (kv (cp_etcd w))
  | Err _ =>
      cp_etcd w' = cp_etcd w
      /\ (rows (cp_rollouts w') = rows (cp_rollouts w)
          \/ etcd_up (cp_etcd w) = false /\ exists act,
             rows (cp_rollouts w') = <[uuid (cp_drawn w) := created_row m v j act w "pending"]>
                                       (rows (cp_rollouts w)))
  end.
Proof.
  cbn [serve]. intros H. apply create_run in H as [(e & -> & s & ->)|(Hv & act & Hc & Hr)].
  - simpl. auto.
  - destruct Hr as [Ht Hr]. split; [done|]. destruct x as [id|e].
    + destruct Hr as (-> & Hn & Hr & Hk). eauto 10.
    + destruct Hr as (He & [Hr|[Hd Hr]]); eauto 10.
Qed.
End Create.

(** * Concrete deployments *)

Definition t0 : Z := 1767225600 * second.

Definition signed (v m j : string) : Manifest :=
  mkManifest v m j (clear_sig SigningKeyName (signedPayload v m j)) "ci" t0 "published".

(** Two versions of openai, of which v1 is live, and one of anthropic. *)
Definition test_tables : Tables :=
  mkTables {[ "v1" := signed "v1" "openai" "[1]"; "v2" := signed "v2" "openai" "[2]";
              "a1" := signed "a1" "anthropic" "[3]" ]}
           {[ "openai" := "v1" ]} true.

Definition row_at (stage : string) : Rollout :=
  mkRollout "r1" "openai" "v2" "[]" stage "running" "v1" t0 None t0.

Definition deployment (rs : table) (etcd_ok : bool) : Cp unit :=
  mkCp test_tables (mkRDB rs true t0) (mkEtcd ∅ etcd_ok) tt t0 0.

Definition with_rollout (stage : string) : Cp unit := deployment {[ "r1" := row_at stage ]} true.

Abbreviation test_cp := (Deploy.cp clear_signer test_uuid).

(** An execution of [serve]d requests. *)
Definition execute (rs : list request) (ds : list (decision (V := event))) (w : Cp unit)
    : list (option (res string)) * Cp unit :=
  let c := sched test_cp cp_env ds (map serve rs, w) in
  (map (fun p => match p with Ret x => Some x | _ => None end) c.1, c.2).

Lemma promotion_chain_witness :
  exists w' r',
    serve_all clear_signer test_uuid (replicate 5 (DoPromote "r1")) (with_rollout "pending")
      = ([Ok "canary_1"; Ok "canary_10"; Ok "canary_50"; Ok "stable"; Err ErrNotRunning], w')
    /\ row "r1" w' = Some r' /\ at_ r' = ("stable", "promoted")
    /\ EndedAt r' = Some t0
    /\ model_active (cp_tables w') !! "openai" = Some "v2"
    /\ (utf8 "v2" = true -> published "openai" w' = Some (mkActiveEnvelope "v2" "" 0)).
Proof.
  apply (promotion_chain clear_signer test_uuid "r1" (row_at "pending") (with_rollout "pending")).
  split; [repeat split|]. split; [|vm_compute; by eexists].
  exists (row_at "pending"). repeat split; reflexivity.
Defined.

Lemma advance_publishes_stage_witness :
  let w := with_rollout "canary_1" in
  let w' := (run test_cp (serve (DoAutoAdvance "r1" "canary_1")) w).2 in
  kv (cp_etcd w') = <[active_key "openai" := print (active_json (mkActiveEnvelope "v1" "v2" 10))]>
                      (kv (cp_etcd w)).
Proof.
  intros w w'.
  destruct (advance_publishes_stage clear_signer test_uuid "r1" "canary_1" w "canary_10" w'
              (row_at "canary_1")) as (_ & H & _); [vm_compute; reflexivity|discriminate|reflexivity|].
  exact H.
Defined.

Lemma revert_restores_stable_witness :
  exists w', run test_cp (serve (DoAbort "r1")) (with_rollout "canary_10") = (Ok "", w')
    /\ row "r1" w' = Some (moved (row_at "canary_10") "canary_10" "aborted" (Some t0) t0)
    /\ published "openai" w' = Some (mkActiveEnvelope "v1" "" 0).
Proof.
  destruct (revert_restores_stable clear_signer test_uuid "r1" (row_at "canary_10")
              (with_rollout "canary_10")) as (w' & H1 & H2 & H3 & _);
    [repeat split|reflexivity..|].
  exists w'. auto.
Defined.

Lemma failed_advance_leaves_no_trace_witness :
  let w := deployment {[ "r1" := row_at "canary_50" ]} false in
  let w' := (run test_cp (serve (DoAutoAdvance "r1" "canary_50")) w).2 in
  cp_rollouts w' = cp_rollouts w /\ cp_etcd w' = cp_etcd w
  /\ model_active (cp_tables w') !! "openai" = Some "v2".
Proof.
  intros w w'.
  destruct (failed_advance_leaves_no_trace clear_signer test_uuid "r1" "canary_50" w
              (Wrapf "activating promoted version: %w" []
                 (Wrapf "publishing active pointer to etcd: %w" [] etcd_error)) w')
    as (H1 & H2 & _); [vm_compute; reflexivity|].
  split; [exact H1|]. split; [exact H2|]. vm_compute. reflexivity.
Defined.

Lemma create_rollout_outcome_witness :
  let w := deployment ∅ true in
  let w' := (run test_cp (serve (DoCreate "openai" "v2" "[]")) w).2 in
  cp_tables w' = cp_tables w
  /\ rows (cp_rollouts w') = {[ "uuid-0" := created_row test_uuid "openai" "v2" "[]"
                                  (signed "v1" "openai" "[1]") w "canary_1" ]}.
Proof.
  intros w w'.
  destruct (create_rollout_outcome clear_signer test_uuid "openai" "v2" "[]" w (Ok "uuid-0") w')
    as (H & act & (_ & Hact & _) & _ & _ & Hr & _); [vm_compute; reflexivity|].
  split; [exact H|]. rewrite Hr. vm_compute in Hact. injection Hact as <-. reflexivity.
Defined.

(** * Interleavings the compare-and-swap does not cover *)

(** The etcd write precedes the compare-and-swap.  An advance from canary_1
      that is overtaken by an operator's abort answers [ErrConcurrentUpdate],
      and the rollout is recorded as aborted, but etcd is left routing ten
      percent of the traffic to the aborted version. *)
Theorem refused_advance_still_published :
  let '(answers, w) :=
    execute [DoAutoAdvance "r1" "canary_1"; DoAbort "r1"]
      [Run 0; Run 1; Run 1; Run 1; Run 1; Run 0; Run 0]%nat (with_rollout "canary_1") in
  answers = [Some (Err (Wrapf "recording stage advance: %w" [] ErrConcurrentUpdate)); Some (Ok "")]
  /\ at_ <$> row "r1" w = Some ("canary_1", "aborted")
  /\ published "openai" w = Some (mkActiveEnvelope "v1" "v2" 10).
Proof. vm_compute. auto. Qed.

(** The same at the last stage: a promotion overtaken by an abort is
      refused and the rollout recorded as aborted, yet the aborted version has
      become the live one for all traffic, in the database and in etcd. *)
Theorem refused_promotion_still_activated :
  let '(answers, w) :=
    execute [DoPromote "r1"; DoAbort "r1"]
      [Run 0; Run 1; Run 1; Run 1; Run 1; Run 0; Run 0; Run 0; Run 0]%nat (with_rollout "canary_50") in
  answers = [Some (Err (Wrapf "recording promotion: %w" [] ErrConcurrentUpdate)); Some (Ok "")]
  /\ at_ <$> row "r1" w = Some ("canary_50", "aborted")
  /\ model_active (cp_tables w) !! "openai" = Some "v2"
  /\ published "openai" w = Some (mkActiveEnvelope "v2" "" 0).
Proof. vm_compute. auto. Qed.

(** The running rollouts of a model. *)
Definition running_of (m : string) (w : Cp unit) : Z :=
  countb (fun r => of_model m r && is_running r) (all_rows (rows (cp_rollouts w))).

(** The check for a running rollout and the insert are two statements:
      two creations for one model that interleave both succeed, and the model
      has two running rollouts. *)
Theorem concurrent_creates_both_succeed :
  let '(answers, w) :=
    execute [DoCreate "openai" "v2" "[]"; DoCreate "openai" "v2" "[]"]
      (replicate 6 (Run 0%nat) ++ replicate 12 (Run 1%nat) ++ replicate 12 (Run 0%nat))
      (deployment ∅ true) in
  answers = [Some (Ok "uuid-0"); Some (Ok "uuid-1")] /\ running_of "openai" w = 2.
Proof. vm_compute. auto. Qed.

(** A version of another model is accepted: [GetModelManifest] ignores the
      model name when a version is named, so a rollout of openai can be created
      with anthropic's version and promoted until it is openai's live version. *)
Theorem foreign_version_promoted :
  let '(answers, w) :=
    serve_all clear_signer test_uuid
      [DoCreate "openai" "a1" "[]"; DoPromote "uuid-0"; DoPromote "uuid-0"; DoPromote "uuid-0"]
      (deployment ∅ true) in
  answers = [Ok "uuid-0"; Ok "canary_10"; Ok "canary_50"; Ok "stable"]
  /\ model_active (cp_tables w) !! "openai" = Some "a1"
  /\ ModelRef <$> model_manifest (cp_tables w) !! "a1" = Some "anthropic".
Proof. vm_compute. auto. Qed.

(** A creation that fails because etcd is down has already inserted its
      row: the caller gets an error, a retry is refused with
      [ErrAlreadyRunning], and the row is still a running rollout that the next
      advance takes to canary_1. *)
Theorem failed_create_leaves_running_rollout :
  let '(answers, w) :=
    execute [DoCreate "openai" "v2" "[]"; DoCreate "openai" "v2" "[]"; DoAutoAdvance "uuid-0" "pending"]
      (replicate 12 (Run 0%nat) ++ [Env (SetEtcd true)] ++ replicate 12 (Run 1%nat)
         ++ replicate 4 (Run 2%nat))
      (deployment ∅ false) in
  answers = [Some (Err (Wrapf "starting canary: %w" [] (Wrapf "publishing canary state: %w" [] etcd_error)));
             Some (Err ErrAlreadyRunning); Some (Ok "canary_1")]
  /\ published "openai" w = Some (mkActiveEnvelope "v1" "v2" 1).
Proof. vm_compute. auto. Qed.

Lemma one_advance_per_verdict_witness :
  let ts := (sched test_cp cp_env
     [Run 0; Run 1; Run 0; Run 1; Run 1; Run 0]%nat
     (replicate 2 (serve (DoAutoAdvance "r1" "canary_1")) ++ map serve [DoAbort "r1"],
      with_rollout "canary_1")).1 in
  countb is_won (take 2 ts) <= 1
  /\ Forall (fun p => is_won p = true -> won_next "canary_1" p) (take 2 ts).
Proof.
  apply (one_advance_per_verdict clear_signer test_uuid "r1" "canary_1" 2 [DoAbort "r1"]).
  discriminate.
Defined.

(** In that execution exactly one of the two did. *)
Lemma two_replicas_one_winner :
  (execute [DoAutoAdvance "r1" "canary_1"; DoAutoAdvance "r1" "canary_1"]
     [Run 0; Run 1; Run 0; Run 1; Run 1; Run 0]%nat (with_rollout "canary_1")).1
  = [Some (Err (Wrapf "recording stage advance: %w" [] ErrConcurrentUpdate)); Some (Ok "canary_10")].
Proof. vm_compute. reflexivity. Qed.

(** * Listing *)

Definition newer (r r' : Rollout) : Prop := StartedAt r' <= StartedAt r.

Lemma insert_desc_perm r l : insert_desc r l ≡ₚ r :: l.
Proof.
  induction l as [|r' l IH]; simpl; [done|]. case_match; [done|].
  rewrite IH. apply Permutation_swap.
Qed.

Lemma sort_desc_perm l : sort_desc l ≡ₚ l.
Proof. induction l as [|r l IH]; simpl; [done|]. by rewrite insert_desc_perm, IH. Qed.

Lemma insert_desc_sorted r l : Sorted newer l -> Sorted newer (insert_desc r l).
Proof.
  intros Hs. induction Hs as [|r' l Hs IH Hd]; simpl; [by repeat constructor|].
  destruct (_ <=? _) eqn:E; zbool.
  - constructor; [by constructor|]. by constructor.
  - constructor; [done|]. destruct l as [|r2 l]; simpl in *.
    + constructor. unfold newer. lia.
    + destruct (StartedAt r2 <=? StartedAt r); constructor; unfold newer; [lia|by inversion Hd].
Qed.

Lemma sort_desc_sorted l : Sorted newer (sort_desc l).
Proof. induction l; simpl; [constructor|]. by apply insert_desc_sorted. Qed.

Lemma Sorted_take {A} (R : A -> A -> Prop) n l : Sorted R l -> Sorted R (take n l).
Proof.
  intros Hs. revert n. induction Hs as [|x l Hs IH Hd]; intros [|n]; simpl; try by constructor.
  constructor; [apply IH|]. destruct Hd; destruct n; simpl; by constructor.
Qed.

(** The rows a listing may show. *)
Definition matching (m : string) (t : table) : list Rollout :=
  if bool_decide (m = "") then all_rows t else List.filter (of_model m) (all_rows t).

Lemma Sorted_split {A} (R : A -> A -> Prop) `{!Transitive R} n l :
  Sorted R l -> Forall (fun x => Forall (R x) (drop n l)) (take n l).
Proof.
  intros Hs. apply Sorted_StronglySorted in Hs; [|exact transitivity].
  revert n. induction Hs as [|x l Hs IH Hx]; intros [|n]; simpl; try by constructor.
  constructor; [by apply Forall_drop|apply IH].
Qed.

#[export] Instance newer_trans : Transitive newer.
Proof. unfold newer. intros x y z. lia. Qed.

Lemma clamp_limit_range limit : 1 <= clamp_limit limit <= 500.
Proof.
  unfold clamp_limit, maxRolloutListLimit, DefaultRolloutListLimit.
  destruct (limit <=? 0) eqn:E; zbool; [vm_compute; split; congruence|].
  destruct (500 <? limit) eqn:E'; zbool; lia.
Qed.

(** Listing is bounded: whatever limit a caller asks for, the store is
    asked for between 1 and 500 rows, 50 by default; the answer holds the
    newest rows of the requested model, newest first, as many as exist up to
    that limit, and changes nothing. *)
Theorem list_rollouts_bounded {S} (hsigner : handler SignerE S) uuid m limit (w : Cp S) :
  rdb_up (cp_rollouts w) = true ->
  let limit' := clamp_limit limit in
  1 <= limit' <= 500
  /\ (1 <= limit <= 500 -> limit' = limit) /\ (limit <= 0 -> limit' = 50)
  /\ exists l, run (Deploy.cp hsigner uuid) (deployed (Service_ListRollouts m limit)) w = (Ok l, w)
     /\ Z.of_nat (length l) = Z.min limit' (Z.of_nat (length (matching m (rows (cp_rollouts w)))))
     /\ Sorted newer l
     /\ exists rest, l ++ rest ≡ₚ matching m (rows (cp_rollouts w))
         /\ Forall (fun r => Forall (newer r) rest) l.
Proof.
  intros Hup limit'. pose proof (clamp_limit_range limit) as Hr. split; [exact Hr|].
  split.
  { subst limit'. unfold clamp_limit, maxRolloutListLimit. intros.
    rewrite (proj2 (Z.leb_gt _ _)) by lia. by rewrite (proj2 (Z.ltb_ge _ _)) by lia. }
  split.
  { subst limit'. unfold clamp_limit. intros. by rewrite (proj2 (Z.leb_le _ _)) by lia. }
  set (t := rows (cp_rollouts w)).
  exists (take (Z.to_nat limit') (sort_desc (matching m t))). split.
  { destruct w as [tb [rt up tn] ke sg ck dr]. simpl in Hup. subst up. done. }
  split; [rewrite length_take, sort_desc_perm; lia|].
  split; [apply Sorted_take, sort_desc_sorted|].
  exists (drop (Z.to_nat limit') (sort_desc (matching m t))). split.
  - by rewrite take_drop, sort_desc_perm.
  - apply Sorted_split, sort_desc_sorted. apply _.
Qed.

Lemma list_rollouts_bounded_witness :
  exists l, run test_cp (deployed (Service_ListRollouts "openai" 1000)) (with_rollout "canary_1")
    = (Ok l, with_rollout "canary_1") /\ l = [row_at "canary_1"].
Proof.
  destruct (list_rollouts_bounded clear_signer test_uuid "openai" 1000 (with_rollout "canary_1"))
    as (_ & _ & _ & l & Hl & _); [reflexivity|].
  exists l. split; [exact Hl|]. vm_compute in Hl. injection Hl as <-. reflexivity.
Defined.
