(* ===== verification/RolloutWrites.v ===== *)
(** control-plane/internal/rollout under any interleaving: what an advance and a
    creation write.

    [RolloutSpec] runs one RPC alone.  Here an RPC is one of any number in flight,
    between its statements the others run, time passes and the database and etcd
    fail and recover.  [writes] are the writes it attempted, each with whether it
    was accepted, so nothing is said of a write that is refused but may have
    happened.  An advance carries out the plan of the row it read ([advance_plan])
    and answers with an error exactly when a write of the plan is refused, the last
    one it attempts. *)

From S2P Require Import Prelude Errors Prog Histories Json GoTime Signer Etcd Registry Rollout Deploy RolloutSpec.
#[local] Open Scope Z_scope.

Inductive write :=
| WManifest (versionID modelRef specJSON signature createdBy : string) (createdAt : Z)
| WActive (modelRef versionID : string)
| WInsert (r : Rollout)
| WUpdate (rolloutID expectedStage stage status : string) (endedAt : option Z)
| WPut (key value : string).

(** The write a call attempts, and whether it was accepted. *)
Definition written (a : answered CpE) : list (write * bool) :=
  match a with
  | existT X (e, x) =>
      match e in CpE X return X -> list (write * bool) with
      | DbRegistry e =>
          match e in Registry.StoreE X return X -> list (write * bool) with
          | InsertManifest v m j s c t => fun x => [(WManifest v m j s c t, is_ok x)]
          | SetActive m v => fun x => [(WActive m v, is_ok x)]
          | _ => fun _ => []
          end
      | DbRollout e =>
          match e in Rollout.StoreE X return X -> list (write * bool) with
          | InsertRollout r => fun x => [(WInsert r, is_ok x)]
          | UpdateRollout id ex st status en => fun x => [(WUpdate id ex st status en, is_ok x)]
          | _ => fun _ => []
          end
      | EtcdCall e =>
          match e in EtcdE X return X -> list (write * bool) with
          | EtcdPut k v => fun x => [(WPut k v, is_ok x)]
          end
      | _ => fun _ => []
      end x
  end.

Definition writes (tr : list (answered CpE)) : list (write * bool) := concat (map written tr).

Lemma writes_snoc tr {X} (e : CpE X) x : writes (tr ++ [answer_to e x]) = writes tr ++ written (answer_to e x).
Proof. unfold writes. rewrite map_app, concat_app. cbn [map concat]. by rewrite app_nil_r. Qed.

(** The whole plan was carried out. *)
Definition completed (plan : list write) : list (write * bool) := map (fun w => (w, true)) plan.

(** The plan was carried out up to a write that was refused, the last attempted. *)
Definition cut_short (plan : list write) (l : list (write * bool)) : Prop :=
  exists before refused after, plan = before ++ refused :: after /\ l = completed before ++ [(refused, false)].

(** What an advance writes that read row [r], whose next stage is [next]; [t] is
    the time it takes for the end of the rollout. *)
Definition advance_plan (id : string) (r : Rollout) (next : string) (t : Z) : list write :=
  let routing e := WPut (active_key (rModelRef r)) (print (active_json e)) in
  if bool_decide (next = "stable") then
    [WActive (rModelRef r) (rVersionID r); routing (mkActiveEnvelope (rVersionID r) "" 0);
     WUpdate id (Stage r) next "promoted" (Some t)]
  else
    [routing (mkActiveEnvelope (StableVersionID r) (rVersionID r) (stagePercent next));
     WUpdate id (Stage r) next "running" None].

Section Writes.
Context {S : Type} (hsigner : handler SignerE S) `{!LawfulSigner hsigner} (uuid : nat -> string).
Abbreviation cp := (Deploy.cp hsigner uuid).
Context (during : Cp S -> Prop).

(** Every answer is given by a state of the execution. *)
Definition given : forall X, CpE X -> X -> Prop := fun X e x => exists w, during w /\ x = (cp X e w).1.

(** ** The advance *)

(** The row was read at some moment and passed the guards. *)
Definition may_advance (id from : string) (r : Rollout) (next : string) : Prop :=
  exists w, during w /\ guard id from w = Ok r /\ nextStage (Stage r) = Some next.

Definition advance_story (id from : string) (l : list (write * bool)) (x : res string) : Prop :=
  match x with
  | Ok next => exists r t, may_advance id from r next /\ l = completed (advance_plan id r next t)
  | Err e =>
      (l = [] /\ exists w, during w /\
         (guard id from w = Err e
          \/ exists r, guard id from w = Ok r /\ nextStage (Stage r) = None /\ e = ErrAlreadyFullyPromoted))
      \/ exists r next t, may_advance id from r next /\ cut_short (advance_plan id r next t) l
  end.

(** What a call adds to the writes. *)
Definition adds {A} (Q : list (write * bool) -> A -> Prop) (tr0 : list (answered CpE)) (tr : list (answered CpE)) (a : A) : Prop :=
  exists l, writes tr = writes tr0 ++ l /\ Q l a.

Lemma given_read id x : given _ (DbRollout (GetRollout id)) x ->
  exists w : Cp S, during w /\ x = if rdb_up (cp_rollouts w) then Ok (row id w) else Err db_error.
Proof.
  intros (w & Hw & ->). exists w. split; [done|]. cbn [Deploy.cp cockroach_rollouts]. unfold on_rows, row.
  by destruct (rdb_up (cp_rollouts w)).
Qed.

Lemma guard_read id from (w : Cp S) :
  guard id from w = match (if rdb_up (cp_rollouts w) then Ok (row id w) else Err db_error : res (option Rollout)) with
    | Err e => Err e
    | Ok None => Err Rollout.ErrNotFound
    | Ok (Some r) =>
        if negb (bool_decide (from = "")) && negb (bool_decide (Stage r = from)) then Err ErrConcurrentUpdate
        else if negb (bool_decide (rStatus r = "running")) then Err ErrNotRunning else Ok r
    end.
Proof. unfold guard. by destruct (rdb_up _). Qed.

Lemma advance_returns id from tr :
  returns given (adds (advance_story id from) tr) tr (deployed (advanceStage id from)).
Proof.
  unfold advanceStage, deployed. cbn [rbind bind call link rollout_deps]. intros x Hx. apply given_read in Hx as (w & Hw & ->).
  pose proof (guard_read id from w) as Hg. set (tr1 := tr ++ _). assert (writes tr1 = writes tr) as Htr1
    by (unfold tr1; by rewrite writes_snoc, app_nil_r).
  assert (Hend : forall l x tr', writes tr' = writes tr ++ l -> advance_story id from l x -> adds (advance_story id from) tr tr' x).
  { intros l y tr' Hl Hs. by exists l. }
  assert (Hstop : forall e, guard id from w = Err e -> adds (advance_story id from) tr tr1 (Err e)).
  { intros e He. apply (Hend []); [by rewrite app_nil_r|]. left. split; [done|]. exists w. auto. }
  revert Hg. generalize (if rdb_up (cp_rollouts w) then Ok (row id w) else Err db_error). intros x0 Hg.
  destruct x0 as [[r|]|e]; cbn [link bind]; [|by apply Hstop..]. revert Hg.
  destruct (negb _ && negb _); cbn [link bind]; [by intros Hg; apply Hstop|].
  destruct (negb _); cbn [link bind]; intros Hg; [by apply Hstop|].
  destruct (nextStage (Stage r)) as [next|] eqn:Hn; cbn [link bind].
  2:{ apply (Hend []); [by rewrite app_nil_r|]. left. split; [done|]. exists w. eauto 6. }
  assert (Hmay : may_advance id from r next) by by exists w.
  assert (Hok : forall tr' l t, writes tr' = writes tr ++ l -> l = completed (advance_plan id r next t) ->
            adds (advance_story id from) tr tr' (Ok next)) by (intros tr' l t Hl ->; apply (Hend _ _ _ Hl); by exists r, t).
  assert (Hcut : forall tr' l t before refused after e, writes tr' = writes tr ++ l ->
            advance_plan id r next t = before ++ refused :: after -> l = completed before ++ [(refused, false)] ->
            adds (advance_story id from) tr tr' (Err e)).
  { intros tr' l t before refused after e Hl Hp ->. apply (Hend _ _ _ Hl). right. exists r, next, t. split; [done|].
    by exists before, refused, after. }
  unfold advance_plan in Hok, Hcut. case_bool_decide as Hst; rewrite ?(bool_decide_true _ Hst), ?(bool_decide_false _ Hst) in *;
    cbn [link bind wrapped call rollout_deps rbind Registry.ActivateVersion registry_deps over_etcd etcd_publisher
         Etcd.PublishCanaryState].
  - intros [[]|e1] _; cbn [link bind map_err registry_deps over_etcd etcd_publisher Etcd.PublishActive].
    2:{ eapply (Hcut _ _ 0 []); [by rewrite writes_snoc, Htr1|done|done]. }
    unfold Etcd.PublishActive, publishActiveEnvelope. cbn [link bind call wrapped map_err].
    intros [[]|e2] _; cbn [link bind map_err rollout_deps call].
    2:{ eapply (Hcut _ _ 0 [_]); [by rewrite !writes_snoc, Htr1, <- app_assoc|done|done]. }
    intros t _. cbn [link bind rollout_deps call].
    intros [[]|e3] _; cbn [link bind map_err].
    + eapply (Hok _ _ t); [by rewrite !writes_snoc, Htr1, <- !app_assoc|done].
    + eapply (Hcut _ _ t [_; _]); [by rewrite !writes_snoc, Htr1, <- !app_assoc|done|done].
  - unfold Etcd.PublishCanaryState, publishActiveEnvelope. cbn [link bind call wrapped map_err].
    intros [[]|e1] _; cbn [link bind map_err rollout_deps call].
    2:{ eapply (Hcut _ _ 0 []); [by rewrite writes_snoc, Htr1|done|done]. }
    intros [[]|e2] _; cbn [link bind map_err].
    + eapply (Hok _ _ 0); [by rewrite !writes_snoc, Htr1, <- !app_assoc|done].
    + eapply (Hcut _ _ 0 [_]); [by rewrite !writes_snoc, Htr1, <- !app_assoc|done|done].
Qed.

(** ** The creation *)

(** A manifest that was read at some moment, and whose signature was good at some
    moment. *)
Definition vouched (m v : string) (x : Manifest) : Prop :=
  exists w w' : Cp S, during w /\ read_manifest m v w = Ok x
    /\ during w' /\ signs (cp_signer w') SigningKeyName (payload_of x) (Signature x).

(** No rollout of the model was running, at some moment. *)
Definition none_running (m : string) : Prop :=
  exists w : Cp S, during w /\ forall id r, row id w = Some r -> rModelRef r = m -> rStatus r <> "running".

(** What a creation was checked against before it writes, and the row it inserts. *)
Definition may_create (m v j : string) (act : Manifest) (id : string) : Prop :=
  valid j = true /\ (exists target, vouched m v target) /\ vouched m "" act /\ none_running m
  /\ exists w, during w /\ id = uuid (cp_drawn w).

Definition new_row (id m v j : string) (act : Manifest) (t : Z) : Rollout :=
  mkRollout id m v j "pending" "running" (VersionID act) t None zero_time.

Definition create_story (m v j : string) (l : list (write * bool)) (x : res string) : Prop :=
  match x with
  | Ok id => exists act t l' next, may_create m v j act id
      /\ l = (WInsert (new_row id m v j act t), true) :: l' /\ advance_story id "" l' (Ok next)
  | Err _ => l = [] \/ exists act id t, may_create m v j act id
      /\ (l = [(WInsert (new_row id m v j act t), false)]
          \/ exists l' e, l = (WInsert (new_row id m v j act t), true) :: l' /\ advance_story id "" l' (Err e))
  end.

Lemma verify_returns (m v : string) (x : Manifest) tr :
  (exists w, during w /\ read_manifest m v w = Ok x) ->
  returns given (fun tr' y => writes tr' = writes tr /\ match y with Ok z => vouched m v z | Err _ => True end) tr
    (link registry_deps
       (y <-? wrapped (Wrapf "verifying manifest signature: %w" [])
                (call (RSigner (Verify SigningKeyName (payload_of x) (Signature x)))) ;;
        if (y : bool) then Ret (Ok x) else Ret (Err ErrInvalidSignature))).
Proof.
  intros (w & Hw & Hx). cbn [rbind wrapped bind call link registry_deps]. intros y (w' & Hw' & Hy).
  assert (writes (tr ++ [answer_to (SignerCall (Verify SigningKeyName (payload_of x) (Signature x))) y]) = writes tr) as Htr
    by by rewrite writes_snoc, app_nil_r.
  destruct y as [[]|e]; cbn [link bind map_err]; (split; [exact Htr|]); [|done..].
  exists w, w'. split; [done|]. split; [done|]. split; [done|]. cbn [Deploy.cp] in Hy.
  destruct (hsigner _ _ (cp_signer w')) as [b s] eqn:Hv. cbn [fst] in Hy. subst b. by apply verify_sound in Hv.
Qed.

Lemma get_returns m v tr :
  returns given (fun tr' x => writes tr' = writes tr /\ match x with Ok y => vouched m v y | Err _ => True end) tr
    (link registry_deps (Registry.GetModelManifest m v)).
Proof.
  unfold Registry.GetModelManifest. case_bool_decide as Hv; cbn [rbind bind call link registry_deps]; intros x (w & Hw & Hx);
    match goal with |- returns _ _ ?tr' _ => assert (writes tr' = writes tr) as Htr by by rewrite writes_snoc, app_nil_r end;
    (destruct x as [x|e]; cbn [link]; [|by split]);
    (eapply returns_mono; [|apply verify_returns]; [intros tr' y [Hl Hy]; split; [by rewrite Hl|exact Hy]|]);
    exists w; (split; [done|]); unfold read_manifest; rewrite ?(bool_decide_true _ Hv), ?(bool_decide_false _ Hv);
    cbn [Deploy.cp cockroach_store] in Hx; by destruct (db_up (cp_tables w)).
Qed.

Lemma given_running m x : given _ (DbRollout (GetRunningRolloutByModelRef m)) x -> x = Ok None -> none_running m.
Proof.
  intros (w & Hw & ->) Hx. exists w. split; [done|]. intros id r Hr. cbn [Deploy.cp cockroach_rollouts] in Hx. unfold on_rows in Hx.
  destruct (rdb_up (cp_rollouts w)); [|done]. cbn in Hx. injection Hx as Hx. by eapply no_running_row.
Qed.

(** From the insert on. *)
Lemma insert_returns m v j act tr :
  valid j = true -> (exists target, vouched m v target) -> vouched m "" act -> none_running m ->
  returns given (adds (create_story m v j) tr) tr (link rollout_deps (create_tail m v j act)).
Proof.
  intros Hj Ht Ha Hn. unfold create_tail. cbn [bind call link rollout_deps]. intros id (w & Hw & Hid).
  cbn [bind call link rollout_deps]. intros t _. cbn [rbind wrapped bind call link rollout_deps]. fold (new_row id m v j act t).
  assert (Hmay : may_create m v j act id) by (repeat split; [done..|]; by exists w).
  intros x _. destruct x as [[]|e]; cbn [map_err link].
  2:{ exists [(WInsert (new_row id m v j act t), false)]. split; [by rewrite !writes_snoc, !app_nil_r|]. right.
      exists act, id, t. split; [done|]. by left. }
  match goal with |- returns _ _ ?tr' _ => assert (writes tr' = writes tr ++ [(WInsert (new_row id m v j act t), true)]) as Htr
    by by rewrite !writes_snoc, !app_nil_r end.
  apply returns_link_bind, returns_link_bind. eapply returns_mono; [|apply advance_returns].
  intros tr' x (l' & Hl & Hs). cbn [link returns]. destruct x as [next|e]; cbn [map_err link returns];
    exists ((WInsert (new_row id m v j act t), true) :: l'); (split; [by rewrite Hl, Htr, <- app_assoc|]).
  - by exists act, t, l', next.
  - right. exists act, id, t. split; [done|]. right. by exists l', e.
Qed.

Lemma create_returns m v j tr : returns given (adds (create_story m v j) tr) tr (deployed (CreateRollout m v j)).
Proof.
  unfold deployed, CreateRollout. destruct (valid j) eqn:Hj; cbn [negb].
  2:{ exists []. split; [by rewrite app_nil_r|]. by left. }
  assert (Hstop : forall tr' e, writes tr' = writes tr -> adds (create_story m v j) tr tr' (Err e)).
  { intros tr' e Htr. exists []. rewrite app_nil_r. split; [done|]. by left. }
  cbn [rbind wrapped bind call link rollout_deps]. apply returns_bind. eapply returns_mono; [|apply get_returns].
  intros tr1 x [Hw1 Hx]. destruct x as [target|e]; cbn [map_err link returns]; [|by apply Hstop].
  cbn [rbind wrapped bind call link rollout_deps]. apply returns_bind. eapply returns_mono; [|apply get_returns].
  intros tr2 x2 [Hw2 Hx2]. destruct x2 as [act|e]; cbn [map_err link returns]; [|apply Hstop; congruence].
  cbn [rbind wrapped bind call link rollout_deps]. intros x3 Hx3. set (tr3 := tr2 ++ _).
  assert (writes tr3 = writes tr) as Hw3 by (unfold tr3; rewrite writes_snoc, app_nil_r; congruence).
  destruct x3 as [[r|]|e]; cbn [map_err link returns]; [by apply Hstop| |by apply Hstop].
  fold (create_tail m v j act). eapply returns_mono; [|apply insert_returns; [done|by exists target|done|by eapply given_running]].
  intros tr4 x4 (l & Hl & Hs). exists l. by rewrite Hl, Hw3.
Qed.
End Writes.

(** * Every execution *)

Section Executions.
Context {S : Type} (hsigner : handler SignerE S) `{!LawfulSigner hsigner} (uuid : nat -> string).
Abbreviation cp := (Deploy.cp hsigner uuid).

(** What the requests in flight have done so far, call by call. *)
Definition steps (rs : list request) (w : Cp S) (ds : list decision) := history cp cp_env ds (map serve rs, w).

Definition states (rs : list request) (w : Cp S) (ds : list decision) : Cp S -> Prop :=
  visited cp cp_env ds (map serve rs, w).

Lemma request_story rs w ds i r Q :
  rs !! i = Some r ->
  returns (given hsigner uuid (states rs w ds)) (adds Q []) [] (serve r) ->
  forall x, (sched cp cp_env ds (map serve rs, w)).1 !! i = Some (Ret x) -> Q (writes (own i (steps rs w ds))) x.
Proof.
  intros Hi Hr x Hx.
  set (P := fun j tr (p : prog CpE (res string)) => j = i -> match p with Ret b => adds Q [] tr b | Do _ _ => True end).
  assert (P i (own i (steps rs w ds)) (Ret x)) as H.
  { apply (on_every_path_here (given hsigner uuid (states rs w ds))).
    apply (sched_paths cp cp_env _ P (map serve rs) w ds); [done| |done].
    intros j p Hp. destruct (decide (j = i)) as [->|Hne].
    - rewrite lookup_map, Hi in Hp. injection Hp as <-. apply returns_paths in Hr. unfold P.
      revert Hr. apply on_every_path_mono. intros tr q Hq _. exact Hq.
    - apply on_every_path_true. intros tr q E. done. }
  destruct (H eq_refl) as (l & Hl & Hq). cbn [writes map concat app] in Hl. by rewrite Hl.
Qed.

(** The row comes last. *)
Lemma row_last id r next t before refused after id' ex stage status en :
  advance_plan id r next t = before ++ refused :: after -> ~ In (WUpdate id' ex stage status en) before.
Proof.
  intros Hp Hin. assert (In (WUpdate id' ex stage status en) (removelast (advance_plan id r next t))) as H.
  { rewrite Hp, removelast_app by done. apply in_or_app. by left. }
  unfold advance_plan in H. destruct (bool_decide _); cbn in H; intuition discriminate.
Qed.

(** C29. What an advance leaves.  Take any requests in flight, in any interleaving
    of their statements with time and with databases and etcd failing and
    recovering at any point.  An advance that has returned (a promotion, or an
    automatic advance out of stage [from]) read the row at some moment.  If it
    succeeded, it carried out exactly the plan of that row: at an intermediate
    stage the routing in etcd, then the row, from the stage it read to the next;
    at the last one the active version, the routing, the row.  If it failed, it
    wrote nothing, because the row was refused for the reason it answers with; or it
    carried out that plan up to a write that was refused, the last it attempted.
    So a failed advance never moved the row; it may have moved the routing, when
    only the row was refused. *)
Theorem advance_writes rs w ds i id from x :
  rs !! i = Some (DoAutoAdvance id from) \/ rs !! i = Some (DoPromote id) /\ from = "" ->
  (sched cp cp_env ds (map serve rs, w)).1 !! i = Some (Ret x) ->
  let l := writes (own i (steps rs w ds)) in
  advance_story (states rs w ds) id from l x
  /\ (is_ok x = false -> forall id' ex stage status en, (WUpdate id' ex stage status en, true) ∉ l).
Proof.
  intros Hi Hx l. assert (advance_story (states rs w ds) id from l x) as Hs.
  { destruct Hi as [Hi|[Hi ->]]; eapply (request_story rs w ds i _ (advance_story (states rs w ds) id _) Hi); eauto;
      apply advance_returns. }
  split; [exact Hs|]. destruct x as [next|e]; [done|]. intros _ id' ex stage status en Hin.
  destruct Hs as [[Hl _]|(r & next & t & _ & before & refused & after & Hp & Hl)]; rewrite Hl in Hin; [by apply elem_of_nil in Hin|].
  apply elem_of_app in Hin as [Hin|Hin]; [|by apply list_elem_of_singleton in Hin].
  apply list_elem_of_In, in_map_iff in Hin as (u & Hu & Hin). injection Hu as ->.
  by eapply (row_last id r next t before refused after).
Qed.

(** C33. Creation.  In any such execution a [CreateRollout] that has returned: if it
    succeeded, the strategy is JSON, the target version and the live version were
    each read and their signatures found good, no rollout of the model was
    running, each at some moment; it inserted one row, pending, with the live
    version as what to go back to, and then carried out one advance of that row.
    If it failed, it wrote nothing; or, after the same checks, the insert was
    refused; or the insert was accepted and the advance after it failed, which
    leaves the row and what that advance leaves. *)
Theorem creation_writes rs w ds i m v j x :
  rs !! i = Some (DoCreate m v j) ->
  (sched cp cp_env ds (map serve rs, w)).1 !! i = Some (Ret x) ->
  create_story hsigner uuid (states rs w ds) m v j (writes (own i (steps rs w ds))) x.
Proof.
  intros Hi Hx. eapply (request_story rs w ds i _ (create_story hsigner uuid (states rs w ds) m v j) Hi); eauto. apply create_returns.
Qed.
End Executions.

(** * Concrete executions *)

(** The advance that is overtaken by an abort ([refused_advance_still_published]). *)
Lemma advance_writes_witness :
  let rs := [DoAutoAdvance "r1" "canary_1"; DoAbort "r1"] in
  let ds := [Run 0; Run 1; Run 1; Run 1; Run 1; Run 0; Run 0]%nat in
  let l := writes (own 0 (steps clear_signer test_uuid rs (with_rollout "canary_1") ds)) in
  l = [(WPut (active_key "openai") (print (active_json (mkActiveEnvelope "v1" "v2" 10))), true);
       (WUpdate "r1" "canary_1" "canary_10" "running" None, false)]
  /\ exists e, advance_story (states clear_signer test_uuid rs (with_rollout "canary_1") ds) "r1" "canary_1" l (Err e).
Proof.
  intros rs ds l. split; [vm_compute; reflexivity|]. eexists.
  apply (advance_writes clear_signer test_uuid rs (with_rollout "canary_1") ds 0 "r1" "canary_1"); [by left|].
  vm_compute. reflexivity.
Defined.

(** The database fails between the routing and the row. *)
Lemma creation_writes_witness :
  let rs := [DoCreate "openai" "v2" "[]"] in
  let ds := replicate 10 (Run 0%nat) ++ [Env (SetDB false); Run 0%nat] in
  let l := writes (own 0 (steps clear_signer test_uuid rs (deployment ∅ true) ds)) in
  map snd l = [true; true; false]
  /\ exists e, create_story clear_signer test_uuid (states clear_signer test_uuid rs (deployment ∅ true) ds) "openai" "v2" "[]" l (Err e).
Proof.
  intros rs ds l. split; [vm_compute; reflexivity|]. eexists.
  apply (creation_writes clear_signer test_uuid rs (deployment ∅ true) ds 0 "openai" "v2" "[]"); [done|].
  vm_compute. reflexivity.
Defined.
