(* ===== verification/Analysis.v ===== *)
(** control-plane/internal/analysis: the reconciler that drives rollouts from
    the verdicts of AnalysisRuns.

    [reconcileOne] and [reconcileAll] are programs over the two interfaces the
    Go [Reconciler] holds ([RolloutDriver], [Client]) and the clock.
    [fake_client] is the in-memory client of fake.go, [k8s_client] the real one
    over the two Kubernetes calls it issues, [driver_impl] the rollout service
    as the driver. *)

From S2P Require Import Prelude Errors Prog Json Rollout.
#[local] Open Scope Z_scope.

(** [type Phase string]: whatever the cluster reports, these being the values
    the code knows. *)
Definition PhasePending : string := "Pending".
Definition PhaseRunning : string := "Running".
Definition PhaseSuccessful : string := "Successful".
Definition PhaseFailed : string := "Failed".
Definition PhaseError : string := "Error".
Definition PhaseInconclusive : string := "Inconclusive".

(** [Run] of the Go package. *)
Record AnalysisRun := mkRun { runName : string; runPhase : string }.

Inductive Client : interface :=
| FindForStage (rolloutID stage : string) : Client (res (option AnalysisRun))
| CreateForStage (rolloutID modelRef stage : string) (canaryPercent : Z) : Client (res unit).

Inductive RolloutDriver : interface :=
| DriverListRunningRollouts : RolloutDriver (res (list Rollout))
| DriverAutoAdvance (rolloutID fromStage : string) : RolloutDriver (res string)
| DriverAutoRollback (rolloutID fromStage : string) : RolloutDriver (res unit).

Inductive RecE : interface :=
| Driver {X} (e : RolloutDriver X) : RecE X
| Runs {X} (e : Client X) : RecE X
| RecNow : RecE Z.

(** [stageGracePeriod]; the reconciler keeps it in its [stageGrace] field. *)
Definition stageGracePeriod : Z := 30 * second.

(** How the reconciler reacts to a phase. *)
Inductive reaction := Advance | Rollback | Wait.

Definition react (phase : string) : reaction :=
  if bool_decide (phase = PhaseSuccessful) then Advance
  else if bool_decide (phase = PhaseFailed) || bool_decide (phase = PhaseError)
          || bool_decide (phase = PhaseInconclusive) then Rollback
  else Wait.

(** Errors are logged, not returned. *)
Definition reconcileOne (stageGrace : Z) (ro : Rollout) : prog RecE unit :=
  if bool_decide (Stage ro = "stable") then Ret tt else
  found <- call (Runs (FindForStage (RolloutID ro) (Stage ro))) ;;
  match (found : res (option AnalysisRun)) with
  | Err _ => Ret tt
  | Ok None =>
      now <- call RecNow ;;
      if now - StageEnteredAt ro <? stageGrace then Ret tt
      else (call (Runs (CreateForStage (RolloutID ro) (rModelRef ro) (Stage ro) (StagePercent (Stage ro))))
            ;;; Ret tt)
  | Ok (Some run) =>
      match react (runPhase run) with
      | Advance => call (Driver (DriverAutoAdvance (RolloutID ro) (Stage ro))) ;;; Ret tt
      | Rollback => call (Driver (DriverAutoRollback (RolloutID ro) (Stage ro))) ;;; Ret tt
      | Wait => Ret tt
      end
  end.

Fixpoint reconcile_each (stageGrace : Z) (l : list Rollout) : prog RecE unit :=
  match l with
  | [] => Ret tt
  | ro :: l' => reconcileOne stageGrace ro ;;; reconcile_each stageGrace l'
  end.

Definition reconcileAll (stageGrace : Z) : prog RecE unit :=
  running <- call (Driver DriverListRunningRollouts) ;;
  match running with
  | Err _ => Ret tt
  | Ok l => reconcile_each stageGrace l
  end.

(** [Run]: one pass on entry, then one per tick until the context is done; here
    the number of ticks until then. *)
Fixpoint Reconciler_Run (stageGrace : Z) (ticks : nat) : prog RecE unit :=
  reconcileAll stageGrace ;;;
  match ticks with
  | O => Ret tt
  | Datatypes.S n => Reconciler_Run stageGrace n
  end.

(** * Drivers and clients *)

(** [*rollout.Service] satisfies [RolloutDriver]. *)
Definition driver_impl : forall X, RolloutDriver X -> prog RolloutE X := fun X e =>
  match e in RolloutDriver X return prog RolloutE X with
  | DriverListRunningRollouts => Service_ListRunningRollouts
  | DriverAutoAdvance id from => AutoAdvance id from
  | DriverAutoRollback id from => AutoRollback id from
  end.

(** [FakeDriver]: the service over the fakes, recording which triggers fired. *)
Record FakeDriver := mkFakeDriver {
  fd_svc : FakeService; AutoAdvanceCalls : list string; AutoRollbackCalls : list string }.

Definition fake_driver (uuid : nat -> string) : handler RolloutDriver FakeDriver := fun X e d =>
  match e in RolloutDriver X return X * FakeDriver with
  | DriverListRunningRollouts =>
      let '(x, s) := run (fake_service uuid) Service_ListRunningRollouts (fd_svc d) in
      (x, mkFakeDriver s (AutoAdvanceCalls d) (AutoRollbackCalls d))
  | DriverAutoAdvance id from =>
      let '(x, s) := run (fake_service uuid) (AutoAdvance id from) (fd_svc d) in
      (x, mkFakeDriver s (AutoAdvanceCalls d ++ [id]) (AutoRollbackCalls d))
  | DriverAutoRollback id from =>
      let '(x, s) := run (fake_service uuid) (AutoRollback id from) (fd_svc d) in
      (x, mkFakeDriver s (AutoAdvanceCalls d) (AutoRollbackCalls d ++ [id]))
  end.

(** [key] of fake.go. *)
Definition key (rolloutID stage : string) : string := rolloutID +:+ "/" +:+ stage.

Record CreateCall := mkCreateCall {
  ccRolloutID : string; ccModelRef : string; ccStage : string; ccCanaryPercent : Z }.

Record FakeClient := mkFakeClient {
  runs : gmap string AnalysisRun; CreateCalls : list CreateCall;
  CreateErr : option error; FindErr : option error }.

Definition NewFakeClient : FakeClient := mkFakeClient ∅ [] None None.

Definition fake_client : handler Client FakeClient := fun X e c =>
  match e in Client X return X * FakeClient with
  | FindForStage id stage =>
      match FindErr c with
      | Some err => (Err err, c)
      | None => (Ok (runs c !! key id stage), c)
      end
  | CreateForStage id m stage p =>
      match CreateErr c with
      | Some err => (Err err, c)
      | None =>
          (Ok tt, mkFakeClient
             (<[key id stage := mkRun ("fake-run-" +:+ key id stage) PhasePending]> (runs c))
             (CreateCalls c ++ [mkCreateCall id m stage p]) None (FindErr c))
      end
  end.

(** [SetPhase]: the cluster reports a phase of an existing run. *)
Definition SetPhase (rolloutID stage phase : string) (c : FakeClient) : FakeClient :=
  mkFakeClient (alter (fun r => mkRun (runName r) phase) (key rolloutID stage) (runs c))
    (CreateCalls c) (CreateErr c) (FindErr c).

(** ** The Kubernetes client *)

Definition labelRolloutID : string := "onezox.io/rollout-id".
Definition labelStage : string := "onezox.io/stage".

(** The dynamic client's calls on the AnalysisRun resource of a namespace;
    objects are unstructured documents. *)
Inductive K8sE : interface :=
| K8sList (namespace labelSelector : string) : K8sE (res (list json))
| K8sCreate (namespace : string) (obj : json) : K8sE (res unit)
| K8sUUID : K8sE string.

Fixpoint json_member (k : string) (l : list (string * json)) : option json :=
  match l with
  | [] => None
  | (n, v) :: l' => if bool_decide (n = k) then Some v else json_member k l'
  end.

Definition json_get (k : string) (j : json) : option json :=
  match j with JObj l => json_member k l | _ => None end.

(** [unstructured.NestedString]: the empty string when the path is absent or
    holds something else. *)
Definition nested_string (path : list string) (j : json) : string :=
  match fold_left (fun o k => o ≫= json_get k) path (Some j) with
  | Some (JStr s) => s
  | _ => ""
  end.

Definition selector (rolloutID stage : string) : string :=
  labelRolloutID +:+ "=" +:+ rolloutID +:+ "," +:+ labelStage +:+ "=" +:+ stage.

Definition K8s_FindForStage (namespace rolloutID stage : string) : prog K8sE (res (option AnalysisRun)) :=
  items <-? wrapped (Wrapf "listing AnalysisRuns: %w" [])
              (call (K8sList namespace (selector rolloutID stage))) ;;
  match (items : list json) with
  | [] => Ret (Ok None)
  | item :: _ =>
      Ret (Ok (Some (mkRun (nested_string ["metadata"; "name"] item)
                           (nested_string ["status"; "phase"] item))))
  end.

Section K8s.
(** [strconv.Quote], which depends on Unicode's tables of printable runes. *)
Context (go_quote : string -> string) (namespace promAddr : string).

Definition queryFor (modelRef : string) : string :=
  let q := go_quote modelRef in
  let t := dq +:+ "true" +:+ dq in
  "(sum(rate(data_plane_submit_total{model_ref=" +:+ q +:+ ",canary=" +:+ t +:+ ",status=" +:+
  dq +:+ "error" +:+ dq +:+ "}[2m])) or vector(0)) " +:+
  "/ sum(rate(data_plane_submit_total{model_ref=" +:+ q +:+ ",canary=" +:+ t +:+ "}[2m]))".

Definition analysis_run_object (name rolloutID modelRef stage : string) : json :=
  JObj [("apiVersion", JStr "argoproj.io/v1alpha1");
        ("kind", JStr "AnalysisRun");
        ("metadata", JObj [("name", JStr name); ("namespace", JStr namespace);
           ("labels", JObj [(labelRolloutID, JStr rolloutID); (labelStage, JStr stage)])]);
        ("spec", JObj [("metrics", JArr [JObj [
           ("name", JStr "canary-error-rate");
           ("count", JNum "1");
           ("provider", JObj [("prometheus", JObj [("address", JStr promAddr);
                                                   ("query", JStr (queryFor modelRef))])]);
           ("successCondition", JStr "result[0] < 0.5");
           ("failureCondition", JStr "result[0] >= 0.5");
           ("consecutiveErrorLimit", JNum "3")]])])].

Definition K8s_CreateForStage (rolloutID modelRef stage : string) (canaryPercent : Z)
    : prog K8sE (res unit) :=
  u <- call K8sUUID ;;
  let name := "onezox-canary-" +:+ rolloutID +:+ "-" +:+ take_str 8 u in
  wrapped (Wrapf "creating AnalysisRun: %w" [])
    (call (K8sCreate namespace (analysis_run_object name rolloutID modelRef stage))).

Definition k8s_client : forall X, Client X -> prog K8sE X := fun X e =>
  match e in Client X return prog K8sE X with
  | FindForStage id stage => K8s_FindForStage namespace id stage
  | CreateForStage id m stage p => K8s_CreateForStage id m stage p
  end.

(** The object carries the two labels the lookup selects on. *)
Lemma created_object_labels name id m stage :
  let obj := analysis_run_object name id m stage in
  nested_string ["metadata"; "labels"; labelRolloutID] obj = id
  /\ nested_string ["metadata"; "labels"; labelStage] obj = stage
  /\ nested_string ["metadata"; "name"] obj = name
  /\ nested_string ["status"; "phase"] obj = "".
Proof. done. Qed.
End K8s.

(** ** Leader election *)

Definition leaseName : string := "control-plane-reconciler".
Definition leaseDuration : Z := 15 * second.
Definition renewDeadline : Z := 10 * second.
Definition retryPeriod : Z := 2 * second.

(** [identity]: the pod's name, else the host's, else the process id; never
    empty. *)
Definition identity (pod_name : string) (hostname : res string) (pid : Z) : string :=
  if negb (bool_decide (pod_name = "")) then pod_name
  else match hostname with
  | Ok h => if negb (bool_decide (h = "")) then h else "unknown-" +:+ itoa pid
  | Err _ => "unknown-" +:+ itoa pid
  end.

Lemma identity_not_empty pod hostname pid : identity pod hostname pid <> "".
Proof.
  unfold identity. case_bool_decide; simpl; [|done].
  destruct hostname as [h|]; [|done]. by case_bool_decide.
Qed.

(** A leader stops before its lease can be taken over. *)
Lemma lease_ordering : retryPeriod < renewDeadline < leaseDuration.
Proof. unfold retryPeriod, renewDeadline, leaseDuration, second, millisecond. lia. Qed.
