(* ===== verification/AnalysisSpec.v ===== *)
(** The reconciler over the deployed control plane: no stage of a rollout is
    left automatically without a successful analysis of that very stage, with
    any number of reconcilers running at once (a lease handover, a restart),
    whatever the cluster answers and whenever; what one pass does with each
    verdict; and the runs of the loop on a concrete deployment. *)

From S2P Require Import Prelude Errors Prog Json Signer Etcd Registry Rollout Deploy RolloutSpec Analysis.
#[local] Open Scope Z_scope.

(** * The whole system *)

Inductive SysE : interface :=
| Cpe {X} (e : CpE X) : SysE X
| Cluster {X} (e : Client X) : SysE X.

Definition on_cp {A} (p : prog CpE A) : prog SysE A := link (fun X e => call (Cpe e)) p.

(** [analysis.NewReconciler(rolloutSvc, analysisClient, log)]. *)
Definition rec_deps : forall X, RecE X -> prog SysE X := fun X e =>
  match e in RecE X return prog SysE X with
  | Driver e => on_cp (deployed (driver_impl _ e))
  | Runs e => call (Cluster e)
  | RecNow => call (Cpe Clock)
  end.

Definition reconciler {A} (p : prog RecE A) : prog SysE A := link rec_deps p.

(** The cluster answers lookups as it pleases: [verdict] is what a lookup gives
    now, set at will from outside.  [observed] and [created] record what the
    reconcilers saw and asked for. *)
Record Sys (S : Type) := mkSys {
  sys_cp : Cp S;
  verdict : string -> string -> res (option AnalysisRun);
  create_answer : res unit;
  observed : list (string * string);
  created : list CreateCall }.
Arguments mkSys {S}. Arguments sys_cp {S}. Arguments verdict {S}. Arguments create_answer {S}.
Arguments observed {S}. Arguments created {S}.

(** A lookup that saw a successful analysis. *)
Definition saw (id stage : string) (x : res (option AnalysisRun)) : list (string * string) :=
  match x with
  | Ok (Some r) => if bool_decide (runPhase r = PhaseSuccessful) then [(id, stage)] else []
  | _ => []
  end.

Section System.
Context {S : Type} (hsigner : handler SignerE S) (uuid : nat -> string).
Abbreviation cp := (cp hsigner uuid).

Definition sys : handler SysE (Sys S) := fun X e w =>
  match e in SysE X return X * Sys S with
  | Cpe e =>
      let '(x, c) := cp _ e (sys_cp w) in
      (x, mkSys c (verdict w) (create_answer w) (observed w) (created w))
  | Cluster e =>
      match e in Client X return X * Sys S with
      | FindForStage id stage =>
          let x := verdict w id stage in
          (x, mkSys (sys_cp w) (verdict w) (create_answer w) (saw id stage x ++ observed w) (created w))
      | CreateForStage id m stage p =>
          (create_answer w,
           mkSys (sys_cp w) (verdict w) (create_answer w) (observed w)
             (created w ++ [mkCreateCall id m stage p]))
      end
  end.

Inductive sys_event :=
| CpEvent (v : event)
| SetVerdicts (f : string -> string -> res (option AnalysisRun))
| SetCreate (r : res unit).

Definition sys_env (v : sys_event) (w : Sys S) : Sys S :=
  match v with
  | CpEvent v => mkSys (cp_env v (sys_cp w)) (verdict w) (create_answer w) (observed w) (created w)
  | SetVerdicts f => mkSys (sys_cp w) f (create_answer w) (observed w) (created w)
  | SetCreate r => mkSys (sys_cp w) (verdict w) r (observed w) (created w)
  end.

(** What runs: reconciler loops, and the requests that do not promote. *)
Inductive actor :=
| Loop (ticks : nat)
| Register (modelRef specJSON createdBy : string)
| Abort (rolloutID : string)
| Rollback_ (rolloutID fromStage : string).

Definition act (a : actor) : prog SysE (res string) :=
  match a with
  | Loop n => reconciler (Reconciler_Run stageGracePeriod n) ;;; Ret (Ok "")
  | Register m j c => on_cp (serve (DoRegister m j c))
  | Abort id => on_cp (serve (DoAbort id))
  | Rollback_ id from => on_cp (serve (DoAutoRollback id from))
  end.

(** ** Gated transitions *)

(** A step of a rollout; advancing takes an observed success of the stage. *)
Inductive gated (seen : string -> Prop) : string * string -> string * string -> Prop :=
| gated_advance s q : transition (s, "running") q -> q.1 <> s -> seen s -> gated seen (s, "running") q
| gated_revert s st : st = "aborted" \/ st = "rolled_back" -> gated seen (s, "running") (s, st).

Lemma gated_mono (P Q : string -> Prop) p q : (forall s, P s -> Q s) -> gated P p q -> gated Q p q.
Proof. intros H. destruct 1; [apply gated_advance|apply gated_revert]; auto. Qed.

Lemma rtc_gated_mono (P Q : string -> Prop) p q :
  (forall s, P s -> Q s) -> rtc (gated P) p q -> rtc (gated Q) p q.
Proof. intros H. apply rtc_subrel. intros x y. by apply gated_mono. Qed.

(** From where to where the rows of a table have gone. *)
Definition table_gated (obs : list (string * string)) (t t' : table) : Prop :=
  (forall id r, t !! id = Some r -> Stage r <> "") /\
  forall id,
    match t !! id with
    | Some r => exists r', t' !! id = Some r' /\ same_rollout r r' /\ Stage r' <> ""
                  /\ rtc (gated (fun s => (id, s) ∈ obs)) (at_ r) (at_ r')
    | None => t' !! id = None
    end.

Lemma table_gated_mono obs obs' t t' :
  (forall x, x ∈ obs -> x ∈ obs') -> table_gated obs t t' -> table_gated obs' t t'.
Proof.
  intros Ho [H0 H]. split; [done|]. intros id. specialize (H id). destruct (t !! id); [|done].
  destruct H as (r' & ? & ? & ? & ?). exists r'. repeat split_and; try done.
  eapply rtc_gated_mono; [|done]. simpl. auto.
Qed.

(** ** What the threads may call *)

(** An update: either it leaves the stage alone, or the stage was observed. *)
Definition allowed (K : list (string * string)) : forall X, CpE X -> Prop := fun X e =>
  match e with
  | DbRollout (InsertRollout _) => False
  | DbRollout (UpdateRollout id ex st status _) =>
      legal_update ex st status /\ st <> ""
      /\ (st = ex /\ (status = "aborted" \/ status = "rolled_back") \/ st <> ex /\ (id, ex) ∈ K)
  | _ => True
  end.

Definition allowed_sys (K : list (string * string)) : forall X, SysE X -> Prop := fun X e =>
  match e with Cpe e => allowed K _ e | _ => True end.

(** What an answer teaches. *)
Definition learn : forall X, SysE X -> X -> list (string * string) := fun X e =>
  match e in SysE X return X -> list (string * string) with
  | Cpe _ => fun _ => []
  | Cluster e =>
      match e in Client X return X -> list (string * string) with
      | FindForStage id stage => saw id stage
      | CreateForStage _ _ _ _ => fun _ => []
      end
  end.

(** Listings show stages that are not empty. *)
Definition good : forall X, SysE X -> X -> Prop := fun X e =>
  match e in SysE X return X -> Prop with
  | Cpe e =>
      match e in CpE X return X -> Prop with
      | DbRollout e =>
          match e in Rollout.StoreE X return X -> Prop with
          | ListRunningRollouts => fun x =>
              match x with Ok l => Forall (fun r => Stage r <> "") l | Err _ => True end
          | GetRollout _ => fun x =>
              match x with Ok (Some r) => Stage r <> "" | _ => True end
          | _ => fun _ => True
          end
      | _ => fun _ => True
      end
  | Cluster _ => fun _ => True
  end.

Fixpoint safe {R} (K : list (string * string)) (p : prog SysE R) : Prop :=
  match p with
  | Ret _ => True
  | Do e k => allowed_sys K _ e /\ forall x, good _ e x -> safe (learn _ e x ++ K) (k x)
  end.

Lemma allowed_mono K K' X e :
  (forall x, x ∈ K -> x ∈ K') -> allowed_sys K X e -> allowed_sys K' X e.
Proof.
  intros H. destruct e as [X e|]; [|done]. destruct e; try done. destruct e; try done.
  simpl. intuition auto.
Qed.

Lemma safe_mono {R} K K' (p : prog SysE R) :
  (forall x, x ∈ K -> x ∈ K') -> safe K p -> safe K' p.
Proof.
  revert K K'. induction p as [a|X e k IH]; intros K K' H; simpl; [done|].
  intros [He Hk]. split; [by eapply allowed_mono|]. intros x Hx.
  eapply IH; [|by apply Hk]. intros y. rewrite !elem_of_app. intuition auto.
Qed.

Lemma safe_bind {R T} K (p : prog SysE R) (f : R -> prog SysE T) :
  safe K p -> (forall x, safe K (f x)) -> safe K (bind p f).
Proof.
  revert K. induction p as [a|X e k IH]; intros K; simpl; [auto|]. intros [He Hk] Hf.
  split; [done|]. intros x Hx. apply IH; [by apply Hk|].
  intros y. eapply safe_mono; [|apply Hf]. intros z. rewrite elem_of_app. auto.
Qed.

(** Programs of the control plane whose answers matter only through [good]. *)
Fixpoint safe_cp {R} (K : list (string * string)) (p : prog CpE R) : Prop :=
  match p with
  | Ret _ => True
  | Do e k => allowed K _ e /\ forall x, good _ (Cpe e) x -> safe_cp K (k x)
  end.

Lemma safe_on_cp {R} K (p : prog CpE R) : safe_cp K p -> safe K (on_cp p).
Proof.
  unfold on_cp. induction p as [a|X e k IH]; cbn [safe_cp link bind call safe allowed_sys learn]; [done|].
  intros [He Hk]. split; [done|]. intros x Hx. by apply IH, Hk.
Qed.

Lemma safe_cp_bind {R T} K (p : prog CpE R) (f : R -> prog CpE T) :
  safe_cp K p -> (forall x, safe_cp K (f x)) -> safe_cp K (bind p f).
Proof. induction p as [a|X e k IH]; simpl; [auto|]. intros [He Hk] Hf. split; auto. Qed.

(** A part that neither inserts nor updates rollouts. *)
Definition no_rollout_write : forall X, CpE X -> Prop := fun X e =>
  match e with
  | DbRollout (InsertRollout _) | DbRollout (UpdateRollout _ _ _ _ _) => False
  | _ => True
  end.

Lemma no_write_safe {R} K (p : prog CpE R) : calls any no_rollout_write p -> safe_cp K p.
Proof.
  induction p as [a|X e k IH]; simpl; [done|]. intros [He Hk]. split; [|intros; by apply IH, Hk].
  destruct e; try done. by destruct e.
Qed.

Lemma over_etcd_no_write {A} (p : prog EtcdE A) : calls any no_rollout_write (over_etcd p).
Proof.
  apply (calls_link _ (fun _ _ => True)); [by intros; apply calls_any|].
  induction p; simpl; auto.
Qed.

Lemma registry_no_write {A} (p : prog RegE A) : calls any no_rollout_write (deployed_registry p).
Proof.
  apply (calls_link _ (fun _ _ => True)).
  - intros X e _. destruct e; simpl; try (split; done). apply over_etcd_no_write.
  - induction p; simpl; auto.
Qed.

(** The same for programs of the rollout service. *)
Definition allowed_rollout (K : list (string * string)) : forall X, RolloutE X -> Prop := fun X e =>
  match e with Store e => allowed K _ (DbRollout e) | _ => True end.

Fixpoint safe_rollout {R} (K : list (string * string)) (p : prog RolloutE R) : Prop :=
  match p with
  | Ret _ => True
  | Do e k => allowed_rollout K _ e /\
      forall x, match e in RolloutE X return X -> Prop with
                | Store e => good _ (Cpe (DbRollout e))
                | _ => fun _ => True
                end x -> safe_rollout K (k x)
  end.

Lemma safe_deployed {R} K (p : prog RolloutE R) : safe_rollout K p -> safe_cp K (deployed p).
Proof.
  unfold deployed. induction p as [a|X e k IH]; cbn [safe_rollout link]; [done|]. intros [He Hk].
  destruct e as [X e|X e|X e| |].
  - cbn [rollout_deps bind call safe_cp]. split; [done|]. intros x Hx. by apply IH, Hk.
  - apply safe_cp_bind; [|intros x; by apply IH, Hk].
    destruct e. apply no_write_safe, over_etcd_no_write.
  - apply safe_cp_bind; [|intros x; by apply IH, Hk].
    destruct e; apply no_write_safe, registry_no_write.
  - cbn [rollout_deps bind call safe_cp]. split; [done|]. intros x Hx. by apply IH, Hk.
  - cbn [rollout_deps bind call safe_cp]. split; [done|]. intros x Hx. by apply IH, Hk.
Qed.

Lemma nextStage_differs s s' : nextStage s = Some s' -> s' <> s /\ s' <> "".
Proof.
  unfold nextStage, stageOrder. simpl.
  repeat (case_bool_decide; [subst; simpl; intros [= <-]; split; congruence|]). done.
Qed.

Lemma advance_safe K id from :
  from <> "" -> (id, from) ∈ K -> safe_rollout K (advanceStage id from).
Proof.
  intros Hf HK. unfold advanceStage. cbn [rbind bind call safe_rollout allowed_rollout allowed].
  split; [done|]. intros [[r|]|e] _; cbn [safe_rollout]; try done.
  rewrite (bool_decide_false (from = "")) by done. simpl negb. cbv iota.
  case_bool_decide as Hs; simpl; [|done]. subst from.
  destruct (bool_decide (rStatus r = "running")); simpl; [|done].
  destruct (nextStage (Stage r)) as [next|] eqn:Hn; simpl; [|done].
  destruct (nextStage_differs _ _ Hn) as [Hd Hne].
  case_bool_decide as Hst; simpl; (split; [done|]); intros [u|e] _; simpl; try done.
  - split; [done|]. intros t _. split.
    + split; [subst next; by apply promote|]. auto.
    + by intros [|].
  - split.
    + split; [by apply advance|]. auto.
    + by intros [|].
Qed.

Lemma revert_safe K id status from :
  status = "aborted" \/ status = "rolled_back" -> safe_rollout K (revertCanary id status from).
Proof.
  intros Hs. unfold revertCanary. cbn [rbind bind call safe_rollout allowed_rollout allowed].
  split; [done|]. intros [[r|]|e] Hg; simpl in Hg; cbn [safe_rollout]; try done.
  destruct (negb _ && negb _); simpl; [done|]. destruct (negb _); simpl; [done|].
  split; [done|]. intros [u|e] _; simpl; [|done]. split; [done|]. intros t _. split.
  - split; [by apply revert|]. auto.
  - by intros [|].
Qed.

(** ** The reconciler *)

Definition rec_allowed (K : list (string * string)) : forall X, RecE X -> Prop := fun X e =>
  match e with
  | Driver (DriverAutoAdvance id from) => from <> "" /\ (id, from) ∈ K
  | _ => True
  end.

Definition rec_learn : forall X, RecE X -> X -> list (string * string) := fun X e =>
  match e in RecE X return X -> list (string * string) with
  | Runs e =>
      match e in Client X return X -> list (string * string) with
      | FindForStage id stage => saw id stage
      | CreateForStage _ _ _ _ => fun _ => []
      end
  | _ => fun _ => []
  end.

Definition rec_good : forall X, RecE X -> X -> Prop := fun X e =>
  match e in RecE X return X -> Prop with
  | Driver e =>
      match e in RolloutDriver X return X -> Prop with
      | DriverListRunningRollouts => fun x =>
          match x with Ok l => Forall (fun r => Stage r <> "") l | Err _ => True end
      | _ => fun _ => True
      end
  | _ => fun _ => True
  end.

Fixpoint safe_rec {R} (K : list (string * string)) (p : prog RecE R) : Prop :=
  match p with
  | Ret _ => True
  | Do e k => rec_allowed K _ e /\ forall x, rec_good _ e x -> safe_rec (rec_learn _ e x ++ K) (k x)
  end.

Lemma safe_rec_mono {R} K K' (p : prog RecE R) :
  (forall x, x ∈ K -> x ∈ K') -> safe_rec K p -> safe_rec K' p.
Proof.
  revert K K'. induction p as [a|X e k IH]; intros K K' H; simpl; [done|].
  intros [He Hk]. split.
  - destruct e as [X e| |]; try done. destruct e; try done. simpl in *. intuition auto.
  - intros x Hx. eapply IH; [|by apply Hk]. intros y. rewrite !elem_of_app. intuition auto.
Qed.

Lemma safe_rec_bind {R T} K (p : prog RecE R) (f : R -> prog RecE T) :
  safe_rec K p -> (forall x, safe_rec K (f x)) -> safe_rec K (bind p f).
Proof.
  revert K. induction p as [a|X e k IH]; intros K; simpl; [auto|]. intros [He Hk] Hf.
  split; [done|]. intros x Hx. apply IH; [by apply Hk|].
  intros y. eapply safe_rec_mono; [|apply Hf]. intros z. rewrite elem_of_app. auto.
Qed.

(** A driver call, linked, teaches nothing and is safe; a listing shows good
    rows. *)
Lemma safe_driver {R} K X (e : RolloutDriver X) (f : X -> prog SysE R) :
  rec_allowed K X (Driver e) ->
  (forall x, rec_good X (Driver e) x -> safe K (f x)) ->
  safe K (bind (on_cp (deployed (driver_impl X e))) f).
Proof.
  intros Ha Hf. destruct e as [|id from|id from].
  - unfold on_cp, deployed. cbn [driver_impl Service_ListRunningRollouts call link rollout_deps bind safe
      allowed_sys allowed learn good].
    split; [done|]. intros x Hx. by apply Hf.
  - apply safe_bind; [|intros x; by apply Hf]. destruct Ha.
    by apply safe_on_cp, safe_deployed, advance_safe.
  - apply safe_bind; [|intros x; by apply Hf].
    apply safe_on_cp, safe_deployed, revert_safe. by right.
Qed.

Lemma safe_reconciler {R} K (p : prog RecE R) : safe_rec K p -> safe K (reconciler p).
Proof.
  unfold reconciler. revert K. induction p as [a|X e k IH]; intros K; cbn [safe_rec link]; [done|].
  intros [He Hk]. destruct e as [X e|X e|].
  - cbn [rec_deps]. apply safe_driver; [done|]. intros x Hx. by apply IH, (Hk x).
  - destruct e; cbn [rec_deps bind call safe]; (split; [done|]); intros x _; apply IH;
      by apply (Hk x).
  - cbn [rec_deps bind call safe]. split; [done|]. intros x _. by apply IH, (Hk x).
Qed.

Lemma reconcileOne_safe K grace ro : Stage ro <> "" -> safe_rec K (reconcileOne grace ro).
Proof.
  intros Hs. unfold reconcileOne. case_bool_decide; [done|].
  cbn [bind call safe_rec]. split; [done|]. intros [[run|]|e] _;
    [|cbn [bind call safe_rec]; split; [done|]; intros t _; by destruct (_ <? _)|done].
  unfold react. case_bool_decide as Hp.
  - cbn [bind call safe_rec rec_allowed]. split; [|done]. split; [done|].
    cbn [rec_learn saw]. rewrite bool_decide_true by done. set_solver.
  - by destruct (_ || _).
Qed.

Lemma reconcile_each_safe K grace l :
  Forall (fun r => Stage r <> "") l -> safe_rec K (reconcile_each grace l).
Proof.
  induction 1 as [|ro l Hs _ IH]; simpl; [done|].
  apply safe_rec_bind; [by apply reconcileOne_safe|done].
Qed.

Lemma loop_safe K grace n : safe_rec K (Reconciler_Run grace n).
Proof.
  assert (safe_rec K (reconcileAll grace)) as Hall.
  { unfold reconcileAll. cbn [bind call safe_rec]. split; [done|].
    intros [l|e] Hx; [|done]. by apply reconcile_each_safe. }
  induction n as [|n IH]; cbn [Reconciler_Run]; (apply safe_rec_bind; [done|]); done.
Qed.

Lemma act_safe a : safe [] (act a).
Proof.
  destruct a as [n|m j c|id|id from]; cbn [act serve].
  - apply safe_bind; [apply safe_reconciler, loop_safe|done].
  - apply safe_on_cp, no_write_safe, registry_no_write.
  - apply safe_on_cp, safe_cp_bind; [apply safe_deployed, revert_safe; by left|by intros [|]].
  - apply safe_on_cp, safe_cp_bind; [apply safe_deployed, revert_safe; by right|by intros [|]].
Qed.

(** ** The invariant *)

Section Gate.
Context (t0 : table).

Definition gate_inv (c : pool (E := SysE) (S := Sys S) (R := res string)) : Prop :=
  table_gated (observed c.2) t0 (rows (cp_rollouts (sys_cp c.2)))
  /\ Forall (fun p => exists K, safe K p /\ forall x, x ∈ K -> x ∈ observed c.2) c.1.

(** The stage of every row is known to be non-empty. *)
Lemma gated_stages obs t id r : table_gated obs t0 t -> t !! id = Some r -> Stage r <> "".
Proof.
  intros [_ H] Hr. specialize (H id). destruct (t0 !! id); [|congruence].
  destruct H as (r' & Hr' & _ & Hs & _). by simplify_eq.
Qed.

Lemma listing_good obs (s : RDB) l :
  table_gated obs t0 (rows s) -> (cockroach_rollouts _ ListRunningRollouts s).1 = Ok l ->
  Forall (fun r => Stage r <> "") l.
Proof.
  intros Ht. simpl. unfold on_rows. destruct (rdb_up s); simpl; [|done]. intros [= <-].
  apply Forall_forall. intros r Hr. apply list_elem_of_In, filter_In in Hr as [Hr _].
  unfold all_rows in Hr. apply in_map_iff in Hr as ([id r'] & <- & Hin).
  apply list_elem_of_In, elem_of_map_to_list in Hin. by eapply gated_stages.
Qed.

Lemma rollout_step obs K X (e : Rollout.StoreE X) s :
  allowed K X (DbRollout e) -> (forall x, x ∈ K -> x ∈ obs) ->
  table_gated obs t0 (rows s) ->
  table_gated obs t0 (rows (cockroach_rollouts X e s).2)
  /\ good X (Cpe (DbRollout e)) (cockroach_rollouts X e s).1.
Proof.
  intros Ha HK Ht.
  destruct e as [r|id|m|m| |m n|id ex st status en];
    try (split; [simpl; unfold on_rows; by destruct (rdb_up s)|done]).
  - split; [simpl; unfold on_rows; by destruct (rdb_up s)|].
    simpl. unfold on_rows. destruct (rdb_up s); simpl; [|done].
    destruct (rows s !! id) eqn:Hr; [by eapply gated_stages|done].
  - split; [simpl; unfold on_rows; by destruct (rdb_up s)|].
    pose proof (listing_good obs s) as Hl. cbn [good].
    destruct (cockroach_rollouts _ ListRunningRollouts s).1; [by apply Hl|done].
  - split; [|done]. simpl. unfold on_rows. destruct (rdb_up s); simpl; [|done].
    unfold Cockroach_UpdateRollout. destruct (rows s !! id) as [r|] eqn:Hr; [|done].
    destruct (bool_decide (Stage r = ex) && is_running r) eqn:E; [|done].
    destruct (known_stage st && known_status status); [|done]. simpl.
    apply andb_true_iff in E as [E1 E2]. unfold is_running in E2. apply bool_decide_eq_true in E1, E2.
    destruct Ht as [H0 H]. split; [done|]. intros id'. specialize (H id').
    destruct (decide (id = id')) as [<-|Hne]; [|by rewrite lookup_insert_ne].
    rewrite Hr in H. destruct (t0 !! id) as [r0|]; [|done].
    destruct H as (r' & [= <-] & Hs & Hst & Hg). rewrite lookup_insert_eq.
    destruct Ha as (Hl & Hne & Hcase). subst ex.
    eexists. split; [done|]. split; [done|]. split; [done|].
    etrans; [exact Hg|]. apply rtc_once. unfold at_. rewrite E2. simpl.
    destruct Hcase as [[-> Hs2]|[Hd HK2]]; [by apply gated_revert|].
    apply gated_advance; [done|done|by apply HK].
Qed.

Lemma cp_step obs K X (e : CpE X) w :
  allowed K X e -> (forall x, x ∈ K -> x ∈ obs) ->
  table_gated obs t0 (rows (cp_rollouts w)) ->
  table_gated obs t0 (rows (cp_rollouts (cp X e w).2)) /\ good X (Cpe e) (cp X e w).1.
Proof.
  intros Ha HK Ht. destruct e as [X e|X e|X e|X e| |]; simpl.
  - by destruct (cockroach_store _ _ _).
  - pose proof (rollout_step obs K X e (cp_rollouts w) Ha HK Ht) as [H1 H2].
    by destruct (cockroach_rollouts X e (cp_rollouts w)).
  - by destruct (etcd _ _ _).
  - by destruct (hsigner _ _ _).
  - done.
  - done.
Qed.

Lemma gate_step c c' : gate_inv c -> pstep sys sys_env c c' -> gate_inv c'.
Proof.
  intros [Ht Hf] Hst. destruct Hst as [ts w i p p' w' Hi Hp|ts w v]; simpl in *.
  2: { split; [by destruct v as [[]| |]|]. by destruct v. }
  destruct (Forall_lookup_1 _ _ _ _ Hf Hi) as (K & Hs & HK).
  destruct p as [a|X e k]; [done|]. simpl in Hp, Hs. destruct Hs as [Ha Hk].
  assert (exists obs', observed (sys X e w).2 = obs' ++ observed w
      /\ (forall x, x ∈ learn X e (sys X e w).1 -> x ∈ obs')
      /\ table_gated (observed (sys X e w).2) t0 (rows (cp_rollouts (sys_cp (sys X e w).2)))
      /\ good X e (sys X e w).1) as (obs' & Ho & Hlearn & Ht' & Hg).
  { destruct e as [X e|X e].
    - destruct (cp_step (observed w) K X e (sys_cp w) Ha HK Ht) as [H1 H2].
      exists []. simpl. destruct (cp X e (sys_cp w)). simpl in *. split; [done|].
      split; [by intros y ?%not_elem_of_nil|done].
    - destruct e as [id stage|id m stage pc]; simpl.
      + exists (saw id stage (verdict w id stage)). split; [done|]. split; [done|]. split; [|done].
        eapply table_gated_mono; [|exact Ht]. intros x. rewrite elem_of_app. auto.
      + exists []. split; [done|]. split; [by intros y ?%not_elem_of_nil|done]. }
  destruct (sys X e w) as [x w2]. injection Hp as <- <-. simpl in *.
  split; [done|]. apply Forall_insert.
  - eapply Forall_impl; [exact Hf|]. simpl. intros q (K' & Hq & HK'). exists K'.
    split; [done|]. intros y Hy. rewrite Ho, elem_of_app. auto.
  - exists (learn X e x ++ K). split; [by apply Hk|].
    intros y. cbn [snd]. rewrite Ho, !elem_of_app. intuition auto.
Qed.
End Gate.

(** C1. No unanalysed stage.  With any number of reconciler loops running at
    once (replicas, lease handovers, restarts), among registrations, aborts and
    rollbacks, with every call interleaving, time passing, the database and
    etcd failing, and the cluster answering lookups in any way at any time: a
    rollout advances out of a stage only if some reconciler saw a successful
    analysis of that stage of that rollout, and otherwise it only ends where it
    stands. *)
Theorem advance_needs_analysis acts w ds :
  let t := rows (cp_rollouts (sys_cp w)) in
  (forall id r, t !! id = Some r -> Stage r <> "") ->
  let w' := (sched sys sys_env ds (map act acts, w)).2 in
  forall id r, t !! id = Some r ->
    exists r', rows (cp_rollouts (sys_cp w')) !! id = Some r' /\ same_rollout r r'
      /\ rtc (gated (fun s => (id, s) ∈ observed w')) (at_ r) (at_ r').
Proof.
  intros t Ht w' id r Hr.
  assert (gate_inv t (sched sys sys_env ds (map act acts, w))) as [[_ H] _].
  { apply (sched_invariant sys sys_env (gate_inv t)); [|apply gate_step].
    split; simpl.
  - split; [done|]. intros id'. fold t. destruct (t !! id') eqn:E; [|done].
    eexists. split; [done|]. split; [done|]. split; [by eapply Ht|done].
    - apply Forall_map, Forall_forall. intros a _. exists []. split; [apply act_safe|].
      intros x Hx. by apply not_elem_of_nil in Hx. }
  specialize (H id). rewrite Hr in H. destruct H as (r' & ? & ? & _ & ?). by exists r'.
Qed.

(** * One pass, nothing interleaving *)

(** The rollout service, as the reconciler reaches it. *)
Lemma run_on_cp {A} (p : prog CpE A) w :
  run sys (on_cp p) w =
    let '(x, c) := run cp p (sys_cp w) in
    (x, mkSys c (verdict w) (create_answer w) (observed w) (created w)).
Proof.
  unfold on_cp. rewrite run_link. revert w. induction p as [a|X e k IH]; intros w; simpl; [by destruct w|].
  destruct (cp X e (sys_cp w)) as [x c]. simpl. by rewrite IH.
Qed.

Definition rsys : handler RecE (Sys S) := fun X e => run sys (rec_deps X e).

Lemma run_reconciler {A} (p : prog RecE A) w : run sys (reconciler p) w = run rsys p w.
Proof. apply run_link. Qed.

Lemma rsys_driver {X} (e : RolloutDriver X) w :
  rsys _ (Driver e) w =
    let '(x, c) := run cp (deployed (driver_impl X e)) (sys_cp w) in
    (x, mkSys c (verdict w) (create_answer w) (observed w) (created w)).
Proof. unfold rsys. cbn [rec_deps]. apply run_on_cp. Qed.

Lemma rsys_runs {X} (e : Client X) w : rsys _ (Runs e) w = sys _ (Cluster e) w.
Proof. unfold rsys. cbn [rec_deps]. apply run_call. Qed.

Lemma rsys_now w : rsys _ RecNow w = (cp_clock (sys_cp w), w).
Proof. unfold rsys. cbn [rec_deps]. rewrite run_call. by destruct w. Qed.

(** What a pass over one rollout does to the control plane and asks of the
    cluster. *)
Definition reaction_of (grace : Z) (ro : Rollout) (w : Sys S) : Cp S * list CreateCall :=
  if bool_decide (Stage ro = "stable") then (sys_cp w, [])
  else match verdict w (RolloutID ro) (Stage ro) with
  | Err _ => (sys_cp w, [])
  | Ok None =>
      if cp_clock (sys_cp w) - StageEnteredAt ro <? grace then (sys_cp w, [])
      else (sys_cp w, [mkCreateCall (RolloutID ro) (rModelRef ro) (Stage ro) (stagePercent (Stage ro))])
  | Ok (Some r) =>
      match react (runPhase r) with
      | Advance => ((advance_outcome (RolloutID ro) (Stage ro) (sys_cp w)).2, [])
      | Rollback =>
          ((run cp (deployed (revertCanary (RolloutID ro) "rolled_back" (Stage ro))) (sys_cp w)).2, [])
      | Wait => (sys_cp w, [])
      end
  end.

Lemma reconcileOne_run grace ro w :
  let w' := (run sys (reconciler (reconcileOne grace ro)) w).2 in
  sys_cp w' = (reaction_of grace ro w).1
  /\ created w' = created w ++ (reaction_of grace ro w).2
  /\ verdict w' = verdict w.
Proof.
  rewrite run_reconciler. unfold reconcileOne, reaction_of.
  case_bool_decide; [simpl; by rewrite app_nil_r|].
  rewrite run_bind, run_call, rsys_runs. cbn [sys].
  destruct (verdict w (RolloutID ro) (Stage ro)) as [[r|]|e]; [| |simpl; by rewrite app_nil_r].
  - destruct (react (runPhase r)); [| |simpl; by rewrite app_nil_r].
    + rewrite run_bind, run_call, rsys_driver. cbn [driver_impl sys_cp]. unfold AutoAdvance.
      rewrite advance_run. destruct (advance_outcome _ _ _). simpl. by rewrite app_nil_r.
    + rewrite run_bind, run_call, rsys_driver. cbn [driver_impl sys_cp]. unfold AutoRollback.
      destruct (run cp _ _). simpl. by rewrite app_nil_r.
  - rewrite run_bind, run_call, rsys_now. cbn [sys_cp].
    destruct (_ <? grace); [simpl; by rewrite app_nil_r|].
    rewrite run_bind, run_call, rsys_runs. done.
Qed.

(** C22. The reaction to a verdict that is not a success.  When the analysis of
    a running rollout's stage failed, errored or was inconclusive, one pass
    rolls it back on a healthy deployment: the rollout is closed as
    rolled_back at its stage, etcd routes everything to the version that was
    stable when it began, and no analysis is asked for; while an analysis is
    pending, running, or cannot be looked up, the pass changes nothing.  While
    there is none the pass leaves the deployment alone, and asks for one, of the
    rollout's stage and its percentage, exactly when the stage is as old as the
    grace period. *)
Theorem verdict_without_success grace ro w :
  let id := RolloutID ro in
  healthy (sys_cp w) -> row id (sys_cp w) = Some ro -> rStatus ro = "running" ->
  known_stage (Stage ro) = true -> Stage ro <> "stable" -> utf8 (StableVersionID ro) = true ->
  let w' := (run sys (reconciler (reconcileOne grace ro)) w).2 in
  match verdict w id (Stage ro) with
  | Ok (Some r) =>
      if bool_decide (runPhase r ∈ [PhaseFailed; PhaseError; PhaseInconclusive]) then
        at_ <$> row id (sys_cp w') = Some (Stage ro, "rolled_back")
        /\ published (rModelRef ro) (sys_cp w') = Some (mkActiveEnvelope (StableVersionID ro) "" 0)
        /\ created w' = created w
      else runPhase r <> PhaseSuccessful -> sys_cp w' = sys_cp w /\ created w' = created w
  | Ok None =>
      sys_cp w' = sys_cp w
      /\ (cp_clock (sys_cp w) < StageEnteredAt ro + grace -> created w' = created w)
      /\ (StageEnteredAt ro + grace <= cp_clock (sys_cp w) ->
            created w' = created w ++ [mkCreateCall id (rModelRef ro) (Stage ro) (stagePercent (Stage ro))])
  | Err _ => sys_cp w' = sys_cp w /\ created w' = created w
  end.
Proof.
  intros id Hh Hr Hs Hk Hst Hu w'.
  destruct (reconcileOne_run grace ro w) as (Hcp & Hcr & _). fold w' in Hcp, Hcr.
  unfold reaction_of in Hcp, Hcr. rewrite bool_decide_false in Hcp, Hcr by done. fold id in Hcp, Hcr.
  destruct (verdict w id (Stage ro)) as [[r|]|e].
  - case_bool_decide as Hp.
    + assert (react (runPhase r) = Rollback) as E.
      { repeat (apply elem_of_cons in Hp as [->|Hp]; [reflexivity|]). by apply not_elem_of_nil in Hp. }
      rewrite E in Hcp, Hcr. rewrite app_nil_r in Hcr.
      destruct Hh as (Hd & Hup & He).
      rewrite revert_run in Hcp; [|by intros ? ?; simplify_eq|done].
      unfold revert_outcome, guard in Hcp. rewrite Hup, Hr, Hs, He in Hcp.
      rewrite (bool_decide_true (Stage ro = Stage ro)) in Hcp by done.
      rewrite andb_false_r in Hcp. simpl in Hcp. rewrite Hcp.
      split; [unfold row; simpl; by rewrite lookup_insert_eq|].
      split; [by apply (published_set (rModelRef ro))|done].
    + intros Hns. unfold react in Hcp, Hcr. rewrite bool_decide_false in Hcp, Hcr by done.
      assert (forall x, x ∈ [PhaseFailed; PhaseError; PhaseInconclusive] -> runPhase r <> x) as Hx
        by (intros x Hx E; by rewrite E in Hp).
      rewrite !bool_decide_false in Hcp, Hcr by (apply Hx; set_solver). simpl in Hcp, Hcr.
      by rewrite app_nil_r in Hcr.
  - destruct (_ <? grace) eqn:E; zbool; cbn [fst snd] in *; (split; [done|]); (split; intros Ht; [|]);
      first [lia|by rewrite app_nil_r in Hcr|exact Hcr].
  - by rewrite app_nil_r in Hcr.
Qed.

(** ** The loop reaches stable *)
















End System.

(** * Concrete systems *)

Definition always (phase : string) : string -> string -> res (option AnalysisRun) :=
  fun _ _ => Ok (Some (mkRun "run" phase)).

Definition test_sys (stage phase : string) : Sys unit :=
  mkSys (with_rollout stage) (always phase) (Ok tt) [] [].

Abbreviation test_handler := (sys clear_signer test_uuid).

Lemma advance_needs_analysis_witness :
  let w' := (sched test_handler sys_env
               (replicate 4 (Run 0%nat) ++ replicate 6 (Run 1%nat) ++ replicate 6 (Run 0%nat))
               (map act [Loop 0; Loop 0], test_sys "canary_1" PhaseSuccessful)).2 in
  exists r', rows (cp_rollouts (sys_cp w')) !! "r1" = Some r' /\ same_rollout (row_at "canary_1") r'
    /\ rtc (gated (fun s => ("r1", s) ∈ observed w')) ("canary_1", "running") (at_ r').
Proof.
  apply (advance_needs_analysis clear_signer test_uuid [Loop 0; Loop 0]
           (test_sys "canary_1" PhaseSuccessful) _).
  - intros id r. simpl. intros [_ <-]%lookup_singleton_Some. discriminate.
  - reflexivity.
Defined.

Lemma verdict_without_success_witness :
  let w := test_sys "canary_10" PhaseInconclusive in
  let w' := (run test_handler (reconciler (reconcileOne stageGracePeriod (row_at "canary_10"))) w).2 in
  at_ <$> row "r1" (sys_cp w') = Some ("canary_10", "rolled_back")
  /\ published "openai" (sys_cp w') = Some (mkActiveEnvelope "v1" "" 0)
  /\ created w' = [].
Proof.
  intros w w'.
  assert (healthy (sys_cp w)) as Hh by (repeat split).
  pose proof (verdict_without_success clear_signer test_uuid stageGracePeriod (row_at "canary_10") w Hh
    eq_refl eq_refl eq_refl ltac:(discriminate) eq_refl) as H.
  exact H.
Defined.


(** After the grace period an analysis is asked for, before it none is. *)
Example grace_period :
  let w t := let w := test_sys "canary_10" "" in
             mkSys (cp_env (Deploy.SetClock (t0 + t)) (sys_cp w)) (fun _ _ => Ok None) (Ok tt) [] [] in
  let pass t := created (run test_handler (reconciler (reconcileOne stageGracePeriod (row_at "canary_10"))) (w t)).2 in
  pass (29 * second) = [] /\ pass (30 * second) = [mkCreateCall "r1" "openai" "canary_10" 10].
Proof. vm_compute. auto. Qed.

(** A creation can skip an analysis.  [CreateRollout] starts the canary
      with no precondition on the stage.  If it stalls right after inserting its
      row until a reconciler has analysed and advanced that row, it then
      advances it once more: out of canary_1, which nobody analysed. *)
Theorem create_can_skip_analysis :
  let c := sched test_handler sys_env
     (replicate 8 (Run 0%nat) ++ replicate 5 (Run 1%nat) ++ replicate 4 (Run 0%nat))
     ([on_cp (serve (DoCreate "openai" "v2" "[]")); act (Loop 0)],
      mkSys (deployment ∅ true) (always PhaseSuccessful) (Ok tt) [] []) in
  head c.1 = Some (Ret (Ok "uuid-0"))
  /\ at_ <$> row "uuid-0" (sys_cp c.2) = Some ("canary_10", "running")
  /\ observed c.2 = [("uuid-0", "pending")].
Proof. vm_compute. auto. Qed.

(** The loop over the fakes, as the tests drive it: nothing is created within
    the grace period, one analysis after it, and a successful one advances. *)
Section OverFakes.
Definition fakes : Type := FakeDriver * FakeClient.

Definition fake_rec : handler RecE fakes := fun X e s =>
  match e in RecE X return X * fakes with
  | Driver e => let '(x, d) := fake_driver test_uuid _ e s.1 in (x, (d, s.2))
  | Runs e => let '(x, c) := fake_client _ e s.2 in (x, (s.1, c))
  | RecNow => (fake_now (fs_store (fd_svc s.1)), s)
  end.

Definition at_time (t : Z) (s : fakes) : fakes :=
  let svc := fd_svc s.1 in
  let st := mkFakeStore (rollouts (fs_store svc)) (LastListLimit (fs_store svc)) t in
  (mkFakeDriver (mkFakeService st (fs_publisher svc) (fs_registry svc) (fs_drawn svc))
     (AutoAdvanceCalls s.1) (AutoRollbackCalls s.1), s.2).

Definition seeded : FakeService :=
  mkFakeService (NewFakeStore t0) NewFakePublisher
    (Seed "openai" "v2" (SeedActive "openai" "v1" NewFakeRegistry)) 0.

Definition pass (s : fakes) : fakes := (run fake_rec (reconcileAll stageGracePeriod) s).2.

Definition started : fakes :=
  (mkFakeDriver (run (fake_service test_uuid) (CreateRollout "openai" "v2" "{}") seeded).2 [] [],
   NewFakeClient).

Example over_the_fakes :
  let s1 := pass (at_time (t0 + 29 * second) started) in
  let s2 := pass (at_time (t0 + 31 * second) s1) in
  let s3 := pass (s2.1, SetPhase "uuid-0" "canary_1" PhaseSuccessful s2.2) in
  CreateCalls s1.2 = []
  /\ CreateCalls s2.2 = [mkCreateCall "uuid-0" "openai" "canary_1" 1]
  /\ AutoAdvanceCalls s3.1 = ["uuid-0"]
  /\ LastCall (fs_publisher (fd_svc s3.1)) = mkCanaryWrite "openai" "v1" "v2" 10.
Proof. vm_compute. auto. Qed.
End OverFakes.
