(* ===== verification/Leader.v ===== *)
(** control-plane/internal/analysis/leader.go and the goroutine of main() that
    runs the reconciler: one replica's candidacy.

    client-go's election loop is the call [RunOrDie]: it campaigns, runs the
    reconciler while the lease is held, and returns when its context is done or
    the lease is lost. *)

From S2P Require Import Prelude Errors Prog Analysis.
#[local] Open Scope Z_scope.

Record LeaderElectionConfig := mkElection {
  Lock : string; Identity : string; LeaseDuration : Z; RenewDeadline : Z; RetryPeriod : Z; ReleaseOnCancel : bool }.

Inductive LeaderE : interface :=
| NewForConfig : LeaderE (res unit)
| RunOrDie (cfg : LeaderElectionConfig) : LeaderE unit
| CtxErr : LeaderE (option error).

Definition newLeaseLock (me : string) : LeaderElectionConfig :=
  mkElection leaseName me leaseDuration renewDeadline retryPeriod true.

Definition runWithLock (me : string) : prog LeaderE (option error) :=
  call (RunOrDie (newLeaseLock me)) ;;; call CtxErr.

Definition RunWithLeaderElection (me : string) : prog LeaderE (option error) :=
  client <- call NewForConfig ;;
  match (client : res unit) with
  | Err e => Ret (Some (Wrapf "creating kubernetes clientset for leader election: %w" [] e))
  | Ok _ => runWithLock me
  end.

(** How the goroutine of main() ends: silently, or by ending the process. *)
Inductive ending := Returns | Exits.

Definition reconciler_goroutine (me : string) : prog LeaderE ending :=
  err <- RunWithLeaderElection me ;;
  match err with
  | None => Ret Returns
  | Some _ => ctx <- call CtxErr ;; Ret (match (ctx : option error) with None => Exits | Some _ => Returns end)
  end.

Definition campaigns (c : {X & LeaderE X}) : bool :=
  match projT2 c with RunOrDie _ => true | _ => false end.

(** A replica campaigns once in its life.  However the election goes, the
    goroutine makes at most one attempt; if it loses the lease while its context
    is alive it returns, the process goes on, and this replica never leads
    again. *)
Lemma lost_lease_is_final {S} (h : handler LeaderE S) me w :
  (length (List.filter campaigns (trace h (reconciler_goroutine me) w)) <= 1)%nat
  /\ forall w1, h _ NewForConfig w = (Ok tt, w1) ->
     (h _ CtxErr (h _ (RunOrDie (newLeaseLock me)) w1).2).1 = None ->
     (run h (reconciler_goroutine me) w).1 = Returns.
Proof.
  unfold reconciler_goroutine, RunWithLeaderElection, runWithLock. split.
  - cbn. destruct (h _ NewForConfig w) as [[[]|e] w1]; cbn.
    + destruct (h _ (RunOrDie _) w1) as [[] w2]. cbn. destruct (h _ CtxErr w2) as [[e|] w3]; cbn; [|lia].
      destruct (h _ CtxErr w3) as [[?|] w4]; cbn; lia.
    + destruct (h _ CtxErr w1) as [[?|] w2]; cbn; lia.
  - intros w1 H1 H2. cbn. rewrite H1. cbn. destruct (h _ (RunOrDie _) w1) as [[] w2]. cbn in H2 |- *.
    destruct (h _ CtxErr w2) as [[e|] w3]; [done|]. done.
Qed.
