(* ===== verification/Float.v ===== *)
(** Go's text for floating-point values: [%f] and encoding/json's shortest form
    for the [float32]s of the gateway, the shortest form and [strconv.ParseFloat]
    for the [float64]s of the other services.

    A [float32] is a [SpecFloat.spec_float] of precision 24 and maximal exponent
    128, a [float64] one of precision 53 and maximal exponent 1024, so a finite
    value is [m * 2^e] exactly and all roundings below are computed on integers. *)

From S2P Require Import Prelude Errors Json.
From Stdlib Require Import SpecFloat Ascii.
#[local] Open Scope Z_scope.

Definition float32 : Type := spec_float.

(** The value nearest to [m * 2^e]. *)
Definition float32_of (m e : Z) : float32 := binary_normalize 24 128 m e false.

(** [n] decimal digits of [z >= 0], with leading zeros. *)
Fixpoint digits (n : nat) (z : Z) : string :=
  match n with
  | O => ""
  | S n' => digits n' (z / 10) +:+ String (hex_char (z mod 10)) ""
  end.

(** [num / den] to the nearest integer, ties to even. *)
Definition round_div (num den : Z) : Z :=
  let q := num / den in
  let r := num mod den in
  if (2 * r <? den) || ((2 * r =? den) && Z.even q) then q else q + 1.

(** [m * 2^e] as a fraction. *)
Definition frac_num (m e : Z) : Z := if 0 <=? e then m * 2 ^ e else m.
Definition frac_den (e : Z) : Z := if 0 <=? e then 1 else 2 ^ (- e).

Definition minus (neg : bool) : string := if neg then "-" else "".

(** [fmt.Sprintf("%f", x)]: six decimals. *)
Definition fmt_f (x : float32) : string :=
  match x with
  | S754_nan => "NaN"
  | S754_infinity s => if s then "-Inf" else "+Inf"
  | S754_zero s => minus s +:+ "0.000000"
  | S754_finite s m e =>
      let n := round_div (frac_num (Zpos m) e * 10 ^ 6) (frac_den e) in
      minus s +:+ itoa (n / 10 ^ 6) +:+ "." +:+ digits 6 (n mod 10 ^ 6)
  end.

(** ** The shortest decimal that reads back as the same value *)

(** [d * 10^k] lies between the midpoints to the neighbouring values (the
    midpoints included when the mantissa is even, so that a tie reads back).
    The gap below a power of two is half the gap above. *)
Definition rounds_back (prec emin m e d k : Z) : bool :=
  let below := if (m =? 2 ^ (prec - 1)) && (emin <? e) then 4 * m - 1 else 4 * m - 2 in
  let above := 4 * m + 2 in
  let e := e - 2 in
  let lhs := d * (if 0 <=? k then 10 ^ k else 1) * frac_den e in
  let scale := if 0 <=? k then 1 else 10 ^ (- k) in
  let lo := frac_num below e * scale in
  let hi := frac_num above e * scale in
  if Z.even m then (lo <=? lhs) && (lhs <=? hi) else (lo <? lhs) && (lhs <? hi).

(** The least [p] at or above the start with [m * 2^e < 10^p]. *)
Fixpoint magnitude (fuel : nat) (p m e : Z) : Z :=
  match fuel with
  | O => p
  | S fuel' =>
      let num := frac_num m e * (if 0 <=? p then 1 else 10 ^ (- p)) in
      let den := frac_den e * (if 0 <=? p then 10 ^ p else 1) in
      if num <? den then p else magnitude fuel' (p + 1) m e
  end.

Fixpoint strip_zeros (fuel : nat) (d k : Z) : Z * Z :=
  match fuel with
  | O => (d, k)
  | S fuel' => if d mod 10 =? 0 then strip_zeros fuel' (d / 10) (k + 1) else (d, k)
  end.

(** Try [n], [n+1], ... significant digits: of the two decimals around the
    value the nearer one that reads back. Nine digits always suffice for a
    [float32], seventeen for a [float64]. *)
Fixpoint shortest_from (fuel : nat) (prec emin n p m e : Z) : Z * Z :=
  let k := p - n in
  let num := frac_num m e * (if 0 <=? k then 1 else 10 ^ (- k)) in
  let den := frac_den e * (if 0 <=? k then 10 ^ k else 1) in
  let lo := num / den in
  let near := round_div num den in
  let other := if near =? lo then lo + 1 else lo in
  if rounds_back prec emin m e near k then strip_zeros 20 near k
  else if rounds_back prec emin m e other k then strip_zeros 20 other k
  else match fuel with
  | O => strip_zeros 20 near k
  | S fuel' => shortest_from fuel' prec emin (n + 1) p m e
  end.

Definition shortest (m e : Z) : Z * Z := shortest_from 8 24 (-149) 1 (magnitude 90 (-45) m e) m e.

Definition zeros (n : Z) : string := digits (Z.to_nat n) 0.

(** The digits [d * 10^k] without an exponent. *)
Definition plain (d k : Z) : string :=
  if 0 <=? k then itoa d +:+ zeros k
  else
    let t := itoa d in
    let dp := Z.of_nat (String.length t) + k in
    if dp <=? 0 then "0." +:+ zeros (- dp) +:+ t
    else take_str (Z.to_nat dp) t +:+ "." +:+ drop_str (Z.to_nat dp) t.

(** One digit, the rest after a point, and the exponent. *)
Definition scientific (d k : Z) : string :=
  let t := itoa d in
  let x := Z.of_nat (String.length t) - 1 + k in
  take_str 1 t +:+ (if (1 <? Z.of_nat (String.length t)) then "." +:+ drop_str 1 t else "") +:+ "e"
  +:+ (if x <? 0 then "-" else "+") +:+ itoa (Z.abs x).

(** The number [json.Marshal] writes: no exponent from 1e-6 up to 1e21; NaN and
    infinities cannot be written. *)
Definition UnsupportedValueError : error := Lib "json: unsupported value".

(** [float32(abs) < 1e-6 || float32(abs) >= 1e21]: the bounds are the [float32]
    values nearest to the two constants. *)
Definition needs_exponent (m : positive) (e : Z) : bool :=
  let abs := S754_finite false m e in
  SFltb abs (float32_of 8796093 (-43)) || SFleb (float32_of 14210855 46) abs.

Definition json_float32 (x : float32) : res json :=
  match x with
  | S754_nan | S754_infinity _ => Err UnsupportedValueError
  | S754_zero s => Ok (JNum (minus s +:+ "0"))
  | S754_finite s m e =>
      let '(d, k) := shortest (Zpos m) e in
      Ok (JNum (minus s +:+ (if needs_exponent m e then scientific d k else plain d k)))
  end.

(** ** Checks against the Go toolchain's documented outputs *)

Example json_float32_examples :
  map json_float32 [float32_of 11744051 (-24); float32_of 13421773 (-27); float32_of 1 0; float32_of 16777216 0;
                    float32_of 10555312 (-45); float32_of 13322676 50; float32_of 1 (-149);
                    float32_of 16777215 104; S754_zero true; float32_of 3 (-1)]
  = map (fun n => Ok (JNum n)) ["0.7"; "0.1"; "1"; "16777216"; "3e-7"; "1.5e+22"; "1e-45"; "3.4028235e+38"; "-0"; "1.5"].
Proof. vm_compute. reflexivity. Qed.

Example fmt_f_examples :
  map fmt_f [float32_of 11744051 (-24); float32_of 13421773 (-27); float32_of (-3) (-1); S754_zero true;
             float32_of 1 (-149)]
  = ["0.700000"; "0.100000"; "-1.500000"; "-0.000000"; "0.000000"].
Proof. vm_compute. reflexivity. Qed.

(** * [float64] *)

Definition float64 : Type := spec_float.

Definition shortest64 (m e : Z) : Z * Z := shortest_from 16 53 (-1074) 1 (magnitude 650 (-325) m e) m e.

(** [abs < 1e-6 || abs >= 1e21]. *)
Definition needs_exponent64 (m : positive) (e : Z) : bool :=
  let abs := S754_finite false m e in
  SFltb abs (binary_normalize 53 1024 4722366482869645 (-72) false)
  || SFleb (binary_normalize 53 1024 (10 ^ 21) 0 false) abs.

Definition json_float64 (x : float64) : res json :=
  match x with
  | S754_nan | S754_infinity _ => Err UnsupportedValueError
  | S754_zero s => Ok (JNum (minus s +:+ "0"))
  | S754_finite s m e =>
      let '(d, k) := shortest64 (Zpos m) e in
      Ok (JNum (minus s +:+ (if needs_exponent64 m e then scientific d k else plain d k)))
  end.

(** The [float64] nearest to [num / den]: enough bits of the quotient, the last
    one standing for the rest. *)
Definition round64 (neg : bool) (num den : Z) : float64 :=
  if num =? 0 then S754_zero neg
  else
    let k := Z.max 0 (Z.log2 den - Z.log2 num + 66) in
    let q := num * 2 ^ k / den in
    let sticky := if num * 2 ^ k mod den =? 0 then 0 else 1 in
    let m := 2 * q + sticky in
    binary_normalize 53 1024 (if neg then - m else m) (- k - 1) neg.

(** ** [strconv.ParseFloat] *)

Definition ParseFloatError (s : string) : error := Errorf "strconv.ParseFloat: parsing %q" [s].

Definition hex_digit (a : ascii) : option Z :=
  let b := byte_of a in
  if (48 <=? b) && (b <=? 57) then Some (b - 48)
  else if (97 <=? b) && (b <=? 102) then Some (b - 87)
  else if (65 <=? b) && (b <=? 70) then Some (b - 55) else None.

Definition digit_in (base : Z) (a : ascii) : option Z :=
  match hex_digit a with Some d => if d <? base then Some d else None | None => None end.

(** The mantissa: its digits as a number, how many follow the point, whether
    there was a digit, a point, an underscore, and what is left. *)
Record mantissa := mkMantissa {
  mDigits : Z; mScale : Z; sawdigits : bool; sawdot : bool; underscores : bool; mRest : string }.

Fixpoint read_mantissa (base : Z) (s : string) (x : mantissa) : mantissa :=
  match s with
  | EmptyString => x
  | String a s' =>
      match digit_in base a with
      | Some d =>
          read_mantissa base s' (mkMantissa (mDigits x * base + d) (mScale x + if sawdot x then 1 else 0) true (sawdot x)
                                   (underscores x) s')
      | None =>
          if byte_of a =? 95 then
            read_mantissa base s' (mkMantissa (mDigits x) (mScale x) (sawdigits x) (sawdot x) true s')
          else if (byte_of a =? 46) && negb (sawdot x) then
            read_mantissa base s' (mkMantissa (mDigits x) (mScale x) (sawdigits x) true (underscores x) s')
          else x
      end
  end.

(** The digits of an exponent, cut off where no more of them matter. *)
Fixpoint read_exponent (s : string) (e : Z) : Z * bool * string :=
  match s with
  | EmptyString => (e, false, s)
  | String a s' =>
      match digit_in 10 a with
      | Some d => read_exponent s' (if e <? 10000 then e * 10 + d else e)
      | None => if byte_of a =? 95 then let '(e', _, r) := read_exponent s' e in (e', true, r) else (e, false, s)
      end
  end.

(** [underscoreOK]: an underscore stands between digits, or between a base
    prefix and a digit. [saw]: 0 a digit or prefix, 1 an underscore, 2 else. *)
Fixpoint underscores_between (hex : bool) (saw : Z) (s : string) : bool :=
  match s with
  | EmptyString => negb (saw =? 1)
  | String a s' =>
      if match digit_in (if hex then 16 else 10) a with Some _ => true | None => false end then underscores_between hex 0 s'
      else if byte_of a =? 95 then if saw =? 0 then underscores_between hex 1 s' else false
      else if saw =? 1 then false else underscores_between hex 2 s'
  end.

Definition lower_of (a : ascii) : Z := byte_of a + if (65 <=? byte_of a) && (byte_of a <=? 90) then 32 else 0.

Definition underscoreOK (s : string) : bool :=
  match s with
  | String z (String x s') =>
      if (byte_of z =? 48) && ((lower_of x =? 98) || (lower_of x =? 111) || (lower_of x =? 120))
      then underscores_between (lower_of x =? 120) 0 s' else underscores_between false 2 s
  | _ => underscores_between false 2 s
  end.

Definition take_sign (s : string) : bool * string :=
  match s with
  | String a s' => if byte_of a =? 43 then (false, s') else if byte_of a =? 45 then (true, s') else (false, s)
  | EmptyString => (false, s)
  end.

(** The value [digits * base^-scale * b^exp], [b] being 10 or 2. *)
Definition scaled (neg : bool) (base : Z) (x : mantissa) (exp : Z) : float64 :=
  if mDigits x =? 0 then S754_zero neg
  else
    let b := if base =? 16 then 2 else 10 in
    let e := exp - mScale x * (if base =? 16 then 4 else 1) in
    if 0 <=? e then round64 neg (mDigits x * b ^ e) 1 else round64 neg (mDigits x) (b ^ (- e)).

(** A number: [None] is a syntax error. *)
Definition read_float (s : string) : option float64 :=
  let '(neg, body) := take_sign s in
  let '(base, digits) :=
    match body with
    | String z (String x (String y r)) =>
        if (byte_of z =? 48) && (lower_of x =? 120) then (16, String y r) else (10, body)
    | _ => (10, body)
    end in
  let x := read_mantissa base digits (mkMantissa 0 0 false false false digits) in
  let ok u := negb u || underscoreOK body in
  if negb (sawdigits x) then None
  else
    match mRest x with
    | String a r =>
        if lower_of a =? (if base =? 16 then 112 else 101) then
          let '(eneg, r) := take_sign r in
          match r with
          | String d _ =>
              match digit_in 10 d with
              | Some _ =>
                  let '(e, u, r) := read_exponent r 0 in
                  if bool_decide (r = "") && ok (underscores x || u) then Some (scaled neg base x (if eneg then - e else e)) else None
              | None => None
              end
          | EmptyString => None
          end
        else None
    | EmptyString => if (base =? 10) && ok (underscores x) then Some (scaled neg base x 0) else None
    end.

Fixpoint fold_ascii (s : string) : string :=
  match s with String a s' => String (upper a) (fold_ascii s') | EmptyString => "" end.

(** [special]: infinities may have a sign, NaN may not; any case. *)
Definition special (s : string) : option float64 :=
  let '(neg, body) := take_sign s in
  let up := fold_ascii body in
  if bool_decide (up = "INF") || bool_decide (up = "INFINITY") then Some (S754_infinity neg)
  else if bool_decide (fold_ascii s = "NAN") then Some S754_nan else None.

(** [strconv.ParseFloat(s, 64)]: a value too large is a range error. *)
Definition ParseFloat (s : string) : res float64 :=
  match special s with
  | Some x => Ok x
  | None =>
      match read_float s with
      | Some (S754_infinity _) => Err (ParseFloatError s)
      | Some x => Ok x
      | None => Err (ParseFloatError s)
      end
  end.

(** [json.Unmarshal] into a [float64]. *)
Definition d_float64 : decoder float64 := fun j old =>
  match j with
  | JNum n => match ParseFloat n with Ok x => (x, true) | Err _ => (old, false) end
  | JNull => (old, true)
  | _ => (old, false)
  end.

Example json_float64_examples :
  map json_float64 [round64 false 1 10; round64 false 3 2; round64 true 1 3; round64 false (10 ^ 21) 1; round64 false (10 ^ 20) 1;
                    round64 false 1 (10 ^ 7); round64 false 1 (2 ^ 1074); S754_zero true; round64 false 15 100; round64 false 1 (10 ^ 6)]
  = map (fun n => Ok (JNum n)) ["0.1"; "1.5"; "-0.3333333333333333"; "1e+21"; "100000000000000000000"; "1e-7"; "5e-324"; "-0"; "0.15"; "0.000001"].
Proof. vm_compute. reflexivity. Qed.

Example parse_float_examples :
  map ParseFloat ["0.1"; "-12.5e-1"; "+Inf"; "-infinity"; "NaN"; "0x1.8p1"; "1_0"; "1e400"; "1e-400"; "5e-324"; ""; "."; "1.e2"; ".5"; "1e"; "+nan"; "0x1"; "1__0"]
  = [Ok (round64 false 1 10); Ok (round64 true 5 4); Ok (S754_infinity false); Ok (S754_infinity true); Ok S754_nan;
     Ok (round64 false 3 1); Ok (round64 false 10 1); Err (ParseFloatError "1e400"); Ok (S754_zero false); Ok (round64 false 1 (2 ^ 1074));
     Err (ParseFloatError ""); Err (ParseFloatError "."); Ok (round64 false 100 1); Ok (round64 false 1 2); Err (ParseFloatError "1e");
     Err (ParseFloatError "+nan"); Err (ParseFloatError "0x1"); Err (ParseFloatError "1__0")].
Proof. vm_compute. reflexivity. Qed.
