(* ===== verification/Adapter.v ===== *)
(** provider-gateway/internal/adapters: the contract every provider adapter
    implements, the registry of adapters, and the worker_ref convention; also
    the three scaffolds (azure, bedrock, vllm).

    An adapter's [Invoke] is a program over [AdapterE]: loading its current API
    key and the HTTP client.  What it returns implements the class [Stream],
    the pull interface of the Go package.  A response body is the bytes that can
    still be read from it and how it ends. *)

From S2P Require Import Prelude Errors Prog Http Json Float.
From Stdlib Require Import Ascii.
#[local] Open Scope Z_scope.

Record Delta := mkDelta {
  Content : option string;
  FinishReason : option string;
  IsFinal : bool;
  PrefixCacheHandle : option string;
  InputTokens : option Z;
  OutputTokens : option Z
}.

#[global] Instance Delta_eq_dec : EqDecision Delta.
Proof. solve_decision. Defined.

Record Message := mkMessage { Role : string; mContent : string }.

Record InvokeRequest := mkInvokeRequest {
  RequestID : string;
  Model : string;
  Messages : list Message;
  MaxTokens : option Z;
  Temperature : option float32
}.

(** * What an adapter calls *)

Inductive AdapterE : interface :=
| LoadKey (provider : string) : AdapterE string
| NewRequest (method url : string) : AdapterE (res unit)
| HttpDo (r : HttpRequest) : AdapterE (res HttpResponse).

(** A field with [omitempty] on a pointer. *)
Definition omit_nil {A} (name : string) (f : A -> json) (o : option A) : list (string * json) :=
  match o with Some x => [(name, f x)] | None => [] end.

(** The value of a [*float32] field, when it can be written. *)
Definition temperature_json (t : option float32) : res (option json) :=
  match t with
  | None => Ok None
  | Some x => match json_float32 x with Ok j => Ok (Some j) | Err e => Err e end
  end.

(** What the HTTP adapters share: build the request, send it, turn any status
    but 200 into the adapter's [UpstreamError], and hand the body over. *)
Definition post {S} (name : string) (url body : string) (headers : prog AdapterE (list (string * string)))
    (open : Body -> S) : prog AdapterE (res S) :=
  _ <-? wrapped (Wrapf (name +:+ " adapter: build request: %w") []) (call (NewRequest "POST" url)) ;;
  hs <- headers ;;
  resp <-? wrapped (Wrapf (name +:+ " adapter: request failed: %w") [])
             (call (HttpDo (mkHttpRequest "POST" url (("Content-Type", "application/json") :: hs) body))) ;;
  if negb (StatusCode resp =? 200) then
    Ret (Err (UpstreamStatus name (StatusCode resp) (read_all (rBody resp))))
  else Ret (Ok (open (rBody resp))).

(** * Streams *)

(** [Recv] of the Go interface: the next delta, [io.EOF] or an error, and the
    stream afterwards.  [pending] bounds how many deltas are still to come. *)
Class Stream (S : Type) := { Recv : S -> res Delta * S; pending : S -> nat }.

Class LawfulStream (S : Type) `{!Stream S} :=
  recv_consumes : forall s d s', Recv s = (Ok d, s') -> (pending s' < pending s)%nat.

(** Receiving until the final delta or an error, as every consumer does.  The
    fuel is one more than the number of deltas to come. *)
Section Drain.
Context {S : Type} `{!Stream S}.

Fixpoint drain_fuel (fuel : nat) (s : S) : list Delta * option error :=
  match fuel with
  | O => ([], Some (Lib "out of fuel"))
  | Datatypes.S fuel' =>
      match Recv s with
      | (Err e, _) => ([], Some e)
      | (Ok d, s') =>
          if IsFinal d then ([d], None)
          else let '(ds, e) := drain_fuel fuel' s' in (d :: ds, e)
      end
  end.

Definition drain (s : S) : list Delta * option error := drain_fuel (Datatypes.S (pending s)) s.

Context `{!LawfulStream S}.

Lemma drain_fuel_enough n m s :
  (pending s < n)%nat -> (pending s < m)%nat -> drain_fuel n s = drain_fuel m s.
Proof.
  revert m s. induction n as [|n IH]; intros [|m] s Hn Hm; [lia..|]. simpl.
  destruct (Recv s) as [[d|e] s'] eqn:Hr; [|done]. apply recv_consumes in Hr.
  destruct (IsFinal d); [done|]. rewrite (IH m s'); [done|lia|lia].
Qed.

(** Receiving is well founded: the equation of [drain] without fuel. *)
Lemma drain_eq s :
  drain s = match Recv s with
            | (Err e, _) => ([], Some e)
            | (Ok d, s') =>
                if IsFinal d then ([d], None)
                else let '(ds, e) := drain s' in (d :: ds, e)
            end.
Proof.
  unfold drain at 1. simpl. destruct (Recv s) as [[d|e] s'] eqn:Hr; [|done].
  apply recv_consumes in Hr. destruct (IsFinal d); [done|]. unfold drain.
  rewrite (drain_fuel_enough (pending s) (Datatypes.S (pending s')) s'); [done|lia|lia].
Qed.

(** Only the last delta of a drained stream is final, and then there is no
    error; otherwise there is one. *)
Definition well_ended (r : list Delta * option error) : Prop :=
  match r.2 with
  | None => exists ds d, r.1 = ds ++ [d] /\ IsFinal d = true /\ Forall (fun d => IsFinal d = false) ds
  | Some _ => Forall (fun d => IsFinal d = false) r.1
  end.

Lemma drain_well_ended s : well_ended (drain s).
Proof.
  remember (pending s) as n eqn:Hn. revert s Hn.
  induction (lt_wf n) as [n _ IH]. intros s ->. rewrite drain_eq.
  destruct (Recv s) as [[d|e] s'] eqn:Hr; [|constructor]. pose proof (recv_consumes _ _ _ Hr) as Hlt.
  destruct (IsFinal d) eqn:Hd; [by exists [], d|].
  specialize (IH _ Hlt s' eq_refl). unfold well_ended in *. destruct (drain s') as [ds [e|]]; simpl in *.
  - by constructor.
  - destruct IH as (ds' & d' & -> & Hf & Ho). exists (d :: ds'), d'. split; [done|]. split; [done|by constructor].
Qed.
End Drain.

(** The stream that replays a given sequence. *)
Definition replay : Type := list Delta * error.

#[global] Instance replay_stream : Stream replay :=
  {| Recv := fun s => match s.1 with
                      | d :: ds => (Ok d, (ds, s.2))
                      | [] => (Err s.2, s)
                      end;
     pending := fun s => length s.1 |}.

#[global] Instance replay_lawful : LawfulStream replay.
Proof. intros [[|d ds] e] d' s' H; simpl in *; [done|]. simplify_eq/=. lia. Qed.

(** * Adapters and their registry *)

Record Adapter (S : Type) := mkAdapter {
  Name : string; Invoke : InvokeRequest -> prog AdapterE (res S) }.
Arguments mkAdapter {S}.
Arguments Name {S}.
Arguments Invoke {S}.

Section Registry.
Context {S : Type}.

(** [Registry]; a later adapter of the same name replaces an earlier one. *)
Definition Registry : Type := gmap string (Adapter S).

Definition NewRegistry (adapters : list (Adapter S)) : Registry :=
  fold_left (fun r a => <[Name a := a]> r) adapters ∅.

(** [Names]; Go's order is unspecified. *)
Definition Names (r : Registry) : list string := (map_to_list r).*1.

Definition Lookup (r : Registry) (provider : string) : res (Adapter S) :=
  match r !! provider with
  | Some a => Ok a
  | None => Err (ErrUnknownProvider provider)
  end.
End Registry.

(** [ParseWorkerRef]: only the first colon is a delimiter. *)
Definition colon : ascii := ":"%char.

Definition ErrWorkerRef (workerRef : string) : error :=
  Errorf ("worker_ref %q is not in " +:+ dq +:+ "<provider>:<model>" +:+ dq +:+ " form") [workerRef].

Definition ParseWorkerRef (workerRef : string) : res (string * string) :=
  let '(provider, model, ok) := cut colon workerRef in
  if negb ok || bool_decide (provider = "") then Err (ErrWorkerRef workerRef)
  else Ok (provider, model).

(** ** The scaffolds: never registered, and refusing every call *)

Definition azure_ErrNotImplemented : error := Sentinel "azure.ErrNotImplemented".
Definition bedrock_ErrNotImplemented : error := Sentinel "bedrock.ErrNotImplemented".
Definition vllm_ErrNotImplemented : error := Sentinel "vllm.ErrNotImplemented".

Definition azure_adapter {S} : Adapter S := mkAdapter "azure" (fun _ => Ret (Err azure_ErrNotImplemented)).
Definition bedrock_adapter {S} : Adapter S := mkAdapter "bedrock" (fun _ => Ret (Err bedrock_ErrNotImplemented)).
Definition vllm_adapter {S} : Adapter S := mkAdapter "vllm" (fun _ => Ret (Err vllm_ErrNotImplemented)).

(** ** Lemmas *)

Lemma parse_worker_ref provider model :
  provider <> "" -> lacks colon provider = true ->
  ParseWorkerRef (provider +:+ String colon model) = Ok (provider, model).
Proof. intros Hp Hl. unfold ParseWorkerRef. rewrite cut_app by done. by case_bool_decide. Qed.

(** The reference is accepted exactly when it has a colon after a non-empty
    provider, and then it is provider, colon and model. *)
Lemma parse_worker_ref_ok w provider model :
  ParseWorkerRef w = Ok (provider, model) <->
  w = provider +:+ String colon model /\ provider <> "" /\ lacks colon provider = true.
Proof.
  split; [|intros (-> & ? & ?); by apply parse_worker_ref].
  unfold ParseWorkerRef. destruct (cut colon w) as [[p m] ok] eqn:Hc.
  destruct ok; [|done]. simpl. case_bool_decide; [done|]. intros [= <- <-].
  apply cut_spec in Hc as [-> Hl]. done.
Qed.

Lemma lookup_registered {S} (l l' : list (Adapter S)) a :
  Forall (fun b => Name b <> Name a) l' ->
  Lookup (NewRegistry (l ++ a :: l')) (Name a) = Ok a.
Proof.
  intros Hl. unfold Lookup, NewRegistry, Registry. rewrite fold_left_app. simpl.
  set (r := <[Name a := a]> _). assert (r !! Name a = Some a) as Hr by apply lookup_insert_eq.
  clearbody r. revert r Hr. induction Hl as [|b l' Hb _ IH]; intros r Hr; simpl; [by rewrite Hr|].
  apply IH. by rewrite lookup_insert_ne.
Qed.
