(* ===== verification/Sse.v ===== *)
(** provider-gateway/internal/adapters/sse: Server-Sent Events framing over a
    line scanner.

    [open_scanner] splits a body into the lines [bufio.Scanner] hands out;
    [Next] assembles one event from them.  [receive] is the loop the adapters
    run around [Next]. *)

From S2P Require Import Prelude Http Errors Json Adapter.
From Stdlib Require Import Ascii.
#[local] Open Scope Z_scope.

Record Event := mkEvent { eName : string; Data : string }.

#[global] Instance Event_eq_dec : EqDecision Event.
Proof. solve_decision. Defined.

(** * Lines *)

Definition newline : ascii := of_byte 10.
Definition cr : ascii := of_byte 13.

(** The lines of a text, the newlines removed; what follows the last newline
    counts when it is not empty. *)
Fixpoint raw_lines (s : string) : list string :=
  match s with
  | EmptyString => []
  | String a s' =>
      if bool_decide (a = newline) then "" :: raw_lines s'
      else match raw_lines s' with
           | [] => [String a ""]
           | l :: ls => String a l :: ls
           end
  end.

(** [dropCR] of [bufio.ScanLines]. *)
Fixpoint drop_cr (s : string) : string :=
  match s with
  | EmptyString => ""
  | String a s' => if bool_decide (s = String cr "") then "" else String a (drop_cr s')
  end.

Fixpoint strlen (s : string) : Z :=
  match s with EmptyString => 0 | String _ s' => 1 + strlen s' end.

(** [sc.Buffer(make([]byte, 0, 64*1024), 1024*1024)]: a line that does not fit
    stops the scanner. *)
Definition max_token : Z := 1024 * 1024.
Definition ErrTooLong : error := Sentinel "bufio.ErrTooLong".

(** The lines that [Scan] will still deliver, and [Err] after the last. *)
Record Scanner := mkScanner { sLines : list string; sErr : option error }.

Fixpoint scan_lines (ls : list string) (ending : option error) : Scanner :=
  match ls with
  | [] => mkScanner [] ending
  | l :: ls' =>
      if max_token <=? strlen l then mkScanner [] (Some ErrTooLong)
      else let s := scan_lines ls' ending in mkScanner (drop_cr l :: sLines s) (sErr s)
  end.

(** [NewScanner]. *)
Definition NewScanner (b : Body) : Scanner := scan_lines (raw_lines (unread b)) (ending b).

(** * [strings.TrimSpace] *)

(** The rest of the text after one white-space rune at its head. *)
Definition space_rune (s : string) : option string :=
  match s with
  | EmptyString => None
  | String a s1 =>
      if between 9 13 a || (byte_of a =? 32) then Some s1 else
      match s1 with
      | EmptyString => None
      | String b s2 =>
          if (byte_of a =? 194) && ((byte_of b =? 133) || (byte_of b =? 160)) then Some s2 else
          match s2 with
          | EmptyString => None
          | String c s3 =>
              let z := (byte_of a, byte_of b, byte_of c) in
              if bool_decide (z = (225, 154, 128)) (* U+1680 *)
                 || ((byte_of a =? 226) && (byte_of b =? 128)
                     && (between 128 138 c || (byte_of c =? 168) || (byte_of c =? 169) || (byte_of c =? 175)))
                 || bool_decide (z = (226, 129, 159)) (* U+205F *)
                 || bool_decide (z = (227, 128, 128)) (* U+3000 *)
              then Some s3 else None
          end
      end
  end.

Fixpoint trim_left_fuel (n : nat) (s : string) : string :=
  match n with
  | O => s
  | S n' => match space_rune s with Some s' => trim_left_fuel n' s' | None => s end
  end.

(** Every rune takes at least one byte. *)
Definition trim_left (s : string) : string := trim_left_fuel (String.length s) s.

Fixpoint trim_right (s : string) : string :=
  match s with
  | EmptyString => ""
  | String a s' => if bool_decide (trim_left s = "") then "" else String a (trim_right s')
  end.

Definition TrimSpace (s : string) : string := trim_right (trim_left s).

(** * Events *)

(** [Next], given what the frame has so far. *)
Fixpoint next_from (name : string) (dataLines : list string) (sawAny : bool)
    (ls : list string) (err : option error) : res Event * Scanner :=
  match ls with
  | [] =>
      match err with
      | Some e => (Err e, mkScanner [] err)
      | None =>
          if sawAny then (Ok (mkEvent name (str_join (String newline "") dataLines)), mkScanner [] err)
          else (Err EOF, mkScanner [] err)
      end
  | line :: ls' =>
      if bool_decide (line = "") then
        if sawAny then (Ok (mkEvent name (str_join (String newline "") dataLines)), mkScanner ls' err)
        else next_from name dataLines sawAny ls' err
      else if has_prefix "event:" line then
        next_from (TrimSpace (trim_prefix "event:" line)) dataLines true ls' err
      else if has_prefix "data:" line then
        next_from name (dataLines ++ [trim_prefix " " (trim_prefix "data:" line)]) true ls' err
      else next_from name dataLines true ls' err
  end.

Definition Next (s : Scanner) : res Event * Scanner := next_from "" [] false (sLines s) (sErr s).

(** An event uses up lines; at the end of the text there is one event at most
    (a frame without its blank line). *)
Definition scanner_size (s : Scanner) : nat := length (sLines s).

Lemma next_from_consumes name data saw ls err ev s' :
  next_from name data saw ls err = (Ok ev, s') ->
  ls = [] /\ saw = true /\ s' = mkScanner [] err \/ (scanner_size s' < length ls)%nat /\ sErr s' = err.
Proof.
  revert name data saw. induction ls as [|l ls IH]; intros name data saw; simpl.
  - destruct err, saw; try done. intros [= <- <-]. by left.
  - assert (forall name data saw, next_from name data saw ls err = (Ok ev, s') ->
              (scanner_size s' < S (length ls))%nat /\ sErr s' = err) as IH'.
    { intros n d sw [(-> & _ & ->)|[? ?]]%IH; unfold scanner_size in *; simpl; split; lia || done. }
    repeat case_match; intros Hn; right; eauto.
    by injection Hn as <- <-; unfold scanner_size; simpl; split; [lia|].
Qed.

Lemma next_consumes s ev s' :
  Next s = (Ok ev, s') -> (scanner_size s' < scanner_size s)%nat /\ sErr s' = sErr s.
Proof. intros [(_ & ? & _)|H]%next_from_consumes; done. Qed.

(** All events of a scanner, and how it ends. *)
Fixpoint events_fuel (n : nat) (s : Scanner) : list Event * error :=
  match n with
  | O => ([], Lib "out of fuel")
  | S n' =>
      match Next s with
      | (Err e, _) => ([], e)
      | (Ok ev, s') => let '(evs, e) := events_fuel n' s' in (ev :: evs, e)
      end
  end.

Definition events (s : Scanner) : list Event * error := events_fuel (S (scanner_size s)) s.

Lemma events_fuel_enough n m s :
  (scanner_size s < n)%nat -> (scanner_size s < m)%nat -> events_fuel n s = events_fuel m s.
Proof.
  revert m s. induction n as [|n IH]; intros [|m] s Hn Hm; [lia..|]. simpl.
  destruct (Next s) as [[ev|e] s'] eqn:Hs; [|done]. apply next_consumes in Hs as [Hs _].
  rewrite (IH m s'); [done|lia|lia].
Qed.

Lemma events_eq s :
  events s = match Next s with
             | (Err e, _) => ([], e)
             | (Ok ev, s') => let '(evs, e) := events s' in (ev :: evs, e)
             end.
Proof.
  unfold events at 1. simpl. destruct (Next s) as [[ev|e] s'] eqn:Hs; [|done].
  apply next_consumes in Hs as [Hs _]. unfold events.
  rewrite (events_fuel_enough (scanner_size s) (S (scanner_size s')) s'); [done|lia|lia].
Qed.

(** * The framing, as a server writes it *)

(** A frame: an optional event name and its data lines, each line ended by [eol]
    (a line feed, or carriage return and line feed), then a blank line. *)
Record Frame := mkFrame { fName : string; fData : list string }.

Definition frame_lines (f : Frame) : list string :=
  (if bool_decide (fName f = "") then [] else ["event: " +:+ fName f])
  ++ map (fun l => "data: " +:+ l) (fData f).

Fixpoint write_lines (eol : string) (ls : list string) : string :=
  match ls with [] => "" | l :: ls' => l +:+ eol +:+ write_lines eol ls' end.

Definition write_frame (eol : string) (f : Frame) : string :=
  write_lines eol (frame_lines f ++ [""]).

Fixpoint write_frames (eol : string) (fs : list Frame) : string :=
  match fs with [] => "" | f :: fs' => write_frame eol f +:+ write_frames eol fs' end.

Definition frame_event (f : Frame) : Event :=
  mkEvent (fName f) (str_join (String newline "") (fData f)).

(** A line that can be written: no line feed, no trailing carriage return, and
    it fits the scanner's buffer together with its field name and ending. *)
Definition scannable (room : Z) (l : string) : Prop :=
  lacks newline l = true /\ drop_cr l = l /\ strlen l + room < max_token.

Definition wf_line : string -> Prop := scannable 16.

Definition wf_frame (f : Frame) : Prop :=
  wf_line (fName f) /\ Forall wf_line (fData f) /\ TrimSpace (fName f) = fName f
  /\ (fName f <> "" \/ fData f <> []).

Definition is_eol (eol : string) : Prop :=
  eol = String newline "" \/ eol = String cr (String newline "").

Lemma strlen_app a b : strlen (a +:+ b) = strlen a + strlen b.
Proof. induction a as [|x a IH]; simpl; [lia|]. rewrite IH. lia. Qed.

Lemma raw_lines_line l t :
  lacks newline l = true -> raw_lines (l +:+ String newline t) = l :: raw_lines t.
Proof.
  induction l as [|a l IH]; intros Hl; simpl in *; [done|].
  destruct (bool_decide (a = newline)); [done|]. by rewrite IH.
Qed.

Lemma drop_cr_cr l : drop_cr (l +:+ String cr "") = l.
Proof.
  induction l as [|a l IH]; [done|]. cbn [String.append String.app drop_cr].
  change ((String a l +:+ String cr "")) with (String a (l +:+ String cr "")). cbn [drop_cr].
  rewrite bool_decide_false; [by rewrite IH|].
  intros [= _ H]. by destruct l.
Qed.

Lemma drop_cr_prefix p l : p <> "" -> drop_cr l = l -> drop_cr p = p -> drop_cr (p +:+ l) = p +:+ l.
Proof.
  intros Hp Hl. induction p as [|a p IH]; [done|]. clear Hp. intros Hd.
  change (String a p +:+ l) with (String a (p +:+ l)). cbn [drop_cr] in *.
  destruct (decide (String a (p +:+ l) = String cr "")) as [E|E].
  - injection E as -> E. destruct p; [simpl in Hd; done|done].
  - rewrite bool_decide_false by done. f_equal. destruct (decide (p = "")) as [->|Hp]; [done|].
    apply IH; [done|]. destruct (bool_decide _); [done|]. by injection Hd.
Qed.

(** A written line is the next one scanned. *)
Lemma scan_line l eol t e :
  scannable 1 l -> is_eol eol ->
  NewScanner (mkBody (l +:+ eol +:+ t) e) =
    let s := NewScanner (mkBody t e) in mkScanner (l :: sLines s) (sErr s).
Proof.
  intros (Hn & Hc & Hs) He. unfold NewScanner. destruct He as [-> | ->]; simpl.
  - rewrite raw_lines_line by done. simpl.
    by rewrite (proj2 (Z.leb_gt _ _)), Hc by lia.
  - change (String cr (String newline t)) with (String cr "" +:+ String newline t).
    rewrite <- str_app_assoc, raw_lines_line.
    + simpl. rewrite (proj2 (Z.leb_gt _ _)), drop_cr_cr; [done|]. rewrite strlen_app. simpl. lia.
    + by rewrite lacks_app, Hn.
Qed.

Lemma scan_lines_written ls eol t e :
  Forall (scannable 1) ls -> is_eol eol ->
  NewScanner (mkBody (write_lines eol ls +:+ t) e) =
    let s := NewScanner (mkBody t e) in mkScanner (ls ++ sLines s) (sErr s).
Proof.
  intros Hls He. induction Hls as [|l ls Hl _ IH]; simpl.
  - by destruct (NewScanner _).
  - rewrite !str_app_assoc, scan_line by done. by rewrite IH.
Qed.

Lemma trim_space_sp s : TrimSpace (" " +:+ s) = TrimSpace s.
Proof. done. Qed.

Lemma next_data name data saw ls rest err :
  next_from name data saw (map (fun l => "data: " +:+ l) ls ++ "" :: rest) err =
    if bool_decide (ls = []) && negb saw then next_from name data saw rest err
    else (Ok (mkEvent name (str_join (String newline "") (data ++ ls))), mkScanner rest err).
Proof.
  revert data saw. induction ls as [|l ls IH]; intros data saw; cbn [map app next_from].
  - rewrite !bool_decide_true, app_nil_r by done. by destruct saw.
  - rewrite bool_decide_false by done. replace (has_prefix "event:" ("data: " +:+ l)) with false by done.
    replace (has_prefix "data:" ("data: " +:+ l)) with true by done.
    rewrite IH, andb_false_r. rewrite bool_decide_false by done. simpl. by rewrite <- app_assoc.
Qed.

Lemma scannable_prefix p l :
  wf_line l -> p <> "" -> lacks newline p = true -> drop_cr p = p -> strlen p <= 15 ->
  scannable 1 (p +:+ l).
Proof.
  intros (H1 & H2 & H3) Hp Hn Hd Hs. split; [by rewrite lacks_app, Hn|].
  split; [by apply drop_cr_prefix|]. rewrite strlen_app. lia.
Qed.

(** A written frame is the next event. *)
Lemma next_frame f eol t e :
  wf_frame f -> is_eol eol ->
  Next (NewScanner (mkBody (write_frame eol f +:+ t) e)) = (Ok (frame_event f), NewScanner (mkBody t e)).
Proof.
  intros (Hn & Hd & Ht & Hne) He. unfold write_frame. rewrite scan_lines_written; [|clear He|done].
  - cbn zeta. unfold Next, frame_lines. cbn [sLines sErr]. set (s := NewScanner _).
    replace (mkScanner (sLines s) (sErr s)) with s by by destruct s.
    rewrite <- !app_assoc. cbn [app]. case_bool_decide as Hf.
    + cbn [app]. rewrite next_data. rewrite bool_decide_false by (intros E; destruct Hne; congruence).
      unfold frame_event. rewrite Hf. by destruct s.
    + cbn [app next_from]. rewrite bool_decide_false by done.
      replace (has_prefix "event:" ("event: " +:+ fName f)) with true by done.
      rewrite next_data, andb_false_r. unfold frame_event.
      change (trim_prefix "event:" ("event: " +:+ fName f)) with (" " +:+ fName f).
      rewrite trim_space_sp, Ht. by destruct s.
  - apply Forall_app; split; [|by repeat constructor]. unfold frame_lines. apply Forall_app; split.
    + case_bool_decide; constructor; [|constructor]. by apply (scannable_prefix "event: ").
    + apply Forall_map. eapply Forall_impl; [exact Hd|]. intros l Hl. by apply (scannable_prefix "data: ").
Qed.

(** A document written by encoding/json is a data line. *)
Lemma no_control_line s : no_control s = true -> lacks newline s = true /\ drop_cr s = s.
Proof.
  induction s as [|a s IH]; [done|]. simpl. intros [Ha Hs]%andb_true_iff. destruct (IH Hs) as [H1 H2].
  assert (forall z, 0 <= z < 32 -> a <> of_byte z) as Hne.
  { intros z Hz ->. unfold byte_of, of_byte in Ha. rewrite N_ascii_embedding in Ha by lia. zbool. lia. }
  rewrite bool_decide_false by (by apply Hne). split; [done|].
  rewrite bool_decide_false; [by f_equal|]. intros [= E _]. by apply (Hne 13).
Qed.

Lemma wf_line_print j :
  wf_numbers j -> strlen (print j) + 16 < max_token -> wf_line (print j).
Proof. intros Hw Hs. destruct (no_control_line (print j) (print_no_control j Hw)). done. Qed.

Lemma wf_frame_data s : wf_line s -> wf_frame (mkFrame "" [s]).
Proof. intros Hs. refine (conj _ (conj _ (conj _ _))); [done|by constructor|done|by right]. Qed.

(** C23. The framing round trip.  Whatever named or unnamed frames a server
    writes, with either line ending and however the body then ends, the scanner
    gives back exactly their events, in order, and then [io.EOF] or the read
    error. *)
Theorem sse_roundtrip eol fs e :
  is_eol eol -> Forall wf_frame fs ->
  events (NewScanner (mkBody (write_frames eol fs) e)) = (map frame_event fs, default EOF e).
Proof.
  intros He Hfs. induction Hfs as [|f fs Hf _ IH]; rewrite events_eq; simpl.
  - by destruct e.
  - by rewrite (next_frame f eol (write_frames eol fs) e Hf He), IH.
Qed.

Lemma sse_roundtrip_witness :
  events (NewScanner (mkBody (write_frames (String cr (String newline ""))
    [mkFrame "message_start" ["{}"]; mkFrame "" ["a"; "b"]]) None))
  = ([mkEvent "message_start" "{}"; mkEvent "" ("a" +:+ String newline "b")], EOF).
Proof.
  apply (sse_roundtrip (String cr (String newline "")) [mkFrame "message_start" ["{}"]; mkFrame "" ["a"; "b"]] None).
  - by right.
  - repeat constructor; try done; by (left; discriminate) || (right; discriminate).
Defined.

(** * The adapters' receive loop *)

(** [for { ev, err := s.scanner.Next(); ... }]: a read error ends the stream;
    otherwise the adapter looks at the event and either keeps reading or returns
    a delta or an error, possibly closing the body. *)
Section Receive.
Context {St : Type} (read_error : error -> error)
  (on_event : Event -> St -> St * option (res Delta * bool)).

Record SseStream := mkSseStream { scanner : Scanner; state : St; closed : bool }.

Fixpoint receive_fuel (n : nat) (s : SseStream) : res Delta * SseStream :=
  match n with
  | O => (Err (Lib "out of fuel"), s)
  | S n' =>
      match Next (scanner s) with
      | (Err e, sc) =>
          (Err (if bool_decide (e = EOF) then EOF else read_error e), mkSseStream sc (state s) true)
      | (Ok ev, sc) =>
          match on_event ev (state s) with
          | (st, None) => receive_fuel n' (mkSseStream sc st (closed s))
          | (st, Some (r, close)) => (r, mkSseStream sc st (closed s || close))
          end
      end
  end.

Definition receive (s : SseStream) : res Delta * SseStream :=
  receive_fuel (S (scanner_size (scanner s))) s.

Lemma receive_fuel_enough n m s :
  (scanner_size (scanner s) < n)%nat -> (scanner_size (scanner s) < m)%nat ->
  receive_fuel n s = receive_fuel m s.
Proof.
  revert m s. induction n as [|n IH]; intros [|m] s Hn Hm; [lia..|]. simpl.
  destruct (Next (scanner s)) as [[ev|e] sc] eqn:Hs; [|done]. apply next_consumes in Hs as [Hs _].
  destruct (on_event ev (state s)) as [st [[r c]|]]; [done|]. apply IH; simpl; lia.
Qed.

(** The loop without fuel: every turn uses up lines. *)
Lemma receive_eq s :
  receive s =
    match Next (scanner s) with
    | (Err e, sc) =>
        (Err (if bool_decide (e = EOF) then EOF else read_error e), mkSseStream sc (state s) true)
    | (Ok ev, sc) =>
        match on_event ev (state s) with
        | (st, None) => receive (mkSseStream sc st (closed s))
        | (st, Some (r, close)) => (r, mkSseStream sc st (closed s || close))
        end
    end.
Proof.
  unfold receive at 1. simpl. destruct (Next (scanner s)) as [[ev|e] sc] eqn:Hs; [|done].
  apply next_consumes in Hs as [Hs _].
  destruct (on_event ev (state s)) as [st [[r c]|]]; [done|].
  unfold receive. apply receive_fuel_enough; simpl; lia.
Qed.

Lemma receive_consumes s d s' :
  receive s = (Ok d, s') -> (scanner_size (scanner s') < scanner_size (scanner s))%nat.
Proof.
  remember (scanner_size (scanner s)) as n eqn:Hn. revert s Hn.
  induction (lt_wf n) as [n _ IH]. intros s ->. rewrite receive_eq.
  destruct (Next (scanner s)) as [[ev|e] sc] eqn:Hs; [|done]. apply next_consumes in Hs as [Hs _].
  destruct (on_event ev (state s)) as [st [[r c]|]]; [by intros [= _ <-]|].
  intros H. specialize (IH _ Hs (mkSseStream sc st (closed s)) eq_refl H). simpl in IH. lia.
Qed.

#[local] Instance sse_stream : Stream SseStream :=
  {| Recv := receive; pending := fun s => scanner_size (scanner s) |}.

#[local] Instance sse_lawful : LawfulStream SseStream.
Proof. exact receive_consumes. Qed.

(** What the loop makes of a sequence of events. *)
Fixpoint deltas_of (st : St) (evs : list Event) (ending : error) : list Delta * option error :=
  match evs with
  | [] => ([], Some (if bool_decide (ending = EOF) then EOF else read_error ending))
  | ev :: evs' =>
      match on_event ev st with
      | (st', None) => deltas_of st' evs' ending
      | (_, Some (Err e, _)) => ([], Some e)
      | (st', Some (Ok d, _)) =>
          if IsFinal d then ([d], None)
          else let '(ds, e) := deltas_of st' evs' ending in (d :: ds, e)
      end
  end.

Lemma drain_events s :
  drain s = deltas_of (state s) (events (scanner s)).1 (events (scanner s)).2.
Proof.
  remember (scanner_size (scanner s)) as n eqn:Hn. revert s Hn.
  induction (lt_wf n) as [n _ IH]. intros s ->. rewrite drain_eq, events_eq. simpl Recv. rewrite receive_eq.
  destruct (Next (scanner s)) as [[ev|e] sc] eqn:Hs; [|done]. apply next_consumes in Hs as [Hs _].
  destruct (on_event ev (state s)) as [st [[r c]|]] eqn:Ho.
  - destruct (events sc) as [evs e] eqn:He. simpl. rewrite Ho. destruct r as [d|e']; [|done].
    destruct (IsFinal d); [done|]. rewrite (IH _ Hs (mkSseStream sc st (closed s || c)) eq_refl). simpl.
    by rewrite He.
  - pose proof (IH _ Hs (mkSseStream sc st (closed s)) eq_refl) as E. rewrite drain_eq in E. simpl Recv in E.
    rewrite E. simpl. destruct (events sc) as [evs e]. simpl. by rewrite Ho.
Qed.

(** If the adapter closes the body whenever it returns an error or the final
    delta, so does the stream. *)
Definition closes_at_end (o : option (res Delta * bool)) : Prop :=
  match o with
  | Some (Ok d, false) => IsFinal d = false
  | Some (Err _, false) => False
  | _ => True
  end.

Lemma receive_closes s r s' :
  (forall ev st, closes_at_end (on_event ev st).2) ->
  receive s = (r, s') ->
  match r with Ok d => IsFinal d = true -> closed s' = true | Err _ => closed s' = true end.
Proof.
  intros Hc. remember (scanner_size (scanner s)) as n eqn:Hn. revert s Hn.
  induction (lt_wf n) as [n _ IH]. intros s ->. rewrite receive_eq.
  destruct (Next (scanner s)) as [[ev|e] sc] eqn:Hs; [|by intros [= <- <-]].
  apply next_consumes in Hs as [Hs _]. specialize (Hc ev (state s)).
  destruct (on_event ev (state s)) as [st [[r0 c]|]] eqn:Ho;
    [|exact (IH _ Hs (mkSseStream sc st (closed s)) eq_refl)].
  intros [= <- <-]. simpl in *. destruct r0 as [d|e], c; rewrite ?orb_true_r; try done.
  intros Hf. congruence.
Qed.
End Receive.
Arguments mkSseStream {St}.
Arguments scanner {St}.
Arguments state {St}.
Arguments closed {St}.
