(* ===== verification/OpenAI.v ===== *)
(** provider-gateway/internal/adapters/openai: OpenAI's chat completions stream,
    also spoken by the grok, glm and kimi providers registered under their own
    names.

    [OpenAI_Invoke] builds the request; [on_event] is what [Recv] does with one
    event, run by the shared loop [Sse.receive].  The chunks a server sends are
    described by [chunk]; the theorems relate the bytes of a response to the
    deltas the adapter hands out. *)

From S2P Require Import Prelude Errors Prog Http Json Float Adapter Sse.
#[local] Open Scope Z_scope.

Definition ProviderName : string := "openai".
Definition defaultBaseURL : string := "https://api.openai.com".
Definition defaultCompletionsPath : string := "/v1/chat/completions".

(** The key lives behind [LoadKey name]: [SetAPIKey] replaces it at any time. *)
Record OpenAI := mkOpenAI { name : string; baseURL : string; completionsPath : string }.

Definition NewNamedWithPath (name baseURL completionsPath : string) : OpenAI :=
  mkOpenAI name
    (if bool_decide (baseURL = "") then defaultBaseURL else baseURL)
    (if bool_decide (completionsPath = "") then defaultCompletionsPath else completionsPath).

Definition NewNamed (name baseURL : string) : OpenAI := NewNamedWithPath name baseURL "".
Definition New (baseURL : string) : OpenAI := NewNamedWithPath ProviderName baseURL "".

(** * The request *)

Definition message_json (m : Message) : json :=
  JObj [("role", JStr (Role m)); ("content", JStr (mContent m))].

(** [json.Marshal(wireRequest{...})]; the temperature decides whether it can. *)
Definition wireRequest (req : InvokeRequest) : res string :=
  match temperature_json (Temperature req) with
  | Err e => Err e
  | Ok t =>
      Ok (print (JObj (
        [("model", JStr (Model req));
         ("messages", JArr (map message_json (Messages req)));
         ("stream", JBool true);
         ("stream_options", JObj [("include_usage", JBool true)])]
        ++ omit_nil "max_tokens" (fun n => JNum (itoa n)) (MaxTokens req)
        ++ omit_nil "temperature" id t)))
  end.

(** * The chunks *)

Record wireChoice := mkChoice { deltaContent : option string; finish_reason : option string }.
Record wireUsage := mkUsage { PromptTokens : Z; CompletionTokens : Z }.
Record wireError := mkWireError { errMessage : string; errType : string }.
Record wireChunk := mkChunk {
  Choices : list wireChoice; Usage : option wireUsage; wError : option wireError }.

Definition zeroChoice := mkChoice None None.
Definition zeroUsage := mkUsage 0 0.
Definition zeroError := mkWireError "" "".
Definition zeroChunk := mkChunk [] None None.

(** The nested [delta] object has one field. *)
Definition d_choice : decoder wireChoice := d_struct [
  field "delta" deltaContent (fun c x => mkChoice c (finish_reason x))
    (d_struct [field "content" id (fun c _ => c) (d_ptr "" d_string)]);
  field "finish_reason" finish_reason (fun f x => mkChoice (deltaContent x) f) (d_ptr "" d_string)].

Definition d_usage : decoder wireUsage := d_struct [
  field "prompt_tokens" PromptTokens (fun n u => mkUsage n (CompletionTokens u)) (d_int 32);
  field "completion_tokens" CompletionTokens (fun n u => mkUsage (PromptTokens u) n) (d_int 32)].

Definition d_error : decoder wireError := d_struct [
  field "message" errMessage (fun m e => mkWireError m (errType e)) d_string;
  field "type" errType (fun t e => mkWireError (errMessage e) t) d_string].

Definition d_chunk : decoder wireChunk := d_struct [
  field "choices" Choices (fun l c => mkChunk l (Usage c) (wError c)) (d_slice zeroChoice d_choice);
  field "usage" Usage (fun u c => mkChunk (Choices c) u (wError c)) (d_ptr zeroUsage d_usage);
  field "error" wError (fun e c => mkChunk (Choices c) (Usage c) e) (d_ptr zeroError d_error)].

(** * [Recv] *)

Definition content_delta (c : string) : Delta := mkDelta (Some c) None false None None None.

Definition final_delta (fr : option string) (u : option wireUsage) : Delta :=
  mkDelta None fr true None (PromptTokens <$> u) (CompletionTokens <$> u).

Definition read_error (e : error) : error := Wrapf "openai adapter: read stream: %w" [] e.

(** One turn of the loop, with the deferred finish reason as the state. *)
Definition on_event (ev : Event) (pendingFinishReason : option string)
    : option string * option (res Delta * bool) :=
  if bool_decide (Data ev = "[DONE]") then
    (pendingFinishReason,
     Some (match pendingFinishReason with
           | Some fr => Ok (final_delta (Some fr) None)
           | None => Err EOF
           end, true))
  else
    let '(chunk, err) := unmarshal d_chunk (Data ev) zeroChunk in
    match err, wError chunk with
    | Some e, _ => (pendingFinishReason, Some (Err (Wrapf "openai adapter: decode chunk: %w" [] e), true))
    | None, Some we =>
        (pendingFinishReason, Some (Err (Errorf "openai adapter: stream error: %s" [errMessage we]), true))
    | None, None =>
        match Choices chunk with
        | [] =>
            match Usage chunk with
            | None => (pendingFinishReason, None)
            | Some u => (pendingFinishReason, Some (Ok (final_delta pendingFinishReason (Some u)), true))
            end
        | choice :: _ =>
            match finish_reason choice with
            | Some fr =>
                match Usage chunk with
                | Some u => (pendingFinishReason, Some (Ok (final_delta (Some fr) (Some u)), true))
                | None => (Some fr, None)
                end
            | None =>
                match deltaContent choice with
                | None => (pendingFinishReason, None)
                | Some c => (pendingFinishReason, Some (Ok (content_delta c), false))
                end
            end
        end
    end.

Definition stream : Type := SseStream (St := option string).

(** The stream [Invoke] returns. *)
Definition open_stream (b : Body) : stream := mkSseStream (NewScanner b) None false.

Definition stream_Recv : stream -> res Delta * stream := receive read_error on_event.

#[global] Instance openai_stream : Stream stream :=
  {| Recv := stream_Recv; pending := fun s => scanner_size (scanner s) |}.

#[global] Instance openai_lawful : LawfulStream stream.
Proof. exact (receive_consumes read_error on_event). Qed.

Definition OpenAI_Invoke (a : OpenAI) (req : InvokeRequest) : prog AdapterE (res stream) :=
  match wireRequest req with
  | Err e => Ret (Err (Wrapf "openai adapter: marshal request: %w" [] e))
  | Ok body =>
      post "openai" (baseURL a +:+ completionsPath a) body
        (key <- call (LoadKey (name a)) ;; Ret [("Authorization", "Bearer " +:+ key)])
        open_stream
  end.

Definition openai_adapter (a : OpenAI) : Adapter stream := mkAdapter (name a) (OpenAI_Invoke a).

(** * What a server sends *)

(** The chunks of one completion: the role, pieces of content, the finish
    reason, the usage in a chunk of its own (OpenAI) or together with the finish
    reason (GLM). *)
Inductive chunk :=
| CRole
| CContent (c : string)
| CFinish (fr : string)
| CUsage (u : wireUsage)
| CFinishUsage (fr : string) (u : wireUsage).

Definition usage_json (u : wireUsage) : json :=
  JObj [("prompt_tokens", JNum (itoa (PromptTokens u)));
        ("completion_tokens", JNum (itoa (CompletionTokens u)));
        ("total_tokens", JNum (itoa (PromptTokens u + CompletionTokens u)))].

Definition choice_json (delta : list (string * json)) (fr : json) : json :=
  JObj [("index", JNum (itoa 0)); ("delta", JObj delta); ("logprobs", JNull); ("finish_reason", fr)].

Definition chunk_json (id : string) (c : chunk) : json :=
  let head := [("id", JStr id); ("object", JStr "chat.completion.chunk")] in
  match c with
  | CRole => JObj (head ++ [("choices", JArr [choice_json [("role", JStr "assistant")] JNull]); ("usage", JNull)])
  | CContent s => JObj (head ++ [("choices", JArr [choice_json [("content", JStr s)] JNull]); ("usage", JNull)])
  | CFinish fr => JObj (head ++ [("choices", JArr [choice_json [] (JStr fr)]); ("usage", JNull)])
  | CUsage u => JObj (head ++ [("choices", JArr []); ("usage", usage_json u)])
  | CFinishUsage fr u => JObj (head ++ [("choices", JArr [choice_json [] (JStr fr)]); ("usage", usage_json u)])
  end.

Definition chunk_frame (id : string) (c : chunk) : Frame := mkFrame "" [print (chunk_json id c)].
Definition done_frame : Frame := mkFrame "" ["[DONE]"].

(** The response body, whole or broken off after some chunks. *)
Definition completion (eol id : string) (cs : list chunk) : string :=
  write_frames eol (map (chunk_frame id) cs ++ [done_frame]).
Definition broken_off (eol id : string) (cs : list chunk) : string :=
  write_frames eol (map (chunk_frame id) cs).

Definition in32 (z : Z) : Prop := - 2^31 <= z < 2^31.

Definition wf_usage (u : wireUsage) : Prop := in32 (PromptTokens u) /\ in32 (CompletionTokens u).

(** Texts are UTF-8, counts fit [int32], the chunk fits the scanner's buffer. *)
Definition wf_chunk (id : string) (c : chunk) : Prop :=
  strlen (print (chunk_json id c)) + 16 < max_token /\
  match c with
  | CRole => True
  | CContent s => utf8 s = true
  | CFinish fr => utf8 fr = true
  | CUsage u => wf_usage u
  | CFinishUsage fr u => utf8 fr = true /\ wf_usage u
  end.

Definition decoded (c : chunk) : wireChunk :=
  match c with
  | CRole => mkChunk [zeroChoice] None None
  | CContent s => mkChunk [mkChoice (Some s) None] None None
  | CFinish fr => mkChunk [mkChoice None (Some fr)] None None
  | CUsage u => mkChunk [] (Some u) None
  | CFinishUsage fr u => mkChunk [mkChoice None (Some fr)] (Some u) None
  end.

Lemma decode_usage u :
  wf_usage u -> d_usage (canon (usage_json u)) zeroUsage = (u, true).
Proof.
  destruct u as [p q]. unfold wf_usage, in32. simpl. intros [Hp Hq]. unfold field. simpl.
  rewrite d_int_itoa by (simpl; lia). simpl. by rewrite d_int_itoa by (simpl; lia).
Qed.

Lemma decode_chunk id c :
  wf_chunk id c -> unmarshal d_chunk (print (chunk_json id c)) zeroChunk = (decoded c, None).
Proof.
  intros [_ H]. rewrite unmarshal_print; [|destruct c; simpl; auto 30 with onezox|destruct c; apply le_max_depth; simpl; lia].
  destruct c as [|s|fr|u|fr u]; cbn [chunk_json] in *.
  - done.
  - simpl. unfold field. simpl. by rewrite to_valid_utf8.
  - simpl. unfold field. simpl. by rewrite to_valid_utf8.
  - pose proof (decode_usage u H) as Hu. unfold d_usage, field in Hu. simpl in Hu.
    simpl. unfold field, d_ptr. simpl. by rewrite Hu.
  - destruct H as [H Hw]. pose proof (decode_usage u Hw) as Hu. simpl in Hu.
    simpl. unfold field, d_ptr. simpl. unfold d_usage, field in Hu. simpl in Hu. rewrite Hu, to_valid_utf8 by done. done.
Qed.

(** * From bytes to deltas *)

(** What the adapter hands out for one chunk: nothing yet, a delta, the end. *)
Definition reaction (pend : option string) (c : chunk) : option string * option Delta :=
  match c with
  | CRole => (pend, None)
  | CContent s => (pend, Some (content_delta s))
  | CFinish fr => (Some fr, None)
  | CUsage u => (pend, Some (final_delta pend (Some u)))
  | CFinishUsage fr u => (pend, Some (final_delta (Some fr) (Some u)))
  end.

Lemma on_chunk id c pend :
  wf_chunk id c ->
  exists closes, on_event (frame_event (chunk_frame id c)) pend
    = ((reaction pend c).1, (fun d => (Ok d, closes)) <$> (reaction pend c).2).
Proof.
  intros Hc. unfold on_event. simpl Data. rewrite bool_decide_false.
  - rewrite decode_chunk by done. destruct c as [|s|fr|u|fr u]; simpl; (by exists true) || (by exists false).
  - unfold chunk_json. by destruct c.
Qed.

Lemma chunk_frame_wf id c : wf_chunk id c -> wf_frame (chunk_frame id c).
Proof.
  intros [Hs Hc]. apply wf_frame_data. apply wf_line_print; [|done].
  destruct c; simpl; auto 30 with onezox.
Qed.

Lemma done_frame_wf : wf_frame done_frame.
Proof. by apply wf_frame_data. Qed.

(** Content chunks pass one by one. *)
Lemma contents_pass id cs pend evs e :
  Forall (wf_chunk id) (map CContent cs) ->
  deltas_of read_error on_event pend (map frame_event (map (chunk_frame id) (map CContent cs)) ++ evs) e
  = let '(ds, r) := deltas_of read_error on_event pend evs e in (map content_delta cs ++ ds, r).
Proof.
  induction cs as [|s cs IH]; intros Hw; [by destruct (deltas_of _ _ _ _ _)|].
  apply Forall_cons in Hw as [Hs Hw]. cbn [map app deltas_of].
  destruct (on_chunk id (CContent s) pend Hs) as [cl ->]. simpl. rewrite (IH Hw).
  by destruct (deltas_of read_error on_event pend evs e).
Qed.

(** How a completion ends: usage after the finish reason, with it, or never. *)
Inductive usage_report := Trailing (u : wireUsage) | Inline (u : wireUsage) | Omitted.

Definition finishing (fr : string) (r : usage_report) : list chunk :=
  match r with
  | Trailing u => [CFinish fr; CUsage u]
  | Inline u => [CFinishUsage fr u]
  | Omitted => [CFinish fr]
  end.

Definition reported (r : usage_report) : option wireUsage :=
  match r with Trailing u | Inline u => Some u | Omitted => None end.

Definition chunks (contents : list string) (fr : string) (r : usage_report) : list chunk :=
  CRole :: map CContent contents ++ finishing fr r.

(** C26. The bytes of a completion.  Whatever its contents, its finish reason
    and the way usage is reported, the adapter hands out exactly the contents in
    order and then one final delta with the finish reason and, when it was sent,
    the usage.  When the body breaks off before the usage or the terminator, it
    hands out the contents and then an error, never a final delta. *)
Theorem openai_completion eol id contents fr r e :
  is_eol eol -> Forall (wf_chunk id) (chunks contents fr r) ->
  drain (open_stream (mkBody (completion eol id (chunks contents fr r)) e))
    = (map content_delta contents ++ [final_delta (Some fr) (reported r)], None)
  /\ forall tail, tail = [] \/ tail = [CFinish fr] -> Forall (wf_chunk id) tail ->
     drain (open_stream (mkBody (broken_off eol id (CRole :: map CContent contents ++ tail)) e))
       = (map content_delta contents,
          Some (match e with
                | Some err => if bool_decide (err = EOF) then EOF else read_error err
                | None => EOF
                end)).
Proof.
  intros He Hw.
  assert (forall cs last, Forall (wf_chunk id) cs -> Forall wf_frame last ->
    drain (open_stream (mkBody (write_frames eol (map (chunk_frame id) cs ++ last)) e))
    = deltas_of read_error on_event None (map frame_event (map (chunk_frame id) cs) ++ map frame_event last)
        (default EOF e)) as Hdrain.
  { intros cs last Hcs Hl. rewrite (drain_events read_error on_event). cbn [scanner state open_stream].
    rewrite sse_roundtrip; [by rewrite map_app| done |].
    apply Forall_app; split; [|done]. apply Forall_map. eapply Forall_impl; [exact Hcs|].
    intros c Hc. by apply chunk_frame_wf. }
  unfold chunks in Hw. apply Forall_cons in Hw as [Hr Hw]. apply Forall_app in Hw as [Hc Hf].
  destruct (on_chunk id CRole None Hr) as [cl Hrole]. simpl in Hrole. split.
  - unfold completion, chunks. rewrite Hdrain;
      [|by constructor; [|apply Forall_app]|constructor; [apply done_frame_wf|done]].
    cbn [map]. rewrite !map_app. cbn [map app]. rewrite <- app_assoc. cbn [app deltas_of]. rewrite Hrole, contents_pass by done.
    assert (deltas_of read_error on_event None
       (map frame_event (map (chunk_frame id) (finishing fr r)) ++ [frame_event done_frame]) (default EOF e)
       = ([final_delta (Some fr) (reported r)], None)) as E; [|by rewrite E].
    destruct r as [u|u|]; cbn [finishing map app deltas_of].
    + apply Forall_cons in Hf as [H1 Hf]. apply Forall_cons in Hf as [H2 _].
      destruct (on_chunk id _ None H1) as [? ->].
      cbn [reaction fst snd fmap option_fmap option_map]. by destruct (on_chunk id _ (Some fr) H2) as [? ->].
    + apply Forall_cons in Hf as [H1 Hf]. by destruct (on_chunk id _ None H1) as [? ->].
    + apply Forall_cons in Hf as [H1 Hf]. by destruct (on_chunk id _ None H1) as [? ->].
  - intros tail Ht Htw. unfold broken_off. rewrite <- (app_nil_r (map (chunk_frame id) _)).
    rewrite Hdrain; [|by constructor; [|apply Forall_app]|done].
    cbn [map]. rewrite app_nil_r, !map_app. cbn [map app deltas_of]. rewrite Hrole, contents_pass by done.
    destruct Ht as [-> | ->]; cbn [map deltas_of].
    + rewrite app_nil_r. by destruct e.
    + apply Forall_cons in Htw as [H1 _]. destruct (on_chunk id _ None H1) as [? ->]. simpl.
      rewrite app_nil_r. by destruct e.
Qed.

Lemma openai_completion_witness :
  drain (open_stream (mkBody (completion (String newline "") "c1"
     (chunks ["Hel"; "lo"] "stop" (Trailing (mkUsage 9 2)))) None))
  = ([content_delta "Hel"; content_delta "lo"; final_delta (Some "stop") (Some (mkUsage 9 2))], None).
Proof.
  refine (proj1 (openai_completion (String newline "") "c1" ["Hel"; "lo"] "stop" (Trailing (mkUsage 9 2)) None _ _)).
  - by left.
  - unfold chunks. cbn [map app finishing]. rewrite !Forall_cons.
    refine (conj _ (conj _ (conj _ (conj _ (conj _ (Forall_nil_2 _))))));
      (split; [vm_compute; reflexivity|try exact I; try reflexivity]).
    unfold wf_usage, in32. simpl. lia.
Defined.

(** Every path that ends the stream closes the response body. *)
Lemma openai_closes s r s' :
  stream_Recv s = (r, s') ->
  match r with Ok d => IsFinal d = true -> closed s' = true | Err _ => closed s' = true end.
Proof.
  apply (receive_closes read_error on_event). intros ev pend. unfold on_event. case_bool_decide; [by destruct pend|].
  destruct (unmarshal _ _ _) as [[[|[c [fr|]] l] [u|] [we|]] [err|]]; simpl; try done; by destruct c.
Qed.
