(* ===== verification/Anthropic.v ===== *)
(** provider-gateway/internal/adapters/anthropic: the Messages API stream, whose
    events are told apart by their SSE name.

    [splitSystem] and [wireRequest] build the request, [on_event] is what [Recv]
    does with one event; its state is the input token count of message_start. *)

From S2P Require Import Prelude Errors Prog Http Json Float Adapter Sse.
From Stdlib Require Import Ascii.
#[local] Open Scope Z_scope.

Definition ProviderName : string := "anthropic".
Definition defaultBaseURL : string := "https://api.anthropic.com".
Definition apiVersion : string := "2023-06-01".
Definition defaultMaxTokens : Z := 256.

Record Anthropic := mkAnthropic { baseURL : string }.

Definition New (baseURL : string) : Anthropic :=
  mkAnthropic (if bool_decide (baseURL = "") then defaultBaseURL else baseURL).

(** * The request *)

Definition is_system (m : Message) : bool := bool_decide (Role m = "system").

(** [splitSystem]: the system messages joined by newlines, and the others. *)
Definition splitSystem (messages : list Message) : string * list Message :=
  (str_join (String newline "") (map mContent (filter (fun m => is_system m = true) messages)),
   filter (fun m => is_system m = false) messages).

Definition message_json (m : Message) : json :=
  JObj [("role", JStr (Role m)); ("content", JStr (mContent m))].

(** A slice that was never appended to is nil, and a nil slice is [null]. *)
Definition nil_slice (l : list json) : json := match l with [] => JNull | _ => JArr l end.

Definition omit_empty (name s : string) : list (string * json) :=
  if bool_decide (s = "") then [] else [(name, JStr s)].

Definition wireRequest (req : InvokeRequest) : res string :=
  let '(system, messages) := splitSystem (Messages req) in
  match temperature_json (Temperature req) with
  | Err e => Err e
  | Ok t =>
      Ok (print (JObj (
        [("model", JStr (Model req))]
        ++ omit_empty "system" system
        ++ [("messages", nil_slice (map message_json messages));
            ("stream", JBool true);
            ("max_tokens", JNum (itoa (default defaultMaxTokens (MaxTokens req))))]
        ++ omit_nil "temperature" id t)))
  end.

(** * The events *)

Record wireContentBlockDelta := mkCbd { deltaType : string; deltaText : string }.

Definition d_content_block_delta : decoder wireContentBlockDelta := d_struct [
  field "delta" id (fun d _ => d) (d_struct [
    field "type" deltaType (fun t d => mkCbd t (deltaText d)) d_string;
    field "text" deltaText (fun t d => mkCbd (deltaType d) t) d_string])].

(** message.usage.input_tokens. *)
Definition d_message_start : decoder Z := d_struct [
  field "message" id (fun n _ => n) (d_struct [
    field "usage" id (fun n _ => n) (d_struct [
      field "input_tokens" id (fun n _ => n) (d_int 32)])])].

Record wireMessageDelta := mkMd { stopReason : option string; outputTokens : Z }.

Definition d_message_delta : decoder wireMessageDelta := d_struct [
  field "delta" stopReason (fun s d => mkMd s (outputTokens d))
    (d_struct [field "stop_reason" id (fun s _ => s) (d_ptr "" d_string)]);
  field "usage" outputTokens (fun n d => mkMd (stopReason d) n)
    (d_struct [field "output_tokens" id (fun n _ => n) (d_int 32)])].

(** error.message; the type is not read. *)
Definition d_error_event : decoder (string * string) := d_struct [
  field "error" id (fun e _ => e) (d_struct [
    field "message" fst (fun m e => (m, e.2)) d_string;
    field "type" snd (fun t e => (e.1, t)) d_string])].

(** * [Recv] *)

Definition text_delta (c : string) : Delta := mkDelta (Some c) None false None None None.

Definition read_error (e : error) : error := Wrapf "anthropic adapter: read stream: %w" [] e.

Definition on_event (ev : Event) (inputTokens : option Z) : option Z * option (res Delta * bool) :=
  let failed what e := (inputTokens, Some (Err (Wrapf ("anthropic adapter: decode " +:+ what +:+ ": %w") [] e), true)) in
  if bool_decide (eName ev = "message_start") then
    match unmarshal d_message_start (Data ev) 0 with
    | (_, Some e) => failed "message_start" e
    | (n, None) => (Some n, None)
    end
  else if bool_decide (eName ev = "content_block_delta") then
    match unmarshal d_content_block_delta (Data ev) (mkCbd "" "") with
    | (_, Some e) => failed "content_block_delta" e
    | (d, None) =>
        if negb (bool_decide (deltaType d = "text_delta")) || bool_decide (deltaText d = "")
        then (inputTokens, None)
        else (inputTokens, Some (Ok (text_delta (deltaText d)), false))
    end
  else if bool_decide (eName ev = "message_delta") then
    match unmarshal d_message_delta (Data ev) (mkMd None 0) with
    | (_, Some e) => failed "message_delta" e
    | (d, None) =>
        (inputTokens,
         Some (Ok (mkDelta None (stopReason d) true None inputTokens (Some (outputTokens d))), true))
    end
  else if bool_decide (eName ev = "error") then
    let '(e, _) := unmarshal d_error_event (Data ev) ("", "") in
    (inputTokens, Some (Err (Errorf "anthropic adapter: stream error: %s" [e.1]), true))
  else (inputTokens, None).

Definition stream : Type := SseStream (St := option Z).

Definition open_stream (b : Body) : stream := mkSseStream (NewScanner b) None false.

Definition stream_Recv : stream -> res Delta * stream := receive read_error on_event.

#[global] Instance anthropic_stream : Stream stream :=
  {| Recv := stream_Recv; pending := fun s => scanner_size (scanner s) |}.

#[global] Instance anthropic_lawful : LawfulStream stream.
Proof. exact (receive_consumes read_error on_event). Qed.

Definition Anthropic_Invoke (a : Anthropic) (req : InvokeRequest) : prog AdapterE (res stream) :=
  match wireRequest req with
  | Err e => Ret (Err (Wrapf "anthropic adapter: marshal request: %w" [] e))
  | Ok body =>
      post "anthropic" (baseURL a +:+ "/v1/messages") body
        (key <- call (LoadKey ProviderName) ;;
         Ret [("x-api-key", key); ("anthropic-version", apiVersion)])
        open_stream
  end.

Definition anthropic_adapter (a : Anthropic) : Adapter stream :=
  mkAdapter ProviderName (Anthropic_Invoke a).

Lemma anthropic_closes s r s' :
  stream_Recv s = (r, s') ->
  match r with Ok d => IsFinal d = true -> closed s' = true | Err _ => closed s' = true end.
Proof.
  apply (receive_closes read_error on_event). intros ev n. unfold on_event.
  repeat case_bool_decide; try done; destruct (unmarshal _ _ _) as [d [e|]]; try done.
  simpl. by case_match.
Qed.

(** * What a server sends *)

(** A message: its start, then pieces of text among events of no interest (a
    ping, the borders of content blocks, deltas that are not text), then the
    delta with the stop reason. *)
Inductive piece := PText (t : string) | PJson (t : string) | POther (name : string) (data : json).

Definition piece_frame (p : piece) : Frame :=
  match p with
  | PText t => mkFrame "content_block_delta" [print (JObj [("type", JStr "content_block_delta"); ("index", JNum (itoa 0));
                 ("delta", JObj [("type", JStr "text_delta"); ("text", JStr t)])])]
  | PJson t => mkFrame "content_block_delta" [print (JObj [("type", JStr "content_block_delta"); ("index", JNum (itoa 0));
                 ("delta", JObj [("type", JStr "input_json_delta"); ("partial_json", JStr t)])])]
  | POther name data => mkFrame name [print data]
  end.

Definition start_frame (id : string) (input : Z) : Frame :=
  mkFrame "message_start" [print (JObj [("type", JStr "message_start");
    ("message", JObj [("id", JStr id); ("role", JStr "assistant");
       ("usage", JObj [("input_tokens", JNum (itoa input)); ("output_tokens", JNum (itoa 1))])])])].

Definition delta_frame (stop : string) (output : Z) : Frame :=
  mkFrame "message_delta" [print (JObj [("type", JStr "message_delta");
    ("delta", JObj [("stop_reason", JStr stop); ("stop_sequence", JNull)]);
    ("usage", JObj [("output_tokens", JNum (itoa output))])])].

Definition reads (p : piece) : list Delta :=
  match p with PText t => if bool_decide (t = "") then [] else [text_delta t] | _ => [] end.

(** The adapter's own names stand for its own events. *)
Definition wf_piece (p : piece) : Prop :=
  wf_frame (piece_frame p) /\
  match p with
  | PText t | PJson t => utf8 t = true
  | POther name _ => name ∉ ["message_start"; "content_block_delta"; "message_delta"; "error"]
  end.

Lemma decode_text t :
  utf8 t = true ->
  unmarshal d_content_block_delta (Data (frame_event (piece_frame (PText t)))) (mkCbd "" "") = (mkCbd "text_delta" t, None).
Proof.
  intros Ht. simpl. rewrite unmarshal_print; [|simpl; auto 20 with onezox|apply le_max_depth; simpl; lia].
  simpl. unfold field. simpl. by rewrite to_valid_utf8.
Qed.

Lemma decode_json t :
  unmarshal d_content_block_delta (Data (frame_event (piece_frame (PJson t)))) (mkCbd "" "") = (mkCbd "input_json_delta" "", None).
Proof. simpl. by rewrite unmarshal_print; [|simpl; auto 20 with onezox|apply le_max_depth; simpl; lia]. Qed.

Lemma decode_start id input :
  - 2^31 <= input < 2^31 -> unmarshal d_message_start (Data (frame_event (start_frame id input))) 0 = (input, None).
Proof.
  intros Hi. simpl. rewrite unmarshal_print; [|simpl; auto 20 with onezox|apply le_max_depth; simpl; lia].
  simpl. unfold field. simpl. by rewrite d_int_itoa by (simpl; lia).
Qed.

Lemma decode_delta stop output :
  utf8 stop = true -> - 2^31 <= output < 2^31 ->
  unmarshal d_message_delta (Data (frame_event (delta_frame stop output))) (mkMd None 0) = (mkMd (Some stop) output, None).
Proof.
  intros Hs Ho. simpl. rewrite unmarshal_print; [|simpl; auto 20 with onezox|apply le_max_depth; simpl; lia].
  simpl. unfold field. simpl. by rewrite d_int_itoa, to_valid_utf8 by (done || (simpl; lia)).
Qed.

Lemma pieces_pass ps n evs e :
  Forall wf_piece ps ->
  deltas_of read_error on_event n (map frame_event (map piece_frame ps) ++ evs) e
  = let '(ds, r) := deltas_of read_error on_event n evs e in (concat (map reads ps) ++ ds, r).
Proof.
  induction ps as [|p ps IH]; intros Hw; [cbn [map app concat]; by destruct (deltas_of read_error on_event n evs e)|].
  apply Forall_cons in Hw as [[_ Hp] Hw]. specialize (IH Hw). cbn [map app deltas_of].
  assert (on_event (frame_event (piece_frame p)) n
          = (n, match reads p with d :: _ => Some (Ok d, false) | [] => None end)) as ->.
  { destruct p as [t|t|name data]; unfold on_event; simpl eName.
    - rewrite bool_decide_false, bool_decide_true, (decode_text t Hp) by done.
      simpl. unfold reads. by case_bool_decide.
    - by rewrite bool_decide_false, bool_decide_true, decode_json by done.
    - set_unfold. rewrite !bool_decide_false; [done|..]; intros ->; set_solver. }
  unfold reads at 1 2. destruct p as [t|t|]; [|exact IH..]. case_bool_decide; [exact IH|].
  simpl. rewrite IH. by destruct (deltas_of read_error on_event n evs e).
Qed.

(** C27. The bytes of a message.  The adapter hands out exactly the non-empty
    pieces of text, in order, then one final delta with the stop reason, the
    input count of the message's start and the output count of its end; whatever
    the server sends after that is not read.  A body that breaks off before the
    message's end gives the texts and then an error. *)
Theorem anthropic_message eol id input ps stop output rest e :
  is_eol eol -> wf_frame (start_frame id input) -> Forall wf_piece ps -> wf_frame (delta_frame stop output) ->
  Forall wf_frame rest ->
  - 2^31 <= input < 2^31 -> - 2^31 <= output < 2^31 -> utf8 stop = true ->
  drain (open_stream (mkBody (write_frames eol
      (start_frame id input :: map piece_frame ps ++ delta_frame stop output :: rest)) e))
    = (concat (map reads ps) ++ [mkDelta None (Some stop) true None (Some input) (Some output)], None)
  /\ drain (open_stream (mkBody (write_frames eol (start_frame id input :: map piece_frame ps)) e))
    = (concat (map reads ps),
       Some (match e with
             | Some err => if bool_decide (err = EOF) then EOF else read_error err
             | None => EOF
             end)).
Proof.
  intros He Hs Hp Hd Hrest Hi Ho Hu.
  assert (forall fs, Forall wf_frame fs -> drain (open_stream (mkBody (write_frames eol fs) e))
     = deltas_of read_error on_event None (map frame_event fs) (default EOF e)) as Hdrain.
  { intros fs Hfs. rewrite (drain_events read_error on_event). cbn [scanner state open_stream].
    by rewrite sse_roundtrip. }
  assert (on_event (frame_event (start_frame id input)) None = (Some input, None)) as Hstart.
  { unfold on_event. simpl eName. by rewrite bool_decide_true, decode_start by done. }
  assert (Forall wf_frame (map piece_frame ps)) as Hps.
  { apply Forall_map. eapply Forall_impl; [exact Hp|]. by intros p [? _]. }
  split.
  - rewrite Hdrain; [|constructor; [done|]; apply Forall_app; split; [done|by constructor]].
    cbn [map]. rewrite map_app. cbn [map deltas_of]. rewrite Hstart, pieces_pass by done. cbn [deltas_of].
    assert (on_event (frame_event (delta_frame stop output)) (Some input)
       = (Some input, Some (Ok (mkDelta None (Some stop) true None (Some input) (Some output)), true))) as ->; [|done].
    unfold on_event. simpl eName.
    by rewrite !bool_decide_false, bool_decide_true, decode_delta by done.
  - rewrite Hdrain by (by constructor). cbn [map deltas_of]. rewrite Hstart, <- (app_nil_r (map frame_event _)), pieces_pass by done. simpl.
    rewrite app_nil_r. by destruct e.
Qed.

Lemma anthropic_message_witness :
  drain (open_stream (mkBody (write_frames (String newline "")
     (start_frame "m1" 11 :: map piece_frame [POther "ping" (JObj []); PText "Hi"; PJson "{"] ++ [delta_frame "end_turn" 3])) None))
  = ([text_delta "Hi"; mkDelta None (Some "end_turn") true None (Some 11) (Some 3)], None).
Proof.
  refine (proj1 (anthropic_message (String newline "") "m1" 11 [POther "ping" (JObj []); PText "Hi"; PJson "{"]
            "end_turn" 3 [] None _ _ _ _ _ _ _ _)).
  - by left.
  - repeat split; [by constructor|by left].
  - rewrite !Forall_cons. refine (conj (conj _ _) (conj (conj _ _) (conj (conj _ _) (Forall_nil_2 _))));
      try (repeat split; [by constructor|by left]); try reflexivity. set_solver.
  - repeat split; [by constructor|by left].
  - constructor.
  - lia.
  - lia.
  - reflexivity.
Defined.
