(* ===== verification/Google.v ===== *)
(** provider-gateway/internal/adapters/google: Gemini's streamGenerateContent
    with [alt=sse].

    [splitSystem], [mapRole] and [wireRequest] build the request; [on_event] is
    what [Recv] does with one event. *)

From S2P Require Import Prelude Errors Prog Http Json Float Adapter Sse.
From Stdlib Require Import Ascii.
#[local] Open Scope Z_scope.

Definition ProviderName : string := "google".
Definition defaultBaseURL : string := "https://generativelanguage.googleapis.com".

(** The key is fixed when the adapter is made. *)
Record Google := mkGoogle { apiKey : string; baseURL : string }.

Definition New (apiKey baseURL : string) : Google :=
  mkGoogle apiKey (if bool_decide (baseURL = "") then defaultBaseURL else baseURL).

(** * The request *)

Definition mapRole (role : string) : string :=
  if bool_decide (role = "assistant") then "model" else role.

Definition content_json (role text : string) : json :=
  JObj [("role", JStr role); ("parts", JArr [JObj [("text", JStr text)]])].

Definition is_system (m : Message) : bool := bool_decide (Role m = "system").

(** [splitSystem]: the system instruction, when there is any, and the contents. *)
Definition splitSystem (messages : list Message) : option json * list json :=
  let systemParts := map mContent (filter (fun m => is_system m = true) messages) in
  let rest := filter (fun m => is_system m = false) messages in
  (match systemParts with
   | [] => None
   | _ => Some (content_json "" (str_join (String newline "") systemParts))
   end,
   map (fun m => content_json (mapRole (Role m)) (mContent m)) rest).

Definition generation_config (maxTokens : option Z) (t : option json) : list (string * json) :=
  match maxTokens, t with
  | None, None => []
  | _, _ =>
      [("generationConfig",
        JObj (omit_nil "maxOutputTokens" (fun n => JNum (itoa n)) maxTokens ++ omit_nil "temperature" id t))]
  end.

Definition wireRequest (req : InvokeRequest) : res string :=
  let '(system, contents) := splitSystem (Messages req) in
  match temperature_json (Temperature req) with
  | Err e => Err e
  | Ok t =>
      Ok (print (JObj (
        [("contents", match contents with [] => JNull | _ => JArr contents end)]
        ++ omit_nil "systemInstruction" id system
        ++ generation_config (MaxTokens req) t)))
  end.

(** * The chunks *)

Record wireCandidate := mkCandidate {
  cRole : string; cParts : list string; cFinishReason : option string }.
Record wireUsageMetadata := mkUsageMetadata { PromptTokenCount : Z; CandidatesTokenCount : Z }.
Record wireChunk := mkChunk {
  Candidates : list wireCandidate; UsageMetadata : option wireUsageMetadata }.

Definition zeroCandidate := mkCandidate "" [] None.
Definition zeroUsage := mkUsageMetadata 0 0.
Definition zeroChunk := mkChunk [] None.

Definition d_part : decoder string := d_struct [field "text" id (fun t _ => t) d_string].

Definition d_candidate : decoder wireCandidate := d_struct [
  field "content" (fun c => (cRole c, cParts c)) (fun rp c => mkCandidate rp.1 rp.2 (cFinishReason c))
    (d_struct [
      field "role" fst (fun r rp => (r, rp.2)) d_string;
      field "parts" snd (fun p rp => (rp.1, p)) (d_slice "" d_part)]);
  field "finishReason" cFinishReason (fun f c => mkCandidate (cRole c) (cParts c) f) (d_ptr "" d_string)].

Definition d_usage : decoder wireUsageMetadata := d_struct [
  field "promptTokenCount" PromptTokenCount (fun n u => mkUsageMetadata n (CandidatesTokenCount u)) (d_int 32);
  field "candidatesTokenCount" CandidatesTokenCount (fun n u => mkUsageMetadata (PromptTokenCount u) n) (d_int 32)].

Definition d_chunk : decoder wireChunk := d_struct [
  field "candidates" Candidates (fun l c => mkChunk l (UsageMetadata c)) (d_slice zeroCandidate d_candidate);
  field "usageMetadata" UsageMetadata (fun u c => mkChunk (Candidates c) u) (d_ptr zeroUsage d_usage)].

(** * [Recv] *)

Definition read_error (e : error) : error := Wrapf "google adapter: read stream: %w" [] e.

Definition some_text (text : string) : option string :=
  if bool_decide (text = "") then None else Some text.

Definition on_event (ev : Event) (s : unit) : unit * option (res Delta * bool) :=
  match unmarshal d_chunk (Data ev) zeroChunk with
  | (_, Some e) => (s, Some (Err (Wrapf "google adapter: decode chunk: %w" [] e), true))
  | (chunk, None) =>
      match Candidates chunk with
      | [] => (s, None)
      | candidate :: _ =>
          let text := match cParts candidate with p :: _ => p | [] => "" end in
          match cFinishReason candidate with
          | Some fr =>
              (s, Some (Ok (mkDelta (some_text text) (Some fr) true None
                              (PromptTokenCount <$> UsageMetadata chunk)
                              (CandidatesTokenCount <$> UsageMetadata chunk)), true))
          | None =>
              if bool_decide (text = "") then (s, None)
              else (s, Some (Ok (mkDelta (Some text) None false None None None), false))
          end
      end
  end.

Definition stream : Type := SseStream (St := unit).

Definition open_stream (b : Body) : stream := mkSseStream (NewScanner b) tt false.

Definition stream_Recv : stream -> res Delta * stream := receive read_error on_event.

#[global] Instance google_stream : Stream stream :=
  {| Recv := stream_Recv; pending := fun s => scanner_size (scanner s) |}.

#[global] Instance google_lawful : LawfulStream stream.
Proof. exact (receive_consumes read_error on_event). Qed.

Definition Google_Invoke (a : Google) (req : InvokeRequest) : prog AdapterE (res stream) :=
  match wireRequest req with
  | Err e => Ret (Err (Wrapf "google adapter: marshal request: %w" [] e))
  | Ok body =>
      post "google" (baseURL a +:+ "/v1beta/models/" +:+ Model req +:+ ":streamGenerateContent?alt=sse") body
        (Ret [("x-goog-api-key", apiKey a)]) open_stream
  end.

Definition google_adapter (a : Google) : Adapter stream := mkAdapter ProviderName (Google_Invoke a).

Lemma google_closes s r s' :
  stream_Recv s = (r, s') ->
  match r with Ok d => IsFinal d = true -> closed s' = true | Err _ => closed s' = true end.
Proof.
  apply (receive_closes read_error on_event). intros ev n. unfold on_event.
  destruct (unmarshal _ _ _) as [[[|[r0 ps [fr|]] l] u] [e|]]; simpl; try done. by case_match.
Qed.

(** * What a server sends *)

(** A chunk: the parts of its first candidate, the finish reason of the last
    chunk, and the running usage. *)
Record chunk := mkGChunk {
  gParts : list string; gFinish : option string; gUsage : option wireUsageMetadata }.

Definition usage_json (u : wireUsageMetadata) : json :=
  JObj [("promptTokenCount", JNum (itoa (PromptTokenCount u)));
        ("candidatesTokenCount", JNum (itoa (CandidatesTokenCount u)));
        ("totalTokenCount", JNum (itoa (PromptTokenCount u + CandidatesTokenCount u)))].

Definition chunk_json (c : chunk) : json :=
  JObj ([("candidates", JArr [JObj (
           [("content", JObj [("parts", JArr (map (fun t => JObj [("text", JStr t)]) (gParts c)));
                              ("role", JStr "model")])]
           ++ omit_nil "finishReason" JStr (gFinish c)
           ++ [("index", JNum (itoa 0))])])]
        ++ omit_nil "usageMetadata" usage_json (gUsage c)).

Definition chunk_frame (c : chunk) : Frame := mkFrame "" [print (chunk_json c)].

Definition wf_chunk (c : chunk) : Prop :=
  strlen (print (chunk_json c)) + 16 < max_token /\
  Forall (fun t => utf8 t = true) (gParts c) /\ from_option (fun f => utf8 f = true) True (gFinish c) /\
  match gUsage c with
  | Some u => - 2^31 <= PromptTokenCount u < 2^31 /\ - 2^31 <= CandidatesTokenCount u < 2^31
  | None => True
  end.

Definition first_part (c : chunk) : string := match gParts c with p :: _ => p | [] => "" end.

Definition text_deltas (c : chunk) : list Delta :=
  if bool_decide (first_part c = "") then []
  else [mkDelta (Some (first_part c)) None false None None None].

Definition final_delta (c : chunk) (fr : string) : Delta :=
  mkDelta (some_text (first_part c)) (Some fr) true None
    (PromptTokenCount <$> gUsage c) (CandidatesTokenCount <$> gUsage c).

Lemma parts_wf ps : wf_numbers (JArr (map (fun t => JObj [("text", JStr t)]) ps)).
Proof. by induction ps as [|p ps IH]; [|split; [split|]]. Qed.

Lemma parts_depth ps : (depth (JArr (map (fun t => JObj [("text", JStr t)]) ps)) <= 2)%nat.
Proof. induction ps as [|p ps IH]; simpl in *; lia. Qed.

Lemma chunk_wf_numbers c : wf_numbers (chunk_json c).
Proof.
  pose proof (parts_wf (gParts c)) as Hp. destruct c as [ps [f|] [u|]]; simpl in *; auto 40 with onezox.
Qed.

Lemma chunk_depth c : (depth (chunk_json c) <= max_depth)%nat.
Proof.
  apply le_max_depth. pose proof (parts_depth (gParts c)) as Hp.
  destruct c as [ps [f|] [u|]]; simpl in *; lia.
Qed.

Lemma decode_parts ps old :
  Forall (fun t => utf8 t = true) ps -> (length old <= 0)%nat ->
  d_slice "" d_part (canon (JArr (map (fun t => JObj [("text", JStr t)]) ps))) old = (ps, true).
Proof.
  intros Hps Ho. destruct old; [|simpl in Ho; lia]. clear Ho. simpl.
  induction Hps as [|p ps Hp _ IH]; [done|]. simpl. rewrite IH.
  unfold d_part, field. simpl. by rewrite to_valid_utf8.
Qed.

Lemma google_decode_usage u :
  - 2^31 <= PromptTokenCount u < 2^31 -> - 2^31 <= CandidatesTokenCount u < 2^31 ->
  d_ptr zeroUsage d_usage (canon (usage_json u)) None = (Some u, true).
Proof.
  intros Hp Hq. destruct u as [p q]. simpl in *. unfold field. simpl.
  rewrite d_int_itoa by (simpl; lia). simpl. by rewrite d_int_itoa by (simpl; lia).
Qed.

Lemma google_decode_chunk c :
  wf_chunk c ->
  unmarshal d_chunk (print (chunk_json c)) zeroChunk
    = (mkChunk [mkCandidate "model" (gParts c) (gFinish c)] (gUsage c), None).
Proof.
  intros (_ & Hp & Hf & Hu). rewrite unmarshal_print by (apply chunk_wf_numbers || apply chunk_depth).
  pose proof (decode_parts (gParts c) [] Hp (le_n 0)) as Ep.
  destruct c as [ps f u]. cbn [gParts gFinish gUsage] in *.
  assert (d_candidate (canon (JObj ([("content", JObj [("parts", JArr (map (fun t => JObj [("text", JStr t)]) ps));
             ("role", JStr "model")])] ++ omit_nil "finishReason" JStr f ++ [("index", JNum (itoa 0))]))) zeroCandidate
          = (mkCandidate "model" ps f, true)) as Ec.
  { revert Ep. unfold d_candidate. set (D := d_slice "" d_part). intros Ep. destruct f as [f|]; simpl in *;
      unfold field; simpl; rewrite Ep; simpl; by rewrite ?to_valid_utf8. }
  unfold chunk_json. cbn [gParts gFinish gUsage].
  unfold d_chunk. revert Ec. set (C := d_candidate). set (cj := JObj (_ ++ _)). intros Ec.
  destruct u as [u|]; [destruct Hu as [Hu1 Hu2]; pose proof (google_decode_usage u Hu1 Hu2) as Eu|].
  - revert Eu. set (U := d_ptr zeroUsage d_usage). set (uj := usage_json u). intros Eu.
    unfold field. simpl in *. rewrite Ec. simpl. by rewrite Eu.
  - unfold field. simpl in *. by rewrite Ec.
Qed.

Lemma google_on_chunk c s :
  wf_chunk c ->
  on_event (frame_event (chunk_frame c)) s =
    (s, match gFinish c with
        | Some fr => Some (Ok (final_delta c fr), true)
        | None => match text_deltas c with d :: _ => Some (Ok d, false) | [] => None end
        end).
Proof.
  intros Hc. unfold on_event. simpl Data. rewrite google_decode_chunk by done. simpl.
  destruct (gFinish c); [done|]. unfold text_deltas, first_part. by case_bool_decide.
Qed.

Lemma google_chunk_frame_wf c : wf_chunk c -> wf_frame (chunk_frame c).
Proof. intros [Hs _]. apply wf_frame_data, wf_line_print; [apply chunk_wf_numbers|done]. Qed.

Lemma texts_pass cs s evs e :
  Forall wf_chunk cs -> Forall (fun c => gFinish c = None) cs ->
  deltas_of read_error on_event s (map frame_event (map chunk_frame cs) ++ evs) e
  = let '(ds, r) := deltas_of read_error on_event s evs e in (concat (map text_deltas cs) ++ ds, r).
Proof.
  induction cs as [|c cs IH]; intros Hw Hn.
  { cbn [map app concat]. by destruct (deltas_of read_error on_event s evs e). }
  apply Forall_cons in Hw as [Hc Hw]. apply Forall_cons in Hn as [Hf Hn]. specialize (IH Hw Hn).
  cbn [map app deltas_of]. rewrite google_on_chunk, Hf by done. unfold text_deltas at 1 2.
  case_bool_decide; [exact IH|]. simpl. rewrite IH. by destruct (deltas_of read_error on_event s evs e).
Qed.

(** C28. The bytes of a Gemini response.  The adapter hands out the first part of
    every chunk that has one, in order, and for the chunk with the finish reason
    one final delta with its text, the reason and the usage; the parts after the
    first are dropped.  A body that breaks off before the finish reason gives
    the texts and then an error. *)
Theorem google_response eol cs c fr rest e :
  is_eol eol -> Forall wf_chunk (cs ++ [c]) -> Forall (fun c => gFinish c = None) cs -> gFinish c = Some fr ->
  Forall wf_frame rest ->
  drain (open_stream (mkBody (write_frames eol (map chunk_frame (cs ++ [c]) ++ rest)) e))
    = (concat (map text_deltas cs) ++ [final_delta c fr], None)
  /\ drain (open_stream (mkBody (write_frames eol (map chunk_frame cs)) e))
    = (concat (map text_deltas cs),
       Some (match e with
             | Some err => if bool_decide (err = EOF) then EOF else read_error err
             | None => EOF
             end)).
Proof.
  intros He Hw Hn Hf Hrest.
  assert (forall cs last, Forall wf_chunk cs -> Forall wf_frame last ->
    drain (open_stream (mkBody (write_frames eol (map chunk_frame cs ++ last)) e))
    = deltas_of read_error on_event tt (map frame_event (map chunk_frame cs) ++ map frame_event last) (default EOF e)) as Hdrain.
  { intros cs' last Hcs Hl. rewrite (drain_events read_error on_event). cbn [scanner state open_stream].
    rewrite sse_roundtrip; [by rewrite map_app|done|].
    apply Forall_app; split; [|done]. apply Forall_map. eapply Forall_impl; [exact Hcs|exact google_chunk_frame_wf]. }
  pose proof Hw as [Hcs Hc]%Forall_app. apply Forall_cons in Hc as [Hc _]. split.
  - rewrite Hdrain by done. rewrite !map_app, <- app_assoc. rewrite texts_pass by done.
    cbn [map app deltas_of]. by rewrite google_on_chunk, Hf by done.
  - rewrite <- (app_nil_r (map chunk_frame cs)), Hdrain by done. rewrite texts_pass by done. simpl.
    rewrite app_nil_r. by destruct e.
Qed.

Lemma google_response_witness :
  drain (open_stream (mkBody (write_frames (String newline "")
     (map chunk_frame ([mkGChunk ["Hel"; "dropped"] None None] ++ [mkGChunk ["lo"] (Some "STOP") (Some (mkUsageMetadata 4 2))]) ++ [])) None))
  = ([mkDelta (Some "Hel") None false None None None; mkDelta (Some "lo") (Some "STOP") true None (Some 4) (Some 2)], None).
Proof.
  refine (proj1 (google_response (String newline "") [mkGChunk ["Hel"; "dropped"] None None]
     (mkGChunk ["lo"] (Some "STOP") (Some (mkUsageMetadata 4 2))) "STOP" [] None _ _ _ _ _)).
  - by left.
  - cbn [app]. rewrite !Forall_cons. refine (conj _ (conj _ (Forall_nil_2 _)));
      (split; [vm_compute; reflexivity|]; split; [by repeat constructor|]; split; [done|]); [done|simpl; lia].
  - by repeat constructor.
  - reflexivity.
  - constructor.
Defined.
