(* ===== verification/JsonDecoder.v ===== *)
(** [json.Decoder] over a body: the values of a stream one after the other; and
    [strconv.Atoi].

    The reader's termination measure is the text that is left: every decoded
    value uses some of it up ([read_value_shorter]). *)

From S2P Require Import Prelude Http Errors Json Adapter.
From Stdlib Require Import Ascii.
#[local] Open Scope Z_scope.

(** The decoder's own error for a value that is malformed or cut short; a read
    error in the middle of a value is one of these. *)
Definition DecodeError : error := Lib "json: malformed or truncated value".

(** [Decode(&v)]: the next value of the body.  [io.EOF] when only white space is
    left; the value is used up even when its type does not fit. *)
Definition decode_next {T} (d : decoder T) (zero : T) (b : Body) : res T * Body :=
  let s := skip_space (unread b) in
  if bool_decide (s = "") then (Err (default EOF (ending b)), mkBody "" (ending b))
  else match read_value (json_fuel s) max_depth s with
       | None => (Err DecodeError, b)
       | Some (j, rest) =>
           let '(v, ok) := d j zero in
           (if ok then Ok v else Err UnmarshalTypeError, mkBody rest (ending b))
       end.

(** [strconv.Atoi]: an optional sign, decimal digits, the range of [int]. *)
Definition AtoiError (s : string) : error := Errorf "strconv.Atoi: parsing %q" [s].

Definition unsigned (s : string) : option Z :=
  match s with
  | String a _ => if digit a then atoi s else None
  | EmptyString => None
  end.

Definition signed (s : string) : option Z :=
  match s with
  | String a s' =>
      if byte_of a =? 45 then Z.opp <$> unsigned s'
      else if byte_of a =? 43 then unsigned s' else unsigned s
  | EmptyString => None
  end.

Definition Atoi (s : string) : res Z :=
  match signed s with
  | Some z => if (- 2^63 <=? z) && (z <? 2^63) then Ok z else Err (AtoiError s)
  | None => Err (AtoiError s)
  end.

(** * Reading uses text up *)

Lemma skip_space_length s : (String.length (skip_space s) <= String.length s)%nat.
Proof. induction s as [|a s IH]; simpl; [lia|]. destruct (is_space a); simpl; lia. Qed.

Lemma cons_str_some p o x r : cons_str p o = Some (x, r) -> exists y, o = Some (y, r).
Proof. destruct o as [[y r']|]; simpl; [|done]. intros [= _ ->]. by eexists. Qed.

Lemma read_string_shorter s x r :
  read_string s = Some (x, r) -> (String.length r < String.length s)%nat.
Proof.
  remember (String.length s) as n eqn:Hn. revert s Hn x.
  induction (lt_wf n) as [n _ IH]. intros s -> x H.
  assert (forall t x, (String.length t < String.length s)%nat -> read_string t = Some (x, r) ->
            (String.length r < String.length t)%nat) as IH' by eauto.
  clear IH. destruct s as [|a s1]; [done|]. cbn [read_string] in H.
  assert (forall p t, cons_str p (read_string t) = Some (x, r) -> (String.length t < String.length (String a s1))%nat ->
            (String.length r < String.length (String a s1))%nat) as Hstep.
  { intros p t [y Hy]%cons_str_some Ht. apply IH' in Hy; [lia|done]. }
  repeat match type of H with
  | cons_str _ _ = _ => apply Hstep in H; [done|simpl; lia]
  | (if ?c then _ else _) = _ => destruct c
  | match ?t with _ => _ end = _ => destruct t; try discriminate H
  end.
  - injection H as <- <-. simpl. lia.
  - discriminate H.
Qed.

Lemma read_digits_length s :
  (String.length (read_digits s).1 + String.length (read_digits s).2 = String.length s)%nat.
Proof.
  induction s as [|a s IH]; simpl; [done|]. destruct (digit a); [|done].
  destruct (read_digits s) as [d r]. simpl in *. lia.
Qed.

Lemma read_number_shorter s n r :
  read_number s = Some (n, r) -> (String.length r < String.length s)%nat.
Proof.
  unfold read_number. destruct (match s with "" => _ | _ => _ end) as [sign s1] eqn:E1.
  assert (String.length s1 <= String.length s)%nat as H1.
  { clear -E1. destruct s; [by simplify_eq|]. destruct (byte_of a =? 45); simplify_eq; simpl; lia. }
  destruct (match s1 with "" => _ | _ => _ end) as [int s2] eqn:E2.
  destruct (bool_decide (int = "")) eqn:Hint; [done|]. apply bool_decide_eq_false in Hint.
  assert (String.length s2 < String.length s1)%nat as H2.
  { clear -E2 Hint. destruct s1; [by simplify_eq|]. destruct (byte_of a =? 48); [simplify_eq; simpl; lia|].
    pose proof (read_digits_length (String a s1)) as Hd. rewrite E2 in Hd. simpl in *.
    destruct int; [done|]. simpl in Hd. lia. }
  destruct (match s2 with "" => _ | _ => _ end) as [[frac s3]|] eqn:E3; [|done].
  assert (String.length s3 <= String.length s2)%nat as H3.
  { clear -E3. destruct s2; [by simplify_eq|]. destruct (byte_of a =? 46); [|by simplify_eq].
    destruct (read_digits s2) as [d t] eqn:Hd. pose proof (read_digits_length s2) as Hl. rewrite Hd in Hl.
    destruct (bool_decide (d = "")); simplify_eq. simpl in *. lia. }
  clear E1 E2 E3. intros H.
  destruct s3 as [|e s4]; [by simplify_eq; simpl in *; lia|].
  destruct ((byte_of e =? 101) || (byte_of e =? 69)); [|simplify_eq; lia].
  destruct (match s4 with "" => _ | _ => _ end) as [sg s5] eqn:E5.
  assert (String.length s5 <= String.length s4)%nat as H5.
  { clear -E5. destruct s4; [by simplify_eq|]. destruct ((byte_of a =? 43) || (byte_of a =? 45)); simplify_eq; simpl; lia. }
  destruct (read_digits s5) as [d t] eqn:Hd. pose proof (read_digits_length s5) as Hl. rewrite Hd in Hl.
  destruct (bool_decide (d = "")); [done|]. simplify_eq. simpl in *. lia.
Qed.

Lemma expect_shorter p s r : expect p s = Some r -> (String.length r <= String.length s)%nat.
Proof.
  unfold expect. destruct (has_prefix p s); [|done]. intros [= <-].
  generalize (String.length p) as n. induction s as [|a s IH]; intros [|n]; simpl; try lia.
  specialize (IH n). lia.
Qed.

Ltac sizes := repeat match goal with
  | H : skip_space ?s = _ |- _ =>
      let L := fresh "L" in pose proof (skip_space_length s) as L; rewrite H in L; clear H
  end; simpl in *; lia.

Lemma readers_shorter n :
  (forall d s v r, read_value n d s = Some (v, r) -> (String.length r < String.length s)%nat)
  /\ (forall d s v r, read_elements n d s = Some (v, r) -> (String.length r < String.length s)%nat)
  /\ (forall d s v r, read_members n d s = Some (v, r) -> (String.length r < String.length s)%nat).
Proof.
  induction n as [|n (HV & HE & HM)]; [done|]. split; [|split].
  - intros d s v r H. cbn [read_value] in H. destruct (skip_space s) as [|a s1] eqn:Hs; [done|].
    destruct (byte_of a =? 34).
    { destruct (read_string s1) as [[x t]|] eqn:Hr; [|done]. apply read_string_shorter in Hr. simplify_eq. sizes. }
    destruct (byte_of a =? 123).
    { destruct d as [|d]; [done|]. destruct (skip_space s1) as [|b t] eqn:H1; [done|].
      destruct (byte_of b =? 125); [simplify_eq; sizes|].
      destruct (read_members n d s1) as [[l t']|] eqn:Hr; [|done]. apply HM in Hr. simplify_eq. sizes. }
    destruct (byte_of a =? 91).
    { destruct d as [|d]; [done|]. destruct (skip_space s1) as [|b t] eqn:H1; [done|].
      destruct (byte_of b =? 93); [simplify_eq; sizes|].
      destruct (read_elements n d s1) as [[l t']|] eqn:Hr; [|done]. apply HE in Hr. simplify_eq. sizes. }
    destruct (byte_of a =? 116).
    { destruct (expect _ _) as [t|] eqn:Hr; [|done]. apply expect_shorter in Hr. simplify_eq. sizes. }
    destruct (byte_of a =? 102).
    { destruct (expect _ _) as [t|] eqn:Hr; [|done]. apply expect_shorter in Hr. simplify_eq. sizes. }
    destruct (byte_of a =? 110).
    { destruct (expect _ _) as [t|] eqn:Hr; [|done]. apply expect_shorter in Hr. simplify_eq. sizes. }
    destruct (read_number (String a s1)) as [[m t]|] eqn:Hr; [|done]. apply read_number_shorter in Hr.
    simplify_eq. sizes.
  - intros d s v r H. cbn [read_elements] in H.
    destruct (read_value n d s) as [[j t]|] eqn:Hv; [|done]. apply HV in Hv.
    destruct (skip_space t) as [|a t1] eqn:H1; [done|].
    destruct (byte_of a =? 44).
    { destruct (read_elements n d t1) as [[l t2]|] eqn:Hr; [|done]. apply HE in Hr. simplify_eq. sizes. }
    destruct (byte_of a =? 93); [|done]. simplify_eq. sizes.
  - intros d s v r H. cbn [read_members] in H.
    destruct (skip_space s) as [|q s1] eqn:Hs; [done|]. destruct (byte_of q =? 34); [|done].
    destruct (read_string s1) as [[name t0]|] eqn:Hn; [|done]. apply read_string_shorter in Hn.
    destruct (skip_space t0) as [|c t1] eqn:H0; [done|]. destruct (byte_of c =? 58); [|done].
    destruct (read_value n d t1) as [[j t]|] eqn:Hv; [|done]. apply HV in Hv.
    destruct (skip_space t) as [|a t2] eqn:H1; [done|].
    destruct (byte_of a =? 44).
    { destruct (read_members n d t2) as [[l t3]|] eqn:Hr; [|done]. apply HM in Hr. simplify_eq. sizes. }
    destruct (byte_of a =? 125); [|done]. simplify_eq. sizes.
Qed.

Lemma read_value_shorter n d s v r :
  read_value n d s = Some (v, r) -> (String.length r < String.length s)%nat.
Proof. apply readers_shorter. Qed.

Lemma decode_next_consumes {T} (d : decoder T) zero b x b' :
  decode_next d zero b = (Ok x, b') ->
  (String.length (unread b') < String.length (unread b))%nat /\ ending b' = ending b.
Proof.
  unfold decode_next. case_bool_decide as Hs; [done|].
  destruct (read_value _ _ _) as [[j rest]|] eqn:Hr; [|done]. apply read_value_shorter in Hr.
  destruct (d j zero) as [v ok]. intros H. destruct ok; [|done]. injection H as _ <-. simpl. split; [|done].
  pose proof (skip_space_length (unread b)). lia.
Qed.

(** A document written at the head of the body is the next value. *)
Lemma decode_printed {T} (d : decoder T) zero j rest e :
  wf_numbers j -> (depth j <= max_depth)%nat -> ends_number rest = true ->
  decode_next d zero (mkBody (print j +:+ rest) e)
  = (let '(v, ok) := d (canon j) zero in if ok then Ok v else Err UnmarshalTypeError, mkBody rest e).
Proof.
  intros Hw Hd He. unfold decode_next. cbn [unread ending].
  pose proof (print_opens j Hw) as Ho. rewrite (skip_opens _ (opens_app _ rest Ho)).
  rewrite bool_decide_false by (by destruct (print j)). unfold json_fuel.
  rewrite (proj1 (reads_all _) j max_depth rest Hw Hd); [by destruct (d (canon j) zero)| |done].
  rewrite str_length_app. lia.
Qed.
