(* ===== verification/FakeAdapter.v ===== *)
(** provider-gateway/internal/adapters/fake and the provider-fake service it
    talks to.

    [Fake_Invoke] and the newline-delimited JSON [stream] are the adapter,
    [handleFakeComplete] is the service: the response it writes for a request
    body.  [fake_provider] joins the two, and [fake_end_to_end] is what a caller
    of the adapter sees of each mode. *)

From S2P Require Import Prelude Errors Prog Http Json Float Adapter Sse JsonDecoder.
From Stdlib Require Import Ascii.
#[local] Open Scope Z_scope.

Definition ProviderName : string := "fake".

Record Fake := mkFake { baseURL : string }.

(** * The adapter *)

(** [parseMode]: provider-fake's mode and the induced status, from the model. *)
Definition parseMode (model : string) : res (string * Z) :=
  let '(provider, rest, _) := cut colon model in
  if bool_decide (provider ∈ ["normal"; "slow"; "fail_mid_stream"]) then Ok (provider, 0)
  else if bool_decide (provider = "fail") then
    if bool_decide (rest = "") then Ok ("fail", 0)
    else match Atoi rest with
         | Err e => Err (Wrapf "fake adapter: invalid fail status %q: %w" [rest] e)
         | Ok status => Ok ("fail", status)
         end
  else Err (Errorf "fake adapter: unknown mode %q (want normal, slow, fail, fail:<status>, or fail_mid_stream)" [model]).

Definition message_json (m : Message) : json :=
  JObj [("role", JStr (Role m)); ("content", JStr (mContent m))].

(** [wireRequest]; fail_status is omitted when zero. *)
Definition wireRequest (req : InvokeRequest) (mode : string) (failStatus : Z) : json :=
  JObj ([("request_id", JStr (RequestID req));
         ("messages", JArr (map message_json (Messages req)));
         ("mode", JStr mode)]
        ++ if failStatus =? 0 then [] else [("fail_status", JNum (itoa failStatus))]).

(** [wireChunk] decodes straight into a delta; the request id is not used. *)
Definition wireChunk : Type := string * Delta.
Definition zeroChunk : wireChunk := ("", mkDelta None None false None None None).

Definition d_chunk : decoder wireChunk :=
  let set f (c : wireChunk) : wireChunk := (c.1, f c.2) in
  d_struct [
    field "request_id" fst (fun i c => (i, c.2)) d_string;
    field "content" (fun c => Content c.2) (fun v => set (fun '(mkDelta _ b c d e f) => mkDelta v b c d e f)) (d_ptr "" d_string);
    field "finish_reason" (fun c => FinishReason c.2) (fun v => set (fun '(mkDelta a _ c d e f) => mkDelta a v c d e f)) (d_ptr "" d_string);
    field "is_final" (fun c => IsFinal c.2) (fun v => set (fun '(mkDelta a b _ d e f) => mkDelta a b v d e f)) d_bool;
    field "prefix_cache_handle" (fun c => PrefixCacheHandle c.2) (fun v => set (fun '(mkDelta a b c _ e f) => mkDelta a b c v e f)) (d_ptr "" d_string);
    field "input_tokens" (fun c => InputTokens c.2) (fun v => set (fun '(mkDelta a b c d _ f) => mkDelta a b c d v f)) (d_ptr 0 (d_int 32));
    field "output_tokens" (fun c => OutputTokens c.2) (fun v => set (fun '(mkDelta a b c d e _) => mkDelta a b c d e v)) (d_ptr 0 (d_int 32))].

Record stream := mkStream { body : Body; closed : bool }.

Definition open_stream (b : Body) : stream := mkStream b false.

Definition stream_Recv (s : stream) : res Delta * stream :=
  match decode_next d_chunk zeroChunk (body s) with
  | (Err e, b) =>
      (Err (if bool_decide (e = EOF) then EOF else Wrapf "fake adapter: decode chunk: %w" [] e), mkStream b true)
  | (Ok chunk, b) => (Ok chunk.2, mkStream b (closed s || IsFinal chunk.2))
  end.

#[global] Instance fake_stream : Stream stream :=
  {| Recv := stream_Recv; pending := fun s => String.length (unread (body s)) |}.

#[global] Instance fake_lawful : LawfulStream stream.
Proof.
  intros s d s'. simpl. unfold stream_Recv.
  destruct (decode_next d_chunk zeroChunk (body s)) as [[c|e] b] eqn:Hd; [|done].
  apply decode_next_consumes in Hd as [? _]. intros [= _ <-]. done.
Qed.

Definition Fake_Invoke (a : Fake) (req : InvokeRequest) : prog AdapterE (res stream) :=
  match parseMode (Model req) with
  | Err e => Ret (Err e)
  | Ok (mode, failStatus) =>
      post "fake" (baseURL a +:+ "/v1/fake-complete") (print (wireRequest req mode failStatus))
        (Ret []) open_stream
  end.

Definition fake_adapter (a : Fake) : Adapter stream := mkAdapter ProviderName (Fake_Invoke a).

Lemma fake_closes s r s' :
  stream_Recv s = (r, s') ->
  match r with Ok d => IsFinal d = true -> closed s' = true | Err _ => closed s' = true end.
Proof.
  unfold stream_Recv. destruct (decode_next _ _ _) as [[c|e] b]; intros [= <- <-]; simpl; [|done].
  intros ->. by rewrite orb_true_r.
Qed.

(** * provider-fake *)

Record fakeCompleteRequest := mkFakeRequest {
  fRequestID : string; fMessages : list (string * string); fMode : string; fFailStatus : Z }.

Definition zeroRequest := mkFakeRequest "" [] "" 0.

Definition d_message : decoder (string * string) := d_struct [
  field "role" fst (fun r m => (r, m.2)) d_string;
  field "content" snd (fun c m => (m.1, c)) d_string].

Definition d_request : decoder fakeCompleteRequest := d_struct [
  field "request_id" fRequestID (fun v '(mkFakeRequest _ b c d) => mkFakeRequest v b c d) d_string;
  field "messages" fMessages (fun v '(mkFakeRequest a _ c d) => mkFakeRequest a v c d) (d_slice ("", "") d_message);
  field "mode" fMode (fun v '(mkFakeRequest a b _ d) => mkFakeRequest a b v d) d_string;
  field "fail_status" fFailStatus (fun v '(mkFakeRequest a b c _) => mkFakeRequest a b c v) (d_int 64)].

Definition cannedInputTokens : Z := 42.
Definition cannedOutputTokens : Z := 17.
Definition cannedChunks : list string := ["Hello "; "from "; "the "; "Phase-02 "; "provider-fake "; "harness. "].

(** [fakeCompleteChunk] as [json.Encoder] writes it, a newline after it. *)
Definition chunk_json (requestID : string) (d : Delta) : json :=
  JObj ([("request_id", JStr requestID)]
        ++ omit_nil "content" JStr (Content d)
        ++ omit_nil "finish_reason" JStr (FinishReason d)
        ++ [("is_final", JBool (IsFinal d))]
        ++ omit_nil "prefix_cache_handle" JStr (PrefixCacheHandle d)
        ++ omit_nil "input_tokens" (fun n => JNum (itoa n)) (InputTokens d)
        ++ omit_nil "output_tokens" (fun n => JNum (itoa n)) (OutputTokens d)).

Definition newline_str : string := String newline "".

Definition writeChunk (requestID : string) (d : Delta) : string :=
  print (chunk_json requestID d) +:+ newline_str.

Definition text_chunk (text : string) : Delta := mkDelta (Some text) None false None None None.

Definition final_chunk (requestID : string) : Delta :=
  mkDelta None (Some "stop") true (Some ("fake-cache-" +:+ requestID))
    (Some cannedInputTokens) (Some cannedOutputTokens).

(** [w.WriteHeader(status)] followed by a body: [None] when net/http panics on
    the code and drops the connection; an informational code is sent ahead of an
    implicit 200; 204 and 304 carry no body. *)
Definition respond (status : Z) (body : string) : option (Z * string) :=
  if (status <? 100) || (999 <? status) then None
  else if (status <? 200) && negb (status =? 101) then Some (200, body)
  else if (status =? 204) || (status =? 304) then Some (status, "")
  else Some (status, body).

Definition error_json (what : string) : string := print (JObj [("error", JStr what)]).

Definition http_error (code : Z) (what : string) : option (Z * string) :=
  respond code (error_json what +:+ newline_str).

Fixpoint write_chunks (requestID : string) (texts : list string) : string :=
  match texts with
  | [] => ""
  | t :: ts => writeChunk requestID (text_chunk t) +:+ write_chunks requestID ts
  end.

(** The fragment of the fail_mid_stream mode: the id is not escaped. *)
Definition truncated (requestID : string) : string :=
  "{" +:+ dq +:+ "request_id" +:+ dq +:+ ":" +:+ dq +:+ requestID +:+ dq
  +:+ "," +:+ dq +:+ "content" +:+ dq +:+ ":" +:+ dq +:+ "trunc".

(** [handleFakeComplete]: status and body for the bytes of a request. *)
Definition handleFakeComplete (reqBody : string) : option (Z * string) :=
  match (decode_next d_request zeroRequest (mkBody reqBody None)).1 with
  | Err _ => http_error 400 "invalid request body"
  | Ok req =>
      if bool_decide (fMode req = "fail") then
        let status := if fFailStatus req =? 0 then 503 else fFailStatus req in
        respond status (error_json "provider-fake: induced failure" +:+ newline_str)
      else if bool_decide (fMode req ∈ ["normal"; "slow"]) then
        respond 200 (write_chunks (fRequestID req) cannedChunks
                     +:+ writeChunk (fRequestID req) (final_chunk (fRequestID req)))
      else if bool_decide (fMode req = "fail_mid_stream") then
        respond 200 (write_chunks (fRequestID req) (take 2 cannedChunks)
                     +:+ truncated (fRequestID req))
      else http_error 400 "mode must be one of: normal, fail, slow, fail_mid_stream"
  end.

(** The error of the HTTP client when the server closes the connection before
    answering: a [*url.Error] around [io.EOF]. *)
Definition dropped (url : string) : error := Wrapf "Post %q: %w" [url] EOF.

(** The adapter's HTTP client connected to provider-fake. *)
Definition fake_provider : handler AdapterE unit := fun X e s =>
  match e in AdapterE X return X * unit with
  | LoadKey _ => ("", s)
  | NewRequest _ _ => (Ok tt, s)
  | HttpDo r =>
      (match handleFakeComplete (hBody r) with
       | Some (status, b) => Ok (mkHttpResponse status (mkBody b None))
       | None => Err (dropped (URL r))
       end, s)
  end.

(** * Both ends together *)

Lemma messages_wf ms : wf_numbers (JArr (map message_json ms)).
Proof. by induction ms as [|m ms IH]; [|split; [split; [|split]|]]. Qed.

Lemma messages_depth ms : (depth (JArr (map message_json ms)) <= 2)%nat.
Proof. induction ms as [|m ms IH]; simpl in *; lia. Qed.

Lemma decode_messages ms :
  d_slice ("", "") d_message (canon (JArr (map message_json ms))) []
  = (map (fun m => (to_valid (Role m), to_valid (mContent m))) ms, true).
Proof. simpl. induction ms as [|m ms IH]; [done|]. simpl. by rewrite IH. Qed.

Lemma request_received req mode st :
  utf8 mode = true -> in64 st ->
  (decode_next d_request zeroRequest (mkBody (print (wireRequest req mode st)) None)).1
  = Ok (mkFakeRequest (to_valid (RequestID req))
          (map (fun m => (to_valid (Role m), to_valid (mContent m))) (Messages req)) mode st).
Proof.
  intros Hm Hst. rewrite <- (str_app_nil_r (print _)).
  pose proof (messages_wf (Messages req)) as Hw. pose proof (messages_depth (Messages req)) as Hd.
  rewrite decode_printed; [| |apply le_max_depth|done].
  - pose proof (decode_messages (Messages req)) as E. unfold wireRequest, d_request.
    revert E. set (D := d_slice _ _). set (J := JArr _). intros E.
    unfold in64 in Hst. destruct (Z.eqb_spec st 0) as [->|Hz]; simpl in *; unfold field; simpl; rewrite E; simpl.
    + by rewrite (to_valid_utf8 mode).
    + rewrite d_int_itoa by (simpl; lia). by rewrite (to_valid_utf8 mode).
  - unfold wireRequest. destruct (st =? 0); simpl in *; auto 20 with onezox.
  - unfold wireRequest. destruct (st =? 0); simpl in *; lia.
Qed.

(** Deltas whose texts are UTF-8 and whose counts fit [int32]. *)
Definition wf_delta (d : Delta) : Prop :=
  Forall (fun o => from_option (fun s => utf8 s = true) True o) [Content d; FinishReason d; PrefixCacheHandle d]
  /\ Forall (fun o => from_option (fun n => - 2^31 <= n < 2^31) True o) [InputTokens d; OutputTokens d].

(** A chunk written by the service is the delta the adapter receives; the newline
    of the chunk before it is skipped. *)
Definition is_lead (lead : string) : Prop := lead = "" \/ lead = newline_str.

Lemma decode_lead {T} (d : decoder T) zero lead t e v b :
  is_lead lead -> decode_next d zero (mkBody t e) = (Ok v, b) ->
  decode_next d zero (mkBody (lead +:+ t) e) = (Ok v, b).
Proof.
  intros [-> | ->]; [done|]. unfold decode_next. cbn [unread ending].
  change (skip_space (newline_str +:+ t)) with (skip_space t).
  case_bool_decide; [done|]. by destruct (read_value _ _ _) as [[j r]|].
Qed.

Lemma chunk_decoded id d rest e :
  wf_delta d ->
  decode_next d_chunk zeroChunk (mkBody (writeChunk id d +:+ rest) e)
  = (Ok (to_valid id, d), mkBody (newline_str +:+ rest) e).
Proof.
  intros [Ht Hn]. unfold writeChunk. rewrite str_app_assoc, decode_printed.
  - destruct d as [o1 o2 f o3 o4 o5]. simpl in Ht, Hn.
    apply Forall_cons in Ht as [T1 Ht]. apply Forall_cons in Ht as [T2 Ht]. apply Forall_cons in Ht as [T3 _].
    apply Forall_cons in Hn as [N1 Hn]. apply Forall_cons in Hn as [N2 _].
    unfold d_chunk, chunk_json. cbn [Content FinishReason IsFinal PrefixCacheHandle InputTokens OutputTokens].
    destruct o1 as [s1|], o2 as [s2|], o3 as [s3|], o4, o5; simpl in *; unfold field; simpl;
      repeat first [rewrite (to_valid_utf8 s1) by done | rewrite (to_valid_utf8 s2) by done
                   | rewrite (to_valid_utf8 s3) by done | rewrite d_int_itoa by (simpl; lia); simpl]; done.
  - destruct d as [[] [] f [] [] []]; simpl; auto 30 with onezox.
  - apply le_max_depth. destruct d as [[] [] f [] [] []]; simpl; lia.
  - done.
Qed.

Lemma chunk_received id d lead rest e c :
  wf_delta d -> is_lead lead ->
  Recv (mkStream (mkBody (lead +:+ writeChunk id d +:+ rest) e) c)
  = (Ok d, mkStream (mkBody (newline_str +:+ rest) e) (c || IsFinal d)).
Proof.
  intros Hd Hl. change (Recv ?s) with (stream_Recv s). unfold stream_Recv. cbn [body closed].
  by rewrite (decode_lead _ _ _ _ _ _ _ Hl (chunk_decoded id d rest e Hd)).
Qed.

(** Text chunks are received one by one, and then the rest is. *)
Lemma texts_received id t ts lead rest c r :
  Forall (fun t => utf8 t = true) (t :: ts) -> is_lead lead ->
  (forall c, drain (mkStream (mkBody (newline_str +:+ rest) None) c) = r) ->
  drain (mkStream (mkBody (lead +:+ write_chunks id (t :: ts) +:+ rest) None) c)
  = (map text_chunk (t :: ts) ++ r.1, r.2).
Proof.
  intros Hts Hl Hr. revert t lead c Hts Hl.
  induction ts as [|t' ts IH]; intros t lead c Hts Hl; apply Forall_cons in Hts as [Ht Hts];
    rewrite drain_eq; cbn [write_chunks]; rewrite !str_app_assoc;
    rewrite chunk_received by (done || by repeat constructor); cbn [IsFinal text_chunk].
  - rewrite Hr. by destruct r.
  - change (writeChunk id (text_chunk t') +:+ write_chunks id ts +:+ rest) with
      (writeChunk id (text_chunk t') +:+ (write_chunks id ts +:+ rest)).
    rewrite <- (str_app_assoc (writeChunk id (text_chunk t'))).
    rewrite (IH t' newline_str) by (done || by right). done.
Qed.

(** The truncated fragment is never a value, as long as the id needs no escape. *)
Lemma read_truncated n d id :
  escape id = id -> utf8 id = true -> read_value n d (truncated id) = None.
Proof.
  intros He Hu. assert (forall r, read_string (id +:+ dq +:+ r) = Some (id, r)) as Hid.
  { intros r. rewrite <- He at 1. by rewrite read_escape, to_valid_utf8. }
  destruct n as [|n]; [done|]. unfold truncated. cbn [read_value]. destruct d as [|d]; [done|].
  simpl skip_space. cbn [read_value].
  destruct n as [|n]; [done|]. simpl.
  destruct n as [|n]; [done|]. simpl.
  change (String (of_byte 34) ?t) with (dq +:+ t). rewrite Hid. simpl.
  destruct n as [|n]; [done|]. done.
Qed.

Lemma atoi_in64 s z : Atoi s = Ok z -> in64 z.
Proof.
  unfold Atoi. destruct (signed s) as [v|]; [|done].
  destruct (_ && _) eqn:Hb; [|done]. intros [= ->]. apply andb_true_iff in Hb as [? ?]. zbool.
  unfold in64. lia.
Qed.

Lemma parse_mode_ok model mode st :
  parseMode model = Ok (mode, st) ->
  in64 st /\ (mode = "fail" \/ (st = 0 /\ mode ∈ ["normal"; "slow"; "fail_mid_stream"])).
Proof.
  unfold parseMode. destruct (cut colon model) as [[p r] ok]. case_bool_decide as Hp.
  { intros [= <- <-]. split; [unfold in64; lia|by right]. }
  case_bool_decide; [|done]. case_bool_decide; [intros [= <- <-]; split; [unfold in64; lia|by left]|].
  destruct (Atoi r) as [z|] eqn:Ha; [|done]. intros [= <- <-]. split; [by eapply atoi_in64|by left].
Qed.

(** The request and the service's reaction to it, as one step. *)
Lemma invoke_run a req mode st :
  parseMode (Model req) = Ok (mode, st) ->
  (run fake_provider (Fake_Invoke a req) tt).1 =
    match handleFakeComplete (print (wireRequest req mode st)) with
    | None => Err (Wrapf "fake adapter: request failed: %w" [] (dropped (baseURL a +:+ "/v1/fake-complete")))
    | Some (code, b) =>
        if negb (code =? 200) then Err (UpstreamStatus "fake" code b) else Ok (open_stream (mkBody b None))
    end.
Proof.
  intros Hm. unfold Fake_Invoke, post. rewrite Hm. cbn [run rbind bind wrapped call fake_provider map_err hBody].
  simpl. destruct (handleFakeComplete _) as [[code b]|]; [|done]. simpl. by destruct (code =? 200).
Qed.

(** The test provider end to end.  Through the adapter's request, the
    service's reaction and the adapter's decoder, a caller sees exactly what the
    mode says: the canned text and one final delta carrying this request's cache
    handle and the canned usage; or the canned text broken off by a decoding
    error; or the induced status as an upstream error (503 unless given; a code
    net/http refuses to write drops the connection, and a code of 200 or below
    it gives a stream that ends without a final delta). *)
Theorem fake_end_to_end a req :
  utf8 (RequestID req) = true ->
  let r := (run fake_provider (Fake_Invoke a req) tt).1 in
  match parseMode (Model req) with
  | Err e => r = Err e
  | Ok (mode, st) =>
      if bool_decide (mode ∈ ["normal"; "slow"]) then
        exists s, r = Ok s /\ drain s = (map text_chunk cannedChunks ++ [final_chunk (RequestID req)], None)
      else if bool_decide (mode = "fail_mid_stream") then
        escape (RequestID req) = RequestID req ->
        exists s, r = Ok s /\
          drain s = (map text_chunk (take 2 cannedChunks), Some (Wrapf "fake adapter: decode chunk: %w" [] DecodeError))
      else
        match respond (if st =? 0 then 503 else st) (error_json "provider-fake: induced failure" +:+ newline_str) with
        | None => r = Err (Wrapf "fake adapter: request failed: %w" [] (dropped (baseURL a +:+ "/v1/fake-complete")))
        | Some (code, b) =>
            if code =? 200 then exists s, r = Ok s /\ drain s = ([mkDelta None None false None None None], Some EOF)
            else r = Err (UpstreamStatus "fake" code b)
        end
  end.
Proof.
  intros Hu r. subst r. destruct (parseMode (Model req)) as [[mode st]|e] eqn:Hm;
    [|unfold Fake_Invoke; by rewrite Hm].
  pose proof (parse_mode_ok _ _ _ Hm) as [Hst Hmode]. rewrite (invoke_run _ _ _ _ Hm).
  assert (utf8 mode = true) as Hmu by (destruct Hmode as [->|[_ H]]; [done|]; clear -H; set_unfold in H; naive_solver).
  unfold handleFakeComplete. rewrite request_received, to_valid_utf8 by done. cbn [fMode fFailStatus fRequestID].
  assert (forall c, drain (mkStream (mkBody (newline_str +:+ writeChunk (RequestID req) (final_chunk (RequestID req))) None) c)
    = ([final_chunk (RequestID req)], None)) as Hfinal.
  { intros c. rewrite drain_eq. rewrite <- (str_app_nil_r (writeChunk _ _)), chunk_received; [done| |by right].
    split; repeat constructor; [| |unfold cannedOutputTokens..]; simpl; try (unfold cannedInputTokens; lia).
    done. }
  case_bool_decide as Hn.
  - rewrite bool_decide_false by (intros ->; clear -Hn; set_solver). simpl.
    eexists. split; [done|]. unfold open_stream.
    pose proof (texts_received (RequestID req) "Hello " (tail cannedChunks) "" _ false _
      ltac:(by repeat constructor) ltac:(by left) Hfinal) as E. exact E.
  - case_bool_decide as Hf.
    + intros Hesc. rewrite bool_decide_false by (subst; done). simpl.
      eexists. split; [done|]. unfold open_stream.
      refine (texts_received (RequestID req) "Hello " ["from "] "" (truncated (RequestID req)) false
        ([], Some (Wrapf "fake adapter: decode chunk: %w" [] DecodeError)) ltac:(by repeat constructor) ltac:(by left) _).
      intros c. rewrite drain_eq. change (Recv ?s) with (stream_Recv s). unfold stream_Recv, decode_next.
      cbn [body unread]. change (skip_space (newline_str +:+ truncated (RequestID req))) with (truncated (RequestID req)).
      rewrite bool_decide_false, read_truncated by done. done.
    + destruct Hmode as [->|[_ H]]; [|exfalso; clear -H Hn Hf; set_unfold in H; set_unfold in Hn; naive_solver].
      rewrite bool_decide_true by done.
      destruct (respond _ _) as [[code b]|] eqn:Hr; [|done]. destruct (code =? 200) eqn:Hc; [|done]. simpl.
      eexists. split; [done|]. assert (b = error_json "provider-fake: induced failure" +:+ newline_str) as ->.
      { unfold respond in Hr. repeat (case_match; simplify_eq; try done). zbool. subst. 
        match goal with H : (_ || _) = true |- _ => apply orb_true_iff in H as [?|?]; zbool; lia end. }
      vm_compute. reflexivity.
Qed.

Definition test_request (model : string) : InvokeRequest :=
  mkInvokeRequest "req-7" model [mkMessage "user" "hi"] None None.

Lemma fake_end_to_end_witness :
  (run fake_provider (Fake_Invoke (mkFake "http://provider-fake") (test_request "fail:418")) tt).1
  = Err (UpstreamStatus "fake" 418 (error_json "provider-fake: induced failure" +:+ newline_str)).
Proof. exact (fake_end_to_end (mkFake "http://provider-fake") (test_request "fail:418") eq_refl). Defined.
