(* ===== verification/Relay.v ===== *)
(** provider-gateway/internal/stream: relaying a stream to the gRPC caller.

    [Relay] is a program over [RelayE]: receiving from its source and sending to
    the caller.  [relay_spec] says what a caller gets of a source that drains to
    a given sequence, wherever its connection breaks. *)

From S2P Require Import Prelude Errors Prog Http Adapter.
#[local] Open Scope Z_scope.

(** [pb.InvokeResponse]: the delta with its request id, or the fallback signal. *)
Inductive InvokeResponse :=
| DeltaResponse (requestID : string) (d : Delta)
| Fallback (requestID provider : string) (reason : FallbackReason).

Definition toPbDelta (requestID : string) (d : Delta) : InvokeResponse := DeltaResponse requestID d.

Definition FallbackResponse (requestID provider : string) (reason : FallbackReason) : InvokeResponse :=
  Fallback requestID provider reason.

Inductive RelayE : interface :=
| RecvSrc : RelayE (res Delta)
| Send (r : InvokeResponse) : RelayE (res unit).

(** What one answer of the source makes [Relay] do: return, signal the fallback
    and return, or send the delta (and go on unless it is final). *)
Inductive reaction := Return (r : res unit) | SignalFallback (reason : FallbackReason) (provider : string) | Forward (d : Delta).

Definition react (r : res Delta) : reaction :=
  match r with
  | Err e =>
      if errors_is e "io.EOF" then Return (Ok tt)
      else match as_fallback e with
           | Some (reason, provider) => SignalFallback reason provider
           | None => Return (Err (UpstreamError e))
           end
  | Ok d => Forward d
  end.

(** [Relay]; the fuel bounds the number of receptions. *)
Fixpoint Relay (fuel : nat) (requestID : string) : prog RelayE (res unit) :=
  match fuel with
  | O => Ret (Err (Lib "out of fuel"))
  | S fuel' =>
      r <- call RecvSrc ;;
      match react r with
      | Return x => Ret x
      | SignalFallback reason provider => call (Send (FallbackResponse requestID provider reason))
      | Forward d =>
          _ <-? call (Send (toPbDelta requestID d)) ;;
          if IsFinal d then Ret (Ok tt) else Relay fuel' requestID
      end
  end.

(** * One caller over a stream *)

(** The caller's connection: what was sent, and how many more sends succeed
    before it is gone ([None]: it stays). *)
Record Conn := mkConn { sent : list InvokeResponse; credit : option nat }.

Definition ErrGone : error := Lib "transport is closing".

Definition conn_send (r : InvokeResponse) (c : Conn) : res unit * Conn :=
  match credit c with
  | Some O => (Err ErrGone, c)
  | Some (S n) => (Ok tt, mkConn (sent c ++ [r]) (Some n))
  | None => (Ok tt, mkConn (sent c ++ [r]) None)
  end.

Section OverStream.
Context {T : Type} `{!Stream T}.

Definition relay_env : handler RelayE (T * Conn) := fun X e s =>
  match e in RelayE X return X * (T * Conn) with
  | RecvSrc => let '(r, t) := Recv s.1 in (r, (t, s.2))
  | Send r => let '(x, c) := conn_send r s.2 in (x, (s.1, c))
  end.

(** What a caller with an intact connection gets of a sequence and its end. *)
Definition ending_of (requestID : string) (e : option error) : list InvokeResponse * res unit :=
  match e with
  | None => ([], Ok tt)
  | Some e =>
      match react (Err e) with
      | Return x => ([], x)
      | SignalFallback reason provider => ([FallbackResponse requestID provider reason], Ok tt)
      | Forward _ => ([], Ok tt)
      end
  end.

Definition relay_spec (requestID : string) (seq : list Delta * option error) : list InvokeResponse * res unit :=
  let '(tail, r) := ending_of requestID seq.2 in (map (toPbDelta requestID) seq.1 ++ tail, r).

(** The same when the connection takes only [n] sends. *)
Definition cut_off (n : option nat) (full : list InvokeResponse * res unit) : list InvokeResponse * res unit :=
  match n with
  | Some n => if (n <? length full.1)%nat then (take n full.1, Err ErrGone) else full
  | None => full
  end.

Context `{!LawfulStream T}.

Lemma conn_send_ok r c :
  credit c <> Some O ->
  exists c', conn_send r c = (Ok tt, c') /\ sent c' = sent c ++ [r] /\ credit c' = pred <$> credit c.
Proof. intros Hc. destruct c as [l [[|n]|]]; simpl in *; [done|..]; by eexists. Qed.

Lemma cut_off_cons c x tail :
  cut_off c (x :: tail.1, tail.2) =
    match c with
    | Some O => ([], Err ErrGone)
    | _ => let '(l, r) := cut_off (pred <$> c) tail in (x :: l, r)
    end.
Proof.
  destruct c as [[|n]|], tail as [tl r]; simpl; try done.
  change (S n <? S (length tl))%nat with (n <? length tl)%nat. by destruct (n <? length tl)%nat.
Qed.

(** Relaying.  Over any lawful stream, whatever the caller's connection
    does, [Relay] returns within the stream's bound; the caller gets the stream's
    deltas in order, then the fallback signal if the stream ended by declining
    the call; a genuine failure is returned as an upstream error, a clean end as
    success, and a broken connection as the transport's own error after exactly
    the responses it took. *)
Theorem relay_delivers requestID s c fuel :
  (pending s < fuel)%nat ->
  let '(r, (_, c')) := run relay_env (Relay fuel requestID) (s, c) in
  let '(out, result) := cut_off (credit c) (relay_spec requestID (drain s)) in
  sent c' = sent c ++ out /\ r = result.
Proof.
  revert s c. induction fuel as [|fuel IH]; intros s c Hf; [lia|].
  cbn [Relay]. rewrite run_bind, run_call. cbn [relay_env fst snd]. rewrite drain_eq.
  destruct (Recv s) as [[d|e] s'] eqn:Hr.
  - cbn [react]. rewrite run_rbind, run_call. cbn [relay_env fst snd].
    assert (relay_spec requestID (if IsFinal d then ([d], None) else let '(ds, e) := drain s' in (d :: ds, e))
            = let tail := if IsFinal d then ([], Ok tt) else relay_spec requestID (drain s') in
              (toPbDelta requestID d :: tail.1, tail.2)) as ->.
    { destruct (IsFinal d); [done|]. unfold relay_spec. destruct (drain s') as [ds e]. simpl.
      by destruct (ending_of requestID e). }
    cbv zeta. rewrite cut_off_cons. destruct (decide (credit c = Some O)) as [E|E].
    + unfold conn_send. rewrite E. by rewrite app_nil_r.
    + destruct (conn_send_ok (toPbDelta requestID d) c E) as (c1 & -> & Hs & Hc).
      assert (let '(r, (_, c')) := run relay_env (if IsFinal d then Ret (Ok tt) else Relay fuel requestID) (s', c1) in
              let '(out, result) := cut_off (credit c1) (if IsFinal d then ([], Ok tt) else relay_spec requestID (drain s')) in
              sent c' = sent c1 ++ out /\ r = result) as H.
      { destruct (IsFinal d).
        - simpl. destruct (credit c1) as [[|n]|]; simpl; by rewrite app_nil_r.
        - apply IH. apply recv_consumes in Hr. lia. }
      destruct (run relay_env _ _) as [r0 [t c']]. rewrite <- Hc.
      destruct (cut_off (credit c1) _) as [out result]. destruct H as [H1 ->].
      destruct (credit c) as [[|n]|]; [done|..]; (split; [|done]); by rewrite H1, Hs, <- app_assoc.
  - unfold relay_spec, ending_of. cbn [fst snd map app].
    destruct (react (Err e)) as [x|reason provider|d] eqn:Hre.
    + simpl. destruct (credit c) as [[|n]|]; simpl; by rewrite app_nil_r.
    + rewrite run_call. cbn [relay_env fst snd]. destruct c as [l [[|n]|]]; simpl; by rewrite ?app_nil_r.
    + unfold react in Hre. by repeat case_match.
Qed.
End OverStream.

Lemma relay_delivers_witness :
  let s : replay := ([mkDelta (Some "a") None false None None None], FallbackError BREAKER_OPEN "openai") in
  let '(r, (_, c')) := run relay_env (Relay 2 "r1") (s, mkConn [] None) in
  sent c' = [DeltaResponse "r1" (mkDelta (Some "a") None false None None None); Fallback "r1" "openai" BREAKER_OPEN]
  /\ r = Ok tt.
Proof.
  exact (relay_delivers "r1" ([mkDelta (Some "a") None false None None None], FallbackError BREAKER_OPEN "openai")
           (mkConn [] None) 2 (le_n 2)).
Defined.
