(* ===== verification/Coalesce.v ===== *)
(** provider-gateway/internal/coalesce: concurrent identical calls share one
    upstream call.

    A [Group] holds the calls in flight by key; each has a [broadcast] that its
    leader goroutine fills and that subscribers read.  The leader is the program
    [lead]; [Group_Invoke] and [subscriber_Recv] are what callers do, each under
    the mutex it takes and so one atomic step.  [gstep] interleaves any number of
    callers, subscribers and leaders; a subscriber with nothing to read yet
    waits, that is, its step is not enabled.

    The stream a leader drains is any instance of [Source]: a stream whose
    receptions may themselves make calls, as the gateway's reporting stream does. *)

From S2P Require Import Prelude Errors Prog Http Json Sha256 Float Adapter.
From Stdlib Require Import Ascii.
#[local] Open Scope Z_scope.

(** * The key *)

Definition lf_char : ascii := ascii_of_N 10.
Definition lf : string := String lf_char "".

(** The text that is hashed: [fmt.Fprintf] line by line. *)
Definition key_text (req : InvokeRequest) : string :=
  "model=" +:+ Model req +:+ lf
  +:+ str_join "" (map (fun m => "msg=" +:+ Role m +:+ ":" +:+ mContent m +:+ lf) (Messages req))
  +:+ match MaxTokens req with Some n => "max_tokens=" +:+ itoa n +:+ lf | None => "" end
  +:+ match Temperature req with Some t => "temperature=" +:+ fmt_f t +:+ lf | None => "" end.

Definition Key (req : InvokeRequest) : string := sha256_hex (key_text req).

(** Fields that cannot be mistaken for the framing of the text. *)
Definition plain_request (req : InvokeRequest) : Prop :=
  lacks lf_char (Model req) = true /\
  Forall (fun m => lacks lf_char (Role m) = true /\ lacks colon (Role m) = true /\ lacks lf_char (mContent m) = true)
    (Messages req).

Definition message_line (m : Message) : string := "msg=" +:+ Role m +:+ ":" +:+ mContent m +:+ lf.

Definition message_lines (ms : list Message) : string := str_join "" (map message_line ms).

Lemma message_lines_cons m ms : message_lines (m :: ms) = message_line m +:+ message_lines ms.
Proof. destruct ms; unfold message_lines; simpl; by rewrite ?str_app_nil_r. Qed.

(** The two optional lines at the end; neither looks like a message. *)
Definition params_text (n : option Z) (t : option float32) : string :=
  match n with Some n => "max_tokens=" +:+ itoa n +:+ lf | None => "" end
  +:+ match t with Some t => "temperature=" +:+ fmt_f t +:+ lf | None => "" end.

Lemma key_text_eq req :
  key_text req = "model=" +:+ Model req +:+ lf +:+ message_lines (Messages req)
                 +:+ params_text (MaxTokens req) (Temperature req).
Proof. unfold key_text, params_text. done. Qed.

Lemma params_not_message n t m rest : params_text n t <> message_line m +:+ rest.
Proof. unfold params_text. by destruct n, t. Qed.

Lemma params_text_inj n n' t t' :
  params_text n t = params_text n' t' -> n = n' /\ (fmt_f <$> t) = (fmt_f <$> t').
Proof.
  assert (forall a, lacks lf_char (itoa a) = true) as Hitoa.
  { intros a. destruct (wf_number_itoa a) as [H _]. specialize (H "" eq_refl). rewrite str_app_nil_r in H.
    apply read_number_no_control in H. clear -H. induction (itoa a) as [|c s IH]; [done|]. simpl in *.
    apply andb_true_iff in H as [Hc Hs]. rewrite (IH Hs), andb_true_r, bool_decide_false; [done|].
    intros ->. by vm_compute in Hc. }
  assert (forall u u' : option float32, (match u with Some t => "temperature=" +:+ fmt_f t +:+ lf | None => "" end)
            = (match u' with Some t => "temperature=" +:+ fmt_f t +:+ lf | None => "" end) ->
            (fmt_f <$> u) = (fmt_f <$> u')) as Htemp.
  { intros [u|] [u'|] H; simpl in *; try done. apply (str_app_inj_l "temperature=") in H.
    f_equal. by apply str_app_inj_r in H. }
  unfold params_text. intros H. destruct n as [n|], n' as [n'|].
  - rewrite !str_app_assoc in H. apply (str_app_inj_l "max_tokens=") in H.
    apply (split_at_inj lf_char) in H as [Hn Ht]; [|done..].
    split; [|by apply Htemp]. f_equal. apply (f_equal atoi) in Hn. rewrite !atoi_itoa in Hn. by simplify_eq.
  - by destruct t'.
  - by destruct t.
  - split; [done|]. by apply Htemp.
Qed.

Lemma message_lines_inj ms ms' n n' t t' :
  Forall (fun m => lacks lf_char (Role m) = true /\ lacks colon (Role m) = true /\ lacks lf_char (mContent m) = true) (ms ++ ms') ->
  message_lines ms +:+ params_text n t = message_lines ms' +:+ params_text n' t' ->
  ms = ms' /\ params_text n t = params_text n' t'.
Proof.
  revert ms'. induction ms as [|m ms IH]; intros [|m' ms'] Hp H; [done|..].
  - rewrite message_lines_cons, str_app_assoc in H. by apply params_not_message in H.
  - rewrite message_lines_cons, str_app_assoc in H. symmetry in H. by apply params_not_message in H.
  - rewrite !message_lines_cons, !str_app_assoc in H.
    apply Forall_app in Hp as [Hp Hp']. apply Forall_cons in Hp as [(_ & Hr & Hc) Hp].
    apply Forall_cons in Hp' as [(_ & Hr' & Hc') Hp'].
    unfold message_line in H. rewrite !str_app_assoc in H. apply (str_app_inj_l "msg=") in H.
    apply (split_at_inj colon) in H as [H1 H]; [|done..]. apply (split_at_inj lf_char) in H as [H2 H]; [|done..].
    destruct (IH ms') as [-> Hpar]; [by apply Forall_app|done|].
    destruct m, m'. simpl in *. by subst.
Qed.

(** What the key separates.  For requests whose model and messages cannot be
    mistaken for the text's framing, equal key texts mean the same model,
    messages and token limit and temperatures that print alike to six decimals;
    the request id never matters. *)
Theorem key_separates r r' :
  plain_request r -> plain_request r' -> key_text r = key_text r' ->
  Model r = Model r' /\ Messages r = Messages r' /\ MaxTokens r = MaxTokens r'
  /\ (fmt_f <$> Temperature r) = (fmt_f <$> Temperature r').
Proof.
  intros [Hm Hp] [Hm' Hp'] H. rewrite !key_text_eq in H. apply (str_app_inj_l "model=") in H.
  apply (split_at_inj lf_char) in H as [Hmodel H]; [|done..].
  apply message_lines_inj in H as [Hms Hpar]; [|by apply Forall_app].
  by apply params_text_inj in Hpar as [? ?].
Qed.

Definition request_with (model : string) (ms : list Message) (t : option float32) : InvokeRequest :=
  mkInvokeRequest "r" model ms None t.

Lemma key_separates_witness :
  let r := request_with "m" [mkMessage "user" "hi"] (Some (float32_of 1 (-1))) in
  Model r = Model r /\ Messages r = Messages r /\ MaxTokens r = MaxTokens r
  /\ (fmt_f <$> Temperature r) = (fmt_f <$> Temperature r).
Proof.
  intros r. apply (key_separates r r); [|..|done]; (split; [done|]; repeat constructor).
Defined.

(** Different calls with one key: temperatures that differ in the seventh
    decimal (0.1 and the next [float32]); a message whose content contains the
    framing of another message, which is also how one user turn can stand for a
    whole conversation; a role and content split at another colon. *)
Lemma key_collisions :
  Key (request_with "m" [] (Some (float32_of 13421773 (-27)))) = Key (request_with "m" [] (Some (float32_of 13421774 (-27))))
  /\ float32_of 13421773 (-27) <> float32_of 13421774 (-27)
  /\ Key (request_with "m" [mkMessage "user" ("a" +:+ lf +:+ "msg=assistant:b")] None)
     = Key (request_with "m" [mkMessage "user" "a"; mkMessage "assistant" "b"] None)
  /\ Key (request_with "m" [mkMessage "user" "x:y"] None) = Key (request_with "m" [mkMessage "user:x" "y"] None).
Proof.
  unfold Key. split; [f_equal; vm_compute; reflexivity|]. split; [vm_compute; discriminate|].
  split; (f_equal; vm_compute; reflexivity).
Qed.

(** * Broadcasts *)

Record broadcast := mkBroadcast { deltas : list Delta; done : bool; err : option error }.

Definition newBroadcast : broadcast := mkBroadcast [] false None.

Definition publish (d : Delta) (b : broadcast) : broadcast :=
  mkBroadcast (deltas b ++ [d]) (done b) (err b).

Definition finish (e : option error) (b : broadcast) : broadcast :=
  mkBroadcast (deltas b) true e.

(** [subscriber.Recv] at an index: [None] while it has to wait. *)
Definition subscriber_Recv (idx : nat) (b : broadcast) : option (res Delta * nat) :=
  match deltas b !! idx with
  | Some d => Some (Ok d, S idx)
  | None =>
      if done b then Some (Err (default EOF (err b)), idx) else None
  end.

(** * What a program may return, and sources *)

Section Outcomes.
Context {E : interface}.

Fixpoint always {A} (P : A -> Prop) (p : prog E A) : Prop :=
  match p with
  | Ret a => P a
  | Do e k => forall x, always P (k x)
  end.

Fixpoint may_return {A} (p : prog E A) (a : A) : Prop :=
  match p with
  | Ret a' => a' = a
  | Do e k => exists x, may_return (k x) a
  end.

Lemma always_bind {A B} (P : B -> Prop) (p : prog E A) (f : A -> prog E B) :
  always (fun a => always P (f a)) p -> always P (bind p f).
Proof. induction p; simpl; eauto. Qed.

Lemma always_then {A B} (P : B -> Prop) (p : prog E A) b : P b -> always P (bind p (fun _ => Ret b)).
Proof. intros H. apply always_bind. by induction p; simpl. Qed.

Lemma always_mono {A} (P Q : A -> Prop) (p : prog E A) :
  (forall a, P a -> Q a) -> always P p -> always Q p.
Proof. intros H. induction p; simpl; eauto. Qed.

Lemma may_return_run {S A} (h : handler E S) (p : prog E A) s : may_return p (run h p s).1.
Proof.
  revert s. induction p as [a|X e k IH]; intros s; simpl; [done|].
  destruct (h X e s) as [x s']. eauto.
Qed.

(** A stream whose reception may make calls.  [content] is the sequence it
    yields whatever these calls answer; [psize] bounds its length. *)
Class Source (S : Type) := {
  pull : S -> prog E (res Delta * S);
  content : S -> list Delta * option error;
  psize : S -> nat
}.

Definition pulled {S} `{!Source S} (s : S) (r : res Delta * S) : Prop :=
  match r with
  | (Err e, _) => content s = ([], Some e)
  | (Ok d, s') =>
      (psize s' < psize s)%nat /\
      content s = if IsFinal d then ([d], None) else let '(ds, e) := content s' in (d :: ds, e)
  end.

Class LawfulSource (S : Type) `{!Source S} := pull_yields : forall s, always (pulled s) (pull s).
End Outcomes.

(** Any lawful stream is a source that makes no calls. *)
#[global] Instance stream_source {E : interface} {S} `{!Stream S} : @Source E S :=
  {| pull := fun s => Ret (Recv s); content := drain; psize := pending |}.

#[global] Instance stream_source_lawful {E : interface} {S} `{!Stream S} `{!LawfulStream S} : @LawfulSource E S _.
Proof.
  intros s. simpl. unfold pulled. simpl. destruct (Recv s) as [[d|e] s'] eqn:Hr; rewrite drain_eq, Hr; [|done].
  split; [|done]. by eapply recv_consumes.
Qed.

(** * The group *)

Section Group.
Context {E : interface} {W V : Type} (h : handler E W) (env : V -> W -> W).
Context {S : Type} {src : @Source E S}.

(** What the leader goroutine does. *)
Inductive LeadE : interface :=
| Up {X} (e : E X) : LeadE X
| Release (key : string) : LeadE unit
| Publish (b : nat) (d : Delta) : LeadE unit
| Finish (b : nat) (e : option error) : LeadE unit.

Definition up {A} (p : prog E A) : prog LeadE A := link (fun X e => call (Up e)) p.

(** A plain [io.EOF] becomes a nil error. *)
Definition end_error (e : error) : option error :=
  if errors_is e "io.EOF" then None else Some e.

(** The loop of [lead]; the fuel bounds the deltas still to come. *)
Fixpoint lead_loop (fuel : nat) (key : string) (b : nat) (upstream : S) : prog LeadE unit :=
  match fuel with
  | O => Ret tt
  | Datatypes.S fuel' =>
      r <- up (pull upstream) ;;
      match r with
      | (Err e, _) => call (Release key) ;;; call (Finish b (end_error e))
      | (Ok d, upstream') =>
          call (Publish b d) ;;;
          (if IsFinal d then call (Release key) ;;; call (Finish b None)
           else lead_loop fuel' key b upstream')
      end
  end.

Definition lead (key : string) (b : nat) (invoke : prog E (res S)) : prog LeadE unit :=
  r <- up invoke ;;
  match r with
  | Err e => call (Release key) ;;; call (Finish b (Some e))
  | Ok upstream => lead_loop (Datatypes.S (psize upstream)) key b upstream
  end.

Record Subscriber := mkSubscriber { sBroadcast : nat; sIdx : nat }.

(** The group with the goroutines it started and the subscribers it gave out.
    Broadcasts are objects on the heap, known by their index.  [started] and
    [delivered] record the history: the call of each broadcast with its key, and
    what each subscriber's receptions returned. *)
Record Group := mkGroup {
  world : W;
  inFlight : gmap string nat;
  broadcasts : list broadcast;
  leaders : list (prog LeadE unit);
  subscribers : list Subscriber;
  started : list (string * prog E (res S));
  delivered : list (nat * res Delta)
}.

Definition NewGroup (w : W) : Group := mkGroup w ∅ [] [] [] [] [].

(** [Group.Invoke]: join the call in flight, or lead a new one. *)
Definition Group_Invoke (key : string) (invoke : prog E (res S)) (g : Group) : Group :=
  match inFlight g !! key with
  | Some b =>
      mkGroup (world g) (inFlight g) (broadcasts g) (leaders g)
        (subscribers g ++ [mkSubscriber b 0]) (started g) (delivered g)
  | None =>
      let b := length (broadcasts g) in
      mkGroup (world g) (<[key := b]> (inFlight g)) (broadcasts g ++ [newBroadcast])
        (leaders g ++ [lead key b invoke]) (subscribers g ++ [mkSubscriber b 0])
        (started g ++ [(key, invoke)]) (delivered g)
  end.

Definition set_broadcasts (bs : list broadcast) (g : Group) : Group :=
  mkGroup (world g) (inFlight g) bs (leaders g) (subscribers g) (started g) (delivered g).

Definition lead_handler : handler LeadE Group := fun X e g =>
  match e in LeadE X return X * Group with
  | Up e =>
      let '(x, w) := h _ e (world g) in
      (x, mkGroup w (inFlight g) (broadcasts g) (leaders g) (subscribers g) (started g) (delivered g))
  | Release key =>
      (tt, mkGroup (world g) (delete key (inFlight g)) (broadcasts g) (leaders g) (subscribers g)
             (started g) (delivered g))
  | Publish b d => (tt, set_broadcasts (alter (publish d) b (broadcasts g)) g)
  | Finish b e => (tt, set_broadcasts (alter (finish e) b (broadcasts g)) g)
  end.

(** ** Interleaving *)

Inductive event :=
| Arrive (key : string) (invoke : prog E (res S))
| LeadStep (i : nat)
| Receive (i : nat)
| Outside (v : V).

Definition gstep (ev : event) (g : Group) : Group :=
  match ev with
  | Arrive key invoke => Group_Invoke key invoke g
  | LeadStep i =>
      match (leaders g !! i) ≫= (fun p => step1 lead_handler p g) with
      | Some (p', g') =>
          mkGroup (world g') (inFlight g') (broadcasts g') (<[i := p']> (leaders g'))
            (subscribers g') (started g') (delivered g')
      | None => g
      end
  | Receive i =>
      match subscribers g !! i with
      | None => g
      | Some s =>
          match (broadcasts g !! sBroadcast s) ≫= subscriber_Recv (sIdx s) with
          | None => g
          | Some (r, idx) =>
              mkGroup (world g) (inFlight g) (broadcasts g) (leaders g)
                (<[i := mkSubscriber (sBroadcast s) idx]> (subscribers g)) (started g)
                (delivered g ++ [(i, r)])
          end
      end
  | Outside v =>
      mkGroup (env v (world g)) (inFlight g) (broadcasts g) (leaders g) (subscribers g)
        (started g) (delivered g)
  end.

Definition gsched (evs : list event) (g : Group) : Group := fold_left (fun g ev => gstep ev g) evs g.

(** What subscriber [i] has received, in order. *)
Definition received (i : nat) (g : Group) : list (res Delta) :=
  map snd (filter (fun x => x.1 = i) (delivered g)).

(** * The leader's protocol *)

(** What a leader has left to do: still in the call; draining the stream the
    call returned; past the release; done. *)
Inductive phase :=
| Calling
| Draining (s0 : S) (rest : list Delta * option error)
| Closing (fin : option error)
| Closed (fin : option error).

(** The sequence and the end error a call stands for. *)
Definition outcome (invoke : prog E (res S)) (ds : list Delta) (fin : option error) : Prop :=
  (exists e, may_return invoke (Err e) /\ ds = [] /\ fin = Some e)
  \/ (exists s0, may_return invoke (Ok s0) /\ ds = (content s0).1 /\ fin = (content s0).2 ≫= end_error).

Section Protocol.
Context (key : string) (b : nat) (invoke : prog E (res S)).

(** [follows ph p]: from phase [ph] on, [p] keeps the protocol whatever its
    upstream answers. *)
Fixpoint follows (ph : phase) (p : prog LeadE unit) {struct p} : Prop :=
  match p with
  | Ret _ => exists fin, ph = Closed fin
  | Do e k =>
      match e in LeadE X return (X -> phase -> Prop) -> Prop with
      | Up _ => fun next => forall x, next x ph
          \/ (ph = Calling /\ exists s0, may_return invoke (Ok s0) /\ next x (Draining s0 (content s0)))
      | Release k' => fun next => k' = key /\
          ((ph = Calling /\ exists e, may_return invoke (Err e) /\ next tt (Closing (Some e)))
           \/ (exists s0 e, ph = Draining s0 ([], e) /\ next tt (Closing (e ≫= end_error))))
      | Publish b' d => fun next => b' = b /\ exists s0 ds e,
          ph = Draining s0 (d :: ds, e) /\ next tt (Draining s0 (ds, e))
      | Finish b' fin => fun next => b' = b /\ ph = Closing fin /\ next tt (Closed fin)
      end (fun x ph' => follows ph' (k x))
  end.

Lemma follows_up {A} ph (p : prog E A) (f : A -> prog LeadE unit) :
  always (fun a => follows ph (f a)) p -> follows ph (bind (up p) f).
Proof.
  induction p as [a|X e k IH]; simpl; [done|]. intros Hp x. left. apply IH, Hp.
Qed.

Context `{!LawfulSource S}.

Lemma lead_loop_follows fuel s0 s :
  (psize s < fuel)%nat -> follows (Draining s0 (content s)) (lead_loop fuel key b s).
Proof.
  revert s. induction fuel as [|fuel IH]; intros s Hf; [lia|]. cbn [lead_loop].
  apply follows_up. eapply always_mono; [|apply pull_yields].
  intros [[d|e] s'] Hp; simpl in Hp; cbn [bind call follows].
  - destruct Hp as [Hlt Hc]. split; [done|]. rewrite Hc. destruct (IsFinal d).
    + do 3 eexists. split; [done|]. cbn [follows bind call]. split; [done|]. right. do 2 eexists.
      split; [done|]. split; [done|]. split; [done|]. by eexists.
    + destruct (content s') as [ds e] eqn:Hs. do 3 eexists. split; [done|].
      specialize (IH s' ltac:(lia)). by rewrite Hs in IH.
  - rewrite Hp. split; [done|]. right. do 2 eexists. split; [done|]. simpl. split; [done|]. split; [done|].
    by eexists.
Qed.

Lemma lead_follows :
  exists ph, (ph = Calling \/ exists s0, may_return invoke (Ok s0) /\ ph = Draining s0 (content s0))
    /\ follows ph (lead key b invoke).
Proof.
  unfold lead. set (f := fun r : res S => _).
  assert (forall q, (forall r, may_return q r -> may_return invoke r) ->
     exists ph, (ph = Calling \/ exists s0, may_return invoke (Ok s0) /\ ph = Draining s0 (content s0))
       /\ follows ph (bind (up q) f)) as Hall; [|by apply Hall].
  induction q as [r|X e k IH]; intros Hq.
  - specialize (Hq r eq_refl). destruct r as [s|e].
    + exists (Draining s (content s)). split; [right; by eexists|].
      apply (lead_loop_follows (Datatypes.S (psize s))). lia.
    + exists Calling. split; [by left|]. split; [done|]. left. split; [done|]. eexists. split; [done|].
      simpl. split; [done|]. split; [done|]. by eexists.
  - exists Calling. split; [by left|]. intros x.
    destruct (IH x) as (ph & [->|(s0 & Hs & ->)] & Hf); [intros r Hr; apply Hq; by exists x|by left|].
    right. split; [done|]. by exists s0.
Qed.

(** What the phase says of the broadcast and of the key. *)
Definition shows (ph : phase) (bc : broadcast) : Prop :=
  match ph with
  | Calling => deltas bc = [] /\ done bc = false
  | Draining s0 rest =>
      may_return invoke (Ok s0) /\ done bc = false /\ (deltas bc ++ rest.1, rest.2) = content s0
  | Closing fin => outcome invoke (deltas bc) fin /\ done bc = false
  | Closed fin => outcome invoke (deltas bc) fin /\ done bc = true /\ err bc = fin
  end.

Definition open_phase (ph : phase) : bool :=
  match ph with Calling | Draining _ _ => true | _ => false end.
End Protocol.

(** * The invariant of the group *)

Definition call_inv (g : Group) (b : nat) (key : string) (invoke : prog E (res S)) : Prop :=
  exists p bc ph, leaders g !! b = Some p /\ broadcasts g !! b = Some bc
    /\ follows key b invoke ph p /\ shows invoke ph bc
    /\ (inFlight g !! key = Some b <-> open_phase ph = true).

(** What subscriber [i] got: the broadcast's deltas up to its index, and then
    only the broadcast's end. *)
Definition sub_inv (g : Group) (i : nat) (s : Subscriber) : Prop :=
  exists bc n, broadcasts g !! sBroadcast s = Some bc /\ (sIdx s <= length (deltas bc))%nat
    /\ received i g = map Ok (take (sIdx s) (deltas bc)) ++ replicate n (Err (default EOF (err bc)))
    /\ (n = O \/ done bc = true /\ sIdx s = length (deltas bc)).

Record group_inv (g : Group) : Prop := {
  inv_leaders : length (leaders g) = length (broadcasts g);
  inv_started : length (started g) = length (broadcasts g);
  inv_call : forall b key invoke, started g !! b = Some (key, invoke) -> call_inv g b key invoke;
  inv_flight : forall key b, inFlight g !! key = Some b -> exists invoke, started g !! b = Some (key, invoke);
  inv_sub : forall i s, subscribers g !! i = Some s -> sub_inv g i s;
  inv_delivered : forall x, x ∈ delivered g -> (x.1 < length (subscribers g))%nat
}.

Lemma new_group_inv w : group_inv (NewGroup w).
Proof. split; simpl; try done; set_solver. Qed.

Lemma received_fresh g i :
  (forall x, x ∈ delivered g -> (x.1 < i)%nat) -> received i g = [].
Proof.
  unfold received. induction (delivered g) as [|x l IH]; intros Hd; [done|].
  pose proof (Hd x (list_elem_of_here _ _)). rewrite filter_cons_False by lia.
  apply IH. intros y Hy. apply Hd. by apply list_elem_of_further.
Qed.

Lemma lookup_last {A} (l : list A) x n : n = length l -> (l ++ [x]) !! n = Some x.
Proof. intros ->. by rewrite lookup_app_r, Nat.sub_diag by lia. Qed.

Context `{!LawfulSource S}.

Lemma arrive_inv key invoke g : group_inv g -> group_inv (Group_Invoke key invoke g).
Proof.
  intros [Hl Hs Hc Hf Hsub Hd]. unfold Group_Invoke.
  assert (received (length (subscribers g)) g = []) as Hfresh by by apply received_fresh.
  destruct (inFlight g !! key) as [b|] eqn:Hk.
  - destruct (Hf _ _ Hk) as [invoke' Hst]. pose proof (Hc _ _ _ Hst) as (p & bc & ph & _ & Hbc & _).
    split; simpl; try done.
    + intros i s [[_ Hi]|[-> Hi]]%lookup_snoc_Some; [by apply Hsub|]. subst s.
      exists bc, O. simpl. split; [done|]. split; [lia|]. split; [exact Hfresh|by left].
    + intros x Hx. rewrite length_app. simpl. specialize (Hd x Hx). lia.
  - set (n := length (broadcasts g)).
    split; simpl; rewrite ?length_app; simpl; try lia.
    + intros b k' inv' [Hst|[-> Hst]]%lookup_snoc_Some.
      * destruct Hst as [Hb Hst]. destruct (Hc _ _ _ Hst) as (p & bc & ph & Hp & Hbc & Hfo & Hsh & Hin).
        exists p, bc, ph. simpl. split; [by apply lookup_app_l_Some|]. split; [by apply lookup_app_l_Some|].
        split; [done|]. split; [done|]. rewrite <- Hin. destruct (decide (key = k')) as [<-|Hne].
        -- rewrite lookup_insert_eq, Hk. split; [|done]. intros [= <-]. subst n. lia.
        -- by rewrite lookup_insert_ne.
      * injection Hst as <- <-. destruct (lead_follows key (length (started g)) invoke) as (ph & Hph & Hfo).
        rewrite Hs in Hfo. rewrite Hs.
        exists (lead key n invoke), newBroadcast, ph. simpl. split; [by apply lookup_last|].
        split; [by apply lookup_last|]. split; [done|].
        rewrite lookup_insert_eq. destruct Hph as [->|(s0 & H0 & ->)]; simpl; [done|].
        split; [|done]. split; [done|]. split; [done|]. by destruct (content s0).
    + intros k' b. destruct (decide (key = k')) as [<-|Hne].
      * rewrite lookup_insert_eq. intros [= <-]. exists invoke. by apply lookup_last.
      * rewrite lookup_insert_ne by done. intros Hin. destruct (Hf _ _ Hin) as [inv' Hst]. exists inv'.
        by apply lookup_app_l_Some.
    + intros i s [[_ Hi]|[-> Hi]]%lookup_snoc_Some.
      * destruct (Hsub _ _ Hi) as (bc & m & Hbc & Hrest). exists bc, m. split; [by apply lookup_app_l_Some|exact Hrest].
      * subst s. exists newBroadcast, O. simpl. split; [by apply lookup_last|].
        split; [lia|]. split; [exact Hfresh|by left].
    + intros x Hx. specialize (Hd x Hx). lia.
Qed.

(** A subscriber's view survives when an unfinished broadcast grows or ends. *)
Lemma sub_grow (g g' : Group) i s b f bc :
  delivered g' = delivered g -> broadcasts g' = alter f b (broadcasts g) ->
  broadcasts g !! b = Some bc -> done bc = false -> deltas bc `prefix_of` deltas (f bc) ->
  sub_inv g i s -> sub_inv g' i s.
Proof.
  intros Hd Hb Hbc Hn [l Hpre] (bc1 & n & H1 & Hle & Hrec & Hend). unfold sub_inv, received in *. rewrite Hd, Hb.
  destruct (decide (sBroadcast s = b)) as [Hb1|Hb1].
  - rewrite Hb1 in *. simplify_eq. destruct Hend as [->|[? _]]; [|congruence].
    exists (f bc), O. rewrite list_lookup_alter_eq, Hbc. split; [done|]. rewrite Hpre. split; [rewrite length_app; lia|].
    split; [|by left]. simpl in *. rewrite app_nil_r in *. by rewrite take_app_le.
  - exists bc1, n. by rewrite list_lookup_alter_ne.
Qed.

(** One broadcast, its leader and its key move from phase to phase; the others
    keep theirs. *)
Lemma lead_inv_step (g g' : Group) i key invoke p' f ph' :
  group_inv g -> started g !! i = Some (key, invoke) ->
  started g' = started g -> subscribers g' = subscribers g -> delivered g' = delivered g ->
  leaders g' = <[i := p']> (leaders g) ->
  broadcasts g' = alter f i (broadcasts g) ->
  (inFlight g' = inFlight g /\ (inFlight g !! key = Some i <-> open_phase ph' = true)
   \/ inFlight g' = delete key (inFlight g) /\ inFlight g !! key = Some i /\ open_phase ph' = false) ->
  follows key i invoke ph' p' ->
  (forall bc, broadcasts g !! i = Some bc ->
     shows invoke ph' (f bc) /\ (f bc = bc \/ done bc = false /\ deltas bc `prefix_of` deltas (f bc))) ->
  group_inv g'.
Proof.
  intros [Hl Hs Hc Hf Hsub Hdel] Hst Es Esub Ed El Eb Hfl Hfo Hsh.
  destruct (Hc _ _ _ Hst) as (p & bc & ph & Hp & Hbc & _). specialize (Hsh bc Hbc) as [Hsh Hgrow].
  assert (forall b, b <> i -> broadcasts g' !! b = broadcasts g !! b) as Hother.
  { intros b Hb. by rewrite Eb, list_lookup_alter_ne. }
  split.
  - by rewrite El, Eb, length_insert, length_alter.
  - by rewrite Es, Eb, length_alter.
  - intros b k' inv' Hb. rewrite Es in Hb. destruct (decide (b = i)) as [->|Hne].
    + simplify_eq. exists p', (f bc), ph'. rewrite El, Eb, list_lookup_insert_eq by (by eapply lookup_lt_Some).
      rewrite list_lookup_alter_eq, Hbc. repeat (split; [done|]).
      destruct Hfl as [[-> H]|(-> & _ & ->)]; [done|]. rewrite lookup_delete_eq. done.
    + destruct (Hc _ _ _ Hb) as (p1 & bc1 & ph1 & Hp1 & Hbc1 & Hfo1 & Hsh1 & Hin1).
      exists p1, bc1, ph1. rewrite El, list_lookup_insert_ne, Hother by done. repeat (split; [done|]).
      destruct Hfl as [[-> H]|(-> & Hin & _)]; [done|]. rewrite <- Hin1.
      destruct (decide (key = k')) as [<-|]; [|by rewrite lookup_delete_ne].
      rewrite lookup_delete_eq, Hin. split; [done|]. by intros [= <-].
  - intros k' b Hb. rewrite Es. apply Hf. destruct Hfl as [[<- _]|(Hd & _)]; [done|].
    rewrite Hd in Hb. by apply lookup_delete_Some in Hb as [_ Hb].
  - rewrite Esub. intros j s Hj. specialize (Hsub _ _ Hj). destruct Hgrow as [Hsame|[Hn Hpre]].
    + destruct Hsub as (bc1 & n & H1 & Hrest). exists bc1, n. unfold received in *. rewrite Ed. split; [|done].
      destruct (decide (sBroadcast s = i)) as [Hi|]; [|by rewrite Hother].
      rewrite Hi in *. rewrite Eb, list_lookup_alter_eq, H1. simplify_eq. simpl. by rewrite Hsame.
    + by eapply sub_grow.
  - rewrite Ed, Esub. exact Hdel.
Qed.

Lemma alter_same {A} i (l : list A) : alter (fun x => x) i l = l.
Proof. apply list_eq. intros j. destruct (decide (i = j)) as [->|]; [|by rewrite list_lookup_alter_ne].
  rewrite list_lookup_alter_eq. by destruct (l !! j). Qed.

Lemma lead_step_inv i g : group_inv g -> group_inv (gstep (LeadStep i) g).
Proof.
  intros Hg. simpl. destruct (leaders g !! i) as [p|] eqn:Hp; [|done]. simpl.
  destruct p as [a|X e k]; [done|]. simpl.
  assert (exists key invoke, started g !! i = Some (key, invoke)) as (key & invoke & Hst).
  { destruct (lookup_lt_is_Some_2 (started g) i) as [[key invoke] ?]; [|by eauto].
    rewrite (inv_started g Hg), <- (inv_leaders g Hg). by eapply lookup_lt_Some. }
  destruct (inv_call g Hg _ _ _ Hst) as (p & bc & ph & Hp' & Hbc & Hfo & Hsh & Hin). simplify_eq.
  assert (forall bc', broadcasts g !! i = Some bc' -> bc' = bc) as Hone by (intros; congruence).
  destruct e as [Y e|key'|b d|b fin]; simpl in Hfo |- *.
  - destruct (h Y e (world g)) as [x w]. simpl. destruct (Hfo x) as [Hk|(-> & s0 & H0 & Hk)].
    + eapply (lead_inv_step g _ i key invoke _ (fun x => x) ph Hg Hst); simpl; try done.
      { by rewrite alter_same. } { by left. }
      intros bc' ->%Hone. split; [done|by left].
    + eapply (lead_inv_step g _ i key invoke _ (fun x => x) (Draining s0 (content s0)) Hg Hst); simpl; try done.
      { by rewrite alter_same. } { by left. }
      intros bc' ->%Hone. split; [|by left]. destruct Hsh as [-> ->]. split; [done|]. split; [done|].
      simpl. by destruct (content s0).
  - destruct Hfo as [-> Hfo].
    assert (exists fin, outcome invoke (deltas bc) fin /\ done bc = false /\ open_phase ph = true
              /\ follows key i invoke (Closing fin) (k tt)) as (fin & Hout & Hd & Hop & Hk).
    { destruct Hfo as [(-> & e & He & Hk)|(s0 & e & -> & Hk)].
      - exists (Some e). destruct Hsh as [-> ->]. split; [|done]. left. by exists e.
      - exists (e ≫= end_error). destruct Hsh as (H0 & -> & Hc). split; [|done]. right. exists s0.
        simpl in Hc. rewrite app_nil_r in Hc. by rewrite <- Hc. }
    eapply (lead_inv_step g _ i key invoke _ (fun x => x) (Closing fin) Hg Hst); simpl; try done.
    { by rewrite alter_same. } { right. split; [done|]. split; [by apply Hin|done]. }
    intros bc' ->%Hone. split; [done|by left].
  - destruct Hfo as (-> & s0 & ds & e & -> & Hk). destruct Hsh as (H0 & Hd & Hc).
    eapply (lead_inv_step g _ i key invoke _ (publish d) (Draining s0 (ds, e)) Hg Hst); simpl; try done.
    { by left. }
    intros bc' ->%Hone. split; [|right; split; [done|by eexists]].
    split; [done|]. split; [done|]. simpl in *. by rewrite <- app_assoc.
  - destruct Hfo as (-> & -> & Hk). destruct Hsh as [Ho Hd].
    eapply (lead_inv_step g _ i key invoke _ (finish fin) (Closed fin) Hg Hst); simpl; try done.
    { by left. }
    intros bc' ->%Hone. split; [done|]. right. split; [done|]. exists []; by rewrite app_nil_r.
Qed.

Lemma received_snoc g i j r bs subs :
  received i (mkGroup (world g) (inFlight g) bs (leaders g) subs (started g) (delivered g ++ [(j, r)]))
  = received i g ++ (if decide (j = i) then [r] else []).
Proof.
  unfold received. simpl. rewrite filter_app, map_app. f_equal.
  destruct (decide (j = i)); [rewrite filter_cons_True|rewrite filter_cons_False]; done.
Qed.

Lemma receive_inv i g : group_inv g -> group_inv (gstep (Receive i) g).
Proof.
  intros [Hl Hs Hc Hf Hsub Hd]. simpl. destruct (subscribers g !! i) as [s|] eqn:Hi; [|done].
  destruct (Hsub _ _ Hi) as (bc & n & Hbc & Hle & Hrec & Hend). rewrite Hbc. simpl.
  destruct (subscriber_Recv (sIdx s) bc) as [[r idx]|] eqn:Hr; [|done].
  split; simpl; try done.
  - intros j s' Hj. destruct (decide (i = j)) as [<-|Hne].
    + rewrite list_lookup_insert_eq in Hj by (by eapply lookup_lt_Some). injection Hj as <-.
      unfold subscriber_Recv in Hr. destruct (deltas bc !! sIdx s) as [d|] eqn:Hdl.
      * injection Hr as <- <-. pose proof (lookup_lt_Some _ _ _ Hdl) as Hlt.
        destruct Hend as [->|[_ ?]]; [|lia]. exists bc, O. simpl. split; [done|]. split; [lia|]. split; [|by left].
        rewrite received_snoc, decide_True, Hrec by done. simpl. rewrite !app_nil_r.
        erewrite take_S_r by done. by rewrite map_app.
      * destruct (done bc) eqn:Hdone; [|done]. injection Hr as <- <-. apply lookup_ge_None in Hdl.
        exists bc, (Datatypes.S n). simpl. split; [done|]. split; [lia|].
        rewrite received_snoc, decide_True, Hrec by done. split; [|right; split; [done|lia]].
        rewrite <- app_assoc. f_equal. rewrite <- replicate_cons_app. done.
    + rewrite list_lookup_insert_ne in Hj by done. destruct (Hsub _ _ Hj) as (bc' & m & H1 & H2 & H3 & H4).
      exists bc', m. simpl. rewrite received_snoc, decide_False, app_nil_r by done. done.
  - intros x. rewrite length_insert. intros [Hx|Hx]%elem_of_app; [by apply Hd|].
    apply list_elem_of_singleton in Hx as ->. simpl. by eapply lookup_lt_Some.
Qed.

Lemma gstep_inv ev g : group_inv g -> group_inv (gstep ev g).
Proof.
  destruct ev as [key invoke|i|i|v]; [apply arrive_inv|apply lead_step_inv|apply receive_inv|].
  by intros [Hl Hs Hc Hf Hsub Hd].
Qed.

Lemma gsched_inv evs w : group_inv (gsched evs (NewGroup w)).
Proof.
  unfold gsched. assert (forall g, group_inv g -> group_inv (fold_left (fun g ev => gstep ev g) evs g)) as Hall;
    [|apply Hall, new_group_inv].
  induction evs as [|ev evs IH]; intros g Hg; simpl; [done|]. by apply IH, gstep_inv.
Qed.

(** ** What is left of a leader *)

(** The leader has still to release its key. *)
Fixpoint releases (p : prog LeadE unit) : Prop :=
  match p with
  | Ret _ => False
  | Do e k =>
      match e in LeadE X return (X -> Prop) -> Prop with
      | Release _ => fun _ => True
      | Up _ => fun next => exists x, next x
      | Publish _ _ => fun next => next tt
      | Finish _ _ => fun next => next tt
      end (fun x => releases (k x))
  end.

Lemma released_phase key b invoke ph p :
  follows key b invoke ph p -> releases p -> open_phase ph = true.
Proof.
  revert ph. induction p as [a|X e k IH]; intros ph; [done|].
  destruct e as [Y e|k'|b' d|b' fin]; simpl.
  - intros Hf [x Hx]. destruct (Hf x) as [Hn|(-> & _)]; [by eapply IH|done].
  - intros (_ & [(-> & _)|(s0 & e & -> & _)]) _; done.
  - intros (_ & s0 & ds & e & -> & _); done.
  - intros (_ & -> & Hn) Hr. by specialize (IH tt _ Hn Hr).
Qed.

(** Every leader returns after finitely many steps of its own. *)
Lemma leader_returns i g p :
  leaders g !! i = Some p -> exists m u, leaders (gsched (replicate m (LeadStep i)) g) !! i = Some (Ret u).
Proof.
  revert g. induction p as [u|X e k IH]; intros g Hp; [by exists O, u|].
  assert (exists x, leaders (gstep (LeadStep i) g) !! i = Some (k x)) as [x Hx].
  { simpl. rewrite Hp. simpl. destruct (lead_handler X e g) as [x g'] eqn:Hh. exists x. simpl.
    apply list_lookup_insert_eq. replace (leaders g') with (leaders g); [by eapply lookup_lt_Some|].
    destruct e as [Y e|k'|b d|b fin]; simpl in Hh; [destruct (h Y e (world g))|..]; by injection Hh as _ <-. }
  destruct (IH x _ Hx) as (m & u & Hm). by exists (Datatypes.S m), u.
Qed.

Lemma leads_subscribers m i g : subscribers (gsched (replicate m (LeadStep i)) g) = subscribers g
  /\ started (gsched (replicate m (LeadStep i)) g) = started g.
Proof.
  revert g. induction m as [|m IH]; intros g; [done|]. cbn [replicate gsched fold_left].
  fold (gsched (replicate m (LeadStep i)) (gstep (LeadStep i) g)). rewrite !(proj1 (IH _)), !(proj2 (IH _)). simpl.
  destruct (leaders g !! i) as [[a|X e k]|]; simpl; [done| |done].
  destruct e as [Y e|k'|b d|b fin]; simpl; [destruct (h Y e (world g))|..]; done.
Qed.

Lemma receive_step g i b idx bc r idx' :
  subscribers g !! i = Some (mkSubscriber b idx) -> broadcasts g !! b = Some bc ->
  subscriber_Recv idx bc = Some (r, idx') ->
  let g' := gstep (Receive i) g in
  subscribers g' !! i = Some (mkSubscriber b idx') /\ broadcasts g' = broadcasts g
  /\ received i g' = received i g ++ [r].
Proof.
  intros Hi Hb Hr. cbn [gstep]. rewrite Hi. cbn [sBroadcast sIdx]. rewrite Hb. cbn [mbind option_bind].
  rewrite Hr, received_snoc, decide_True by done. simpl.
  split; [|done]. apply list_lookup_insert_eq. by eapply lookup_lt_Some.
Qed.

(** Receiving from a finished broadcast: first what is left of its deltas, then
    its end. *)
Lemma receives_all i g b bc n idx :
  subscribers g !! i = Some (mkSubscriber b idx) -> broadcasts g !! b = Some bc -> done bc = true ->
  (length (deltas bc) - idx < n)%nat -> (idx <= length (deltas bc))%nat ->
  exists m, (0 < m)%nat /\ received i (gsched (replicate n (Receive i)) g)
    = received i g ++ map Ok (drop idx (deltas bc)) ++ replicate m (Err (default EOF (err bc))).
Proof.
  revert g idx. induction n as [|n IH]; intros g idx Hi Hb Hd Hn Hle; [lia|].
  cbn [replicate gsched fold_left]. fold (gsched (replicate n (Receive i)) (gstep (Receive i) g)).
  destruct (deltas bc !! idx) as [d|] eqn:Hdl.
  - assert (subscriber_Recv idx bc = Some (Ok d, Datatypes.S idx)) as Hr by (unfold subscriber_Recv; by rewrite Hdl).
    destruct (receive_step _ _ _ _ _ _ _ Hi Hb Hr) as (Hi' & Hb' & Hrec). pose proof (lookup_lt_Some _ _ _ Hdl).
    destruct (IH _ _ Hi') as (m & Hm & ->); [by rewrite Hb'|done|lia|lia|].
    exists m. split; [done|]. by rewrite Hrec, (drop_S _ d idx Hdl), <- app_assoc.
  - assert (subscriber_Recv idx bc = Some (Err (default EOF (err bc)), idx)) as Hr by (unfold subscriber_Recv; by rewrite Hdl, Hd).
    destruct (receive_step _ _ _ _ _ _ _ Hi Hb Hr) as (Hi' & Hb' & Hrec). apply lookup_ge_None in Hdl.
    rewrite drop_ge by lia. destruct n as [|n].
    + exists 1%nat. split; [lia|]. exact Hrec.
    + destruct (IH _ _ Hi') as (m & Hm & ->); [by rewrite Hb'|done|lia|lia|].
      exists (Datatypes.S m). split; [lia|]. rewrite Hrec, drop_ge by lia. simpl. by rewrite <- app_assoc.
Qed.

Lemma subscriber_call (g : Group) i s :
  group_inv g -> subscribers g !! i = Some s ->
  exists key invoke, started g !! sBroadcast s = Some (key, invoke).
Proof.
  intros Hg Hi. destruct (inv_sub g Hg _ _ Hi) as (bc & n & Hbc & _).
  destruct (lookup_lt_is_Some_2 (started g) (sBroadcast s)) as [[key invoke] Hs]; [|by eauto].
  rewrite (inv_started g Hg). by eapply lookup_lt_Some.
Qed.

(** What the subscribers of a broadcast have received belongs to one outcome. *)
Definition shared_outcome (g : Group) (b : nat) (invoke : prog E (res S)) : Prop :=
  (forall i s, subscribers g !! i = Some s -> sBroadcast s = b -> received i g = [])
  \/ exists ds fin, outcome invoke ds fin /\
     forall i s, subscribers g !! i = Some s -> sBroadcast s = b ->
       exists k n, received i g = map Ok (take k ds) ++ replicate n (Err (default EOF fin))
         /\ (n = O \/ (length ds <= k)%nat).

(** Each of them can still get all of it: the leader alone finishes the call, and
    then receiving is never blocked. *)
Definition served_in_full (g : Group) (b : nat) (invoke : prog E (res S)) : Prop :=
  forall i s, subscribers g !! i = Some s -> sBroadcast s = b ->
    exists m k ds fin n, outcome invoke ds fin /\ (0 < n)%nat /\
      received i (gsched (replicate m (LeadStep b) ++ replicate k (Receive i)) g)
      = map Ok ds ++ replicate n (Err (default EOF fin)).

(** C7. Fan-out.  However callers, leaders, receptions and the outside world
    interleave, for every call that was started either none of its subscribers
    has received anything yet, or there is one outcome this call can have (the
    call's error, or the whole sequence of the stream it returned) such that
    every subscriber, whenever it joined, has received exactly a prefix of that
    sequence, in order and without gaps, and sees the end only after all of it;
    and whatever has happened, running the call's leader and then receiving often
    enough gives a subscriber the whole sequence and its end. *)
Theorem coalesce_fanout evs w b key invoke :
  let g := gsched evs (NewGroup w) in
  started g !! b = Some (key, invoke) -> shared_outcome g b invoke /\ served_in_full g b invoke.
Proof.
  intros g Hst. pose proof (gsched_inv evs w : group_inv g) as Hg.
  destruct (inv_call g Hg _ _ _ Hst) as (p & bc & ph & Hp & Hbc & Hfo & Hsh & _). split.
  - unfold shared_outcome. destruct ph as [|s0 rest|fin|fin]; simpl in Hsh.
    + left. intros i s Hi <-. destruct (inv_sub g Hg _ _ Hi) as (bc' & n & H1 & _ & -> & Hn). simplify_eq.
      destruct Hsh as [-> Hd]. rewrite take_nil. destruct Hn as [->|[? _]]; [done|congruence].
    + right. destruct Hsh as (H0 & Hd & Hc). exists (content s0).1, ((content s0).2 ≫= end_error). split; [right; by exists s0|].
      intros i s Hi <-. destruct (inv_sub g Hg _ _ Hi) as (bc' & n & H1 & Hle & -> & Hn). simplify_eq.
      destruct Hn as [->|[? _]]; [|congruence]. exists (sIdx s), O. split; [|by left]. rewrite <- Hc. simpl.
      by rewrite take_app_le.
    + right. exists (deltas bc), fin. destruct Hsh as [Ho Hd]. split; [done|].
      intros i s Hi <-. destruct (inv_sub g Hg _ _ Hi) as (bc' & n & H1 & Hle & -> & Hn). simplify_eq.
      destruct Hn as [->|[? _]]; [|congruence]. exists (sIdx s), O. split; [done|by left].
    + right. exists (deltas bc), fin. destruct Hsh as (Ho & Hd & He). split; [done|].
      intros i s Hi <-. destruct (inv_sub g Hg _ _ Hi) as (bc' & n & H1 & Hle & -> & Hn). simplify_eq.
      exists (sIdx s), n. split; [done|]. destruct Hn as [->|[_ ->]]; [by left|by right].
  - intros i s Hi <-. destruct (leader_returns _ _ _ Hp) as (m & u & Hm).
    set (g1 := gsched (replicate m (LeadStep (sBroadcast s))) g) in *.
    assert (group_inv g1) as Hg1.
    { subst g1 g. unfold gsched. rewrite <- fold_left_app. apply gsched_inv. }
    destruct (leads_subscribers m (sBroadcast s) g) as [Es Et]. fold g1 in Es, Et.
    destruct (inv_call g1 Hg1 (sBroadcast s) key invoke) as (p1 & bc1 & ph1 & Hp1 & Hbc1 & Hfo1 & Hsh1 & _); [by rewrite Et|].
    simplify_eq. destruct Hfo1 as [fin ->]. destruct Hsh1 as (Ho & Hd & He).
    assert (subscribers g1 !! i = Some s) as Hi1 by by rewrite Es.
    destruct (inv_sub g1 Hg1 _ _ Hi1) as (bc2 & n & H2 & Hle & Hrec & Hn). simplify_eq. destruct s as [sb idx]; simpl in *.
    destruct (receives_all i g1 sb bc1 (Datatypes.S (length (deltas bc1))) idx) as (k & Hk & Hall); [done..|lia|done|].
    exists m, (Datatypes.S (length (deltas bc1))), (deltas bc1), (err bc1).
    unfold gsched. rewrite fold_left_app. fold (gsched (replicate m (LeadStep sb)) g).
    fold (gsched (replicate (Datatypes.S (length (deltas bc1))) (Receive i)) (gsched (replicate m (LeadStep sb)) g)).
    fold g1. rewrite Hall, Hrec. destruct Hn as [->|[_ ->]].
    + exists k. split; [done|]. split; [done|]. simpl. rewrite app_nil_r, app_assoc, <- map_app, take_drop. done.
    + exists (n + k)%nat. split; [done|]. split; [lia|]. rewrite take_ge, drop_ge by lia. simpl.
      by rewrite <- app_assoc, <- replicate_add.
Qed.

(** C8. Joining.  A caller never joins a call that has finished: it becomes a
    subscriber, from the first delta on, of an unfinished call made for its key;
    a new upstream call is started exactly when none is in flight for the key,
    and while the leader of a call has not released the key, every caller with
    that key joins this very call. *)
Theorem coalesce_joins evs w key invoke :
  let g := gsched evs (NewGroup w) in
  let g' := gstep (Arrive key invoke) g in
  exists b bc invoke',
    subscribers g' = subscribers g ++ [mkSubscriber b 0]
    /\ started g' !! b = Some (key, invoke') /\ broadcasts g' !! b = Some bc /\ done bc = false
    /\ started g' = started g ++ match inFlight g !! key with Some _ => [] | None => [(key, invoke)] end
    /\ forall b1 invoke1 p, started g !! b1 = Some (key, invoke1) -> leaders g !! b1 = Some p -> releases p ->
         b = b1 /\ started g' = started g.
Proof.
  intros g g'. pose proof (gsched_inv evs w : group_inv g) as Hg.
  assert (forall b1 invoke1 p, started g !! b1 = Some (key, invoke1) -> leaders g !! b1 = Some p -> releases p ->
            inFlight g !! key = Some b1) as Hopen.
  { intros b1 invoke1 p Hs Hp Hr. destruct (inv_call g Hg _ _ _ Hs) as (p' & bc & ph & Hp' & _ & Hfo & _ & Hin).
    simplify_eq. apply Hin. by eapply released_phase. }
  subst g'. simpl. unfold Group_Invoke. destruct (inFlight g !! key) as [b|] eqn:Hk; simpl.
  - destruct (inv_flight g Hg _ _ Hk) as [invoke' Hst].
    destruct (inv_call g Hg _ _ _ Hst) as (p & bc & ph & Hp & Hbc & Hfo & Hsh & Hin).
    exists b, bc, invoke'. split; [done|]. split; [done|]. split; [done|].
    split; [apply Hin in Hk; by destruct ph; simpl in *; naive_solver|]. split; [by rewrite app_nil_r|].
    intros b1 inv1 p1 H1 H2 H3. specialize (Hopen _ _ _ H1 H2 H3). by simplify_eq.
  - exists (length (broadcasts g)), newBroadcast, invoke. split; [done|].
    split; [apply lookup_last; by rewrite (inv_started g Hg)|]. split; [by apply lookup_last|]. split; [done|].
    split; [done|]. intros b1 inv1 p1 H1 H2 H3. by specialize (Hopen _ _ _ H1 H2 H3).
Qed.
End Group.

(** * A concrete group: two callers with one key, a third after the end *)

Inductive NoE : interface := .

Definition no_handler : handler NoE unit := fun X e => match e with end.

Definition text (s : string) : Delta := mkDelta (Some s) None false None None None.
Definition last_delta : Delta := mkDelta None (Some "stop") true None None None.

Definition one_call : prog NoE (res replay) := Ret (Ok ([text "a"; text "b"; last_delta], EOF)).

Definition demo (evs : list event) : Group (E := NoE) (S := replay) :=
  gsched no_handler (fun (_ : unit) w => w) evs (NewGroup tt).

Definition demo_events : list (event (E := NoE) (V := unit)) :=
  [Arrive "k" one_call; LeadStep 0; Receive 0; Arrive "k" one_call; LeadStep 0; LeadStep 0; LeadStep 0;
   Arrive "k" one_call] ++ replicate 4 (Receive 0) ++ replicate 4 (Receive 1) ++ [LeadStep 0] ++ replicate 4 (Receive 1).

Example demo_run :
  let g := demo demo_events in
  map sBroadcast (subscribers g) = [0; 0; 1]%nat /\ length (started g) = 2%nat
  /\ received 1 g = [Ok (text "a"); Ok (text "b"); Ok last_delta; Err EOF; Err EOF; Err EOF; Err EOF].
Proof. vm_compute. auto. Qed.

Lemma coalesce_fanout_witness :
  shared_outcome (demo demo_events) 0 one_call
  /\ served_in_full no_handler (fun (_ : unit) w => w) (demo demo_events) 0 one_call.
Proof. exact (coalesce_fanout no_handler (fun (_ : unit) w => w) demo_events tt 0 "k" one_call eq_refl). Defined.

Lemma coalesce_joins_witness :
  let g := demo [Arrive "k" one_call; LeadStep 0] in
  exists b, subscribers (gstep no_handler (fun (_ : unit) w => w) (Arrive "k" one_call) g) = subscribers g ++ [mkSubscriber b 0]
    /\ b = 0%nat /\ started (gstep no_handler (fun (_ : unit) w => w) (Arrive "k" one_call) g) = started g.
Proof.
  destruct (coalesce_joins no_handler (fun (_ : unit) w => w) [Arrive "k" one_call; LeadStep 0] tt "k" one_call)
    as (b & bc & invoke' & Hs & _ & _ & _ & _ & Hj).
  exists b. split; [exact Hs|]. eapply (Hj 0%nat); [reflexivity|reflexivity|]. simpl. auto.
Defined.
