(* ===== verification/Gateway.v ===== *)
(** provider-gateway/main.go: the gRPC handlers [Invoke] and [ProviderHealth].

    [invoke_call] is the closure the coalesced unit runs: quota, breaker,
    adapter, and the stream that reports its outcome to the breaker.
    [server_Invoke] is the handler, a program over [ServerE]: joining the group,
    receiving from the subscription, sending to the caller.  [lone_env] runs it
    for a caller whose leader is not delayed; Coalesce has the interleavings. *)

From S2P Require Import Prelude Errors Prog Http Json Float Breaker Quota Sse OpenAI Anthropic Google FakeAdapter Relay Coalesce Adapter.
From Stdlib Require Import SpecFloat.
#[local] Open Scope Z_scope.

(** * The adapters of the process *)

(** The streams the registered adapters return. *)
Inductive AnyStream :=
| OpenAIStream (s : OpenAI.stream)
| AnthropicStream (s : Anthropic.stream)
| GoogleStream (s : Google.stream)
| FakeStream (s : FakeAdapter.stream).

Definition on_second {A B C} (f : B -> C) (x : A * B) : A * C := (x.1, f x.2).

Definition any_Recv (s : AnyStream) : res Delta * AnyStream :=
  match s with
  | OpenAIStream s => on_second OpenAIStream (OpenAI.stream_Recv s)
  | AnthropicStream s => on_second AnthropicStream (Anthropic.stream_Recv s)
  | GoogleStream s => on_second GoogleStream (Google.stream_Recv s)
  | FakeStream s => on_second FakeStream (FakeAdapter.stream_Recv s)
  end.

Definition any_pending (s : AnyStream) : nat :=
  match s with
  | OpenAIStream s => scanner_size (scanner s)
  | AnthropicStream s => scanner_size (scanner s)
  | GoogleStream s => scanner_size (scanner s)
  | FakeStream s => String.length (unread (FakeAdapter.body s))
  end.

(** The response body behind the stream is closed. *)
Definition any_closed (s : AnyStream) : bool :=
  match s with
  | OpenAIStream s => Sse.closed s
  | AnthropicStream s => Sse.closed s
  | GoogleStream s => Sse.closed s
  | FakeStream s => FakeAdapter.closed s
  end.

#[global] Instance any_stream : Stream AnyStream := {| Recv := any_Recv; pending := any_pending |}.

#[global] Instance any_lawful : LawfulStream AnyStream.
Proof.
  intros s d s'. destruct s as [s|s|s|s]; simpl.
  - destruct (OpenAI.stream_Recv s) as [r t] eqn:Hr; intros [= -> <-]. by apply (openai_lawful s d t).
  - destruct (Anthropic.stream_Recv s) as [r t] eqn:Hr; intros [= -> <-]. by apply (anthropic_lawful s d t).
  - destruct (Google.stream_Recv s) as [r t] eqn:Hr; intros [= -> <-]. by apply (google_lawful s d t).
  - destruct (FakeAdapter.stream_Recv s) as [r t] eqn:Hr; intros [= -> <-]. by apply (fake_lawful s d t).
Qed.

Definition lift_adapter {T} (f : T -> AnyStream) (a : Adapter T) : Adapter AnyStream :=
  mkAdapter (Name a) (fun req => s <-? Invoke a req ;; Ret (Ok (f s))).

(** What [main] registers: the fake, the providers whose credential was
    resolved, google when its key is set. *)
Definition registered_adapters (fakeURL googleKey : string) (resolved : string -> bool) : list (Adapter AnyStream) :=
  let openai name base path :=
    if resolved name then [lift_adapter OpenAIStream (openai_adapter (OpenAI.NewNamedWithPath name base path))] else [] in
  [lift_adapter FakeStream (fake_adapter (mkFake fakeURL))]
  ++ openai "openai" "" ""
  ++ (if resolved "anthropic" then [lift_adapter AnthropicStream (anthropic_adapter (Anthropic.New ""))] else [])
  ++ (if bool_decide (googleKey = "") then []
      else [lift_adapter GoogleStream (google_adapter (Google.New googleKey ""))])
  ++ openai "grok" "https://api.x.ai" ""
  ++ openai "glm" "https://api.z.ai" "/api/paas/v4/chat/completions"
  ++ openai "kimi" "https://api.moonshot.ai" "".

(** * The call *)

Inductive UpE : interface :=
| OnCounter {X} (e : CounterE X) : UpE X
| OnBreaker {X} (e : StoreE X) : UpE X
| OnAdapter {X} (e : AdapterE X) : UpE X.

Definition counter {A} (p : prog CounterE A) : prog UpE A := link (fun X e => call (OnCounter e)) p.
Definition breaker {A} (p : prog StoreE A) : prog UpE A := link (fun X e => call (OnBreaker e)) p.
Definition upstream {A} (p : prog AdapterE A) : prog UpE A := link (fun X e => call (OnAdapter e)) p.

Section Server.
Context {T : Type} `{!Stream T}.

Record server := mkServer {
  registry : gmap string (Adapter T);
  quotaPolicy : Policy;
  breakerConfig : Config
}.
Context (s : server).

(** [reportingStream]; the provider its [report] closure is for. *)
Record reportingStream := mkReporting { inner : T; reportTo : string; reported : bool }.

Definition report (provider : string) (success : bool) : prog UpE (res unit) :=
  breaker (ReportResult provider (breakerConfig s) success).

(** [reportingStream.Recv]: the outcome is reported at most once, an error in
    reporting is only logged. *)
Definition reporting_Recv (r : reportingStream) : prog UpE (res Delta * reportingStream) :=
  let '(x, i) := Recv (inner r) in
  match x with
  | Err e =>
      if reported r then Ret (Err e, mkReporting i (reportTo r) true)
      else (report (reportTo r) false ;;; Ret (Err e, mkReporting i (reportTo r) true))
  | Ok d =>
      if IsFinal d && negb (reported r)
      then (report (reportTo r) true ;;; Ret (Ok d, mkReporting i (reportTo r) true))
      else Ret (Ok d, mkReporting i (reportTo r) (reported r))
  end.

#[global] Instance reporting_source : @Source UpE reportingStream :=
  {| pull := reporting_Recv; content := fun r => drain (inner r); psize := fun r => pending (inner r) |}.

#[global] Instance reporting_lawful `{!LawfulStream T} : @LawfulSource UpE reportingStream reporting_source.
Proof.
  intros r. change (pull r) with (reporting_Recv r). unfold reporting_Recv.
  destruct (Recv (inner r)) as [[d|e] i] eqn:Hr.
  - assert (forall b, pulled r (Ok d, mkReporting i (reportTo r) b)) as Hp.
    { intros b. split; [by apply recv_consumes in Hr|]. simpl. by rewrite drain_eq, Hr. }
    destruct (IsFinal d && negb (reported r)); [|apply Hp]. apply always_then, Hp.
  - assert (pulled r (Err e, mkReporting i (reportTo r) true)) as Hp by (simpl; by rewrite drain_eq, Hr).
    destruct (reported r); [exact Hp|]. apply always_then, Hp.
Qed.

(** The [call] closure of [Invoke].  The outer [None] of [Enforce] is the panic
    of a window shorter than a second. *)
Definition invoke_call (providerName : string) (adapter : Adapter T) (req : InvokeRequest)
    : prog UpE (res reportingStream) :=
  q <- counter (Enforce providerName (quotaPolicy s)) ;;
  match q with
  | None => Ret (Err (Lib "panic: integer divide by zero"))
  | Some (quotaDecision, _, _) =>
      if bool_decide (quotaDecision = Throttle) then Ret (Err (FallbackError QUOTA_EXHAUSTED providerName))
      else
        b <- breaker (Check providerName (breakerConfig s)) ;;
        if bool_decide (b.1 = Deny) then Ret (Err (FallbackError BREAKER_OPEN providerName))
        else
          x <- upstream (Invoke adapter req) ;;
          match x with
          | Err e => report providerName false ;;; Ret (Err e)
          | Ok st => Ret (Ok (mkReporting st providerName false))
          end
  end.

(** * [Invoke] *)

(** The proto request; [Params] is nil or a message with optional fields. *)
Record pbInvokeRequest := mkPbInvokeRequest {
  pbRequestID : string; WorkerRef : string; pbMessages : list Message;
  Params : option (option Z * option float32) }.

Definition toAdapterRequest (req : pbInvokeRequest) (model : string) : InvokeRequest :=
  mkInvokeRequest (pbRequestID req) model (pbMessages req)
    (Params req ≫= fst) (Params req ≫= snd).

Inductive ServerE : interface :=
| JoinGroup (key : string) (invoke : prog UpE (res reportingStream)) : ServerE nat
| RecvSub (i : nat) : ServerE (res Delta)
| SendResp (r : InvokeResponse) : ServerE (res unit).

(** [Relay] over subscription [i]. *)
Definition relay_over (i : nat) : forall X, RelayE X -> prog ServerE X := fun X e =>
  match e in RelayE X return prog ServerE X with
  | RecvSrc => call (RecvSub i)
  | Send r => call (SendResp r)
  end.

Definition errorFinishReason : string := "error".

(** The synthetic final delta of a broken call, usage unset. *)
Definition bestEffort (requestID : string) : InvokeResponse :=
  DeltaResponse requestID (mkDelta None (Some errorFinishReason) true None None None).

(** [fuel] bounds the receptions of [Relay]. *)
Definition server_Invoke (fuel : nat) (req : pbInvokeRequest) : prog ServerE (res unit) :=
  match ParseWorkerRef (WorkerRef req) with
  | Err e => Ret (Err (StatusOf InvalidArgument e))
  | Ok (providerName, model) =>
      match Lookup (registry s) providerName with
      | Err e => Ret (Err (StatusOf NotFound e))
      | Ok adapter =>
          let adapterReq := toAdapterRequest req model in
          sub <- call (JoinGroup (Key adapterReq) (invoke_call providerName adapter adapterReq)) ;;
          r <- link (relay_over sub) (Relay fuel (pbRequestID req)) ;;
          match r with
          | Ok _ => Ret (Ok tt)
          | Err err =>
              match as_upstream err with
              | Some inner =>
                  call (SendResp (bestEffort (pbRequestID req))) ;;;
                  Ret (Err (StatusOf Unavailable inner))
              | None => Ret (Err err)
              end
          end
      end
  end.

(** * [ProviderHealth] *)

Definition breakerDecisionToStateValue (d : Breaker.Decision) : Z :=
  match d with Breaker.Allow => 0 | AllowTrial => 1 | Deny => 2 end.

Inductive BreakerState := STATE_UNSPECIFIED | STATE_CLOSED | STATE_OPEN | STATE_HALF_OPEN.

Definition breakerStateToPb (st : string) : BreakerState :=
  if bool_decide (st = Breaker.Closed) then STATE_CLOSED
  else if bool_decide (st = Breaker.HalfOpen) then STATE_HALF_OPEN
  else if bool_decide (st = Breaker.Open) then STATE_OPEN
  else STATE_UNSPECIFIED.

(** [float32(x)] of a [float64]. *)
Definition to_float32 (x : spec_float) : float32 :=
  match x with
  | S754_finite sg m e => binary_normalize 24 128 (if sg then Zneg m else Zpos m) e sg
  | x => x
  end.

Record ProviderStatus := mkStatus { stProvider : string; stBreaker : BreakerState; stHeadroom : float32 }.

Definition provider_status (name : string) : prog UpE (option ProviderStatus) :=
  st <- breaker (CurrentState name (breakerConfig s)) ;;
  let state := match st.2 with Some _ => Breaker.Closed | None => st.1 end in
  hr <- counter (Headroom name (quotaPolicy s)) ;;
  match hr with
  | None => Ret None
  | Some (x, err) =>
      let headroom := match err with Some _ => float64_of 1 | None => x end in
      Ret (Some (mkStatus name (breakerStateToPb state) (to_float32 headroom)))
  end.

Fixpoint provider_statuses (names : list string) : prog UpE (option (list ProviderStatus)) :=
  match names with
  | [] => Ret (Some [])
  | n :: ns =>
      x <- provider_status n ;;
      match x with
      | None => Ret None
      | Some st => xs <- provider_statuses ns ;; Ret ((fun l => st :: l) <$> xs)
      end
  end.

(** [None] is the panic of a window shorter than a second. *)
Definition ProviderHealth (provider : string) : prog UpE (option (list ProviderStatus)) :=
  provider_statuses (if bool_decide (provider = "") then Names (registry s) else [provider]).
End Server.
