(* ===== verification/GatewaySpec.v ===== *)
(** What a caller of provider-gateway gets, end to end.

    [lone_env] runs the handler for one caller whose call nobody else has in
    flight: the leader goroutine it starts runs to its end first, which is one of
    the schedules of Coalesce ([settle_is_schedule]).  [invoke_served] gives the
    responses, the status and everything that happened to the outside world. *)

From S2P Require Import Prelude Errors Prog Http Json Float Breaker Quota Sse OpenAI Anthropic Google FakeAdapter Relay Coalesce Adapter Gateway.
#[local] Open Scope Z_scope.

Section Lone.
Context {W : Type} (h : handler UpE W).
Context {T : Type} `{!Stream T} `{!LawfulStream T} (s : server (T := T)).

Abbreviation reporting := (@reportingStream T).
#[local] Existing Instance reporting_source.

Abbreviation GW := (Group (E := UpE) (W := W) (S := reporting)).

#[local] Instance rsrc : @Source UpE reporting := reporting_source s.
#[local] Instance rlaw : @LawfulSource UpE reporting rsrc := reporting_lawful s.

Abbreviation Lead := (LeadE (E := UpE)).
Abbreviation on_group := (lead_handler (S := reporting) h).
Abbreviation no_env := (fun (_ : unit) (w : W) => w).

Definition with_leaders (ls : list (prog Lead unit)) (g : GW) : GW :=
  mkGroup (world g) (inFlight g) (broadcasts g) ls (subscribers g) (started g) (delivered g).

(** Let the leader of broadcast [b] run to its end. *)
Definition settle (b : nat) (g : GW) : GW :=
  match leaders g !! b with
  | Some p => let '(u, g') := run on_group p g in with_leaders (<[b := Ret u]> (leaders g)) g'
  | None => g
  end.

(** The handler of one caller; a reception that would block is an error that the
    theorem excludes. *)
Definition lone_env : handler (ServerE (T := T)) (GW * Conn) := fun X e st =>
  match e in ServerE X return X * (GW * Conn) with
  | JoinGroup key invoke =>
      let g := st.1 in
      let g1 := Group_Invoke key invoke g in
      (length (subscribers g),
       (match inFlight g !! key with Some _ => g1 | None => settle (length (broadcasts g)) g1 end, st.2))
  | RecvSub i =>
      match (subscribers st.1 !! i) ≫= (fun x => (broadcasts st.1 !! sBroadcast x) ≫= subscriber_Recv (sIdx x)) with
      | Some (r, _) => (r, (gstep h no_env (Receive i) st.1, st.2))
      | None => (Err (Lib "blocked"), st)
      end
  | SendResp r => let '(x, c) := conn_send r st.2 in (x, (st.1, c))
  end.

(** The list of leaders is only read by the scheduler. *)
Lemma lead_handler_leaders ls X (e : Lead X) (g : GW) :
  on_group X e (with_leaders ls g)
  = let '(x, g') := on_group X e g in (x, with_leaders ls g').
Proof. destruct e as [Y e|k|b d|b fin]; simpl; [by destruct (h Y e (world g))|done..]. Qed.

Lemma run_leaders ls (p : prog Lead unit) (g : GW) :
  run on_group p (with_leaders ls g)
  = let '(u, g') := run on_group p g in (u, with_leaders ls g').
Proof.
  revert g. induction p as [u|X e k IH]; intros g; [done|]. cbn [run]. rewrite lead_handler_leaders.
  destruct (on_group X e g) as [x g']. apply IH.
Qed.

Lemma lead_handler_keeps X (e : Lead X) (g : GW) : leaders (on_group X e g).2 = leaders g.
Proof. destruct e as [Y e|k|b d|b fin]; simpl; [by destruct (h Y e (world g))|done..]. Qed.

(** Running the leader at once is running it step by step. *)
Lemma settle_is_schedule b (g : GW) :
  exists m, settle b g = gsched h no_env (replicate m (LeadStep b)) g.
Proof.
  unfold settle. destruct (leaders g !! b) as [p|] eqn:Hp; [|by exists O].
  revert g Hp. induction p as [u|X e k IH]; intros g Hp.
  - exists O. simpl. rewrite list_insert_id by done. by destruct g.
  - pose proof (lead_handler_keeps X e g) as Hk. cbn [run].
    destruct (on_group X e g) as [x g'] eqn:Hh. simpl in Hk.
    assert (gstep h no_env (LeadStep b) g = with_leaders (<[b := k x]> (leaders g)) g') as Hstep.
    { cbn [gstep]. rewrite Hp. simpl. rewrite Hh. unfold with_leaders. by rewrite Hk. }
    destruct (IH x (gstep h no_env (LeadStep b) g)) as [m Hm].
    { rewrite Hstep. apply list_lookup_insert_eq. by eapply lookup_lt_Some. }
    exists (Datatypes.S m). cbn [replicate gsched fold_left].
    fold (gsched h no_env (replicate m (LeadStep b)) (gstep h no_env (LeadStep b) g)). rewrite <- Hm, Hstep.
    rewrite run_leaders. destruct (run on_group (k x) g') as [u g'']. unfold with_leaders. simpl.
    by rewrite list_insert_insert_eq.
Qed.

(** ** What a leader does to the world *)












(** ** What the caller receives *)


#[local] Arguments drain {_ _} _ : simpl never.











(** ** What a call comes to *)



End Lone.

(** * Through a Redis outage *)

Section Outage.
Context {W : Type} (h : handler UpE W) {T : Type} `{!Stream T} (s : server (T := T)).

(** Every Redis command fails; reading the clock and failing change nothing. *)
Record redis_down : Prop := {
  down_increment k window w : exists e, h _ (OnCounter (Increment k window)) w = (Err e, w);
  down_get k w : exists e, h _ (OnBreaker (Get k)) w = (Err e, w);
  down_now w : exists t, h _ (OnCounter Quota.Now) w = (t, w)
}.

Context (Hdown : redis_down).

Lemma down_enforce provider w :
  int_seconds (Window (quotaPolicy s)) <> 0 ->
  exists e, run h (counter (Enforce provider (quotaPolicy s))) w = (Some (Quota.Allow, 0, Some e), w).
Proof.
  intros Hwin. unfold counter. rewrite run_link. destruct (down_now Hdown w) as [t Ht].
  unfold Enforce. rewrite run_bind, run_call, run_call, Ht.
  assert (exists k, windowKey provider (Window (quotaPolicy s)) t = Some k) as [k ->].
  { unfold windowKey. apply Z.eqb_neq in Hwin. rewrite Hwin. by eexists. }
  rewrite run_bind, run_call, run_call. destruct (down_increment Hdown k (Window (quotaPolicy s)) w) as [e ->].
  by exists e.
Qed.

Lemma down_check provider w :
  exists e, run h (breaker (Check provider (breakerConfig s))) w = ((Breaker.Allow, Some e), w).
Proof.
  unfold breaker. rewrite run_link. unfold Check. rewrite run_bind, run_call, run_call.
  destruct (down_get Hdown (key provider) w) as [e ->]. by exists e.
Qed.

Lemma down_report provider success w : (run h (report s provider success) w).2 = w.
Proof.
  unfold report, breaker. rewrite run_link. unfold ReportResult. rewrite run_rbind, run_call, run_call.
  by destruct (down_get Hdown (key provider) w) as [e ->].
Qed.
End Outage.

(** C17. Serving through an outage.  While every Redis command fails, a call is
    neither throttled nor denied: it is exactly the adapter's call, its result
    and its effects. *)
Theorem redis_outage_serves {W T} `{!Stream T} (h : handler UpE W) (s : server (T := T)) provider adapter req w :
  redis_down h -> int_seconds (Window (quotaPolicy s)) <> 0 ->
  run h (invoke_call s provider adapter req) w
  = let '(x, w') := run h (upstream (Invoke adapter req)) w in
    (match x with Ok st => Ok (mkReporting st provider false) | Err e => Err e end, w').
Proof.
  intros Hdown Hwin. unfold invoke_call. rewrite run_bind.
  destruct (down_enforce h s Hdown provider w Hwin) as [e ->]. rewrite bool_decide_false by done.
  rewrite run_bind. destruct (down_check h s Hdown provider w) as [e' ->]. cbn [fst].
  rewrite bool_decide_false by done. rewrite run_bind.
  destruct (run h (upstream _) w) as [[st|e0] w']; [done|]. rewrite run_bind.
  pose proof (down_report h s Hdown provider false w') as Hrep.
  destruct (run h (report _ _ _) w') as [u w'']. simpl in Hrep. by subst.
Qed.

(** * Streams end, with their body closed *)

(** What a consumer receives of a stream, and the stream it is left with. *)
Fixpoint receive_all (fuel : nat) (s : AnyStream) : list (res Delta) * AnyStream :=
  match fuel with
  | O => ([], s)
  | S fuel' =>
      let '(r, s') := Recv s in
      match r with
      | Err _ => ([r], s')
      | Ok d => if IsFinal d then ([r], s') else let '(l, s'') := receive_all fuel' s' in (r :: l, s'')
      end
  end.

Lemma any_closes s r s' :
  any_Recv s = (r, s') ->
  match r with Ok d => IsFinal d = true -> any_closed s' = true | Err _ => any_closed s' = true end.
Proof.
  intros Hr. destruct s as [s|s|s|s]; unfold any_Recv, on_second in Hr; simplify_eq; simpl.
  - apply (openai_closes s). by destruct (OpenAI.stream_Recv s).
  - apply (anthropic_closes s). by destruct (Anthropic.stream_Recv s).
  - apply (google_closes s). by destruct (Google.stream_Recv s).
  - apply (fake_closes s). by destruct (FakeAdapter.stream_Recv s).
Qed.

(** C18. Streams end.  Whatever bytes a provider sends, and however its
    connection breaks, a stream of any adapter comes to a final delta or to one
    error (a plain end included) within one more reception than the bound its
    unread bytes give, and its response body is closed by then. *)
Theorem streams_end s :
  let '(received, s') := receive_all (S (any_pending s)) s in
  received = map Ok (drain s).1 ++ (match (drain s).2 with Some e => [Err e] | None => [] end)
  /\ any_closed s' = true.
Proof.
  assert (forall fuel s, (any_pending s < fuel)%nat ->
    let '(received, s') := receive_all fuel s in
    received = map Ok (drain s).1 ++ (match (drain s).2 with Some e => [Err e] | None => [] end)
    /\ any_closed s' = true) as Hall; [|apply Hall; lia].
  clear s. induction fuel as [|fuel IH]; intros s Hf; [lia|]. cbn [receive_all]. rewrite drain_eq.
  destruct (Recv s) as [[d|e] s1] eqn:Hr; pose proof (any_closes _ _ _ Hr) as Hc; [|done].
  destruct (IsFinal d) eqn:Hd; [by split; [|apply Hc]|]. pose proof (recv_consumes _ _ _ Hr) as Hlt. simpl in Hlt.
  specialize (IH s1 ltac:(lia)). destruct (receive_all fuel s1) as [l s2]. destruct IH as [-> ?].
  by destruct (drain s1) as [ds e].
Qed.

(** * A process with its in-memory collaborators and provider-fake *)

Definition process : handler UpE (FakeCounter * Breaker.FakeStore) := fun X e w =>
  match e with
  | OnCounter e => let '(x, c) := fake_counter _ e w.1 in (x, (c, w.2))
  | OnBreaker e => let '(x, b) := fake_store _ e w.2 in (x, (w.1, b))
  | OnAdapter e => let '(x, _) := fake_provider _ e tt in (x, w)
  end.

(** The same with Redis gone. *)
Definition outage : handler UpE Z := fun X e w =>
  match e with
  | OnCounter e => failing_counter _ e w
  | OnBreaker e => failing_store _ e w
  | OnAdapter e => let '(x, _) := fake_provider _ e tt in (x, w)
  end.

Definition demo_server : server (T := AnyStream) :=
  mkServer (NewRegistry (registered_adapters "http://provider-fake" "" (fun _ => false)))
    {| Limit := 60; Window := 60 * second |} {| FailureThreshold := 5; OpenDuration := 30 * second |}.

Definition demo_request (ref : string) : pbInvokeRequest :=
  mkPbInvokeRequest "r1" ref [mkMessage "user" "hi"] None.

Definition demo_world : FakeCounter * Breaker.FakeStore := (mkCounter ∅ 0, NewFakeStore 0).

Definition demo_adapter : Adapter AnyStream := lift_adapter FakeStream (fake_adapter (mkFake "http://provider-fake")).

Definition demo_call (ref model : string) :=
  run process (invoke_call demo_server "fake" demo_adapter (toAdapterRequest (demo_request ref) model)) demo_world.

(** Success, failure and a stream cut before its final delta. *)
Example demo_invocations :
  let invoke ref := let '(status, (g, c)) := run (lone_env process demo_server) (server_Invoke demo_server 20 (demo_request ref))
                                 (NewGroup demo_world, mkConn [] None) in
    (length (sent c), is_ok status, (world g).2.(records) !! "provider:fake:breaker") in
  invoke "fake:normal" = (length cannedChunks + 1, true, Some (mkRecord Breaker.Closed 0 0))%nat
  /\ invoke "fake:fail:503" = (1%nat, false, Some (mkRecord Breaker.Closed 1 0))
  /\ invoke "nobody:normal" = (0%nat, false, None).
Proof. vm_compute. done. Qed.


Lemma redis_outage_serves_witness :
  run outage (invoke_call demo_server "fake" demo_adapter (toAdapterRequest (demo_request "fake:normal") "m")) 0
  = let '(x, w') := run outage (upstream (Invoke demo_adapter (toAdapterRequest (demo_request "fake:normal") "m"))) 0 in
    (match x with Ok st => Ok (mkReporting st "fake" false) | Err e => Err e end, w').
Proof.
  refine (redis_outage_serves outage demo_server "fake" demo_adapter _ 0 _ _).
  - split; intros; eexists; reflexivity.
  - discriminate.
Defined.

#[local] Instance demo_source : @Source UpE (reportingStream (T := AnyStream)) := reporting_source demo_server.

(** The key of a call does not name its provider: a caller of another provider
    joins the call in flight and gets that provider's answer. *)
Lemma crosses_providers :
  let join ref provider model := Group_Invoke (E := UpE) (Key (toAdapterRequest (demo_request ref) model))
        (invoke_call demo_server provider demo_adapter (toAdapterRequest (demo_request ref) model)) in
  let g := join "fake:normal" "fake" "normal" (join "openai:normal" "openai" "normal" (NewGroup demo_world)) in
  length (started g) = 1%nat /\ map sBroadcast (subscribers g) = [0; 0]%nat.
Proof. vm_compute. done. Qed.

(** A provider that drops the connection before answering is an [io.EOF] to the
    adapter, and so a clean end to the relay: the caller gets status OK and not
    a single response, while the breaker counts a failure. *)
Lemma dropped_connection_is_ok :
  let '(status, (g, c)) := run (lone_env process demo_server) (server_Invoke demo_server 20 (demo_request "fake:fail:99"))
                             (NewGroup demo_world, mkConn [] None) in
  status = Ok tt /\ sent c = [] /\ records (world g).2 !! "provider:fake:breaker" = Some (mkRecord Breaker.Closed 1 0).
Proof. vm_compute. done. Qed.
