(* ===== verification/Credentials.v ===== *)
(** provider-gateway/internal/credentials: keeping an adapter's API key current.

    [Refresh] and [Run] are programs over [CredE]: fetching a token from the
    control plane, the adapter's key, the resolver's own [source] field, and
    waiting.  [Pod] is one resolver with its adapter and the clock; its log of
    fetches is what the theorems speak about. *)

From S2P Require Import Prelude Errors Prog.
#[local] Open Scope Z_scope.

Definition SourceVault : string := "vault".
Definition sourceNone : string := "".

Definition refreshBuffer : Z := 30 * second.
Definition errorRetryInterval : Z := 30 * second.

(** What a fetch returns. *)
Abbreviation answer := (string * Z * option error)%type.

(** [TokenFetcher]: token, time to live and error, as the method returns them. *)
Inductive TokenFetcher : interface :=
| FetchToken (provider scope : string) : TokenFetcher answer.

Inductive CredE : interface :=
| Fetch {X} (e : TokenFetcher X) : CredE X
| SetAPIKey (key : string) : CredE unit
| setSource (source : string) : CredE unit
| Wait (d : Z) : CredE bool.    (* [false]: the context is done *)

(** The error of [Refresh]; [%w] of a nil error is printed as a bad verb. *)
Definition no_credential (provider : string) (err : option error) : error :=
  match err with
  | Some e => Wrapf "no credential available for %s: vault fetch failed: %w" [provider] e
  | None => Errorf "no credential available for %s: vault fetch failed: %!w(<nil>)" [provider]
  end.

Definition next_refresh (ttl : Z) : Z :=
  let next := wrap64 (ttl - refreshBuffer) in
  let next := if next <=? 0 then ttl else next in
  if next <=? 0 then errorRetryInterval else next.

Definition Refresh (provider : string) : prog CredE (res Z) :=
  x <- call (Fetch (FetchToken provider "invoke")) ;;
  let '(token, ttl, err) := x in
  if bool_decide (is_Some err) || bool_decide (token = "") then
    call (setSource sourceNone) ;;;
    Ret (Err (no_credential provider err))
  else
    call (SetAPIKey token) ;;;
    call (setSource SourceVault) ;;;
    Ret (Ok (next_refresh ttl)).

(** [Run]; the fuel bounds the number of refreshes. *)
Fixpoint Run (fuel : nat) (provider : string) (initialWait : Z) : prog CredE unit :=
  match fuel with
  | O => Ret tt
  | S fuel' =>
      go <- call (Wait initialWait) ;;
      if go : bool then
        r <- Refresh provider ;;
        Run fuel' provider (match r with Ok wait => wait | Err _ => errorRetryInterval end)
      else Ret tt
  end.

(** * One resolver and its adapter *)

Record Pod {W : Type} := mkPod {
  adapterKey : string;
  source : string;
  podNow : Z;
  fetches : list (Z * answer);
  backend : W
}.
Arguments Pod W : clear implicits.
Arguments mkPod {W}.

Definition CurrentSource {W} (p : Pod W) : string := source p.

(** [NewResolver] with an adapter that has no key yet. *)
Definition NewResolver {W} (now : Z) (w : W) : Pod W := mkPod "" sourceNone now [] w.

Section Pod.
Context {W : Type} (fetcher : handler TokenFetcher W) (until : Z).

(** Fetching takes no time; the context is done at [until]. *)
Definition pod_env : handler CredE (Pod W) := fun X e p =>
  match e in CredE X return X * Pod W with
  | @Fetch Y e =>
      let '(x, w) := fetcher _ e (backend p) in
      (x, mkPod (adapterKey p) (source p) (podNow p)
            (fetches p ++ match e in TokenFetcher Y return Y -> _ with FetchToken _ _ => fun x => [(podNow p, x)] end x) w)
  | SetAPIKey k => (tt, mkPod k (source p) (podNow p) (fetches p) (backend p))
  | setSource s => (tt, mkPod (adapterKey p) s (podNow p) (fetches p) (backend p))
  | Wait d =>
      if podNow p + Z.max 0 d <? until
      then (true, mkPod (adapterKey p) (source p) (podNow p + Z.max 0 d) (fetches p) (backend p))
      else (false, p)
  end.

(** An answer the resolver uses. *)
Definition usable (a : answer) : bool :=
  match a with (token, _, None) => negb (bool_decide (token = "")) | _ => false end.

Definition key_of (a : answer) : string := a.1.1.

(** When the next fetch after an answer is due. *)
Definition wait_after (a : answer) : Z :=
  if usable a then next_refresh a.1.2 else errorRetryInterval.

(** The adapter's key after a list of answers: the last usable one. *)
Definition last_key (key : string) (l : list (Z * answer)) : string :=
  fold_left (fun k x => if usable x.2 then key_of x.2 else k) l key.

(** Consecutive fetches are apart by exactly the wait their answer asks for. *)
Fixpoint spaced (l : list (Z * answer)) : Prop :=
  match l with
  | x :: (y :: _) as l' => y.1 = x.1 + Z.max 0 (wait_after x.2) /\ spaced l'
  | _ => True
  end.

Lemma refresh_run provider p :
  let '((t, d, err), w) := fetcher _ (FetchToken provider "invoke") (backend p) in
  run pod_env (Refresh provider) p =
    ((if usable (t, d, err) then Ok (next_refresh d) else Err (no_credential provider err)),
     mkPod (if usable (t, d, err) then t else adapterKey p) (if usable (t, d, err) then SourceVault else sourceNone)
       (podNow p) (fetches p ++ [(podNow p, (t, d, err))]) w).
Proof.
  unfold Refresh. rewrite run_bind, run_call. cbn [pod_env].
  destruct (fetcher _ _ _) as [[[t d] err] w]. unfold usable.
  destruct err as [e|]; [by rewrite bool_decide_true by done|].
  rewrite bool_decide_false by (by intros [? ?]). simpl. by case_bool_decide.
Qed.
(** ** The log of a run *)

Definition from_vault (l : list (Z * answer)) : string :=
  match last l with Some x => if usable x.2 then SourceVault else sourceNone | None => sourceNone end.

(** The state is what the log says. *)
Definition logged (p : Pod W) : Prop :=
  adapterKey p = last_key "" (fetches p) /\ source p = from_vault (fetches p) /\ spaced (fetches p).

(** The last fetch was just now and asks for this wait. *)
Definition due (wait : Z) (p : Pod W) : Prop :=
  exists x, last (fetches p) = Some x /\ x.1 = podNow p /\ wait = wait_after x.2.

Lemma spaced_snoc l x y :
  spaced l -> last l = Some x -> y.1 = x.1 + Z.max 0 (wait_after x.2) -> spaced (l ++ [y]).
Proof.
  induction l as [|a l IH]; [done|]. destruct l as [|b l]; simpl; [intros _ [= ->]; done|].
  intros [Hab Hl] Hlast Hy. split; [done|]. by apply IH.
Qed.

Lemma last_key_snoc k l x : last_key k (l ++ [x]) = if usable x.2 then key_of x.2 else last_key k l.
Proof. unfold last_key. by rewrite fold_left_app. Qed.

Lemma refresh_logged provider p now' wait :
  logged p -> (fetches p = [] \/ due wait p) -> (fetches p <> [] -> now' = podNow p + Z.max 0 wait) ->
  let '(r, p') := run pod_env (Refresh provider) (mkPod (adapterKey p) (source p) now' (fetches p) (backend p)) in
  logged p' /\ due (match r with Ok w => w | Err _ => errorRetryInterval end) p'.
Proof.
  intros (Hk & Hs & Hsp) Hdue Hnow. pose proof (refresh_run provider (mkPod (adapterKey p) (source p) now' (fetches p) (backend p))) as Hr.
  cbn [backend adapterKey source podNow fetches] in Hr. destruct (fetcher _ _ _) as [[[t d] err] w]. rewrite Hr.
  split.
  - split; [|split]; cbn [adapterKey source fetches].
    + rewrite last_key_snoc. cbn [snd]. by destruct (usable _).
    + unfold from_vault. rewrite last_snoc. cbn [snd]. by destruct (usable _).
    + destruct Hdue as [He|(x & Hx & Ht & ->)]; [by rewrite He|]. eapply spaced_snoc; [done..|].
      cbn [fst]. rewrite Ht. apply Hnow. intros He. by rewrite He in Hx.
  - eexists. cbn [fetches podNow]. rewrite last_snoc. split; [done|]. split; [done|]. cbn [fst snd].
    unfold wait_after. by destruct (usable _).
Qed.

Lemma run_logged fuel provider wait p :
  logged p -> due wait p -> logged (run pod_env (Run fuel provider wait) p).2.
Proof.
  revert wait p. induction fuel as [|fuel IH]; intros wait p Hl Hd; [done|]. cbn [Run].
  rewrite run_bind, run_call. cbn [pod_env]. destruct (_ <? until); [|done].
  rewrite run_bind. pose proof (refresh_logged provider p (podNow p + Z.max 0 wait) wait Hl (or_intror Hd) (fun _ => eq_refl)) as H.
  destruct (run pod_env (Refresh provider) _) as [r p']. destruct H as [Hl' Hd']. by apply IH.
Qed.

Lemma spaced_lookup l i x y : spaced l -> l !! i = Some x -> l !! S i = Some y -> y.1 = x.1 + Z.max 0 (wait_after x.2).
Proof.
  revert i. induction l as [|a l IH]; intros i Hs Hx Hy; [done|].
  destruct l as [|b l]; [by destruct i|]. destruct Hs as [Hab Hs].
  destruct i as [|i]; [simpl in *; by simplify_eq|]. by apply (IH i).
Qed.

Lemma next_refresh_bounds ttl :
  0 <= ttl < 2^63 -> 0 < next_refresh ttl <= Z.max ttl errorRetryInterval
    /\ (refreshBuffer < ttl -> next_refresh ttl = ttl - refreshBuffer).
Proof.
  intros H. unfold next_refresh. rewrite wrap64_id by (unfold in64, refreshBuffer, second, millisecond; lia).
  unfold refreshBuffer, errorRetryInterval, second, millisecond in *. cbv zeta.
  repeat case_match; zbool; lia.
Qed.

(** C31. Keeping a key current.  Starting as [main] does, whatever the control
    plane answers and however often: the adapter's key is the last usable token
    ever fetched, so a failure never takes a key away or puts anything else in
    its place; the source is Vault exactly when the last fetch was usable; and
    fetches do not run in a tight loop: a key with more than 30 seconds
    to live is fetched again 30 seconds before it expires, a failed fetch is
    retried after 30 seconds, and any two fetches are apart. *)
Theorem credential_schedule fuel provider now w wait p1 :
  run pod_env (Refresh provider) (NewResolver now w) = (Ok wait, p1) ->
  let p := (run pod_env (Run fuel provider wait) p1).2 in
  adapterKey p = last_key "" (fetches p)
  /\ (CurrentSource p = SourceVault <-> exists x, last (fetches p) = Some x /\ usable x.2 = true)
  /\ forall i t a t' a', fetches p !! i = Some (t, a) -> fetches p !! S i = Some (t', a') ->
       if usable a then 0 <= a.1.2 < 2^63 -> t < t' /\ (refreshBuffer < a.1.2 -> t' = t + a.1.2 - refreshBuffer)
       else t' = t + errorRetryInterval.
Proof.
  intros Hr p. pose proof (refresh_logged provider (NewResolver now w) now 0) as H.
  cbn [NewResolver adapterKey source fetches backend] in H. unfold NewResolver in Hr. rewrite Hr in H.
  destruct H as [Hl Hd]; [done|by left|done|]. pose proof (run_logged fuel provider wait p1 Hl Hd) as (Hk & Hs & Hsp).
  fold p in Hk, Hs, Hsp. split; [done|]. split.
  - unfold CurrentSource. unfold from_vault in Hs. rewrite Hs. destruct (last _) as [x|]; [|by split; [discriminate|intros (? & ? & _)]].
    destruct (usable x.2) eqn:Hu; split; [by eauto|done|discriminate|]. intros (y & ? & ?). simplify_eq. congruence.
  - intros i t a t' a' Hi Hi'. pose proof (spaced_lookup _ _ _ _ Hsp Hi Hi') as Ht. cbn [fst snd] in Ht.
    unfold wait_after in Ht. destruct (usable a).
    + intros Hr'. destruct (next_refresh_bounds _ Hr') as [Hb He]. split; [lia|]. intros Hgt. specialize (He Hgt). lia.
    + unfold errorRetryInterval, second, millisecond in *. lia.
Qed.
End Pod.

(** * Over the in-memory fetcher *)

(** [FakeFetcher]: tokens by provider, one time to live, and the simulated
    outage. *)
Record FakeFetcher := mkFetcher { Tokens : gmap string string; TTL : Z; fetchErr : option error }.

Definition NewFakeFetcher : FakeFetcher := mkFetcher ∅ (300 * second) None.

Definition fake_fetcher : handler TokenFetcher FakeFetcher := fun X e f =>
  match e in TokenFetcher X return X * FakeFetcher with
  | FetchToken provider _ =>
      (match fetchErr f with
       | Some err => ("", 0, Some err)
       | None =>
           match Tokens f !! provider with
           | Some t => (t, TTL f, None)
           | None => ("", 0, Some (Errorf "no fake token for provider: %s" [provider]))
           end
       end, f)
  end.

Definition demo_fetcher : FakeFetcher := mkFetcher {[ "openai" := "sk-1" ]} (300 * second) None.

Lemma credential_schedule_witness :
  let p1 := mkPod "sk-1" SourceVault 0 [(0, ("sk-1", 300 * second, None))] demo_fetcher in
  let p := (run (pod_env fake_fetcher (1000 * second)) (Run 10 "openai" (270 * second)) p1).2 in
  adapterKey p = last_key "" (fetches p)
  /\ (CurrentSource p = SourceVault <-> exists x, last (fetches p) = Some x /\ usable x.2 = true)
  /\ forall i t a t' a', fetches p !! i = Some (t, a) -> fetches p !! S i = Some (t', a') ->
       if usable a then 0 <= a.1.2 < 2^63 -> t < t' /\ (refreshBuffer < a.1.2 -> t' = t + a.1.2 - refreshBuffer)
       else t' = t + errorRetryInterval.
Proof.
  refine (credential_schedule fake_fetcher (1000 * second) 10 "openai" 0 demo_fetcher (270 * second) _ _).
  vm_compute. reflexivity.
Defined.

(** Three refreshes in a thousand seconds. *)
Example demo_schedule :
  map fst (fetches (run (pod_env fake_fetcher (1000 * second)) (Run 10 "openai" (270 * second))
             (mkPod "sk-1" SourceVault 0 [(0, ("sk-1", 300 * second, None))] demo_fetcher)).2)
  = [0; 270 * second; 540 * second; 810 * second].
Proof. vm_compute. reflexivity. Qed.
