(* ===== verification/ControlPlane.v ===== *)
(** control-plane/main.go: the gRPC handlers of ControlService.

    Each handler is the service's operation with its result turned into a
    response or a status.  [grpc_fetcher] is provider-gateway's client of
    [IssueProviderToken]; with the Vault client behind it, the last theorem
    follows a provider's key from Vault to the adapter that uses it. *)

From S2P Require Import Prelude Errors Prog Http Json GoTime Signer Vault ProviderToken Etcd Registry Rollout Deploy RolloutSpec Credentials.
#[local] Open Scope Z_scope.

(** * The registry's handlers *)

Definition internal (e : error) : error := StatusOf Internal e.

Definition rpc_RegisterModelManifest (modelRef specJSON createdBy : string) : prog CpE (res string) :=
  wrapped internal (deployed_registry (RegisterModelManifest modelRef specJSON createdBy)).

Record GetModelManifestResponse := mkManifestResponse {
  mrVersionId : string; mrModelRef : string; mrSpecJson : string; mrSignature : string;
  mrCreatedBy : string; mrCreatedAt : string; mrStatus : string }.

Definition manifest_response (m : Manifest) : GetModelManifestResponse :=
  mkManifestResponse (VersionID m) (ModelRef m) (SpecJSON m) (Signature m) (CreatedBy m)
    (rfc3339 (CreatedAt m)) (Status m).

(** The switch on the error of [GetModelManifest]. *)
Definition map_manifest_error (e : error) : error :=
  if errors_is e "registry.ErrNotFound" then StatusOf NotFound e
  else if errors_is e "registry.ErrInvalidSignature" then StatusOf FailedPrecondition e
  else StatusOf Internal e.

Definition rpc_GetModelManifest (modelRef versionID : string) : prog CpE (res GetModelManifestResponse) :=
  m <-? wrapped map_manifest_error (deployed_registry (Registry.GetModelManifest modelRef versionID)) ;;
  Ret (Ok (manifest_response m)).

Definition rpc_ListModels : prog CpE (res (list (string * string))) :=
  entries <-? wrapped internal (deployed_registry ListModels) ;;
  Ret (Ok (map (fun e => (eModelRef e, ActiveVersionID e)) entries)).

(** * The rollout handlers *)

(** [mapRolloutError]. *)
Definition mapRolloutError (e : error) : error :=
  if errors_is e "rollout.ErrNotFound" then StatusOf NotFound e
  else if errors_is e "rollout.ErrNotRunning" || errors_is e "rollout.ErrAlreadyRunning"
          || errors_is e "rollout.ErrAlreadyFullyPromoted" || errors_is e "rollout.ErrNoActiveVersion"
  then StatusOf FailedPrecondition e
  else StatusOf Internal e.

Definition rpc_CreateRollout (modelRef versionID strategyJSON : string) : prog CpE (res string) :=
  wrapped mapRolloutError (deployed (CreateRollout modelRef versionID strategyJSON)).

Definition rpc_PromoteRollout (rolloutID : string) : prog CpE (res string) :=
  wrapped mapRolloutError (deployed (PromoteRollout rolloutID)).

Definition rpc_AbortRollout (rolloutID : string) : prog CpE (res unit) :=
  wrapped mapRolloutError (deployed (AbortRollout rolloutID)).

Record RolloutResponse := mkRolloutResponse {
  rrRolloutId : string; rrModelRef : string; rrVersionId : string; rrStage : string; rrStatus : string;
  rrCanaryPercent : Z; rrStartedAt : string; rrEndedAt : string }.

(** [rolloutToProto]; an unset [ended_at] is the empty string. *)
Definition rolloutToProto (r : Rollout) : RolloutResponse :=
  mkRolloutResponse (RolloutID r) (rModelRef r) (rVersionID r) (Stage r) (rStatus r)
    (StagePercent (Stage r)) (rfc3339 (StartedAt r))
    (match EndedAt r with Some t => rfc3339 t | None => "" end).

Definition map_status_error (e : error) : error :=
  if errors_is e "rollout.ErrNotFound" then StatusOf NotFound e else StatusOf Internal e.

Definition rpc_GetRolloutStatus (rolloutID modelRef : string) : prog CpE (res RolloutResponse) :=
  r <-? wrapped map_status_error (deployed (GetRolloutStatus rolloutID modelRef)) ;;
  Ret (Ok (rolloutToProto r)).

Definition rpc_ListRollouts (modelRef : string) (limit : Z) : prog CpE (res (list RolloutResponse)) :=
  rs <-? wrapped internal (deployed (Service_ListRollouts modelRef limit)) ;;
  Ret (Ok (map rolloutToProto rs)).

(** * [IssueProviderToken] *)

Definition rpc_IssueProviderToken (s : Service) (provider scope : string) : prog SecretReader (res (string * Z)) :=
  if bool_decide (provider = "") then Ret (Err (Errors.Status InvalidArgument "provider is required"))
  else
    x <- IssueToken s provider scope ;;
    Ret (match x with
         | Err _ => Err (Errors.Status Internal "failed to issue provider token")
         | Ok x => Ok x
         end).

(** * What the statuses say *)

Section Codes.
Context {S : Type} (hsigner : handler SignerE S) (uuid : nat -> string).
Abbreviation CPS := (Cp S).
Abbreviation cp := (Deploy.cp hsigner uuid).

(** The status a rollout command has to get from the rollout's row. *)
Definition refusal (id : string) (w : CPS) : option Code :=
  if negb (rdb_up (cp_rollouts w)) then Some Internal
  else match row id w with
       | None => Some NotFound
       | Some r => if bool_decide (rStatus r = "running") then None else Some FailedPrecondition
       end.

Lemma guard_refusal id w :
  match refusal id w with
  | Some c => exists e, guard id "" w = Err e /\ exists e', mapRolloutError e = StatusOf c e'
  | None => exists r, guard id "" w = Ok r /\ row id w = Some r
  end.
Proof.
  unfold refusal, guard. destruct (rdb_up _); cbn [negb].
  - destruct (row id w) as [r|]; [|by do 2 eexists; eexists].
    rewrite (bool_decide_true ("" = "")) by done. cbn [negb andb].
    case_bool_decide; cbn [negb]; [by eexists|by do 2 eexists; eexists].
  - by do 2 eexists; eexists.
Qed.

(** What promoting row [r] comes to when nothing interferes: the whole move, or
    Internal and which write is left behind. *)
Definition promoted (id : string) (r : Rollout) (next : string) (w : CPS) (p : res string) (wp : CPS) : Prop :=
  let internal_ := exists e, p = Err (StatusOf Internal e) in
  let registered := is_Some (model_manifest (cp_tables w) !! rVersionID r) in
  if bool_decide (next = "stable") then
    if db_up (cp_tables w) && bool_decide registered then
      if etcd_up (cp_etcd w) then
        p = Ok next
        /\ wp = put_row id (moved r next "promoted" (Some (cp_clock w)) (now w))
                  (set_kv (rModelRef r) (mkActiveEnvelope (rVersionID r) "" 0) (set_active (rModelRef r) (rVersionID r) w))
      else internal_ /\ wp = set_active (rModelRef r) (rVersionID r) w
    else internal_ /\ wp = w
  else if etcd_up (cp_etcd w) then
    p = Ok next
    /\ wp = put_row id (moved r next "running" None (now w))
              (set_kv (rModelRef r) (mkActiveEnvelope (StableVersionID r) (rVersionID r) (stagePercent next)) w)
  else internal_ /\ wp = w.

(** C32. Statuses of the rollout commands.  Promoting or aborting through the RPC,
    no other call interfering and each database and etcd up or down throughout: an
    unreadable table is Internal, an unknown rollout NotFound, one that is no
    longer running FailedPrecondition, each with nothing changed.  A running one
    without a next stage is not promoted (FailedPrecondition, nothing changed).
    Otherwise the promotion succeeds exactly when etcd is up and, at the last
    stage, the registry database is up and knows the version: it moves the row and
    the routing, and at the last stage the active version.  If not, it is Internal
    with nothing changed, but for the active version at the last stage when only
    etcd is down.  The abort succeeds exactly when etcd is up, closing the row and
    routing everything to the old version; if not it is Internal with nothing
    changed. *)
Theorem rollout_rpc_statuses id (w : CPS) :
  (forall r, row id w = Some r -> known_stage (Stage r) = true) ->
  let '(p, wp) := run cp (rpc_PromoteRollout id) w in
  let '(a, wa) := run cp (rpc_AbortRollout id) w in
  match refusal id w with
  | Some c => (exists e, p = Err (StatusOf c e)) /\ wp = w /\ (exists e, a = Err (StatusOf c e)) /\ wa = w
  | None => exists r, row id w = Some r
      /\ match nextStage (Stage r) with
         | None => (exists e, p = Err (StatusOf FailedPrecondition e)) /\ wp = w
         | Some next => promoted id r next w p wp
         end
      /\ if etcd_up (cp_etcd w) then
           a = Ok tt
           /\ wa = put_row id (moved r (Stage r) "aborted" (Some (cp_clock w)) (now w))
                     (set_kv (rModelRef r) (mkActiveEnvelope (StableVersionID r) "" 0) w)
         else (exists e, a = Err (StatusOf Internal e)) /\ wa = w
  end.
Proof.
  intros Hks. unfold rpc_PromoteRollout, rpc_AbortRollout, PromoteRollout, AbortRollout.
  rewrite !run_wrapped, advance_run, revert_run by done. cbn [fst snd].
  unfold advance_outcome, revert_outcome. pose proof (guard_refusal id w) as Hg.
  destruct (refusal id w) as [c|].
  - destruct Hg as (e & -> & e' & He). cbn [fst snd map_err]. rewrite He. eauto 6.
  - destruct Hg as (r & -> & Hr). exists r. split; [done|]. split.
    + destruct (nextStage (Stage r)) as [next|]; [|by split; [eexists|]]. unfold promoted.
      case_bool_decide as Hst; [destruct (db_up _ && _); [|by split; [eexists|]]|];
        (destruct (etcd_up (cp_etcd w)); [done|by split; [eexists|]]).
    + destruct (etcd_up (cp_etcd w)); [done|by split; [eexists|]].
Qed.

(** A lost race is an opaque Internal to the caller, although the error exists to
    be told apart; so is a target version that does not exist. *)
Lemma conflict_is_internal :
  mapRolloutError ErrConcurrentUpdate = StatusOf Internal ErrConcurrentUpdate
  /\ mapRolloutError (Wrapf "target version invalid: %w" [] Registry.ErrNotFound)
     = StatusOf Internal (Wrapf "target version invalid: %w" [] Registry.ErrNotFound).
Proof. done. Qed.
(** Rows are stored under their own id. *)
Definition keyed (w : CPS) : Prop := forall id r, row id w = Some r -> RolloutID r = id.

Lemma cp_keyed X (e : CpE X) w : keyed w -> keyed (cp X e w).2.
Proof.
  unfold keyed, row. intros H. destruct e as [Y e|Y e|Y e|Y e| |]; simpl.
  - by destruct (cockroach_store Y e _).
  - destruct w as [tb [t up tn] ke sg ck dr]. simpl in H. destruct e; simpl; unfold on_rows; simpl;
      (destruct up; [|done]); simpl; try done.
    + unfold Cockroach_InsertRollout. destruct (_ || _ || _); [done|]. simpl. intros id' r'.
      destruct (decide (RolloutID r = id')) as [<-|Hne]; [rewrite lookup_insert_eq|by rewrite lookup_insert_ne; auto].
      by intros [= <-].
    + unfold Cockroach_UpdateRollout. destruct (t !! rolloutID) as [r|] eqn:Hr; [|done].
      destruct (_ && _); [|done]. destruct (_ && _); [|done]. simpl. intros id' r'.
      destruct (decide (rolloutID = id')) as [<-|Hne]; [rewrite lookup_insert_eq|by rewrite lookup_insert_ne; auto].
      intros [= <-]. simpl. by apply H.
  - by destruct (etcd Y e _).
  - by destruct (hsigner Y e _).
  - done.
  - done.
Qed.

Lemma served_keyed rs w : keyed w -> keyed (serve_all hsigner uuid rs w).2.
Proof.
  revert w. induction rs as [|r rs IH]; intros w Hw; [done|]. cbn [serve_all].
  pose proof (run_preserves cp (fun w w' => keyed w -> keyed w') (serve r) w) as H.
  destruct (run cp (serve r) w) as [x w1]. specialize (IH w1).
  destruct (serve_all hsigner uuid rs w1) as [xs w2]. apply IH, H; [auto..| |done]. intros; by apply cp_keyed.
Qed.

(** One rollout, one message.  After any sequence of calls, every rollout in
    an answer of ListRollouts is the message GetRolloutStatus gives for its id. *)
Theorem list_agrees_with_status rs w0 m limit l w2 :
  keyed w0 -> let w := (serve_all hsigner uuid rs w0).2 in
  run cp (rpc_ListRollouts m limit) w = (Ok l, w2) ->
  w2 = w /\ forall x, x ∈ l -> rrRolloutId x <> "" -> run cp (rpc_GetRolloutStatus (rrRolloutId x) "") w = (Ok x, w).
Proof.
  intros Hk w. pose proof (served_keyed rs w0 Hk) as Hkw. fold w in Hkw. clearbody w.
  destruct w as [tb [t up tn] ke sg ck dr]. unfold rpc_ListRollouts. rewrite run_rbind, run_wrapped.
  cbn. unfold on_rows. cbn. destruct up; cbn; [|done]. intros [= <- <-]. split; [done|].
  intros x Hx Hid. apply list_elem_of_fmap in Hx as (r & -> & Hr). cbn [rrRolloutId rolloutToProto] in *.
  assert (t !! RolloutID r = Some r) as Hrow.
  { unfold Cockroach_ListRollouts in Hr. fold (matching m t) in Hr.
    assert (In r (matching m t)) as Hm.
    { apply list_elem_of_In. rewrite <- (sort_desc_perm (matching m t)), <- (take_drop (Z.to_nat (clamp_limit limit)) (sort_desc _)).
      apply elem_of_app. by left. }
    assert (In r (all_rows t)) as Ha.
    { unfold matching in Hm. case_bool_decide; [done|]. by apply filter_In in Hm as [Hm _]. }
    apply in_map_iff in Ha as ([id r'] & Heq & Ha). simpl in Heq. subst r'.
    apply list_elem_of_In, elem_of_map_to_list in Ha. by rewrite (Hkw id r Ha). }
  unfold rpc_GetRolloutStatus. rewrite run_rbind, run_wrapped. unfold GetRolloutStatus.
  rewrite bool_decide_false by done. cbn. unfold on_rows. cbn. by rewrite Hrow.
Qed.
End Codes.

(** * A provider's key, from Vault to the adapter *)

Section Keys.
Context {V : Type} (c0 : Client) (hv : handler VaultE V) (s : Service).

(** The Vault client as the service's [SecretReader]. *)
Definition vault_reader : handler SecretReader (V * session) := fun X e st =>
  match e in SecretReader X return X * (V * session) with
  | ReadProviderSecret p =>
      let '((x, c), v) := run hv (Vault.ReadProviderSecret (client_of c0 st.2) p) st.1 in (x, (v, session_of c))
  end.

(** [GRPCFetcher.FetchToken]: the RPC's answer as the fetcher's three results. *)
Definition grpc_fetcher : handler TokenFetcher (V * session) := fun X e st =>
  match e in TokenFetcher X return X * (V * session) with
  | FetchToken provider scope =>
      let '(x, st') := run vault_reader (rpc_IssueProviderToken s provider scope) st in
      (match x with
       | Ok (token, ttlSeconds) => (token, wrap64 (ttlSeconds * second), None)
       | Err e => ("", 0, Some e)
       end, st')
  end.

(** A Vault that answers, while it is in one of the states [ok]: it lets the
    client log in and has a key for the provider. *)
Record serves (ok : V -> Prop) (provider key : string) : Prop := {
  serves_file v : ok v -> exists jwt v', hv _ (ReadFile (saTokenPath c0)) v = (Ok jwt, v') /\ ok v';
  serves_build m u v : ok v -> exists v', hv _ (BuildRequest m u) v = (Ok tt, v') /\ ok v';
  serves_now v : ok v -> ok (hv _ VaultNow v).2;
  serves_login jwt v : ok v -> exists text a v',
    hv _ (VaultDo (login_request c0 jwt)) v = (Ok (mkHttpResponse 200 (mkBody text None)), v') /\ ok v'
    /\ unmarshal d_auth text zeroAuth = (a, None) /\ ClientToken a <> "";
  serves_secret token v : ok v -> exists text r v',
    hv _ (VaultDo (secret_request c0 provider token)) v = (Ok (mkHttpResponse 200 (mkBody text None)), v') /\ ok v'
    /\ unmarshal d_kv text zeroKv = (r, None) /\ kvData r !! "api_key" = Some (JStr key)
}.

Lemma exchange_run b1 b2 b3 r v v1 v2 status text :
  hv _ (BuildRequest (Method r) (URL r)) v = (Ok tt, v1) ->
  hv _ (VaultDo r) v1 = (Ok (mkHttpResponse status (mkBody text None)), v2) ->
  run hv (exchange b1 b2 b3 r) v = (Ok (status, text), v2).
Proof.
  intros H1 H2. unfold exchange. rewrite run_rbind, run_wrapped, run_call, H1. cbn [map_err fst snd].
  by rewrite run_rbind, run_wrapped, run_call, H2.
Qed.

Context (ok : V -> Prop) (provider key : string) (Hserves : serves ok provider key).

Lemma login_run t v : ok v -> exists c' v', run hv (login (client_of c0 t)) v = (Ok c', v') /\ same_config c0 c' /\ ok v'.
Proof.
  intros Hok. destruct (serves_file _ _ _ Hserves v Hok) as (jwt & v1 & H1 & Ho1).
  set (r := login_request (client_of c0 t) jwt).
  destruct (serves_build _ _ _ Hserves (Method r) (URL r) v1 Ho1) as (v2 & H2 & Ho2).
  destruct (serves_login _ _ _ Hserves jwt v2 Ho2) as (text & a & v3 & H3 & Ho3 & Ha & Hne).
  unfold login. rewrite run_rbind, run_wrapped, run_call. change (saTokenPath (client_of c0 t)) with (saTokenPath c0).
  rewrite H1. cbn [map_err fst snd]. rewrite run_rbind, (exchange_run _ _ _ _ _ v2 v3 200 text H2 H3), Ha.
  rewrite bool_decide_false by done. cbn [Z.eqb Pos.eqb negb orb]. rewrite run_bind, run_call.
  pose proof (serves_now _ _ _ Hserves v3 Ho3) as Ho4.
  destruct (hv _ VaultNow v3) as [now v4]. do 2 eexists. split; [done|]. split; [|done].
  apply same_config_with, client_of_config.
Qed.

Lemma ensure_run t v : ok v -> exists c' v', run hv (ensureToken (client_of c0 t)) v = (Ok c', v') /\ same_config c0 c' /\ ok v'.
Proof.
  intros Hok. unfold ensureToken. destruct (negb _); [|by apply login_run]. rewrite run_bind, run_call.
  pose proof (serves_now _ _ _ Hserves v Hok) as Ho1.
  destruct (hv _ VaultNow v) as [now v1]. destruct (now <? _); [|by apply login_run].
  do 2 eexists. split; [done|]. split; [apply client_of_config|done].
Qed.

Lemma secret_run st : ok st.1 -> key <> "" -> exists st', vault_reader _ (ReadProviderSecret provider) st = (Ok key, st').
Proof.
  intros Hok Hne. destruct st as [v t]. unfold vault_reader. cbn [fst snd] in *. unfold Vault.ReadProviderSecret, with_auth.
  destruct (ensure_run t v Hok) as (c' & v1 & H1 & Hc & Ho1). rewrite run_bind, run_wrapped, H1. cbn [map_err fst snd].
  rewrite run_bind. change (secret_request (client_of c0 t)) with (secret_request c0).
  set (r := secret_request c0 provider (vaultToken c')).
  destruct (serves_build _ _ _ Hserves (Method r) (URL r) v1 Ho1) as (v2 & H2 & Ho2).
  destruct (serves_secret _ _ _ Hserves (vaultToken c') v2 Ho2) as (text & kv & v3 & H3 & _ & Hu & Hk).
  rewrite run_rbind, (exchange_run _ _ _ _ _ v2 v3 200 text H2 H3), Hu. cbn [Z.eqb Pos.eqb negb run].
  rewrite Hk, bool_decide_false by done. by eexists.
Qed.
End Keys.

(** C19. A provider's key, end to end.  While Vault answers and holds a key for the
    provider, a refresh of the gateway's resolver, whatever session the control
    plane's client is in, puts exactly this key into the adapter and asks to be
    called again before the configured time to live is over; when reading the
    secret fails, the gateway learns nothing of the reason and the adapter keeps
    the key it had. *)
Theorem provider_key_end_to_end {V} (c0 : Client) (hv : handler VaultE V) (s : Service) until provider (p : Pod (V * session)) :
  provider <> "" ->
  (forall ok key, serves c0 hv ok provider key -> ok (backend p).1 -> key <> "" -> refreshBuffer < ttl s < 2^63 -> ttl s mod second = 0 ->
     exists p', run (pod_env (grpc_fetcher c0 hv s) until) (Refresh provider) p = (Ok (ttl s - refreshBuffer), p')
       /\ adapterKey p' = key /\ CurrentSource p' = SourceVault)
  /\ (forall e st, vault_reader c0 hv _ (ReadProviderSecret provider) (backend p) = (Err e, st) ->
     exists p', run (pod_env (grpc_fetcher c0 hv s) until) (Refresh provider) p
       = (Err (no_credential provider (Some (Errors.Status Internal "failed to issue provider token"))), p')
       /\ adapterKey p' = adapterKey p /\ CurrentSource p' = sourceNone).
Proof.
  intros Hp. pose proof (refresh_run (grpc_fetcher c0 hv s) until provider p) as Hr.
  cbn [grpc_fetcher] in Hr. unfold rpc_IssueProviderToken, IssueToken in Hr. rewrite bool_decide_false in Hr by done.
  rewrite run_bind, run_rbind, run_call in Hr. split.
  - intros ok key Hs Hok Hne Httl Hsec. destruct (secret_run c0 hv ok provider key Hs (backend p) Hok Hne) as (st' & Hsecret).
    rewrite Hsecret in Hr. cbn in Hr. rewrite bool_decide_false in Hr by done. cbn in Hr.
    assert (wrap64 (int_seconds (ttl s) * second) = ttl s) as Hw.
    { unfold int_seconds. rewrite Z.quot_div_nonneg by (unfold refreshBuffer, second, millisecond in *; lia).
      rewrite Z.mul_comm, <- Z_div_exact_full_2; [|done|done]. apply wrap64_id. unfold in64, refreshBuffer, second, millisecond in *. lia. }
    rewrite Hw in Hr. assert (refreshBuffer < ttl s) as Hlt by lia.
    rewrite (proj2 (next_refresh_bounds (ttl s) ltac:(unfold refreshBuffer, second, millisecond in *; lia)) Hlt) in Hr.
    eexists. split; [exact Hr|done].
  - intros e st He. rewrite He in Hr. cbn in Hr. eexists. split; [exact Hr|done].
Qed.

(** * Witnesses *)

Definition demo_vault : DevVault := mkDevVault {[ "openai" := "sk-1" ]} 0.

(** While its secrets are these, the example Vault serves openai's. *)
Lemma dev_vault_serves a role : serves (New a role) (dev_vault a) (fun v => secrets v = secrets demo_vault) "openai" "sk-1".
Proof.
  split; [by do 2 eexists|by eexists|done| |].
  - intros jwt v Hv. exists (print (JObj [("auth", JObj [("client_token", JStr "s.1"); ("lease_duration", JNum "900")])])),
      (mkAuth "s.1" 900 []), v. split; [|split; [done|split; [vm_compute; done|done]]].
    cbn [dev_vault]. unfold dev_respond. cbn [URL login_request addr New].
    change (a +:+ "/v1/auth/kubernetes/login") with (a +:+ ("/v1/auth/kubernetes/login" +:+ "")).
    by rewrite has_prefix_same, has_prefix_app.
  - intros token v Hv. exists (print (JObj [("data", JObj [("data", JObj [("api_key", JStr "sk-1")])])])),
      (mkKv {[ "api_key" := JStr "sk-1" ]} []), v. split; [|split; [done|split; [vm_compute; done|done]]].
    cbn [dev_vault]. unfold dev_respond. cbn [URL secret_request addr New].
    change (a +:+ "/v1/secret/data/provider/" +:+ "openai") with (a +:+ ("/v1/secret/data/provider/" +:+ "openai")).
    rewrite !has_prefix_same, has_prefix_app. rewrite <- !str_app_assoc, trim_prefix_app.
    rewrite Hv. done.
Qed.

Lemma provider_key_end_to_end_witness :
  let c := New "http://vault" "control-plane" in
  exists p', run (pod_env (grpc_fetcher c (dev_vault "http://vault") (NewService (300 * second))) (1000 * second))
      (Refresh "openai") (NewResolver 0 (demo_vault, ("", zero_time)))
    = (Ok (270 * second), p') /\ adapterKey p' = "sk-1" /\ CurrentSource p' = SourceVault.
Proof.
  refine (proj1 (provider_key_end_to_end (New "http://vault" "control-plane") (dev_vault "http://vault")
    (NewService (300 * second)) (1000 * second) "openai" (NewResolver 0 (demo_vault, ("", zero_time))) _)
    _ "sk-1" (dev_vault_serves "http://vault" "control-plane") _ _ _ _);
    [discriminate|reflexivity|discriminate|vm_compute; split; reflexivity|reflexivity].
Defined.

Lemma rollout_rpc_statuses_witness :
  let w := with_rollout "canary_1" in
  let '(p, wp) := run test_cp (rpc_PromoteRollout "r1") w in
  let '(a, wa) := run test_cp (rpc_AbortRollout "r1") w in
  p = Ok "canary_10" /\ at_ <$> row "r1" wp = Some ("canary_10", "running")
  /\ a = Ok tt /\ at_ <$> row "r1" wa = Some ("canary_1", "aborted").
Proof.
  pose proof (rollout_rpc_statuses clear_signer test_uuid "r1" (with_rollout "canary_1")) as H.
  cbv zeta. destruct (run test_cp (rpc_PromoteRollout "r1") _) as [p wp], (run test_cp (rpc_AbortRollout "r1") _) as [a wa].
  destruct H as (r & Hr & Hp & Ha).
  - intros r Hr. vm_compute in Hr. injection Hr as <-. reflexivity.
  - vm_compute in Hr. injection Hr as <-. cbn in Ha. destruct Hp as [-> ->], Ha as [-> ->]. repeat split.
Defined.

(** The other statuses, for a rollout that does not exist, one that is over, and
    one whose promotion etcd refuses. *)
Example rollout_refusals :
  let code w := map_err (fun e => match e with StatusOf c _ => StatusOf c (Lib "") | e => e end) (run test_cp (rpc_PromoteRollout "r1") w).1 in
  code (deployment ∅ true) = Err (StatusOf NotFound (Lib ""))
  /\ code (run test_cp (rpc_AbortRollout "r1") (with_rollout "canary_1")).2 = Err (StatusOf FailedPrecondition (Lib ""))
  /\ code (deployment {[ "r1" := row_at "canary_50" ]} false) = Err (StatusOf Internal (Lib "")).
Proof. vm_compute. auto. Qed.

Lemma list_agrees_with_status_witness :
  let w := (serve_all clear_signer test_uuid [DoPromote "r1"] (with_rollout "canary_1")).2 in
  exists l, (run test_cp (rpc_ListRollouts "" 10) w).1 = Ok l
    /\ forall x, x ∈ l -> rrRolloutId x <> "" -> run test_cp (rpc_GetRolloutStatus (rrRolloutId x) "") w = (Ok x, w).
Proof.
  intros w. eexists. split; [vm_compute; reflexivity|].
  refine (proj2 (list_agrees_with_status clear_signer test_uuid [DoPromote "r1"] (with_rollout "canary_1") "" 10 _ w _ _)).
  - intros id r Hr. unfold row, with_rollout in Hr. simpl in Hr. apply lookup_singleton_Some in Hr as [<- <-]. reflexivity.
  - vm_compute. reflexivity.
Defined.
