(* ===== verification/Authn.v ===== *)
(** admin-api/internal/authn: who a caller is.

    [Authenticate] is a program over the one lookup the package may make;
    [authn_interceptor] and [HTTPMiddleware] are the two transports' uses of it.
    [admin_user] is the table it reads, by the hash of the credential. *)

From S2P Require Import Prelude Errors Prog Json Sha256.
From Stdlib Require Import Ascii.
#[local] Open Scope Z_scope.

Definition ErrMissingCredential : error := Sentinel "authn.ErrMissingCredential".
Definition ErrInvalidCredential : error := Sentinel "authn.ErrInvalidCredential".
Definition ErrRevoked : error := Sentinel "authn.ErrRevoked".

Record Identity := mkIdentity { UserID : string; OrgID : string; Role : string }.

#[global] Instance Identity_eq_dec : EqDecision Identity.
Proof. solve_decision. Defined.

Record Row := mkRow { rowUserID : string; rowOrgID : string; rowRole : string; RevokedAt : option Z }.

(** The [Store] interface; [None] is no such row. *)
Inductive StoreE : interface :=
| LookupByHash (hash : string) : StoreE (res (option Row)).

Definition HashToken (raw : string) : string := sha256_hex raw.

Definition Authenticate (rawToken : string) : prog StoreE (res Identity) :=
  if bool_decide (rawToken = "") then Ret (Err ErrMissingCredential)
  else
    row <-? call (LookupByHash (HashToken rawToken)) ;;
    Ret (match (row : option Row) with
         | None => Err ErrInvalidCredential
         | Some row =>
             match RevokedAt row with
             | Some _ => Err ErrRevoked
             | None => Ok (mkIdentity (rowUserID row) (rowOrgID row) (rowRole row))
             end
         end).

(** * The credential of a request *)

(** [strings.EqualFold] of a slice with "bearer ", whose letters have no case
    variants outside ASCII. *)
Definition equal_fold (a b : string) : bool := bool_decide (fold_name a = fold_name b).

Definition prefix : string := "bearer ".

(** The token after a "bearer " of any case; nothing else is one. *)
Definition bearerTokenFromHeader (v : string) : string :=
  if (String.length prefix <? String.length v)%nat && equal_fold (take_str (String.length prefix) v) prefix
  then drop_str (String.length prefix) v
  else "".

(** [bearerToken]: the first of the metadata's "authorization" values. *)
Definition bearerToken (authorization : list string) : string :=
  match authorization with [] => "" | v :: _ => bearerTokenFromHeader v end.

(** What both transports answer to any failure. *)
Definition unauthenticated : error := Status Unauthenticated "invalid or missing admin credential".

(** [UnaryInterceptor]: the handler runs with the identity, or not at all. *)
Definition authn_interceptor {E : interface} {A} (lookup : forall X, StoreE X -> E X)
    (authorization : list string) (handler : Identity -> prog E (res A)) : prog E (res A) :=
  id <- link (fun X e => call (lookup X e)) (Authenticate (bearerToken authorization)) ;;
  match id with
  | Err _ => Ret (Err unauthenticated)
  | Ok id => handler id
  end.

(** [HTTPMiddleware]: the response is the handler's, or 401 with a fixed body. *)
Definition unauthorized_body : string :=
  print (JObj [("errors", JArr [JObj [("message", JStr "invalid or missing admin credential")]])]) +:+ String (ascii_of_nat 10) "".

Definition HTTPMiddleware {E : interface} (lookup : forall X, StoreE X -> E X)
    (header : string) (next : Identity -> prog E (Z * string)) : prog E (Z * string) :=
  id <- link (fun X e => call (lookup X e)) (Authenticate (bearerTokenFromHeader header)) ;;
  match id with
  | Err _ => Ret (401, unauthorized_body)
  | Ok id => next id
  end.

(** * The stores *)

(** The table admin_user by its unique credential_hash, and whether the database
    answers. *)
Record AdminUsers := mkAdminUsers { admin_user : gmap string Row; users_up : bool }.

Definition Cockroach_LookupByHash (hash : string) (t : AdminUsers) : res (option Row) :=
  if users_up t then Ok (admin_user t !! hash) else Err (Lib "cockroach").

Definition cockroach_users : handler StoreE AdminUsers := fun X e t =>
  match e in StoreE X return X * AdminUsers with
  | LookupByHash hash => (Cockroach_LookupByHash hash t, t)
  end.

(** [FakeStore]. *)
Record FakeStore := mkFakeStore { fake_rows : gmap string Row; fakeErr : option error }.

Definition NewFakeStore : FakeStore := mkFakeStore ∅ None.

Definition Seed (hash : string) (row : Row) (s : FakeStore) : FakeStore :=
  mkFakeStore (<[hash := row]> (fake_rows s)) (fakeErr s).

Definition fake_users : handler StoreE FakeStore := fun X e s =>
  match e in StoreE X return X * FakeStore with
  | LookupByHash hash => (match fakeErr s with Some err => Err err | None => Ok (fake_rows s !! hash) end, s)
  end.

(** * Facts the interceptor chain uses *)

(** Who a token stands for, according to the table. *)
Definition holder (t : AdminUsers) (token : string) : option Identity :=
  if users_up t && negb (bool_decide (token = "")) then
    match admin_user t !! HashToken token with
    | Some row => match RevokedAt row with
                  | Some _ => None
                  | None => Some (mkIdentity (rowUserID row) (rowOrgID row) (rowRole row))
                  end
    | None => None
    end
  else None.

Lemma authenticate_run t token :
  let '(r, t') := run cockroach_users (Authenticate token) t in
  t' = t /\ match holder t token with Some id => r = Ok id | None => exists e, r = Err e end.
Proof.
  unfold Authenticate, holder. case_bool_decide; simpl.
  - rewrite andb_false_r. by eauto.
  - unfold Cockroach_LookupByHash. destruct (users_up t); simpl; [|by eauto].
    destruct (admin_user t !! _) as [row|]; simpl; [|by eauto]. destruct (RevokedAt row); eauto.
Qed.

Example bearer_tokens :
  bearerTokenFromHeader "Bearer abc" = "abc" /\ bearerTokenFromHeader "BEARER  x" = " x"
  /\ bearerTokenFromHeader "bearer " = "" /\ bearerTokenFromHeader "Basic abc" = "" /\ bearerTokenFromHeader "bearer" = "".
Proof. vm_compute. auto. Qed.
