(* ===== verification/AuditStore.v ===== *)
(** admin-api/internal/audit: the append-only log of admin actions.

    [Writer] and [Reader] are the two interfaces; [AuditLog] is the table
    audit_log with the clock and the availability of the database.  The table is
    only ever extended. *)

From S2P Require Import Prelude Errors Prog Json GoTime.
From stdpp Require Import sorting.
#[local] Open Scope Z_scope.

(** [Entry]; the values marshalled are JSON already, [None] is Go's nil. *)
Record Entry := mkEntry { Actor : string; Action : string; Target : string; Before : option json; After : option json }.

Inductive Writer : interface := Write (e : Entry) : Writer (res unit).

(** [marshalNullable]: SQL NULL for nil. *)
Definition marshalNullable (v : option json) : option string := print <$> v.

(** A row of audit_log, [ts] being the database's default. *)
Record Record_ := mkRecord { AuditID : string; rActor : string; rAction : string; rTarget : string;
  BeforeJSON : option string; AfterJSON : option string; ts : Z }.

(** The table in order of insertion, the actors its foreign key accepts, whether
    the database answers, its clock, and its UUIDs. *)
Record AuditLog := mkAuditLog {
  audit_log : list Record_; known_actor : string -> bool; audit_up : bool; audit_now : Z }.

Definition row_of (id : string) (now : Z) (e : Entry) : Record_ :=
  mkRecord id (Actor e) (Action e) (Target e) (marshalNullable (Before e)) (marshalNullable (After e)) now.

Section Store.
Context (uuid : nat -> string).

(** INSERT INTO audit_log. *)
Definition Cockroach_Write (e : Entry) (t : AuditLog) : res unit * AuditLog :=
  if audit_up t && known_actor t (Actor e) then
    (Ok tt, mkAuditLog (audit_log t ++ [row_of (uuid (length (audit_log t))) (audit_now t) e])
              (known_actor t) (audit_up t) (audit_now t))
  else (Err (Lib "cockroach"), t).

Definition cockroach_writer : handler Writer AuditLog := fun X e t =>
  match e in Writer X return X * AuditLog with Write e => Cockroach_Write e t end.
End Store.

(** [FakeWriter]. *)
Record FakeWriter := mkFakeWriter { Entries : list Entry; writerErr : option error }.

Definition NewFakeWriter : FakeWriter := mkFakeWriter [] None.

Definition fake_writer : handler Writer FakeWriter := fun X e t =>
  match e in Writer X return X * FakeWriter with
  | Write e =>
      match writerErr t with
      | Some err => (Err err, t)
      | None => (Ok tt, mkFakeWriter (Entries t ++ [e]) None)
      end
  end.

(** * Reading *)

Definition DefaultAuditListLimit : Z := 50.
Definition maxAuditListLimit : Z := 500.

Definition clamp_audit_limit (limit : Z) : Z :=
  let limit := if limit <=? 0 then DefaultAuditListLimit else limit in
  if maxAuditListLimit <? limit then maxAuditListLimit else limit.

(** A row as the reader returns it. *)
Record Row := mkRow { rowAuditID : string; rowActor : string; rowAction : string; rowTarget : string;
  rowBefore : option string; rowAfter : option string; rowTS : string }.

(** JSONB columns come back as the database prints them. *)
Section Reader.
Context (jsonb : string -> string).

Definition record_of (r : Record_) : Row :=
  mkRow (AuditID r) (rActor r) (rAction r) (rTarget r) (jsonb <$> BeforeJSON r) (jsonb <$> AfterJSON r) (rfc3339 (ts r)).

(** WHERE ($1 = '' OR actor = $1) AND ($2 = '' OR action = $2). *)
Definition matches (actor action : string) (r : Record_) : bool :=
  (bool_decide (actor = "") || bool_decide (rActor r = actor))
  && (bool_decide (action = "") || bool_decide (rAction r = action)).

(** ORDER BY ts DESC. *)
Fixpoint insert_newest (r : Record_) (l : list Record_) : list Record_ :=
  match l with
  | [] => [r]
  | r' :: l' => if ts r' <=? ts r then r :: l else r' :: insert_newest r l'
  end.

Definition newest_first (l : list Record_) : list Record_ := foldr insert_newest [] l.

Definition Cockroach_List (limit : Z) (actor action : string) (t : AuditLog) : res (list Row) :=
  if audit_up t then
    Ok (map record_of (take (Z.to_nat (clamp_audit_limit limit))
          (newest_first (List.filter (matches actor action) (audit_log t)))))
  else Err (Lib "cockroach").
End Reader.

Inductive Reader : interface := List_ (limit : Z) (actor action : string) : Reader (res (list Row)).

Definition cockroach_reader (jsonb : string -> string) : handler Reader AuditLog := fun X e t =>
  match e in Reader X return X * AuditLog with
  | List_ limit actor action => (Cockroach_List jsonb limit actor action t, t)
  end.

(** [FakeReader]. *)
Record FakeReader := mkFakeReader { Records : list Row; readerErr : option error; LastLimit : Z; LastActor : string; LastAction : string }.

Definition fake_reader : handler Reader FakeReader := fun X e t =>
  match e in Reader X return X * FakeReader with
  | List_ limit actor action =>
      (match readerErr t with Some err => Err err | None => Ok (Records t) end,
       mkFakeReader (Records t) (readerErr t) limit actor action)
  end.

(** * What a reader sees *)

Definition newer (r r' : Record_) : Prop := ts r' <= ts r.

#[export] Instance newer_transitive : Transitive newer.
Proof. unfold newer. intros x y z. lia. Qed.

Lemma insert_newest_perm r l : insert_newest r l ≡ₚ r :: l.
Proof.
  induction l as [|r' l IH]; simpl; [done|]. destruct (ts r' <=? ts r); [done|].
  rewrite IH. apply Permutation_swap.
Qed.

Lemma newest_first_perm l : newest_first l ≡ₚ l.
Proof. induction l as [|r l IH]; simpl; [done|]. by rewrite insert_newest_perm, IH. Qed.

Lemma insert_newest_sorted r l : StronglySorted newer l -> StronglySorted newer (insert_newest r l).
Proof.
  induction 1 as [|r' l Hl IH Hr]; simpl; [by repeat constructor|].
  destruct (ts r' <=? ts r) eqn:E; zbool.
  - constructor; [by constructor|]. constructor; [done|]. eapply Forall_impl; [exact Hr|]. unfold newer. intros x Hx. simpl in Hx. lia.
  - constructor; [done|]. rewrite insert_newest_perm. constructor; [unfold newer; lia|done].
Qed.

Lemma newest_first_sorted l : StronglySorted newer (newest_first l).
Proof. induction l; simpl; [constructor|]. by apply insert_newest_sorted. Qed.

Lemma clamp_audit_range limit : 1 <= clamp_audit_limit limit <= 500.
Proof.
  unfold clamp_audit_limit, maxAuditListLimit, DefaultAuditListLimit.
  destruct (limit <=? 0) eqn:E; zbool; cbv zeta; [by vm_compute|].
  destruct (500 <? limit) eqn:E'; zbool; lia.
Qed.
