(* ===== verification/ApiKeys.v ===== *)
(** admin-api/internal/apikeys: minting, revoking and listing tenants' API keys.

    [KeyTable] is the table api_keys with its unique hashes and its foreign key
    into tenants.  [Summary], what a listing returns, has no field for a hash. *)

From S2P Require Import Prelude Errors Prog Json GoTime Sha256.
#[local] Open Scope Z_scope.

(** [GenerateRawKey] over the 32 bytes the system's random source gave. *)
Definition GenerateRawKey (random : res (list Z)) : res string :=
  match random with
  | Err e => Err (Wrapf "generating random key material: %w" [] e)
  | Ok buf => Ok ("oz_" +:+ hex buf)
  end.

Definition HashRawKey (raw : string) : string := sha256_hex raw.

Record Summary := mkSummary {
  KeyID : string; kOrgID : string; Scopes : list string; kCreatedAt : string; kRevokedAt : option string }.

Inductive StoreE : interface :=
| Create (orgID hash : string) (scopes : list string) : StoreE (res string)
| Revoke (keyID : string) : StoreE (res bool)
| ListKeys : StoreE (res (list Summary)).

(** * The table *)

Record KeyRow := mkKeyRow { krOrgID : string; krHash : string; krScopes : list string; krCreated : Z; krRevoked : option Z }.

Record KeyTable := mkKeyTable {
  api_keys : gmap string KeyRow; tenants : gset string; keys_up : bool; keys_now : Z; keys_drawn : nat }.

Definition db_error : error := Lib "cockroach".

Section Store.
(** The UUIDs the database draws for new rows. *)
Context (uuid : nat -> string).

Definition hash_taken (hash : string) (t : KeyTable) : bool :=
  existsb (fun r => bool_decide (krHash r = hash)) (map snd (map_to_list (api_keys t))).

(** INSERT INTO api_keys ... RETURNING key_id: the primary key, the unique hash
    and the foreign key into tenants. *)
Definition Cockroach_Create (orgID hash : string) (scopes : list string) (t : KeyTable) : res string * KeyTable :=
  let id := uuid (keys_drawn t) in
  if negb (keys_up t) then (Err db_error, t)
  else
    let t' ks := mkKeyTable ks (tenants t) true (keys_now t) (1 + keys_drawn t) in
    if bool_decide (orgID ∈ tenants t) && negb (hash_taken hash t) && bool_decide (api_keys t !! id = None) then
      (Ok id, t' (<[id := mkKeyRow orgID hash scopes (keys_now t) None]> (api_keys t)))
    else (Err db_error, t' (api_keys t)).

(** UPDATE api_keys SET revoked_at = now() WHERE key_id = $1 AND revoked_at IS
    NULL, and whether a row was affected. *)
Definition Cockroach_Revoke (keyID : string) (t : KeyTable) : res bool * KeyTable :=
  if negb (keys_up t) then (Err db_error, t)
  else
    match api_keys t !! keyID with
    | Some (mkKeyRow o h s c None) =>
        (Ok true, mkKeyTable (<[keyID := mkKeyRow o h s c (Some (keys_now t))]> (api_keys t)) (tenants t) true
                    (keys_now t) (keys_drawn t))
    | _ => (Ok false, t)
    end.

Definition summary_of (x : string * KeyRow) : Summary :=
  mkSummary x.1 (krOrgID x.2) (krScopes x.2) (rfc3339 (krCreated x.2)) (rfc3339 <$> krRevoked x.2).

(** ORDER BY created_at DESC. *)
Fixpoint insert_created (x : string * KeyRow) (l : list (string * KeyRow)) : list (string * KeyRow) :=
  match l with
  | [] => [x]
  | y :: l' => if krCreated y.2 <=? krCreated x.2 then x :: l else y :: insert_created x l'
  end.

Definition Cockroach_ListKeys (t : KeyTable) : res (list Summary) :=
  if keys_up t then Ok (map summary_of (foldr insert_created [] (map_to_list (api_keys t)))) else Err db_error.

Definition cockroach_keys : handler StoreE KeyTable := fun X e t =>
  match e in StoreE X return X * KeyTable with
  | Create o h s => Cockroach_Create o h s t
  | Revoke k => Cockroach_Revoke k t
  | ListKeys => (Cockroach_ListKeys t, t)
  end.
End Store.

(** * [FakeStore] *)

Record FakeStore := mkFakeStore {
  records : gmap string Summary; next : Z;
  CreateErr : option error; RevokeErr : option error; ListErr : option error;
  ValidOrgIDs : option (gset string);
  CreateCalls : list (string * string * list string); RevokeCalls : list string; fake_time : Z }.

Definition NewFakeStore (now : Z) : FakeStore := mkFakeStore ∅ 0 None None None None [] [] now.

Definition FakeStore_Create (orgID hash : string) (scopes : list string) (s : FakeStore) : res string * FakeStore :=
  let calls := CreateCalls s ++ [(orgID, hash, scopes)] in
  let with_ (r : gmap string Summary) (n : Z) :=
    mkFakeStore r n (CreateErr s) (RevokeErr s) (ListErr s) (ValidOrgIDs s) calls (RevokeCalls s) (fake_time s) in
  match CreateErr s with
  | Some e => (Err e, with_ (records s) (next s))
  | None =>
      if match ValidOrgIDs s with Some v => bool_decide (orgID ∉ v) | None => false end
      then (Err (Errorf "insert on table api_keys violates foreign key constraint: org_id %q not found" [orgID]),
            with_ (records s) (next s))
      else
        let n := wrap64 (next s + 1) in
        let id := "key-" +:+ itoa n in
        (Ok id, with_ (<[id := mkSummary id orgID scopes (rfc3339 (fake_time s)) None]> (records s)) n)
  end.

Definition FakeStore_Revoke (keyID : string) (s : FakeStore) : res bool * FakeStore :=
  let with_ (r : gmap string Summary) :=
    mkFakeStore r (next s) (CreateErr s) (RevokeErr s) (ListErr s) (ValidOrgIDs s) (CreateCalls s)
      (RevokeCalls s ++ [keyID]) (fake_time s) in
  match RevokeErr s with
  | Some e => (Err e, with_ (records s))
  | None =>
      match records s !! keyID with
      | Some (mkSummary i o sc c None) =>
          (Ok true, with_ (<[keyID := mkSummary i o sc c (Some (rfc3339 (fake_time s)))]> (records s)))
      | _ => (Ok false, with_ (records s))
      end
  end.

Definition fake_keys : handler StoreE FakeStore := fun X e s =>
  match e in StoreE X return X * FakeStore with
  | Create o h sc => FakeStore_Create o h sc s
  | Revoke k => FakeStore_Revoke k s
  | ListKeys => (match ListErr s with Some e => Err e | None => Ok (map snd (map_to_list (records s))) end, s)
  end.
