(* ===== verification/Authz.v ===== *)
(** admin-api/internal/authz: which role may call which RPC.

    [Allowed] is the allow-list; [authz_interceptor] runs the next handler only
    for an allowed call and audits a denial. *)

From S2P Require Import Prelude Errors Prog Json Authn AuditStore.
#[local] Open Scope Z_scope.

Definition roleViewer : string := "viewer".
Definition roleAdmin : string := "admin".

Definition methodPublishModelVersion : string := "/admin.v1.AdminService/PublishModelVersion".
Definition methodStartRollout : string := "/admin.v1.AdminService/StartRollout".
Definition methodPromoteRollout : string := "/admin.v1.AdminService/PromoteRollout".
Definition methodAbortRollout : string := "/admin.v1.AdminService/AbortRollout".
Definition methodCreateApiKey : string := "/admin.v1.AdminService/CreateApiKey".
Definition methodRevokeApiKey : string := "/admin.v1.AdminService/RevokeApiKey".

Definition allowedRPCs : gmap string (gset string) :=
  {[ roleAdmin := {[ methodPublishModelVersion; methodStartRollout; methodPromoteRollout;
                     methodAbortRollout; methodCreateApiKey; methodRevokeApiKey ]};
     roleViewer := ∅ ]}.

(** A missing role is an empty set. *)
Definition Allowed (role fullMethod : string) : bool :=
  bool_decide (fullMethod ∈ default ∅ (allowedRPCs !! role)).

Definition denied (text : string) : error := Status PermissionDenied text.

(** [UnaryInterceptor]; the identity is what authn attached, if anything.  A
    failure to audit the denial changes nothing for the caller. *)
Definition authz_interceptor {E : interface} {A} (write : Entry -> E (res unit))
    (id : option Identity) (fullMethod : string) (handler : prog E (res A)) : prog E (res A) :=
  match id with
  | None => Ret (Err (denied "no verified identity"))
  | Some id =>
      if Allowed (Role id) fullMethod then handler
      else
        call (write (mkEntry (UserID id) (fullMethod +:+ "_denied") fullMethod None None)) ;;;
        Ret (Err (denied "insufficient privileges for this action"))
  end.

(** Only admins may call anything, and what they may call is the six commands. *)
Lemma allowed_spec role m :
  Allowed role m = true <->
  role = roleAdmin /\ m ∈ [methodPublishModelVersion; methodStartRollout; methodPromoteRollout;
                           methodAbortRollout; methodCreateApiKey; methodRevokeApiKey].
Proof.
  unfold Allowed. rewrite bool_decide_eq_true. destruct (decide (role = roleAdmin)) as [->|Ha].
  - change (allowedRPCs !! roleAdmin) with (Some ({[ methodPublishModelVersion; methodStartRollout; methodPromoteRollout;
      methodAbortRollout; methodCreateApiKey; methodRevokeApiKey ]} : gset string)). set_solver.
  - destruct (decide (role = roleViewer)) as [->|Hv].
    + change (allowedRPCs !! roleViewer) with (Some (∅ : gset string)). set_solver.
    + unfold allowedRPCs. rewrite lookup_insert_ne, lookup_singleton_ne by done. set_solver.
Qed.
