(* ===== verification/AdminServer.v ===== *)
(** admin-api: the six commands of AdminService, the audit interceptor around
    them, and the interceptor chain main() puts in front.

    A request and its response are typed by the method, as the generated service
    descriptor types them, so the type assertions of the audit table cannot fail.
    [AdminE] is what the chain may call: the credential store, the audit writer,
    the slice of the control plane the commands use, the key store, and the
    system's random source. *)

From S2P Require Import Prelude Errors Prog Json GoTime Authn AuditStore ApiKeys Authz.
#[local] Open Scope Z_scope.

(** * The service *)

Inductive method :=
| PublishModelVersion | StartRollout | PromoteRollout | AbortRollout | CreateApiKey | RevokeApiKey.

#[global] Instance method_eq_dec : EqDecision method.
Proof. solve_decision. Defined.

Definition methods : list method :=
  [PublishModelVersion; StartRollout; PromoteRollout; AbortRollout; CreateApiKey; RevokeApiKey].

(** The names of the service descriptor. *)
Definition MethodName (m : method) : string :=
  match m with
  | PublishModelVersion => "PublishModelVersion"
  | StartRollout => "StartRollout"
  | PromoteRollout => "PromoteRollout"
  | AbortRollout => "AbortRollout"
  | CreateApiKey => "CreateApiKey"
  | RevokeApiKey => "RevokeApiKey"
  end.

Definition ServiceName : string := "admin.v1.AdminService".

Definition FullMethod (m : method) : string := "/" +:+ ServiceName +:+ "/" +:+ MethodName m.

Definition adminServiceMethods : list string := map FullMethod methods.

Record PublishModelVersionRequest := mkPublish { pmModelRef : string; pmSpecJson : string }.
Record StartRolloutRequest := mkStart { stModelRef : string; stVersionId : string; stStrategyJson : string }.
Record CreateApiKeyRequest := mkCreate { ckOrgId : string; ckScopes : list string }.
Record CreateApiKeyResponse := mkCreated { ckKeyId : string; ckRawKey : string }.

Definition Req (m : method) : Type :=
  match m with
  | PublishModelVersion => PublishModelVersionRequest
  | StartRollout => StartRolloutRequest
  | PromoteRollout | AbortRollout => string
  | CreateApiKey => CreateApiKeyRequest
  | RevokeApiKey => string
  end.

(** The version id, the rollout id, the new stage, nothing, the key, nothing. *)
Definition Resp (m : method) : Type :=
  match m with
  | PublishModelVersion | StartRollout | PromoteRollout => string
  | AbortRollout | RevokeApiKey => unit
  | CreateApiKey => CreateApiKeyResponse
  end.

(** [controlPublisher]: the only RPCs of the control plane the commands can make. *)
Inductive controlPublisher : interface :=
| CtlRegisterModelManifest (modelRef specJson createdBy : string) : controlPublisher (res string)
| CtlCreateRollout (modelRef versionId strategyJson : string) : controlPublisher (res string)
| CtlPromoteRollout (rolloutId : string) : controlPublisher (res string)
| CtlAbortRollout (rolloutId : string) : controlPublisher (res unit).

Inductive AdminE : interface :=
| AUsers {X} (e : Authn.StoreE X) : AdminE X
| AAudit {X} (e : Writer X) : AdminE X
| AControl {X} (e : controlPublisher X) : AdminE X
| AKeys {X} (e : ApiKeys.StoreE X) : AdminE X
| ARandom : AdminE (res (list Z)).

(** * The handlers *)

Definition no_identity : error := Status Internal "no verified identity".

(** The shape all handlers share: no identity is refused, and an error becomes a
    fixed status that says nothing of its reason. *)
Definition as_admin {A} (id : option Identity) (body : Identity -> prog AdminE (res A)) : prog AdminE (res A) :=
  match id with
  | None => Ret (Err no_identity)
  | Some id => body id
  end.

Definition failed (text : string) (e : error) : error := Status Internal text.

Definition server_PublishModelVersion (id : option Identity) (req : PublishModelVersionRequest) : prog AdminE (res string) :=
  as_admin id (fun id =>
    wrapped (failed "failed to publish model version")
      (call (AControl (CtlRegisterModelManifest (pmModelRef req) (pmSpecJson req) (UserID id))))).

Definition server_StartRollout (id : option Identity) (req : StartRolloutRequest) : prog AdminE (res string) :=
  as_admin id (fun _ =>
    wrapped (failed "failed to start rollout")
      (call (AControl (CtlCreateRollout (stModelRef req) (stVersionId req) (stStrategyJson req))))).

Definition server_PromoteRollout (id : option Identity) (rolloutId : string) : prog AdminE (res string) :=
  as_admin id (fun _ =>
    wrapped (failed "failed to promote rollout") (call (AControl (CtlPromoteRollout rolloutId)))).

Definition server_AbortRollout (id : option Identity) (rolloutId : string) : prog AdminE (res unit) :=
  as_admin id (fun _ =>
    wrapped (failed "failed to abort rollout") (call (AControl (CtlAbortRollout rolloutId)))).

Definition server_CreateApiKey (id : option Identity) (req : CreateApiKeyRequest) : prog AdminE (res CreateApiKeyResponse) :=
  as_admin id (fun _ =>
    random <- call ARandom ;;
    match GenerateRawKey random with
    | Err e => Ret (Err (failed "failed to create api key" e))
    | Ok rawKey =>
        keyID <-? wrapped (failed "failed to create api key")
                    (call (AKeys (Create (ckOrgId req) (HashRawKey rawKey) (ckScopes req)))) ;;
        Ret (Ok (mkCreated keyID rawKey))
    end).

(** A key that does not exist, or is revoked already, is a failure too. *)
Definition server_RevokeApiKey (id : option Identity) (keyId : string) : prog AdminE (res unit) :=
  as_admin id (fun _ =>
    found <- call (AKeys (Revoke keyId)) ;;
    Ret (match (found : res bool) with
         | Ok true => Ok tt
         | _ => Err (Status Internal "failed to revoke api key")
         end)).

(** The method's handler. *)
Definition server (m : method) (id : option Identity) : Req m -> prog AdminE (res (Resp m)) :=
  match m with
  | PublishModelVersion => server_PublishModelVersion id
  | StartRollout => server_StartRollout id
  | PromoteRollout => server_PromoteRollout id
  | AbortRollout => server_AbortRollout id
  | CreateApiKey => server_CreateApiKey id
  | RevokeApiKey => server_RevokeApiKey id
  end.

(** * The audit interceptor *)

Record auditSpec (m : method) := mkAuditSpec {
  action : string; target : Req m -> string; after : option (Req m -> Resp m -> json) }.
Arguments mkAuditSpec {m}. Arguments action {m}. Arguments target {m}. Arguments after {m}.

(** A [map[string]string] marshals with its keys in order; an empty repeated
    field of a request is a nil slice, which marshals as null. *)
Definition strings_json (l : list string) : json :=
  match l with [] => JNull | _ => JArr (map JStr l) end.

Definition mutatingMethods (m : method) : option (auditSpec m) :=
  Some (match m with
  | PublishModelVersion => @mkAuditSpec PublishModelVersion "publish_model_version" pmModelRef
      (Some (fun req resp => JObj [("model_ref", JStr (pmModelRef req)); ("spec_json", JStr (pmSpecJson req));
                                   ("version_id", JStr resp)]))
  | StartRollout => @mkAuditSpec StartRollout "start_rollout" stModelRef
      (Some (fun req resp => JObj [("model_ref", JStr (stModelRef req)); ("rollout_id", JStr resp);
                                   ("strategy_json", JStr (stStrategyJson req)); ("version_id", JStr (stVersionId req))]))
  | PromoteRollout => @mkAuditSpec PromoteRollout "promote_rollout" (fun id => id)
      (Some (fun _ resp => JObj [("new_stage", JStr resp)]))
  | AbortRollout => @mkAuditSpec AbortRollout "abort_rollout" (fun id => id)
      (Some (fun _ _ => JObj [("status", JStr "aborted")]))
  | CreateApiKey => @mkAuditSpec CreateApiKey "create_api_key" ckOrgId
      (Some (fun req resp => JObj [("key_id", JStr (ckKeyId resp)); ("org_id", JStr (ckOrgId req));
                                   ("scopes", strings_json (ckScopes req))]))
  | RevokeApiKey => @mkAuditSpec RevokeApiKey "revoke_api_key" (fun id => id)
      (Some (fun _ _ => JObj [("status", JStr "revoked")]))
  end).

(** Classified as reads, which are not audited: none. *)
Definition nonMutatingMethods : list string := [].

Definition failure_entry {m} (spec : auditSpec m) (id : Identity) (req : Req m) : Entry :=
  mkEntry (UserID id) (action spec +:+ "_failed") (target spec req) None None.

Definition success_entry {m} (spec : auditSpec m) (id : Identity) (req : Req m) (resp : Resp m) : Entry :=
  mkEntry (UserID id) (action spec) (target spec req) None ((fun f => f req resp) <$> after spec).

Definition unrecorded : error :=
  Status Internal "the action may have succeeded but could not be recorded; treat as failed and verify with an operator".

(** A failed action is audited as far as possible; a successful one that cannot
    be audited is reported as failed. *)
Definition AuditUnaryInterceptor (m : method) (id : option Identity) (req : Req m)
    (handler : prog AdminE (res (Resp m))) : prog AdminE (res (Resp m)) :=
  match mutatingMethods m with
  | None => handler
  | Some spec =>
      match id with
      | None => Ret (Err no_identity)
      | Some id =>
          resp <- handler ;;
          match resp with
          | Err err => call (AAudit (Write (failure_entry spec id req))) ;;; Ret (Err err)
          | Ok resp =>
              audited <- call (AAudit (Write (success_entry spec id req resp))) ;;
              Ret (match (audited : res unit) with Err _ => Err unrecorded | Ok _ => Ok resp end)
          end
      end
  end.

(** [grpc.ChainUnaryInterceptor] of main(): authn, authz, audit, the handler. *)
Definition admin_rpc (m : method) (authorization : list string) (req : Req m) : prog AdminE (res (Resp m)) :=
  authn_interceptor (@AUsers) authorization (fun id =>
    authz_interceptor (fun e => AAudit (Write e)) (Some id) (FullMethod m)
      (AuditUnaryInterceptor m (Some id) req (server m (Some id) req))).

(** Every method of the descriptor is classified exactly once. *)
Lemma every_method_classified m :
  (exists spec, mutatingMethods m = Some spec) /\ FullMethod m ∉ nonMutatingMethods /\ FullMethod m ∈ adminServiceMethods.
Proof. split; [by eexists|]. split; [by apply not_elem_of_nil|]. apply list_elem_of_fmap. exists m. split; [done|]. destruct m; set_solver. Qed.
