(* ===== verification/AdminSpec.v ===== *)
(** admin-api: what the chain authn, authz, audit, handler guarantees.

    The first section holds in any environment: no call has an effect unless the
    credential store just named its bearer as an admin.  The second fixes the
    tables of the deployment ([Admin]) and an arbitrary control plane, and states
    the audit trail, and that the key material leaves no trace. *)

From S2P Require Import Prelude Errors Prog Json GoTime Sha256 Authn AuditStore ApiKeys Authz AdminServer.
#[local] Open Scope Z_scope.

(** * Any environment *)

(** What a caller with identity [id] may cause: a record of its own, or, for an
    admin, a command in its own name; never another look at the credentials. *)
Definition permitted (id : Identity) : forall X, AdminE X -> Prop := fun _ e =>
  match e with
  | AUsers _ => False
  | AAudit (Write e) => Actor e = UserID id
  | AControl (CtlRegisterModelManifest _ _ createdBy) => Role id = roleAdmin /\ createdBy = UserID id
  | AControl _ | AKeys _ | ARandom => Role id = roleAdmin
  end.

Lemma as_admin_calls {A} id (body : Identity -> prog AdminE (res A)) P :
  calls any P (body id) -> calls any P (as_admin (Some id) body).
Proof. done. Qed.

Lemma server_calls m id req : Role id = roleAdmin -> calls any (permitted id) (server m (Some id) req).
Proof.
  intros Hr. destruct m; simpl; try done. split; [done|]. intros random _.
  destruct (GenerateRawKey random); simpl; [|done]. split; [done|]. by intros [?|?] _.
Qed.

Lemma audit_calls m id req p :
  calls any (permitted id) p -> calls any (permitted id) (AuditUnaryInterceptor m (Some id) req p).
Proof.
  intros Hp. unfold AuditUnaryInterceptor. destruct (mutatingMethods m) as [spec|]; [|done].
  apply calls_bind; [done|]. by intros [resp|e].
Qed.

Lemma full_method_allowed role m : Allowed role (FullMethod m) = bool_decide (role = roleAdmin).
Proof.
  apply eq_bool_prop_intro. rewrite !Is_true_true, bool_decide_eq_true, allowed_spec.
  split; [by intros [? _]|]. intros ->. split; [done|]. destruct m; set_solver.
Qed.

Lemma gated_calls m id req :
  calls any (permitted id)
    (authz_interceptor (fun e => AAudit (Write e)) (Some id) (FullMethod m)
       (AuditUnaryInterceptor m (Some id) req (server m (Some id) req))).
Proof.
  unfold authz_interceptor. rewrite full_method_allowed. case_bool_decide as Hr; [|by simpl].
  by apply audit_calls, server_calls.
Qed.

(** C9. Every effect is an admin's.  Whatever credential store, audit log, control
    plane, key store and random source do, the first call of an RPC, if there is
    any, looks up the hash of the presented token, and each later call is made
    for the unrevoked holder that the store answered with: records in the
    holder's name, and commands and key operations only if the holder's role is
    admin, the manifest's author being the holder. *)
Theorem effects_need_admin {S} (h : handler AdminE S) m authorization req w e rest :
  trace h (admin_rpc m authorization req) w = e :: rest ->
  let token := bearerToken authorization in
  token <> ""
  /\ e = existT _ (AUsers (LookupByHash (HashToken token)))
  /\ (rest <> [] -> exists row,
        (h _ (AUsers (LookupByHash (HashToken token))) w).1 = Ok (Some row)
        /\ RevokedAt row = None
        /\ Forall (fun c => permitted (mkIdentity (rowUserID row) (rowOrgID row) (rowRole row)) _ (projT2 c)) rest).
Proof.
  unfold admin_rpc, authn_interceptor, Authenticate. cbv zeta. case_bool_decide; simpl; [done|].
  destruct (h _ _ w) as [x w']. intros [= <- <-]. split; [done|]. split; [done|].
  destruct x as [[row|]|err]; simpl; [|done..]. destruct (RevokedAt row) eqn:Hr; simpl; [done|].
  intros _. exists row. split; [done|]. split; [done|]. apply calls_trace, gated_calls.
Qed.

(** * The deployment *)

Record Admin (C : Type) := mkAdmin {
  ad_users : AdminUsers; ad_audit : AuditLog; ad_keys : KeyTable; ad_control : C; ad_drawn : nat }.
Arguments mkAdmin {C}. Arguments ad_users {C}. Arguments ad_audit {C}. Arguments ad_keys {C}.
Arguments ad_control {C}. Arguments ad_drawn {C}.

(** The ids the database draws, and the control plane. *)
Record Outer (C : Type) := mkOuter {
  audit_uuid : nat -> string; key_uuid : nat -> string; control : handler controlPublisher C }.
Arguments mkOuter {C}. Arguments audit_uuid {C}. Arguments key_uuid {C}. Arguments control {C}.

Definition set_audit {C} (l : AuditLog) (w : Admin C) : Admin C :=
  mkAdmin (ad_users w) l (ad_keys w) (ad_control w) (ad_drawn w).

Definition drew {C} (w : Admin C) : Admin C :=
  mkAdmin (ad_users w) (ad_audit w) (ad_keys w) (ad_control w) (Datatypes.S (ad_drawn w)).

Section Deployment.
Context {C : Type} (o : Outer C) (random : nat -> res (list Z)).

Definition admin : handler AdminE (Admin C) := fun X e w =>
  match e in AdminE X return X * Admin C with
  | AUsers e =>
      let '(x, t) := cockroach_users _ e (ad_users w) in
      (x, mkAdmin t (ad_audit w) (ad_keys w) (ad_control w) (ad_drawn w))
  | AAudit e => let '(x, t) := cockroach_writer (audit_uuid o) _ e (ad_audit w) in (x, set_audit t w)
  | AControl e =>
      let '(x, c) := control o _ e (ad_control w) in
      (x, mkAdmin (ad_users w) (ad_audit w) (ad_keys w) c (ad_drawn w))
  | AKeys e =>
      let '(x, t) := cockroach_keys (key_uuid o) _ e (ad_keys w) in
      (x, mkAdmin (ad_users w) (ad_audit w) t (ad_control w) (ad_drawn w))
  | ARandom => (random (ad_drawn w), drew w)
  end.

(** What happens to the tables from outside: the clock moves, a database fails
    or recovers, operators change who is an admin. *)
Inductive event :=
| Rpc (m : method) (authorization : list string) (req : Req m)
| SetUsers (t : AdminUsers)
| SetAudit (up : bool) (known : string -> bool) (now : Z)
| SetKeys (up : bool) (now : Z).

Definition outside (v : event) (w : Admin C) : Admin C :=
  match v with
  | Rpc _ _ _ => w
  | SetUsers t => mkAdmin t (ad_audit w) (ad_keys w) (ad_control w) (ad_drawn w)
  | SetAudit up known now => set_audit (mkAuditLog (audit_log (ad_audit w)) known up now) w
  | SetKeys up now =>
      mkAdmin (ad_users w) (ad_audit w)
        (mkKeyTable (api_keys (ad_keys w)) (tenants (ad_keys w)) up now (keys_drawn (ad_keys w)))
        (ad_control w) (ad_drawn w)
  end.

(** A call that was made: who its token stood for, whether the audit log could
    be written in that name, and the result. *)
Record done_ := mkDone {
  d_method : method; d_caller : option Identity; d_req : Req d_method; d_writable : bool;
  d_result : res (Resp d_method) }.

Definition writable (actor : string) (t : AuditLog) : bool := audit_up t && known_actor t actor.

Definition caller_of (authorization : list string) (w : Admin C) : option Identity :=
  holder (ad_users w) (bearerToken authorization).

Definition writable_by (id : option Identity) (w : Admin C) : bool :=
  match id with Some id => writable (UserID id) (ad_audit w) | None => false end.

Fixpoint serve_all (vs : list event) (w : Admin C) : list done_ * Admin C :=
  match vs with
  | [] => ([], w)
  | v :: vs =>
      match v with
      | Rpc m a req =>
          let '(r, w1) := run admin (admin_rpc m a req) w in
          let id := caller_of a w in
          let '(ds, w2) := serve_all vs w1 in
          (mkDone m id req (writable_by id w) r :: ds, w2)
      | _ => serve_all vs (outside v w)
      end
  end.

(** * The audit trail *)

(** A row without the id and the time the database adds. *)
Definition content (r : Record_) : string * string * string * option string * option string :=
  (rActor r, rAction r, rTarget r, BeforeJSON r, AfterJSON r).

(** The entry an authenticated call leaves. *)
Definition entry_of (id : Identity) (d : done_) : option Entry :=
  if bool_decide (Role id = roleAdmin) then
    (fun spec => match d_result d with
                 | Ok resp => success_entry spec id (d_req d) resp
                 | Err _ => failure_entry spec id (d_req d)
                 end) <$> mutatingMethods (d_method d)
  else Some (mkEntry (UserID id) (FullMethod (d_method d) +:+ "_denied") (FullMethod (d_method d)) None None).

Definition trail (d : done_) : list (string * string * string * option string * option string) :=
  match d_caller d with
  | Some id =>
      if d_writable d then
        match entry_of id d with
        | Some e => [(Actor e, Action e, Target e, marshalNullable (Before e), marshalNullable (After e))]
        | None => []
        end
      else []
  | None => []
  end.

(** What the result says about the call. *)
Definition sound (d : done_) : Prop :=
  match d_caller d with
  | None => d_result d = Err unauthenticated
  | Some id =>
      if bool_decide (Role id = roleAdmin) then is_ok (d_result d) = true -> d_writable d = true
      else d_result d = Err (denied "insufficient privileges for this action")
  end.

Lemma write_content uuid e t :
  (Cockroach_Write uuid e t).1 = (if writable (Actor e) t then Ok tt else Err (Lib "cockroach"))
  /\ map content (audit_log (Cockroach_Write uuid e t).2) = map content (audit_log t)
       ++ (if writable (Actor e) t then [(Actor e, Action e, Target e, marshalNullable (Before e), marshalNullable (After e))] else []).
Proof.
  unfold Cockroach_Write, writable. destruct (audit_up t && known_actor t (Actor e)); simpl.
  - by rewrite map_app.
  - by rewrite app_nil_r.
Qed.

(** The calls of a handler leave the log and the users alone. *)
Lemma server_frame m id req w :
  let w' := (run admin (server m (Some id) req) w).2 in
  ad_audit w' = ad_audit w /\ ad_users w' = ad_users w.
Proof.
  assert (Hc : forall X (e : controlPublisher X), ad_audit (admin X (AControl e) w).2 = ad_audit w /\ ad_users (admin X (AControl e) w).2 = ad_users w).
  { intros X e. simpl. by destruct (control o X e _). }
  destruct m; cbn [server]; unfold server_PublishModelVersion, server_StartRollout, server_PromoteRollout,
    server_AbortRollout, server_CreateApiKey, server_RevokeApiKey; cbn [as_admin];
    rewrite ?run_wrapped, ?run_bind, ?run_call; cbn [snd]; try apply Hc.
  - cbn [admin]. destruct (GenerateRawKey _) as [raw|e]; [|done]. rewrite run_rbind, run_wrapped, run_call. simpl.
    destruct (Cockroach_Create _ _ _ _ _) as [[k|e] t]; done.
  - cbn [admin cockroach_keys]. by destruct (Cockroach_Revoke _ _).
Qed.

Lemma run_authn {A} a (k : Identity -> prog AdminE (res A)) w :
  run admin (authn_interceptor (@AUsers) a k) w =
    match caller_of a w with None => (Err unauthenticated, w) | Some id => run admin (k id) w end.
Proof.
  unfold authn_interceptor, Authenticate, caller_of, holder. destruct w as [us au ks c n]. case_bool_decide; simpl.
  - by rewrite andb_false_r.
  - unfold Cockroach_LookupByHash. destruct (users_up us); simpl; [|done].
    destruct (admin_user us !! _) as [row|]; simpl; [|done]. by destruct (RevokedAt row).
Qed.

Lemma run_write e w :
  run admin (call (AAudit (Write e))) w =
    ((Cockroach_Write (audit_uuid o) e (ad_audit w)).1, set_audit (Cockroach_Write (audit_uuid o) e (ad_audit w)).2 w).
Proof. simpl. by destruct (Cockroach_Write _ e _). Qed.

Lemma admin_rpc_run m a req w :
  run admin (admin_rpc m a req) w =
    match caller_of a w with
    | None => (Err unauthenticated, w)
    | Some id =>
        if bool_decide (Role id = roleAdmin) then run admin (AuditUnaryInterceptor m (Some id) req (server m (Some id) req)) w
        else (Err (denied "insufficient privileges for this action"),
              set_audit (Cockroach_Write (audit_uuid o) (mkEntry (UserID id) (FullMethod m +:+ "_denied") (FullMethod m) None None) (ad_audit w)).2 w)
    end.
Proof.
  unfold admin_rpc. rewrite run_authn. destruct (caller_of a w) as [id|]; [|done].
  unfold authz_interceptor. rewrite full_method_allowed. case_bool_decide; [done|].
  by rewrite run_bind, run_write.
Qed.

Lemma admin_rpc_done m a req w :
  let '(r, w') := run admin (admin_rpc m a req) w in
  let d := mkDone m (caller_of a w) req (writable_by (caller_of a w) w) r in
  sound d /\ map content (audit_log (ad_audit w')) = map content (audit_log (ad_audit w)) ++ trail d.
Proof.
  rewrite admin_rpc_run. destruct (caller_of a w) as [id|]; cbv zeta.
  2:{ by rewrite app_nil_r. }
  unfold sound, trail, entry_of, writable_by. cbn [d_caller d_result d_writable d_method d_req]. case_bool_decide as Hr.
  - unfold AuditUnaryInterceptor. destruct (mutatingMethods m) as [spec|] eqn:Hm; [|done]. rewrite run_bind.
    pose proof (server_frame m id req w) as [Ha _]. destruct (run admin (server m (Some id) req) w) as [[resp|e] w1];
      rewrite run_bind, run_write; cbn [snd] in Ha; rewrite Ha.
    + destruct (write_content (audit_uuid o) (success_entry spec id req resp) (ad_audit w)) as [Hr' Hw].
      cbn [fst snd]. rewrite Hr'. cbn [Actor success_entry] in *. destruct (writable _ _); (split; [done|exact Hw]).
    + destruct (write_content (audit_uuid o) (failure_entry spec id req) (ad_audit w)) as [_ Hw].
      cbn [Actor failure_entry] in *. destruct (writable _ _); (split; [done|exact Hw]).
  - exact (conj eq_refl (proj2 (write_content (audit_uuid o)
      (mkEntry (UserID id) (FullMethod m +:+ "_denied") (FullMethod m) None None) (ad_audit w)))).
Qed.

(** The audit trail.  After any history of RPCs, with outages of the audit
    database and changes of the admin table in between, the log is what it was
    plus one row for each authenticated call that could be recorded, in order:
    the action and its result for a success, the action marked failed or denied
    otherwise, always in the caller's name.  A call that succeeded was recorded;
    a caller without a valid token, or without the admin role, got nothing done. *)
Theorem audit_trail vs w :
  let '(ds, w') := serve_all vs w in
  map content (audit_log (ad_audit w')) = map content (audit_log (ad_audit w)) ++ concat (map trail ds)
  /\ Forall sound ds.
Proof.
  revert w. induction vs as [|v vs IH]; intros w; cbn [serve_all].
  { simpl. by rewrite app_nil_r. }
  destruct v as [m a req|t|up known now|up now]; [|exact (IH (outside (SetUsers t) w))
    |exact (IH (outside (SetAudit up known now) w))|exact (IH (outside (SetKeys up now) w))].
  pose proof (admin_rpc_done m a req w) as H. destruct (run admin (admin_rpc m a req) w) as [r w1].
  destruct H as [Hs Hl]. specialize (IH w1). destruct (serve_all vs w1) as [ds w2]. destruct IH as [IHl IHs].
  split; [|by constructor]. rewrite IHl, Hl. cbn [map concat]. by rewrite app_assoc.
Qed.
End Deployment.

(** * The life of a key *)

(** A call that revoked the key: its caller was told so, or was told that it may
    have happened but could not be recorded. *)
Definition revoked_by (key : string) (d : done_) : bool :=
  match d with
  | mkDone m _ req _ r =>
      match m as m return Req m -> res (Resp m) -> bool with
      | RevokeApiKey => fun k r =>
          bool_decide (k = key) && match r with Ok _ => true | Err e => bool_decide (e = unrecorded) end
      | _ => fun _ _ => false
      end req r
  end.

Definition with_revoked (t : option Z) (r : KeyRow) : KeyRow := mkKeyRow (krOrgID r) (krHash r) (krScopes r) (krCreated r) t.

Section Keys.
Context {C : Type} (o : Outer C) (random : nat -> res (list Z)).
Abbreviation admin := (admin o random).

Definition key_row (key : string) (w : Admin C) : option KeyRow := api_keys (ad_keys w) !! key.

(** What one operation may do to a row, and whether it is a revocation. *)
Definition row_step (row : KeyRow) (revoking : bool) (row' : option KeyRow) : Prop :=
  if revoking then krRevoked row = None /\ exists t, row' = Some (with_revoked (Some t) row)
  else row' = Some row.

Lemma revoke_row id key row t :
  api_keys t !! key = Some row ->
  match Cockroach_Revoke id t with
  | (Ok true, t') => row_step row (bool_decide (id = key)) (api_keys t' !! key)
  | (_, t') => t' = t
  end.
Proof.
  intros Hrow. unfold Cockroach_Revoke. destruct (keys_up t); [|done]. cbn [negb].
  destruct (api_keys t !! id) as [[ro h s c [r|]]|] eqn:E; try done. cbn [api_keys]. unfold row_step. case_bool_decide as Hid.
  - subst id. assert (row = mkKeyRow ro h s c None) as -> by congruence. split; [done|]. eexists. by rewrite lookup_insert_eq.
  - by rewrite lookup_insert_ne.
Qed.

Lemma server_key m id req key row w :
  key_row key w = Some row ->
  let '(r, w') := run admin (server m (Some id) req) w in
  row_step row (revoked_by key (mkDone m (Some id) req false r)) (key_row key w')
  /\ match r with Err e => e <> unrecorded | Ok _ => True end.
Proof.
  intros Hrow. unfold row_step, key_row in *.
  assert (Hc : forall X (e : controlPublisher X), ad_keys (admin X (AControl e) w).2 = ad_keys w).
  { intros X e. simpl. by destruct (control o X e _). }
  destruct m; cbn [server]; unfold server_PublishModelVersion, server_StartRollout, server_PromoteRollout,
    server_AbortRollout, server_CreateApiKey, server_RevokeApiKey; cbn [as_admin];
    rewrite ?run_wrapped, ?run_bind, ?run_call; cbn [snd revoked_by];
    try (rewrite Hc; split; [exact Hrow|]; by destruct (admin _ _ w).1).
  - change (admin _ ARandom w) with (random (ad_drawn w), drew w). cbv beta iota. destruct (GenerateRawKey (random (ad_drawn w))) as [raw|e]; [|by cbn; split].
    rewrite run_rbind, run_wrapped, run_call. cbn. unfold Cockroach_Create.
    destruct (keys_up (ad_keys w)); cbn; [|done]. case_bool_decide; cbn; [|done].
    destruct (hash_taken _ _); cbn; [done|]. case_bool_decide as Hid; cbn; [|done].
    split; [|done]. rewrite lookup_insert_ne; [done|congruence].
  - cbn [admin cockroach_keys]. pose proof (revoke_row req key row (ad_keys w) Hrow) as Hr.
    destruct (Cockroach_Revoke req (ad_keys w)) as [[[]|e] t]; cbn [run ad_keys];
      [rewrite andb_true_r; exact (conj Hr I)|rewrite andb_false_r; by subst t..].
Qed.

Lemma revoked_by_err key m id req wr e :
  e <> unrecorded -> revoked_by key (mkDone m id req wr (Err e)) = false.
Proof. intros He. destruct m; try done. cbn. by rewrite (bool_decide_false (e = unrecorded)), andb_false_r. Qed.

Lemma rpc_key m a req key row w :
  key_row key w = Some row ->
  let '(r, w') := run admin (admin_rpc m a req) w in
  row_step row (revoked_by key (mkDone m (caller_of a w) req (writable_by (caller_of a w) w) r)) (key_row key w').
Proof.
  intros Hrow. rewrite admin_rpc_run. destruct (caller_of a w) as [id|]; [|by rewrite revoked_by_err].
  case_bool_decide; [|by rewrite revoked_by_err]. unfold AuditUnaryInterceptor.
  pose proof (server_key m id req key row w Hrow) as Hs.
  destruct (mutatingMethods m) as [spec|] eqn:Hm; [|done]. rewrite run_bind.
  destruct (run admin (server m (Some id) req) w) as [[resp|e] w1]; rewrite run_bind, run_write; destruct Hs as [Hs He].
  - cbn [fst snd run]. destruct (Cockroach_Write _ _ _) as [[u|e] t]; [by destruct m|]. destruct m; try exact Hs.
  - cbn [fst snd run]. rewrite revoked_by_err by done. by rewrite revoked_by_err in Hs.
Qed.

(** Revocation is final.  A stored key keeps its owner, hash, scopes and date
    through any history.  If it was revoked it stays revoked at that time, and
    no call claims to revoke it.  Otherwise it ends as it was and nobody
    revoked it, or exactly one call did. *)
Theorem revocation_is_final vs w key row :
  key_row key w = Some row ->
  let '(ds, w') := serve_all o random vs w in
  exists t, key_row key w' = Some (with_revoked t row)
  /\ match krRevoked row with
     | Some t0 => t = Some t0 /\ List.filter (revoked_by key) ds = []
     | None => match t with
               | None => List.filter (revoked_by key) ds = []
               | Some _ => exists d, List.filter (revoked_by key) ds = [d]
               end
     end.
Proof.
  revert w row. induction vs as [|v vs IH]; intros w row Hrow; cbn [serve_all].
  { exists (krRevoked row). destruct row as [ro h s c [t|]]; done. }
  destruct v as [m a req|t|up known now|up now]; [|exact (IH (outside (SetUsers t) w) row Hrow)
    |exact (IH (outside (SetAudit up known now) w) row Hrow)|exact (IH (outside (SetKeys up now) w) row Hrow)].
  pose proof (rpc_key m a req key row w Hrow) as Hs. destruct (run admin (admin_rpc m a req) w) as [r w1].
  set (d := mkDone m _ _ _ r) in *. unfold row_step in Hs. destruct (revoked_by key d) eqn:Hd.
  - destruct Hs as (Hn & t & Hrow'). specialize (IH w1 _ Hrow'). destruct (serve_all o random vs w1) as [ds w2].
    destruct IH as (t' & Hrow2 & -> & Hds). exists (Some t). split; [exact Hrow2|]. rewrite Hn. exists d. simpl in Hds. cbn [List.filter]. by rewrite Hd, Hds.
  - specialize (IH w1 row Hs). destruct (serve_all o random vs w1) as [ds w2]. cbn [List.filter]. by rewrite Hd.
Qed.
End Keys.

(** * The key material leaves no trace *)

(** A key's row without what only its owner may know. *)
Definition forget (r : KeyRow) : KeyRow := mkKeyRow (krOrgID r) "" (krScopes r) (krCreated r) (krRevoked r).

Definition blind (t1 t2 : KeyTable) : Prop :=
  forget <$> api_keys t1 = forget <$> api_keys t2 /\ tenants t1 = tenants t2 /\ keys_up t1 = keys_up t2
  /\ keys_now t1 = keys_now t2 /\ keys_drawn t1 = keys_drawn t2.

(** The response without the raw key. *)
Definition redact {m} : Resp m -> Resp m :=
  match m with CreateApiKey => fun r => mkCreated (ckKeyId r) "" | _ => fun r => r end.

Definition redact_result {m} (r : res (Resp m)) : res (Resp m) :=
  match r with Ok a => Ok (redact a) | Err e => Err e end.

Definition redacted (d : done_) : done_ :=
  mkDone (d_method d) (d_caller d) (d_req d) (d_writable d) (redact_result (d_result d)).

(** The hash the key made of these bytes is stored under. *)
Definition key_hash (b : list Z) : string := HashRawKey ("oz_" +:+ hex b).

(** The random source will not repeat itself, up to a collision of hashes. *)
Definition fresh (random : nat -> res (list Z)) (n : nat) (t : KeyTable) : Prop :=
  (forall i b, (n <= i)%nat -> random i = Ok b -> hash_taken (key_hash b) t = false)
  /\ (forall i j b c, (n <= i < j)%nat -> random i = Ok b -> random j = Ok c -> key_hash b <> key_hash c).

Lemma hash_taken_spec hash t :
  hash_taken hash t = true <-> exists id r, api_keys t !! id = Some r /\ krHash r = hash.
Proof.
  unfold hash_taken. rewrite existsb_exists. split.
  - intros (r & Hr & Hh). apply in_map_iff in Hr as ([id r'] & <- & Hr). apply list_elem_of_In, elem_of_map_to_list in Hr.
    apply bool_decide_eq_true in Hh. eauto.
  - intros (id & r & Hr & <-). exists r. split; [|by apply bool_decide_eq_true].
    apply in_map_iff. exists (id, r). split; [done|]. by apply list_elem_of_In, elem_of_map_to_list.
Qed.

(** Rows that were there, with the hashes they had, keep the source fresh; so
    does a row under the hash just drawn. *)
Lemma fresh_mono random n n' t t' :
  (n <= n')%nat ->
  (forall id r, api_keys t' !! id = Some r ->
     (exists r', api_keys t !! id = Some r' /\ krHash r' = krHash r)
     \/ (n < n')%nat /\ exists b, random n = Ok b /\ krHash r = key_hash b) ->
  fresh random n t -> fresh random n' t'.
Proof.
  intros Hn Hrows [H1 H2]. split; [|intros i j b c Hij; apply (H2 i j); lia].
  intros i b Hi Hb. destruct (hash_taken _ t') eqn:E; [|done]. apply hash_taken_spec in E as (id & r & Hr & Hh).
  exfalso. destruct (Hrows id r Hr) as [(r' & Hr' & Hsame)|(Hlt & b0 & Hb0 & Hsame)].
  - specialize (H1 i b ltac:(lia) Hb). assert (hash_taken (key_hash b) t = true) as Ht by (apply hash_taken_spec; exists id, r'; by rewrite Hsame).
    congruence.
  - apply (H2 n i b0 b); [lia|done..|congruence].
Qed.

Lemma blind_lookup t1 t2 id : blind t1 t2 -> forget <$> api_keys t1 !! id = forget <$> api_keys t2 !! id.
Proof. intros [H _]. rewrite <- !lookup_fmap. by rewrite H. Qed.

Lemma insert_created_forget x l :
  map (prod_map id forget) (insert_created x l) = insert_created (prod_map id forget x) (map (prod_map id forget) l).
Proof. induction l as [|y l IH]; [done|]. simpl. destruct (krCreated y.2 <=? krCreated x.2); [done|]. simpl. by rewrite IH. Qed.

Lemma listing_forget (ks : gmap string KeyRow) :
  map summary_of (foldr insert_created [] (map_to_list ks)) = map summary_of (foldr insert_created [] (map_to_list (forget <$> ks))).
Proof.
  rewrite map_to_list_fmap. change (prod_map id forget <$> map_to_list ks) with (map (prod_map id forget) (map_to_list ks)).
  transitivity (map summary_of (map (prod_map id forget) (foldr insert_created [] (map_to_list ks)))).
  - rewrite map_map. by apply map_ext.
  - f_equal. induction (map_to_list ks) as [|x l IH]; [done|]. cbn [foldr map]. by rewrite insert_created_forget, IH.
Qed.

Section Blind.
Context {C : Type} (o : Outer C) (random1 random2 : nat -> res (list Z)).
Context (Hkinds : forall i, is_ok (random1 i) = is_ok (random2 i)).

(** Two deployments that differ in nothing but the keys they hand out. *)
Record twins (w1 w2 : Admin C) : Prop := {
  tw_users : ad_users w1 = ad_users w2;
  tw_audit : ad_audit w1 = ad_audit w2;
  tw_control : ad_control w1 = ad_control w2;
  tw_drawn : ad_drawn w1 = ad_drawn w2;
  tw_keys : blind (ad_keys w1) (ad_keys w2);
  tw_fresh1 : fresh random1 (ad_drawn w1) (ad_keys w1);
  tw_fresh2 : fresh random2 (ad_drawn w2) (ad_keys w2)
}.

Abbreviation admin1 := (admin o random1).
Abbreviation admin2 := (admin o random2).

(** The same call, where neither a key nor its bytes are handed over. *)
Definition harmless : forall X, AdminE X -> Prop := fun _ e =>
  match e with AKeys (Create _ _ _) | ARandom => False | _ => True end.

Lemma revoke_blind id t1 t2 :
  blind t1 t2 ->
  (Cockroach_Revoke id t1).1 = (Cockroach_Revoke id t2).1
  /\ blind (Cockroach_Revoke id t1).2 (Cockroach_Revoke id t2).2.
Proof.
  intros Hb. pose proof (blind_lookup t1 t2 id Hb) as Hid. pose proof Hb as (Hk & Ht & Hu & Hn & Hd).
  unfold Cockroach_Revoke. rewrite Hu. destruct (keys_up t2); [|done]. cbn [negb].
  destruct (api_keys t1 !! id) as [[o1 h1 s1 c1 r1]|], (api_keys t2 !! id) as [[o2 h2 s2 c2 r2]|]; try done.
  cbn in Hid. injection Hid as -> -> -> ->. destruct r2; [done|]. split; [done|].
  unfold blind. cbn. rewrite !fmap_insert, Hk, Hn, Ht, Hd. done.
Qed.

Lemma revoke_fresh random n id t : fresh random n t -> fresh random n (Cockroach_Revoke id t).2.
Proof.
  intros Hf. unfold Cockroach_Revoke. destruct (keys_up t); [|done]. cbn [negb].
  destruct (api_keys t !! id) as [[o1 h1 s1 c1 r1]|] eqn:E; [|done]. destruct r1; [done|].
  revert Hf. apply fresh_mono; [done|]. cbn. intros id' r'.
  destruct (decide (id = id')) as [<-|Hne]; [rewrite lookup_insert_eq|rewrite lookup_insert_ne by done; eauto].
  intros [= <-]. left. eauto.
Qed.

Lemma harmless_twins X (e : AdminE X) w1 w2 :
  harmless _ e -> twins w1 w2 ->
  (admin1 X e w1).1 = (admin2 X e w2).1 /\ any _ e (admin1 X e w1).1 /\ twins (admin1 X e w1).2 (admin2 X e w2).2.
Proof.
  intros He [Hu Ha Hc Hn Hk Hf1 Hf2]. destruct e as [Y e|Y e|Y e|Y e|]; cbn [admin harmless] in *; [..|done].
  - rewrite Hu. destruct (cockroach_users Y e _). split; [done|]; split; [done|by constructor].
  - rewrite Ha. destruct (cockroach_writer _ Y e _). split; [done|]; split; [done|by constructor].
  - rewrite Hc. destruct (control o Y e _). split; [done|]; split; [done|by constructor].
  - destruct e as [org h s|id|]; [done| |]; cbn [cockroach_keys].
    + destruct (revoke_blind id _ _ Hk) as [Hr Hb]. pose proof (revoke_fresh _ _ id _ Hf1) as Hf1'.
      pose proof (revoke_fresh _ _ id _ Hf2) as Hf2'.
      destruct (Cockroach_Revoke id (ad_keys w1)), (Cockroach_Revoke id (ad_keys w2)). split; [done|]; split; [done|by constructor].
    + pose proof Hk as (Hm & _ & Hup & _). split; [|split; [done|by constructor]]. cbn. unfold Cockroach_ListKeys.
      rewrite Hup. destruct (keys_up (ad_keys w2)); [|done]. by rewrite listing_forget, Hm, <- listing_forget.
Qed.

Lemma harmless_run {A} (p : prog AdminE A) w1 w2 :
  calls any harmless p -> twins w1 w2 ->
  (run admin1 p w1).1 = (run admin2 p w2).1 /\ twins (run admin1 p w1).2 (run admin2 p w2).2.
Proof. apply run_sim. intros. by apply harmless_twins. Qed.

(** Creating a key under each source's bytes. *)
Lemma create_twins org scopes w1 w2 b1 b2 :
  twins w1 w2 -> random1 (ad_drawn w1) = Ok b1 -> random2 (ad_drawn w2) = Ok b2 ->
  let x1 := admin1 _ (AKeys (Create org (key_hash b1) scopes)) (drew w1) in
  let x2 := admin2 _ (AKeys (Create org (key_hash b2) scopes)) (drew w2) in
  x1.1 = x2.1 /\ twins x1.2 x2.2.
Proof.
  intros [Hu Ha Hc Hn Hk Hf1 Hf2] Hb1 Hb2. pose proof Hk as (Hm & Ht & Hup & Hnow & Hd). cbn.
  assert (H1 : hash_taken (key_hash b1) (ad_keys w1) = false) by by eapply (proj1 Hf1).
  assert (H2 : hash_taken (key_hash b2) (ad_keys w2) = false) by by eapply (proj1 Hf2).
  unfold Cockroach_Create. rewrite H1, H2, Hup, Ht, Hnow, Hd. set (id := key_uuid o _).
  assert (bool_decide (api_keys (ad_keys w1) !! id = None) = bool_decide (api_keys (ad_keys w2) !! id = None)) as ->.
  { apply bool_decide_ext. pose proof (blind_lookup _ _ id Hk) as Hid.
    destruct (api_keys (ad_keys w1) !! id), (api_keys (ad_keys w2) !! id); done. }
  assert (Hfresh : forall random n t, fresh random n t -> fresh random (S n) t).
  { intros r n t. apply fresh_mono; [lia|]. eauto. }
  assert (Hins : forall random n t t' b r, random n = Ok b -> krHash r = key_hash b -> api_keys t' = <[id := r]> (api_keys t) ->
            fresh random n t -> fresh random (S n) t').
  { intros r n t t' b row Hr Hh Hrows. apply fresh_mono; [lia|]. intros id' row'. rewrite Hrows.
    destruct (decide (id = id')) as [<-|Hne]; [rewrite lookup_insert_eq|rewrite lookup_insert_ne by done; eauto].
    intros [= <-]. right. eauto. }
  destruct (keys_up (ad_keys w2)) eqn:Eup; cbn.
  2:{ split; [done|]. constructor; cbn; auto. }
  destruct (_ && _); cbn.
  - split; [done|]. constructor; cbn; [done..|by rewrite Hn| | |].
    + unfold blind. cbn. by rewrite !fmap_insert, Hm.
    + refine (Hins _ _ _ _ b1 _ Hb1 _ _ Hf1); [|cbn; reflexivity]; done.
    + refine (Hins _ _ _ _ b2 _ Hb2 _ _ Hf2); [|cbn; reflexivity]; done.
  - split; [done|]. constructor; cbn; [done..|by rewrite Hn|done| |].
    + exact (Hfresh _ _ _ Hf1).
    + exact (Hfresh _ _ _ Hf2).
Qed.
(** The handlers, the audit interceptor and the chain treat twins alike. *)
Lemma server_twins m id req w1 w2 :
  twins w1 w2 ->
  let x1 := run admin1 (server m (Some id) req) w1 in
  let x2 := run admin2 (server m (Some id) req) w2 in
  redact_result x1.1 = redact_result x2.1 /\ twins x1.2 x2.2.
Proof.
  intros Ht. cbv zeta. destruct (decide (m = CreateApiKey)) as [->|Hm].
  - cbn [server]. unfold server_CreateApiKey, as_admin. rewrite !run_bind, !run_call.
    change (admin1 _ ARandom w1) with (random1 (ad_drawn w1), drew w1). change (admin2 _ ARandom w2) with (random2 (ad_drawn w2), drew w2).
    pose proof (create_twins (ckOrgId req) (ckScopes req) w1 w2) as Hcreate. pose proof (Hkinds (ad_drawn w1)) as Hi.
    rewrite (tw_drawn _ _ Ht) in Hi at 2. cbn [fst snd]. destruct (random1 (ad_drawn w1)) as [b1|e1] eqn:H1, (random2 (ad_drawn w2)) as [b2|e2] eqn:H2; try done.
    + cbn [GenerateRawKey]. rewrite !run_rbind, !run_wrapped, !run_call.
      destruct (Hcreate b1 b2 Ht eq_refl eq_refl) as [Hr Hw]. unfold key_hash in Hr, Hw.
      destruct (admin1 _ (AKeys _) _) as [[k1|f1] w1'], (admin2 _ (AKeys _) _) as [[k2|f2] w2']; cbn [fst snd] in Hr, Hw; try done.
      by injection Hr as ->.
    + cbn. split; [done|]. destruct Ht as [Hu Ha Hc Hn Hk Hf1 Hf2].
      constructor; cbn; [done..|by rewrite Hn|done| |]; [revert Hf1|revert Hf2]; apply fresh_mono; eauto; lia.
  - assert (calls any harmless (server m (Some id) req)) as Hc by by destruct m.
    destruct (harmless_run _ w1 w2 Hc Ht) as [-> Hw]. done.
Qed.

Lemma success_entry_redact m (spec : auditSpec m) id req resp :
  mutatingMethods m = Some spec -> success_entry spec id req resp = success_entry spec id req (redact resp).
Proof. intros [= <-]. by destruct m. Qed.

Lemma audited_twins m id req w1 w2 :
  twins w1 w2 ->
  let x1 := run admin1 (AuditUnaryInterceptor m (Some id) req (server m (Some id) req)) w1 in
  let x2 := run admin2 (AuditUnaryInterceptor m (Some id) req (server m (Some id) req)) w2 in
  redact_result x1.1 = redact_result x2.1 /\ twins x1.2 x2.2.
Proof.
  intros Ht. cbv zeta. unfold AuditUnaryInterceptor. destruct (mutatingMethods m) as [spec|] eqn:Hm; [|by apply server_twins].
  rewrite !run_bind. destruct (server_twins m id req w1 w2 Ht) as [Hr Hw].
  destruct (run admin1 _ _) as [[r1|e1] v1], (run admin2 _ _) as [[r2|e2] v2]; cbn [fst snd redact_result] in Hr, Hw; try done;
    rewrite !run_bind, !run_write; rewrite (tw_audit _ _ Hw).
  - injection Hr as Hr. rewrite (success_entry_redact m spec id req r1 Hm), (success_entry_redact m spec id req r2 Hm), Hr.
    destruct (Cockroach_Write _ _ _) as [x t]. cbn [fst snd run]. split; [destruct x; cbn; congruence|].
    destruct Hw. by constructor.
  - injection Hr as ->. cbn [run]. split; [done|]. destruct Hw. by constructor.
Qed.

Lemma rpc_twins m a req w1 w2 :
  twins w1 w2 ->
  let x1 := run admin1 (admin_rpc m a req) w1 in
  let x2 := run admin2 (admin_rpc m a req) w2 in
  redact_result x1.1 = redact_result x2.1 /\ twins x1.2 x2.2.
Proof.
  intros Ht. cbv zeta. rewrite !admin_rpc_run. unfold caller_of. rewrite (tw_users _ _ Ht).
  destruct (holder _ _) as [id|]; [|done]. case_bool_decide; [by apply audited_twins|].
  split; [done|]. rewrite (tw_audit _ _ Ht). destruct Ht. by constructor.
Qed.

Lemma outside_twins v w1 w2 : twins w1 w2 -> twins (outside v w1) (outside v w2).
Proof.
  intros Ht. destruct v as [m a req|t|up known now|up now]; [done|..]; destruct Ht as [Hu Ha Hc Hn Hk Hf1 Hf2];
    constructor; cbn; try done; [by rewrite Ha|].
  destruct Hk as (Hm & Hten & _ & _ & Hd). by repeat split.
Qed.

(** C13. A key is seen once.  Take two deployments that differ only in the keys
    stored and in the bytes their random sources give, the hashes of which do not
    collide.  After the same history, everything there is to read is equal: every
    response but for the raw key inside a CreateApiKey response, the audit log,
    the listing of keys, and the control plane.  So neither a raw key nor its hash
    is ever in the log, in a listing or in a later answer. *)
Theorem keys_leave_no_trace vs w1 w2 :
  twins w1 w2 ->
  let '(ds1, w1') := serve_all o random1 vs w1 in
  let '(ds2, w2') := serve_all o random2 vs w2 in
  map redacted ds1 = map redacted ds2
  /\ audit_log (ad_audit w1') = audit_log (ad_audit w2')
  /\ Cockroach_ListKeys (ad_keys w1') = Cockroach_ListKeys (ad_keys w2')
  /\ ad_control w1' = ad_control w2'.
Proof.
  intros Ht. enough (map redacted (serve_all o random1 vs w1).1 = map redacted (serve_all o random2 vs w2).1
    /\ twins (serve_all o random1 vs w1).2 (serve_all o random2 vs w2).2) as [Hd Hw].
  { destruct (serve_all o random1 vs w1) as [ds1 w1'], (serve_all o random2 vs w2) as [ds2 w2'].
    cbn [fst snd] in Hd, Hw. split; [done|]. split; [by rewrite (tw_audit _ _ Hw)|]. split; [|apply Hw].
    by destruct (harmless_twins _ (AKeys ListKeys) w1' w2' I Hw) as [Hl _]. }
  revert w1 w2 Ht. induction vs as [|v vs IH]; intros w1 w2 Ht; [done|].
  destruct v as [m a req|t|up known now|up now]; cbn [serve_all]; [|by apply IH, outside_twins..].
  destruct (rpc_twins m a req w1 w2 Ht) as [Hr Hw]. unfold caller_of, writable_by. rewrite (tw_users _ _ Ht), (tw_audit _ _ Ht).
  destruct (run admin1 _ _) as [r1 v1], (run admin2 _ _) as [r2 v2]. cbn [fst snd] in Hr, Hw.
  specialize (IH v1 v2 Hw). destruct (serve_all o random1 vs v1) as [ds1 u1], (serve_all o random2 vs v2) as [ds2 u2].
  destruct IH as [IHd IHw]. split; [|exact IHw]. cbn in IHd |- *. unfold redacted at 1 3. cbn. by rewrite Hr, IHd.
Qed.
End Blind.

(** * Witnesses *)

(** An operator who may command, one who may only look, one who was removed. *)
Definition demo_users : AdminUsers := mkAdminUsers
  (list_to_map [(HashToken "tok-a", Authn.mkRow "alice" "org" "admin" None);
                (HashToken "tok-v", Authn.mkRow "victor" "org" "viewer" None);
                (HashToken "tok-r", Authn.mkRow "rita" "org" "admin" (Some 5))]) true.

Definition demo_log : AuditLog := mkAuditLog [] (fun _ => true) true 0.

Definition demo_keys (stored : gmap string KeyRow) : KeyTable := mkKeyTable stored {["acme"]} true 1000 0.

Definition demo_admin {C} (c : C) (stored : gmap string KeyRow) : Admin C := mkAdmin demo_users demo_log (demo_keys stored) c 0.

Definition demo_uuid (p : string) (n : nat) : string := p +:+ itoa (Z.of_nat n).

(** A control plane that always agrees. *)
Definition agreeable : handler controlPublisher unit := fun X e w =>
  match e in controlPublisher X return X * unit with
  | CtlRegisterModelManifest _ _ _ => (Ok "v1", w)
  | CtlCreateRollout _ _ _ => (Ok "r1", w)
  | CtlPromoteRollout _ => (Ok "canary_1", w)
  | CtlAbortRollout _ => (Ok tt, w)
  end.

Definition demo_outer : Outer unit := mkOuter (demo_uuid "a") (demo_uuid "k") agreeable.

(** One key's worth of random bytes. *)
Definition one_key (b : list Z) (n : nat) : res (list Z) := match n with O => Ok b | _ => Err (Lib "rand") end.

Definition demo_row : KeyRow := mkKeyRow "acme" "00" ["chat"] 7 None.

Lemma effects_need_admin_witness :
  let w := demo_admin tt ∅ in
  exists e rest,
    trace (admin demo_outer (one_key [1; 2])) (admin_rpc CreateApiKey ["Bearer tok-a"] (mkCreate "acme" ["chat"])) w = e :: rest
    /\ length rest = 3%nat
    /\ exists row, (admin demo_outer (one_key [1; 2]) _ (AUsers (LookupByHash (HashToken "tok-a"))) w).1 = Ok (Some row)
         /\ rowRole row = "admin".
Proof.
  intros w. do 2 eexists. split; [vm_compute; reflexivity|]. split; [reflexivity|].
  destruct (effects_need_admin (admin demo_outer (one_key [1; 2])) CreateApiKey ["Bearer tok-a"] (mkCreate "acme" ["chat"]) w _ _
    ltac:(vm_compute; reflexivity)) as (_ & _ & H).
  destruct H as (row & Hrow & _ & _); [discriminate|]. exists row. split; [exact Hrow|].
  vm_compute in Hrow. injection Hrow as <-. reflexivity.
Defined.

Definition demo_history : list event :=
  [Rpc CreateApiKey ["Bearer tok-a"] (mkCreate "acme" ["chat"]);
   Rpc RevokeApiKey ["Bearer tok-v"] "key";
   Rpc RevokeApiKey ["Bearer tok-r"] "key";
   Rpc RevokeApiKey ["bearer tok-a"] "key";
   Rpc RevokeApiKey ["bearer tok-a"] "key"].

Lemma revocation_is_final_witness :
  let w := demo_admin tt {[ "key" := demo_row ]} in
  let '(ds, w') := serve_all demo_outer (one_key [1; 2]) demo_history w in
  key_row "key" w' = Some (with_revoked (Some 1000) demo_row)
  /\ exists d, List.filter (revoked_by "key") ds = [d].
Proof.
  intros w. pose proof (revocation_is_final demo_outer (one_key [1; 2]) demo_history w "key" demo_row eq_refl) as H.
  assert (Hk : key_row "key" (serve_all demo_outer (one_key [1; 2]) demo_history w).2 = Some (with_revoked (Some 1000) demo_row))
    by (vm_compute; reflexivity).
  destruct (serve_all demo_outer (one_key [1; 2]) demo_history w) as [ds w']. split; [exact Hk|].
  destruct H as (t & Hr & H). assert (t = Some 1000) as -> by (cbn [snd] in Hk; rewrite Hr in Hk; injection Hk as Hk; exact Hk). exact H.
Defined.

Lemma one_key_fresh b stored : stored = ∅ -> fresh (one_key b) 0 (demo_keys stored).
Proof.
  intros ->. split; [|intros i j x y Hij Hi Hj; destruct j; [lia|done]].
  intros i x _ _. destruct (hash_taken _ _) eqn:E; [|done]. apply hash_taken_spec in E as (id & r & Hr & _). done.
Qed.

Lemma keys_leave_no_trace_witness :
  let w := demo_admin tt ∅ in
  let '(ds1, w1) := serve_all demo_outer (one_key [1; 2]) demo_history w in
  let '(ds2, w2) := serve_all demo_outer (one_key [3; 4]) demo_history w in
  audit_log (ad_audit w1) = audit_log (ad_audit w2) /\ length (audit_log (ad_audit w1)) = 4%nat
  /\ map redacted ds1 = map redacted ds2.
Proof.
  intros w. pose proof (keys_leave_no_trace demo_outer (one_key [1; 2]) (one_key [3; 4])
    ltac:(by intros []) demo_history w w) as H.
  assert (length (audit_log (ad_audit (serve_all demo_outer (one_key [1; 2]) demo_history w).2)) = 4%nat) as Hl
    by (vm_compute; reflexivity).
  destruct (serve_all demo_outer (one_key [1; 2]) demo_history w) as [ds1 w1],
    (serve_all demo_outer (one_key [3; 4]) demo_history w) as [ds2 w2].
  destruct H as (Hd & Ha & _).
  - constructor; try reflexivity; [repeat split; reflexivity|apply one_key_fresh; reflexivity..].
  - split; [exact Ha|]. split; [exact Hl|exact Hd].
Defined.
