(* ===== verification/AdminConcurrent.v ===== *)
(** admin-api under load: commands in flight at the same time.

    [AdminSpec] serves one RPC after the other.  Here any number of RPCs, on any
    number of replicas, interleave between any two of their calls to the credential
    store, the audit log, the key store and the control plane, while databases fail
    and recover, operators edit the table of admins and others use the control
    plane.  The audit trail and the life of a key are stated for every such
    execution ([Histories]). *)

From S2P Require Import Prelude Errors Prog Histories Json GoTime Sha256 Authn AuditStore ApiKeys Authz AdminServer AdminSpec.
#[local] Open Scope Z_scope.

(** A command as its client sends it, and as it is answered. *)
Record command := mkCommand { cm_method : method; cm_authorization : list string; cm_req : Req cm_method }.
Record answer := mkAnswer { an_method : method; an_req : Req an_method; an_result : res (Resp an_method) }.

Definition serve_admin (c : command) : prog AdminE answer :=
  bind (admin_rpc (cm_method c) (cm_authorization c) (cm_req c)) (fun r => Ret (mkAnswer (cm_method c) (cm_req c) r)).

(** The call an answer came from, with what the client does not see. *)
Definition done_call (a : answer) (caller : option Identity) (ok : bool) : done_ :=
  mkDone (an_method a) caller (an_req a) ok (an_result a).

(** What a row holds besides its id and time. *)
Definition stored (e : Entry) : string * string * string * option string * option string :=
  (Actor e, Action e, Target e, marshalNullable (Before e), marshalNullable (After e)).

(** The row a call wrote. *)
Definition recorded (a : answered AdminE) : list (string * string * string * option string * option string) :=
  match a with
  | existT X (e, x) =>
      match e in AdminE X return X -> list _ with
      | AAudit e => match e in Writer X return X -> list _ with
                    | Write e => fun r => match r with Ok _ => [stored e] | Err _ => [] end
                    end
      | _ => fun _ => []
      end x
  end.

Definition records (tr : list (answered AdminE)) := concat (map recorded tr).

Lemma records_snoc tr {X} (e : AdminE X) x : records (tr ++ [answer_to e x]) = records tr ++ recorded (answer_to e x).
Proof. unfold records. rewrite map_app, concat_app. cbn [map concat]. by rewrite app_nil_r. Qed.

Section Concurrent.
Context {C : Type} (o : Outer C) (random : nat -> res (list Z)).
Abbreviation admin := (AdminSpec.admin o random).

(** What else happens: the outside events of [AdminSpec], and whatever other
    clients do to the control plane. *)
Inductive disturbance := Outside (v : event) | Others (f : C -> C).

Definition world (v : disturbance) (w : Admin C) : Admin C :=
  match v with
  | Outside v => outside v w
  | Others f => mkAdmin (ad_users w) (ad_audit w) (ad_keys w) (f (ad_control w)) (ad_drawn w)
  end.

(** * The audit trail *)

Lemma admin_records X (e : AdminE X) w :
  map content (audit_log (ad_audit (admin X e w).2))
  = map content (audit_log (ad_audit w)) ++ recorded (answer_to e (admin X e w).1).
Proof.
  destruct e as [Y e|Y e|Y e|Y e|]; cbn [AdminSpec.admin].
  - destruct (cockroach_users Y e _). by rewrite app_nil_r.
  - destruct e as [e]. cbn [cockroach_writer]. destruct (write_content (audit_uuid o) e (ad_audit w)) as [Hr Hw].
    destruct (Cockroach_Write _ e _) as [x t]. cbn [fst snd ad_audit set_audit] in *. rewrite Hw, Hr. cbn. f_equal.
    by destruct (writable _ _).
  - destruct (control o Y e _). by rewrite app_nil_r.
  - destruct (cockroach_keys _ Y e _). by rewrite app_nil_r.
  - by rewrite app_nil_r.
Qed.

Lemma world_records v w : audit_log (ad_audit (world v w)) = audit_log (ad_audit w).
Proof. by destruct v as [[]|]. Qed.

(** What one RPC leaves, whatever the others do in between. *)
Section Path.
Context (during : Admin C -> Prop) (w0 : Admin C) (Hw0 : during w0).

(** Every answer is given by a state of the execution. *)
Definition given : forall X, AdminE X -> X -> Prop := fun X e x => exists w, during w /\ x = (admin X e w).1.

(** An RPC that has not returned has recorded nothing; one that has was recorded
    as [trail] says, for the holder of its token at some moment, if the log could
    be written at some moment. *)
Definition accounted (c : command) (tr : list (answered AdminE)) (p : prog AdminE answer) : Prop :=
  match p with
  | Ret a =>
      (exists r, a = mkAnswer (cm_method c) (cm_req c) r)
      /\ exists w1 w2, during w1 /\ during w2 /\
           let caller := caller_of (cm_authorization c) w1 in
           let d := done_call a caller (writable_by caller w2) in
           records tr = trail d /\ sound d
  | Do _ _ => records tr = []
  end.

Definition not_write : forall X, AdminE X -> Prop := fun _ e => match e with AAudit _ => False | _ => True end.

Lemma server_not_write m id req : calls any not_write (server m (Some id) req).
Proof.
  destruct m; cbn [server]; try by split. apply calls_bind; [by split|]. intros r. destruct (GenerateRawKey r); [|done].
  apply calls_rbind; [by split|done].
Qed.

Lemma not_write_records tr X (e : AdminE X) x : not_write X e -> records tr = [] -> records (tr ++ [answer_to e x]) = [].
Proof. intros He Htr. rewrite records_snoc, Htr. by destruct e. Qed.

Lemma given_write e x : given _ (AAudit (Write e)) x ->
  exists w, during w /\ x = if writable (Actor e) (ad_audit w) then Ok tt else Err (Lib "cockroach").
Proof.
  intros (w & Hw & ->). exists w. split; [done|]. cbn [AdminSpec.admin cockroach_writer].
  destruct (write_content (audit_uuid o) e (ad_audit w)) as [Hr _]. by destruct (Cockroach_Write _ e _).
Qed.

Lemma gated_path c id w1 tr :
  during w1 -> caller_of (cm_authorization c) w1 = Some id -> records tr = [] ->
  on_every_path given (accounted c) tr
    (bind (authz_interceptor (fun e => AAudit (Write e)) (Some id) (FullMethod (cm_method c))
       (AuditUnaryInterceptor (cm_method c) (Some id) (cm_req c) (server (cm_method c) (Some id) (cm_req c))))
       (fun r => Ret (mkAnswer (cm_method c) (cm_req c) r))).
Proof.
  intros Hw1 Hid Htr. unfold authz_interceptor. rewrite full_method_allowed. case_bool_decide as Hr.
  - unfold AuditUnaryInterceptor. destruct (mutatingMethods (cm_method c)) as [spec|] eqn:Hm; [|done].
    refine (quiet_paths given (accounted c) (fun tr => records tr = []) not_write (fun p => bind (bind p _) _) _ tr
      (fun _ _ _ => eq_refl) _ _ (server_not_write _ _ _) _ Htr); [done|intros; by apply not_write_records|].
    clear tr Htr. intros tr r Htr. destruct r as [resp|e]; cbn [bind]; (split; [exact Htr|]); intros x Hx;
      apply given_write in Hx as (w2 & Hw2 & ->); (split; [|done]); (split; [by eexists|]);
      exists w1, w2; (split; [done|]); (split; [done|]); rewrite Hid; cbn zeta;
      unfold trail, sound, entry_of, writable_by, done_call; cbn [d_caller d_result d_writable d_method d_req an_method an_req an_result];
      rewrite (bool_decide_true _ Hr), Hm, records_snoc, Htr; cbn [Actor success_entry failure_entry];
      by destruct (writable _ _).
  - cbn [bind call]. split; [exact Htr|]. intros x Hx. apply given_write in Hx as (w2 & Hw2 & ->). split; [|done]. split; [by eexists|].
    exists w1, w2. split; [done|]. split; [done|]. rewrite Hid. cbn zeta.
    unfold trail, sound, entry_of, writable_by, done_call; cbn [d_caller d_result d_writable d_method d_req an_method an_req an_result].
    rewrite (bool_decide_false _ Hr), records_snoc, Htr. cbn [Actor]. by destruct (writable _ _).
Qed.

Lemma rpc_path c : on_every_path given (accounted c) [] (serve_admin c).
Proof.
  unfold serve_admin, admin_rpc, authn_interceptor, Authenticate. set (token := bearerToken (cm_authorization c)).
  assert (Hnone : forall w tr, during w -> caller_of (cm_authorization c) w = None -> records tr = [] ->
            accounted c tr (Ret (mkAnswer (cm_method c) (cm_req c) (Err unauthenticated)))).
  { intros w tr Hw Hn Htr. split; [by eexists|]. exists w, w. split; [done|]. split; [done|]. by rewrite Hn, Htr. }
  case_bool_decide as Ht.
  - cbn [link bind on_every_path]. split; [|done]. apply (Hnone w0); [done| |done]. unfold caller_of, holder. fold token.
    by rewrite (bool_decide_true _ Ht), andb_false_r.
  - cbn [link call bind]. split; [done|]. intros x (w1 & Hw1 & ->).
    assert (Hc : caller_of (cm_authorization c) w1 = match Cockroach_LookupByHash (HashToken token) (ad_users w1) with
              | Ok (Some row) => match RevokedAt row with Some _ => None | None => Some (mkIdentity (rowUserID row) (rowOrgID row) (rowRole row)) end
              | _ => None end).
    { unfold caller_of, holder, Cockroach_LookupByHash. fold token. rewrite (bool_decide_false _ Ht).
      by destruct (users_up _). }
    cbn [AdminSpec.admin cockroach_users fst]. destruct (Cockroach_LookupByHash _ _) as [[row|]|e]; cbn [link bind].
    + destruct (RevokedAt row); cbn [link bind]; [split; [|done]; by apply (Hnone w1)|]. by apply (gated_path c _ w1).
    + split; [|done]. by apply (Hnone w1).
    + split; [|done]. by apply (Hnone w1).
Qed.
End Path.

(** ** Every execution *)

(** What holds on every path of an RPC holds of what it did and has left to do. *)
Lemma every_command (P : command -> list (answered AdminE) -> prog AdminE answer -> Prop) cs w ds :
  let c0 := (map serve_admin cs, w) in
  (forall c, on_every_path (given (visited admin world ds c0)) (P c) [] (serve_admin c)) ->
  forall i, match cs !! i, (sched admin world ds c0).1 !! i with
            | Some c, Some p => P c (own i (history admin world ds c0)) p
            | None, None => own i (history admin world ds c0) = []
            | _, _ => False
            end.
Proof.
  intros c0 HP i. pose proof (sched_length admin world ds c0) as Hl. unfold c0 in Hl at 2. cbn [fst] in Hl. rewrite length_map in Hl.
  destruct (cs !! i) as [c|] eqn:Hc, ((sched admin world ds c0).1 !! i) as [p|] eqn:Hp.
  - apply (on_every_path_here (given (visited admin world ds c0))).
    set (Q := fun i => match cs !! i with Some c => P c | None => fun _ _ => True end).
    replace (P c) with (Q i) by (unfold Q; by rewrite Hc). apply (sched_paths admin world _ Q (map serve_admin cs) w ds); [done| |done].
    intros j q. unfold Q. rewrite lookup_map. destruct (cs !! j); [|done]. intros [= <-]. apply HP.
  - apply lookup_ge_None in Hp. apply lookup_lt_Some in Hc. lia.
  - apply lookup_ge_None in Hc. apply lookup_lt_Some in Hp. lia.
  - apply history_no_thread. by rewrite lookup_map, Hc.
Qed.

(** C10. The audit trail.  Put any commands in flight at once, let their calls to
    the credential store, the audit log, the key store and the control plane
    interleave in any way, with databases failing and recovering, operators
    editing the admin table and others using the control plane in between.  At
    every point the log is what it was plus rows of which each belongs to one
    command.  A command that has not returned has no row yet.  One that has
    returned was made in the name its token stood for at some moment, and has
    exactly the row its answer calls for if the log took the row when it was
    written: the action and its result for a success, the action marked failed or
    denied otherwise.  A command that reports success has its row; a caller
    without a valid token, or without the admin role, got nothing done. *)
Theorem concurrent_audit_trail cs w ds :
  let c0 := (map serve_admin cs, w) in
  let '(ts, w') := sched admin world ds c0 in
  exists recs,
    map content (audit_log (ad_audit w')) = map content (audit_log (ad_audit w)) ++ recs.*2
    /\ NoDup recs.*1
    /\ forall i, match cs !! i, ts !! i with
         | Some c, Some (Ret a) =>
             (exists r, a = mkAnswer (cm_method c) (cm_req c) r)
             /\ exists w1 w2, visited admin world ds c0 w1 /\ visited admin world ds c0 w2 /\
                  let caller := caller_of (cm_authorization c) w1 in
                  let d := done_call a caller (writable_by caller w2) in
                  own i recs = trail d /\ sound d
         | _, _ => own i recs = []
         end.
Proof.
  intros c0. pose proof (every_command (accounted (visited admin world ds c0)) cs w ds) as Hall.
  specialize (Hall (fun c => rpc_path _ w (ex_intro _ [] (ex_intro _ ds (conj eq_refl eq_refl))) c)). fold c0 in Hall.
  pose proof (history_adds admin world (fun _ => True) (fun w => map content (audit_log (ad_audit w))) recorded ds c0) as [_ Hlog];
    [by split; [|apply admin_records]|by intros; rewrite world_records|done|].
  destruct (sched admin world ds c0) as [ts w'] eqn:E. cbn [fst snd] in Hall, Hlog.
  exists (tagged recorded (history admin world ds c0)). rewrite tagged_snd. split; [exact Hlog|].
  assert (forall i, match cs !! i, ts !! i with
         | Some c, Some (Ret a) => accounted (visited admin world ds c0) c (own i (history admin world ds c0)) (Ret a)
         | _, _ => own i (tagged recorded (history admin world ds c0)) = [] end) as Hown.
  { intros i. specialize (Hall i). rewrite own_tagged. destruct (cs !! i), (ts !! i) as [[]|]; try done. by rewrite Hall. }
  split.
  - apply own_unique. intros i. specialize (Hown i). rewrite own_tagged in *.
    destruct (cs !! i), (ts !! i) as [[a|]|]; cbn in Hown; rewrite ?Hown; cbn; try lia.
    destruct Hown as (_ & w1 & w2 & _ & _ & Ht & _). unfold records in Ht. rewrite Ht. unfold trail.
    destruct (d_caller _); [|cbn; lia]. destruct (d_writable _); [|cbn; lia]. destruct (entry_of _ _); cbn; lia.
  - intros i. specialize (Hown i). rewrite own_tagged in *. by destruct (cs !! i), (ts !! i) as [[a|]|].
Qed.

(** * The life of a key *)

(** The answer claims that the command revoked the key. *)
Definition claims (key : string) (a : answer) : bool := revoked_by key (done_call a None false).

(** The call revoked the key. *)
Definition revoked (key : string) (a : answered AdminE) : list unit :=
  match a with
  | existT X (e, x) =>
      match e in AdminE X return X -> list unit with
      | AKeys e => match e in ApiKeys.StoreE X return X -> list unit with
                   | Revoke id => fun r => match r with Ok true => if bool_decide (id = key) then [tt] else [] | _ => [] end
                   | _ => fun _ => []
                   end
      | _ => fun _ => []
      end x
  end.

Definition revocations (key : string) (tr : list (answered AdminE)) := concat (map (revoked key) tr).

Lemma revocations_snoc key tr {X} (e : AdminE X) x :
  revocations key (tr ++ [answer_to e x]) = revocations key tr ++ revoked key (answer_to e x).
Proof. unfold revocations. rewrite map_app, concat_app. cbn [map concat]. by rewrite app_nil_r. Qed.

(** An RPC revokes a key at most once, and its answer says whether it did. *)
Definition honest (key : string) (c : command) (tr : list (answered AdminE)) (p : prog AdminE answer) : Prop :=
  match p with
  | Ret a => revocations key tr = if claims key a then [tt] else []
  | Do _ _ => (length (revocations key tr) <= 1)%nat
  end.

Definition not_revoke : forall X, AdminE X -> Prop := fun _ e => match e with AKeys (Revoke _) => False | _ => True end.

Lemma not_revoke_nil key tr X (e : AdminE X) x :
  not_revoke X e -> revocations key tr = [] -> revocations key (tr ++ [answer_to e x]) = [].
Proof. intros He Htr. rewrite revocations_snoc, Htr. destruct e as [Y e|Y e|Y e|Y e|]; try done. by destruct e. Qed.

(** What the interceptors add to a handler revokes nothing. *)
Lemma honest_rpc A key c :
  (forall id tr, revocations key tr = [] ->
     on_every_path A (honest key c) tr
       (bind (AuditUnaryInterceptor (cm_method c) (Some id) (cm_req c) (server (cm_method c) (Some id) (cm_req c)))
          (fun r => Ret (mkAnswer (cm_method c) (cm_req c) r)))) ->
  on_every_path A (honest key c) [] (serve_admin c).
Proof.
  intros Hgated.
  assert (Herr : forall tr e, revocations key tr = [] -> e <> unrecorded ->
            honest key c tr (Ret (mkAnswer (cm_method c) (cm_req c) (Err e)))).
  { intros tr e Htr He. cbn [honest]. unfold claims, done_call. cbn [an_method an_req an_result].
    by rewrite revoked_by_err, Htr. }
  assert (Hgate : forall id tr, revocations key tr = [] -> on_every_path A (honest key c) tr
            (bind (authz_interceptor (fun e => AAudit (Write e)) (Some id) (FullMethod (cm_method c))
               (AuditUnaryInterceptor (cm_method c) (Some id) (cm_req c) (server (cm_method c) (Some id) (cm_req c))))
               (fun r => Ret (mkAnswer (cm_method c) (cm_req c) r)))).
  { intros id tr Htr. unfold authz_interceptor. destruct (Allowed _ _); [by apply Hgated|]. cbn [bind call].
    split; [cbn; rewrite Htr; cbn; lia|]. intros x _. split; [|done]. apply Herr; [by apply not_revoke_nil|done]. }
  unfold serve_admin, admin_rpc, authn_interceptor, Authenticate. case_bool_decide; cbn [link call bind].
  - split; [by apply Herr|done].
  - split; [cbn; lia|]. intros x _.
    assert (revocations key ([] ++ [answer_to (AUsers (LookupByHash (HashToken (bearerToken (cm_authorization c))))) x]) = []) as Htr
      by by apply not_revoke_nil.
    destruct x as [[row|]|e]; cbn [link bind]; [|split; [by apply Herr|done]..].
    destruct (RevokedAt row); cbn [link bind]; [split; [by apply Herr|done]|by apply Hgate].
Qed.

Lemma server_not_revoke m id req : m <> RevokeApiKey -> calls any not_revoke (server m (Some id) req).
Proof.
  intros Hm. destruct m; cbn [server]; try by split. apply calls_bind; [by split|]. intros r. destruct (GenerateRawKey r); [|done].
  apply calls_rbind; [by split|done].
Qed.

Lemma other_claims key m req r : m <> RevokeApiKey -> claims key (mkAnswer m req r) = false.
Proof. by destruct m. Qed.

Lemma honest_path A key c : on_every_path A (honest key c) [] (serve_admin c).
Proof.
  apply honest_rpc. intros id tr Htr. unfold AuditUnaryInterceptor.
  destruct (mutatingMethods (cm_method c)) as [spec|] eqn:Hs; [|done]. clear Hs. destruct c as [m a req].
  cbn [cm_method cm_req cm_authorization] in *. destruct (decide (m = RevokeApiKey)) as [->|Hm].
  - cbn [server]. unfold server_RevokeApiKey, as_admin. cbn [bind call].
    split; [cbn; rewrite Htr; cbn; lia|]. intros found _.
    set (tr' := tr ++ _). assert (revocations key tr' = match found with Ok true => if bool_decide (req = key) then [tt] else [] | _ => [] end) as Htr'
      by (unfold tr'; rewrite revocations_snoc, Htr; done).
    assert ((length (revocations key tr') <= 1)%nat) as Hle by (rewrite Htr'; destruct found as [[]|]; try case_bool_decide; cbn; lia).
    destruct found as [[]|e]; cbn [bind]; (split; [exact Hle|]); intros x _; (split; [|done]); cbn [honest];
      rewrite revocations_snoc, Htr'; unfold claims, done_call; cbn; rewrite ?app_nil_r, ?andb_false_r; try done.
    destruct x as [u|e]; cbn; rewrite ?andb_true_r; by case_bool_decide.
  - refine (quiet_paths A (honest key _) (fun tr => revocations key tr = []) not_revoke (fun p => bind (bind p _) _) _ tr
      (fun _ _ _ => eq_refl) _ _ (server_not_revoke m id req Hm) _ Htr);
      [intros t X e k Ht; cbn; rewrite Ht; cbn; lia|intros; by apply not_revoke_nil|].
    clear tr Htr. intros tr r Htr. destruct r as [resp|e]; cbn [bind call]; (split; [cbn; rewrite Htr; cbn; lia|]); intros x _;
      (split; [|done]); cbn [honest]; rewrite other_claims by done; by apply not_revoke_nil.
Qed.

(** Whether the row is revoked, as a list. *)
Definition mark (key : string) (w : Admin C) : list unit :=
  match key_row key w with Some r => match krRevoked r with Some _ => [tt] | None => [] end | None => [] end.

(** The row is the one it was, but for the revocation that may have happened. *)
Definition kept (key : string) (row : KeyRow) (w : Admin C) : Prop :=
  exists t, key_row key w = Some (with_revoked t row) /\ (krRevoked row <> None -> t = krRevoked row).

Lemma kept_same key row w w' : key_row key w' = key_row key w -> kept key row w -> kept key row w' /\ mark key w' = mark key w ++ [].
Proof. intros H. unfold kept, mark. by rewrite H, app_nil_r. Qed.

Lemma admin_kept key row X (e : AdminE X) w :
  kept key row w -> kept key row (admin X e w).2 /\ mark key (admin X e w).2 = mark key w ++ revoked key (answer_to e (admin X e w).1).
Proof.
  intros Hk. destruct e as [Y e|Y e|Y e|Y e|]; cbn [AdminSpec.admin].
  - destruct (cockroach_users Y e _). by apply kept_same.
  - destruct (cockroach_writer _ Y e _). by apply kept_same.
  - destruct (control o Y e _). by apply kept_same.
  - destruct e as [org hash scopes|id|]; cbn [cockroach_keys].
    + enough (forall k, key_row key w = Some k -> api_keys (Cockroach_Create (key_uuid o) org hash scopes (ad_keys w)).2 !! key = Some k) as H.
      { destruct (Cockroach_Create _ _ _ _ _) as [x t]. apply kept_same; [|done]. destruct Hk as (t' & Hr & _). rewrite Hr. by apply H. }
      intros k Hr. unfold key_row in Hr. unfold Cockroach_Create. destruct (keys_up _); cbn; [|done]. case_bool_decide; cbn; [|done].
      destruct (hash_taken _ _); cbn; [done|]. case_bool_decide as Hid; cbn; [|done]. rewrite lookup_insert_ne; [done|congruence].
    + destruct Hk as (t0 & Hr & Ht). pose proof (revoke_row id key _ (ad_keys w) Hr) as Hv.
      destruct (Cockroach_Revoke id (ad_keys w)) as [[[]|err] t'] eqn:E; cbn [fst snd].
      * unfold row_step in Hv. cbn [revoked answer_to]. case_bool_decide as Hid.
        -- destruct Hv as (Hn & t & Hv). cbn in Hn. subst t0. assert (krRevoked row = None) as Hn.
           { destruct (krRevoked row); [|done]. by specialize (Ht ltac:(done)). }
           split; [exists (Some t); split; [exact Hv|by rewrite Hn]|]. unfold mark, key_row in *. cbn [ad_keys]. by rewrite Hv, Hr.
        -- apply kept_same; [unfold key_row in *; cbn; by rewrite Hv, Hr|]. by exists t0.
      * apply kept_same; [by subst t'|]. by exists t0.
      * apply kept_same; [by subst t'|]. by exists t0.
    + by apply kept_same.
  - by apply kept_same.
Qed.

Lemma world_kept key row v w : kept key row w -> kept key row (world v w) /\ mark key (world v w) = mark key w.
Proof. by destruct v as [[]|]. Qed.

(** C14. Revocation is final.  Whatever commands are in flight at once, in any
    interleaving: a stored key keeps its owner, hash, scopes and date.  If it was
    revoked it stays revoked at that time, and no command claims to have revoked
    it.  Otherwise at most one command claims it; if one does, the key is revoked;
    and when all have returned a revoked key has its claimant. *)
Theorem concurrent_revocation cs w ds key row :
  key_row key w = Some row ->
  let '(ts, w') := sched admin world ds (map serve_admin cs, w) in
  let claimant i := exists a, ts !! i = Some (Ret a) /\ claims key a = true in
  exists t, key_row key w' = Some (with_revoked t row)
    /\ match krRevoked row with
       | Some t0 => t = Some t0 /\ forall i, ~ claimant i
       | None => (forall i j, claimant i -> claimant j -> i = j)
                 /\ (forall i, claimant i -> is_Some t)
                 /\ (is_Some t -> Forall (fun p => exists a, p = Ret a) ts -> exists i, claimant i)
       end.
Proof.
  intros Hrow. set (c0 := (map serve_admin cs, w)).
  pose proof (every_command (honest key) cs w ds (honest_path _ key)) as Hall. fold c0 in Hall.
  assert (Hk0 : kept key row w). { exists (krRevoked row). split; [|done]. rewrite Hrow. by destruct row. }
  pose proof (history_adds admin world (kept key row) (mark key) (revoked key) ds c0
    (fun X e w => admin_kept key row X e w) (fun v w => world_kept key row v w) Hk0) as [Hk Hm].
  rewrite <- tagged_snd in Hm. set (l := tagged (revoked key) _) in Hm.
  assert (Hown : forall i, match (sched admin world ds c0).1 !! i with
            | Some (Ret a) => own i l = if claims key a then [tt] else []
            | Some (Do _ _) => True
            | None => own i l = [] end).
  { intros i. specialize (Hall i). unfold l. rewrite own_tagged. fold (revocations key (own i (history admin world ds c0))).
    destruct (cs !! i), ((sched admin world ds c0).1 !! i) as [[a|X e k]|]; try done. by rewrite Hall. }
  destruct (sched admin world ds c0) as [ts w'] eqn:E. cbn [fst snd] in *. destruct Hk as (t & Hr & Ht).
  assert (Hclaim : forall i a, ts !! i = Some (Ret a) -> claims key a = true -> (i, tt) ∈ l).
  { intros i a Hi Hc. specialize (Hown i). rewrite Hi, Hc in Hown. apply own_spec. rewrite Hown. set_solver. }
  exists t. split; [exact Hr|]. unfold mark in Hm. cbn [fst snd c0] in Hm. rewrite Hr, Hrow in Hm. cbn in Hm.
  destruct (krRevoked row) as [t0|].
  - specialize (Ht ltac:(done)). subst t. split; [done|]. intros i (a & Hi & Hc). specialize (Hclaim i a Hi Hc).
    destruct l; [set_solver|done].
  - assert (length l <= 1)%nat as Hlen. { apply (f_equal length) in Hm. rewrite length_app, length_fmap in Hm. destruct t; cbn in Hm; lia. }
    split; [|split].
    + intros i j (a & Hi & Ha) (b & Hj & Hb). pose proof (Hclaim i a Hi Ha). pose proof (Hclaim j b Hj Hb).
      destruct l as [|x [|y l]]; [set_solver| |cbn in Hlen; lia]. rewrite !list_elem_of_singleton in *. congruence.
    + intros i (a & Hi & Ha). specialize (Hclaim i a Hi Ha). destruct t; [done|]. destruct l; [set_solver|done].
    + intros [t1 ->] Hret. destruct l as [|[i u] l'] eqn:El; [done|]. exists i. specialize (Hown i).
      assert (u ∈ own i ((i, u) :: l')) as Hu by (apply own_spec; set_solver).
      destruct (ts !! i) as [p|] eqn:Hi; [|rewrite Hown in Hu; set_solver].
      destruct (Forall_lookup_1 _ _ _ _ Hret Hi) as [a ->]. exists a. split; [done|].
      destruct (claims key a); [done|]. rewrite Hown in Hu. set_solver.
Qed.
End Concurrent.

(** * Examples *)

(** Two operators revoke the same key at once; the second look at the key store
    comes first, and the log is down when the loser's failure is recorded. *)
Definition demo_race : list command :=
  [mkCommand RevokeApiKey ["Bearer tok-a"] "key"; mkCommand RevokeApiKey ["bearer tok-a"] "key"; mkCommand AbortRollout ["Bearer tok-v"] "r1"].

Definition race_schedule : list (decision (V := disturbance (C := unit))) :=
  [Run 0; Run 1; Run 1; Run 2; Run 0; Run 2; Run 1; Env (Outside (SetAudit false (fun _ => true) 9)); Run 0].

Definition demo_start : Admin unit := demo_admin tt {[ "key" := demo_row ]}.

Definition demo_run := sched (admin demo_outer (one_key [])) world race_schedule
  (map serve_admin demo_race, demo_start).

Example race_answers :
  demo_run.1 = [Ret (mkAnswer RevokeApiKey "key" (Err (Status Internal "failed to revoke api key")));
                Ret (mkAnswer RevokeApiKey "key" (Ok tt));
                Ret (mkAnswer AbortRollout "r1" (Err (denied "insufficient privileges for this action")))].
Proof. vm_compute. reflexivity. Qed.

Example race_log :
  map content (audit_log (ad_audit demo_run.2)) =
    [("victor", "/admin.v1.AdminService/AbortRollout_denied", "/admin.v1.AdminService/AbortRollout", None, None);
     ("alice", "revoke_api_key", "key", None, Some (print (JObj [("status", JStr "revoked")])))].
Proof. vm_compute. reflexivity. Qed.

Lemma concurrent_revocation_witness :
  let '(ts, w') := demo_run in
  key_row "key" w' = Some (with_revoked (Some 1000) demo_row)
  /\ exists i, (exists a, ts !! i = Some (Ret a) /\ claims "key" a = true)
       /\ forall j, (exists a, ts !! j = Some (Ret a) /\ claims "key" a = true) -> i = j.
Proof.
  pose proof (concurrent_revocation demo_outer (one_key []) demo_race demo_start race_schedule
    "key" demo_row ltac:(vm_compute; reflexivity)) as H. fold demo_run in H.
  assert (Hk : key_row "key" demo_run.2 = Some (with_revoked (Some 1000) demo_row)) by (vm_compute; reflexivity).
  assert (Hr : Forall (fun p => exists a, p = Ret a) demo_run.1) by (rewrite race_answers; repeat constructor; by eexists).
  destruct demo_run as [ts w']. cbv zeta in H. destruct H as (t & Ht & Hinj & _ & Hex). split; [exact Hk|].
  assert (t = Some 1000) as -> by (cbn [snd] in Hk; rewrite Ht in Hk; injection Hk as Hk; exact Hk).
  destruct (Hex ltac:(by eexists) Hr) as [i Hi]. exists i. split; [exact Hi|]. intros j Hj. exact (Hinj i j Hi Hj).
Defined.

Lemma concurrent_audit_trail_witness :
  exists recs, map content (audit_log (ad_audit demo_run.2)) = recs.*2 /\ NoDup recs.*1 /\ length (own 1 recs) = 1%nat.
Proof.
  pose proof (concurrent_audit_trail demo_outer (one_key []) demo_race demo_start race_schedule) as H. cbv zeta in H.
  fold demo_run in H. pose proof race_answers as Ha. destruct demo_run as [ts w']. cbn [fst] in Ha. subst ts.
  destruct H as (recs & Hl & Hn & Hi). exists recs. split; [exact Hl|]. split; [exact Hn|].
  destruct (Hi 1%nat) as (_ & w1 & w2 & _ & _ & Ht & Hs). unfold sound, trail, done_call, entry_of in Ht, Hs. rewrite Ht.
  cbn [d_caller d_result d_writable d_method d_req an_method an_req an_result] in *.
  destruct (caller_of _ w1) as [id|]; [|discriminate]. destruct (bool_decide _); [|discriminate]. by rewrite (Hs eq_refl).
Defined.
