(* ===== verification/AdminDeploy.v ===== *)
(** admin-api linked with control-plane: the commands reach the registry and the
    rollouts through control-plane's RPC handlers and through nothing else. *)

From S2P Require Import Prelude Errors Prog Json GoTime Signer Etcd Registry Rollout Deploy RolloutSpec ControlPlane.
From S2P Require Import Sha256 Authn AuditStore ApiKeys Authz AdminServer AdminSpec.
#[local] Open Scope Z_scope.

Section Linked.
Context {S : Type} (hsigner : handler SignerE S) (uuid : nat -> string).
Abbreviation cp := (Deploy.cp hsigner uuid).

(** [controlpb.NewControlServiceClient] over the mesh: the RPC the service runs. *)
Definition control_rpc X (e : controlPublisher X) : prog CpE X :=
  match e in controlPublisher X return prog CpE X with
  | CtlRegisterModelManifest m j c => rpc_RegisterModelManifest m j c
  | CtlCreateRollout m v j => rpc_CreateRollout m v j
  | CtlPromoteRollout id => rpc_PromoteRollout id
  | CtlAbortRollout id => rpc_AbortRollout id
  end.

Definition control_plane : handler controlPublisher (Cp S) := fun X e => run cp (control_rpc X e).

(** * Which calls write manifests *)

Definition author := string -> string -> string -> Prop.

Definition no_one : author := fun _ _ _ => False.
Definition only (m j c : string) : author := fun m' j' c' => m' = m /\ j' = j /\ c' = c.

Definition inserts_reg (P : author) : forall X, RegE X -> Prop := fun _ e =>
  match e with RStore (InsertManifest _ m j _ c _) => P m j c | _ => True end.

Definition inserts (P : author) : forall X, CpE X -> Prop := fun _ e =>
  match e with DbRegistry (InsertManifest _ m j _ c _) => P m j c | _ => True end.

Lemma register_inserts m j c : calls any (inserts_reg (only m j c)) (RegisterModelManifest m j c).
Proof.
  unfold RegisterModelManifest. destruct (negb _); [done|]. split; [done|]. intros v _. split; [done|]. intros t _.
  repeat (apply calls_rbind; [by split|intros ?]). destruct x2; [done|].
  apply calls_rbind; [|done]. by repeat (apply calls_rbind; [by split|intros ?]).
Qed.

Lemma activate_inserts P m v : calls any (inserts_reg P) (Registry.ActivateVersion m v).
Proof. by repeat (apply calls_rbind; [by split|intros ?]). Qed.

Lemma get_inserts P m v : calls any (inserts_reg P) (Registry.GetModelManifest m v).
Proof.
  unfold Registry.GetModelManifest. apply calls_rbind; [case_bool_decide; by split|intros x].
  apply calls_rbind; [by split|intros y]. by destruct y.
Qed.

Lemma over_etcd_inserts P {A} (p : prog EtcdE A) : calls any (inserts P) (over_etcd p).
Proof. apply (calls_link _ (fun _ _ => True)); [by intros; split|]. induction p; simpl; auto. Qed.

Lemma registry_inserts P {A} (p : prog RegE A) : calls any (inserts_reg P) p -> calls any (inserts P) (deployed_registry p).
Proof.
  apply calls_link. intros X e He. destruct e as [Y e|Y e|Y e| |]; simpl; try by split.
  apply over_etcd_inserts.
Qed.

(** The rollout service has the registry's lookups and activations only. *)
Lemma rollout_inserts {A} (p : prog RolloutE A) : calls any (inserts no_one) (deployed p).
Proof.
  apply (calls_link _ (fun _ _ => True)); [|induction p; simpl; auto]. intros X e _.
  destruct e as [Y e|Y e|Y e| |]; cbn [rollout_deps]; try by split.
  - destruct e. apply over_etcd_inserts.
  - destruct e; apply registry_inserts; [apply get_inserts|apply activate_inserts].
Qed.

(** * How the manifest table grows *)

Definition rows_of (w : Cp S) : gmap string Manifest := model_manifest (cp_tables w).

(** Rows stay as they are; the new ones have an author of the kind. *)
Definition grows (P : author) (w w' : Cp S) : Prop :=
  (forall v row, rows_of w !! v = Some row -> rows_of w' !! v = Some row)
  /\ (forall v row, rows_of w' !! v = Some row ->
        rows_of w !! v = Some row \/ P (ModelRef row) (SpecJSON row) (CreatedBy row)).

#[export] Instance grows_preorder P : PreOrder (grows P).
Proof.
  split; [by split; eauto|]. intros w1 w2 w3 [H1 H1'] [H2 H2']. split; [eauto|].
  intros v row Hr. destruct (H2' v row Hr) as [Hr'|]; eauto.
Qed.

Lemma grows_same P w w' : rows_of w' = rows_of w -> grows P w w'.
Proof. intros H. split; intros v row; rewrite H; auto. Qed.

Lemma cp_grows P X (e : CpE X) w : inserts P X e -> grows P w (cp X e w).2.
Proof.
  intros He. destruct e as [Y e|Y e|Y e|Y e| |]; cbn [Deploy.cp]; try by apply grows_same.
  - destruct w as [[mm ma up] tr ke sg ck dr]. destruct e; cbn; destruct up; cbn; try by apply grows_same.
    + unfold Cockroach_InsertManifest. cbn. destruct (mm !! versionID) eqn:E; cbn; [by apply grows_same|].
      cbn in He. split; unfold rows_of; cbn; intros v row.
      * intros Hr. rewrite lookup_insert_ne; congruence.
      * destruct (decide (versionID = v)) as [<-|Hne]; [rewrite lookup_insert_eq; intros [= <-]; by right|].
        rewrite lookup_insert_ne by done. by left.
    + unfold Cockroach_SetActive. cbn. destruct (mm !! versionID); by apply grows_same.
  - destruct (cockroach_rollouts Y e _). by apply grows_same.
  - destruct (etcd Y e _). by apply grows_same.
  - destruct (hsigner Y e _). by apply grows_same.
Qed.

Lemma run_grows P {A} (p : prog CpE A) w : calls any (inserts P) p -> grows P w (run cp p w).2.
Proof. apply (run_calls cp (inserts P) (grows P)). intros X e w'. apply cp_grows. Qed.

Definition command_author {X} (e : controlPublisher X) : author :=
  match e with CtlRegisterModelManifest m j c => only m j c | _ => no_one end.

Lemma control_inserts X (e : controlPublisher X) : calls any (inserts (command_author e)) (control_rpc X e).
Proof.
  destruct e; cbn [control_rpc command_author]; unfold rpc_RegisterModelManifest, rpc_CreateRollout, rpc_PromoteRollout,
    rpc_AbortRollout; (apply calls_bind; [|by intros ?]); try apply rollout_inserts.
  apply registry_inserts, register_inserts.
Qed.

Lemma control_grows X (e : controlPublisher X) w : grows (command_author e) w (control_plane X e w).2.
Proof. apply run_grows, control_inserts. Qed.

(** * Provenance *)

Context (au ku : nat -> string) (random : nat -> res (list Z)).
Definition outer : Outer (Cp S) := mkOuter au ku control_plane.
Abbreviation admin := (AdminSpec.admin outer random).

(** The author an admin's command makes. *)
Definition authored (id : Identity) (m : method) : Req m -> author :=
  match m with
  | PublishModelVersion => fun req m j c => m = pmModelRef req /\ j = pmSpecJson req /\ c = UserID id
  | _ => fun _ _ _ _ => False
  end.

Definition admin_grows (P : author) (w w' : Admin (Cp S)) : Prop := grows P (ad_control w) (ad_control w').

#[export] Instance admin_grows_preorder P : PreOrder (admin_grows P).
Proof. split; [intros w; unfold admin_grows; reflexivity|]. intros w1 w2 w3 H1 H2. unfold admin_grows in *. by etrans. Qed.

(** A call of the chain that gives the control plane no more than [P] allows. *)
Definition commands (P : author) : forall X, AdminE X -> Prop := fun _ e =>
  match e with AControl e => forall m j c, command_author e m j c -> P m j c | _ => True end.

Lemma admin_call_grows P X (e : AdminE X) w : commands P X e -> admin_grows P w (admin X e w).2.
Proof.
  intros He. destruct e as [Y e|Y e|Y e|Y e|]; cbn [AdminSpec.admin]; unfold admin_grows.
  - by destruct (cockroach_users _ _ _).
  - by destruct (cockroach_writer _ _ _ _).
  - pose proof (control_grows Y e (ad_control w)) as [H1 H2]. cbn [control outer]. destruct (control_plane Y e _) as [x c].
    cbn in *. split; [done|]. intros v row Hr. destruct (H2 v row Hr); [by left|right; by apply He].
  - by destruct (cockroach_keys _ _ _ _).
  - reflexivity.
Qed.

Lemma server_commands P m id req :
  (forall a b c, authored id m req a b c -> P a b c) -> calls any (commands P) (server m (Some id) req).
Proof.
  intros HP. destruct m; cbn [server]; try by (split; [by intros ? ? ? []|intros []]).
  - split; [|done]. intros a b c [-> [-> ->]]. by apply HP.
  - apply calls_bind; [by split|]. intros random'. destruct (GenerateRawKey random'); [|done].
    apply calls_rbind; [by split|done].
  - by split.
Qed.

Lemma audited_commands P m id req :
  (forall a b c, authored id m req a b c -> P a b c) ->
  calls any (commands P) (AuditUnaryInterceptor m (Some id) req (server m (Some id) req)).
Proof.
  intros HP. unfold AuditUnaryInterceptor. destruct (mutatingMethods m); [|by apply server_commands].
  apply calls_bind; [by apply server_commands|by intros [r|e]].
Qed.

(** The publication, among the calls made, that accounts for a row. *)
Definition accounts (ds : list done_) : author := fun m j c =>
  exists id writable r, mkDone PublishModelVersion (Some id) (mkPublish m j) writable r ∈ ds
    /\ Role id = roleAdmin /\ c = UserID id.

Lemma accounts_mono ds ds' m j c : (forall d, d ∈ ds -> d ∈ ds') -> accounts ds m j c -> accounts ds' m j c.
Proof. intros H (id & b & r & Hd & Hrest). exists id, b, r. auto. Qed.

Lemma grows_mono (P Q : author) w w' : (forall m j c, P m j c -> Q m j c) -> grows P w w' -> grows Q w w'.
Proof. intros H [H1 H2]. split; [done|]. intros v row Hr. destruct (H2 v row Hr); auto. Qed.

Lemma rpc_accounts m a req w :
  let '(r, w') := run admin (admin_rpc m a req) w in
  admin_grows (accounts [mkDone m (caller_of a w) req (writable_by (caller_of a w) w) r]) w w'.
Proof.
  rewrite admin_rpc_run. destruct (caller_of a w) as [id|]; [|reflexivity].
  case_bool_decide as Hr; [|by unfold admin_grows].
  destruct (run admin _ w) as [r w'] eqn:E. replace w' with (run admin (AuditUnaryInterceptor m (Some id) req (server m (Some id) req)) w).2 by (by rewrite E).
  set (P := accounts _). apply (run_calls admin (commands P) (admin_grows P)); [intros; by apply admin_call_grows|].
  apply audited_commands. destruct m; cbn; try done. intros m j c (-> & -> & ->).
  exists id, (writable (UserID id) (ad_audit w)), r. split; [|done]. apply list_elem_of_singleton. by destruct req.
Qed.

(** Provenance.  Through any history of RPCs, outages and changes of the admin
    table, every manifest in the control plane's table that was not there before
    is the content some caller published, who was an admin when calling, and is
    attributed to exactly this caller; and a manifest is never changed or removed. *)
Theorem manifest_provenance vs (w : Admin (Cp S)) :
  let '(ds, w') := serve_all outer random vs w in
  forall v row,
    (rows_of (ad_control w) !! v = Some row -> rows_of (ad_control w') !! v = Some row)
    /\ (rows_of (ad_control w') !! v = Some row -> rows_of (ad_control w) !! v = None ->
         exists id writable r,
           mkDone PublishModelVersion (Some id) (mkPublish (ModelRef row) (SpecJSON row)) writable r ∈ ds
           /\ Role id = roleAdmin /\ CreatedBy row = UserID id).
Proof.
  enough (admin_grows (accounts (serve_all outer random vs w).1) w (serve_all outer random vs w).2) as H.
  { destruct (serve_all outer random vs w) as [ds w']. destruct H as [H1 H2]. intros v row. split; [apply H1|].
    intros Hr Hn. destruct (H2 v row Hr) as [Hr'|Ha]; [cbn in Hr'; congruence|exact Ha]. }
  revert w. induction vs as [|v vs IH]; intros w; [reflexivity|].
  destruct v as [m a req|t|up known now|up now]; cbn [serve_all].
  2: exact (IH (outside (SetUsers t) w)).
  2: exact (IH (outside (SetAudit up known now) w)).
  2: exact (IH (outside (SetKeys up now) w)).
  pose proof (rpc_accounts m a req w) as Hrpc. destruct (run admin _ w) as [r w1].
  specialize (IH w1). destruct (serve_all outer random vs w1) as [ds w2]. cbn [fst snd] in *.
  unfold admin_grows in *. etrans; eapply grows_mono; [|exact Hrpc| |exact IH]; intros ? ? ?; apply accounts_mono; set_solver.
Qed.
End Linked.

(** * Witness *)

Lemma manifest_provenance_witness :
  let w := demo_admin (deployment ∅ true) ∅ in
  let publish token := Rpc PublishModelVersion [token] (mkPublish "openai" "[4]") in
  let '(ds, w') := serve_all (outer clear_signer test_uuid (demo_uuid "a") (demo_uuid "k")) (one_key [])
                     [publish "Bearer tok-v"; publish "Bearer tok-a"] w in
  exists row, rows_of (ad_control w') !! "uuid-0" = Some row /\ SpecJSON row = "[4]"
    /\ exists id writable r, mkDone PublishModelVersion (Some id) (mkPublish (ModelRef row) (SpecJSON row)) writable r ∈ ds
         /\ Role id = roleAdmin /\ CreatedBy row = UserID id.
Proof.
  intros w publish.
  pose proof (manifest_provenance clear_signer test_uuid (demo_uuid "a") (demo_uuid "k") (one_key [])
    [publish "Bearer tok-v"; publish "Bearer tok-a"] w) as H.
  assert (exists row, rows_of (ad_control (serve_all (outer clear_signer test_uuid (demo_uuid "a") (demo_uuid "k")) (one_key [])
    [publish "Bearer tok-v"; publish "Bearer tok-a"] w).2) !! "uuid-0" = Some row /\ SpecJSON row = "[4]") as (row & Hrow & Hj)
    by (eexists; split; [vm_compute; reflexivity|reflexivity]).
  destruct (serve_all _ _ _ _) as [ds w']. exists row. split; [exact Hrow|]. split; [exact Hj|].
  exact (proj2 (H "uuid-0" row) Hrow eq_refl).
Defined.
