(* ===== verification/Fleet.v ===== *)
(** admin-api and control-plane together, all replicas at once.

    [AdminDeploy] links the two services but lets one command finish before the
    next begins.  Here the commands of admin-api and the RPCs other clients make
    to control-plane interleave statement by statement: a command is linked with
    the RPC handlers it reaches, so that what is atomic is one look at the admin
    table, one row of the audit log, one SQL statement, one etcd put or one
    signature ([FleetE]). *)

From S2P Require Import Prelude Errors Prog Histories Json GoTime Signer Etcd Registry Rollout Deploy RolloutSpec ControlPlane.
From S2P Require Import Sha256 Authn AuditStore ApiKeys Authz AdminServer AdminSpec AdminDeploy AdminConcurrent.
#[local] Open Scope Z_scope.

Inductive FleetE : interface :=
| FUsers {X} (e : Authn.StoreE X) : FleetE X
| FAudit {X} (e : Writer X) : FleetE X
| FKeys {X} (e : ApiKeys.StoreE X) : FleetE X
| FRandom : FleetE (res (list Z))
| FControl {X} (e : CpE X) : FleetE X.

(** A control-plane handler, on behalf of its caller. *)
Definition over_control {A} (p : prog CpE A) : prog FleetE A := link (fun X e => call (FControl e)) p.

Definition fleet_deps : forall X, AdminE X -> prog FleetE X := fun X e =>
  match e in AdminE X return prog FleetE X with
  | AUsers e => call (FUsers e)
  | AAudit e => call (FAudit e)
  | AControl e => over_control (control_rpc _ e)
  | AKeys e => call (FKeys e)
  | ARandom => call FRandom
  end.

(** What is in flight: a command, or an RPC of another client of control-plane. *)
Inductive job := Command (c : command) | Direct (r : request).

Definition serve_job (j : job) : prog FleetE (option answer) :=
  match j with
  | Command c => bind (link fleet_deps (serve_admin c)) (fun a => Ret (Some a))
  | Direct r => bind (over_control (serve r)) (fun _ => Ret None)
  end.

Section Fleet.
Context {S : Type} (hsigner : handler SignerE S) (uuid au ku : nat -> string) (random : nat -> res (list Z)).
Abbreviation cp := (Deploy.cp hsigner uuid).
Abbreviation World := (Admin (Cp S)).

Definition fleet : handler FleetE World := fun X e w =>
  match e in FleetE X return X * World with
  | FUsers e =>
      let '(x, t) := cockroach_users _ e (ad_users w) in
      (x, mkAdmin t (ad_audit w) (ad_keys w) (ad_control w) (ad_drawn w))
  | FAudit e => let '(x, t) := cockroach_writer au _ e (ad_audit w) in (x, set_audit t w)
  | FKeys e =>
      let '(x, t) := cockroach_keys ku _ e (ad_keys w) in
      (x, mkAdmin (ad_users w) (ad_audit w) t (ad_control w) (ad_drawn w))
  | FRandom => (random (ad_drawn w), drew w)
  | FControl e =>
      let '(x, c) := cp _ e (ad_control w) in
      (x, mkAdmin (ad_users w) (ad_audit w) (ad_keys w) c (ad_drawn w))
  end.

(** Time, outages and operators. *)
Inductive nature := ToAdmin (v : AdminSpec.event) | ToControl (v : Deploy.event).

Definition fleet_env (v : nature) (w : World) : World :=
  match v with
  | ToAdmin v => outside v w
  | ToControl v => mkAdmin (ad_users w) (ad_audit w) (ad_keys w) (cp_env v (ad_control w)) (ad_drawn w)
  end.

(** A command that nothing interrupts does here what it does in [AdminDeploy]. *)
Lemma over_control_run {A} (p : prog CpE A) w :
  run fleet (over_control p) w =
    let '(x, c) := run cp p (ad_control w) in
    (x, mkAdmin (ad_users w) (ad_audit w) (ad_keys w) c (ad_drawn w)).
Proof.
  revert w. induction p as [a|X e k IH]; intros w; cbn [over_control link run]; [by destruct w|].
  cbn [call bind run fleet]. destruct (cp X e (ad_control w)) as [x c]. unfold over_control in IH. by rewrite IH.
Qed.

Lemma uninterrupted c w :
  run fleet (link fleet_deps (serve_admin c)) w
  = run (AdminSpec.admin (outer hsigner uuid au ku) random) (serve_admin c) w.
Proof.
  rewrite run_link. generalize (serve_admin c). intros p. revert w. induction p as [a|X e k IH]; intros w; [done|].
  cbn [run]. assert (run fleet (fleet_deps X e) w = AdminSpec.admin (outer hsigner uuid au ku) random X e w) as ->.
  { destruct e as [Y e|Y e|Y e|Y e|]; cbn [fleet_deps AdminSpec.admin]; rewrite ?run_call; try done. by rewrite over_control_run. }
  destruct (AdminSpec.admin _ _ X e w). apply IH.
Qed.

(** * Who may be the author of a manifest *)

Section Authors.
Context (jobs : list job) (during : World -> Prop).

(** An admin, holder of the token when it was looked up, who published it; or the
    author another client of control-plane named. *)
Definition published : author := fun m j c =>
  (exists a w id, Command (mkCommand PublishModelVersion a (mkPublish m j)) ∈ jobs
     /\ during w /\ caller_of a w = Some id /\ Role id = roleAdmin /\ c = UserID id)
  \/ Direct (DoRegister m j c) ∈ jobs.

Definition fleet_given : forall X, FleetE X -> X -> Prop := fun X e x => exists w, during w /\ x = (fleet X e w).1.

Definition inserts_published : forall X, FleetE X -> Prop := fun _ e =>
  match e with FControl e => inserts published _ e | _ => True end.

Lemma calls_given {E : interface} {R} A (P : forall X, E X -> Prop) (p : prog E R) : calls any P p -> calls A P p.
Proof. induction p as [a|X e k IH]; [done|]. intros [He Hk]. split; [done|]. intros x _. by apply IH, Hk. Qed.

Lemma over_control_published {R} (P : author) (p : prog CpE R) :
  (forall m j c, P m j c -> published m j c) -> calls any (inserts P) p -> calls any inserts_published (over_control p).
Proof.
  intros HP. apply calls_link. intros X e He. split; [|done]. destruct e as [Y e|Y e|Y e|Y e| |]; try done.
  destruct e; cbn in *; auto.
Qed.

Lemma fleet_published {R} (p : prog AdminE R) : calls any (commands published) p -> calls any inserts_published (link fleet_deps p).
Proof.
  apply calls_link. intros X e He. destruct e as [Y e|Y e|Y e|Y e|]; cbn [fleet_deps]; try by split.
  apply (over_control_published (command_author e)); [exact He|apply control_inserts].
Qed.

Lemma command_published c : Command c ∈ jobs -> calls fleet_given inserts_published (serve_job (Command c)).
Proof.
  intros Hc. apply calls_bind; [|done]. unfold serve_admin, admin_rpc, authn_interceptor, Authenticate.
  case_bool_decide as Ht; [done|]. cbn [link call bind fleet_deps]. split; [done|]. intros x (w & Hw & ->).
  cbn [fleet cockroach_users fst]. unfold Cockroach_LookupByHash.
  destruct (users_up (ad_users w)) eqn:Hup; [|done]. destruct (admin_user _ !! _) as [row|] eqn:Hrow; [|done].
  cbn [link bind]. destruct (RevokedAt row) eqn:Hrev; [done|]. cbn [link bind].
  set (id := mkIdentity _ _ _). assert (caller_of (cm_authorization c) w = Some id) as Hid.
  { unfold caller_of, holder. by rewrite Hup, (bool_decide_false _ Ht), Hrow, Hrev. }
  apply calls_given, fleet_published. apply calls_bind; [|done]. unfold authz_interceptor. rewrite full_method_allowed.
  case_bool_decide as Hr; [|by split]. apply audited_commands. destruct c as [m a req]. destruct m; cbn [authored]; try done.
  intros m j b (-> & -> & ->). left. exists a, w, id. destruct req. done.
Qed.

Lemma direct_published r : Direct r ∈ jobs -> calls fleet_given inserts_published (serve_job (Direct r)).
Proof.
  intros Hr. apply calls_bind; [|done]. apply calls_given.
  destruct r as [m j c|m v j|id|id|id f|id f]; cbn [serve].
  - apply (over_control_published (only m j c)); [|apply registry_inserts, register_inserts].
    intros m' j' c' (-> & -> & ->). by right.
  - apply (over_control_published no_one); [done|apply rollout_inserts].
  - apply (over_control_published no_one); [done|apply rollout_inserts].
  - apply (over_control_published no_one); [done|]. apply calls_rbind; [apply rollout_inserts|done].
  - apply (over_control_published no_one); [done|apply rollout_inserts].
  - apply (over_control_published no_one); [done|]. apply calls_rbind; [apply rollout_inserts|done].
Qed.

Lemma fleet_grows X (e : FleetE X) w : inserts_published X e -> admin_grows published w (fleet X e w).2.
Proof.
  intros He. destruct e as [Y e|Y e|Y e| |Y e]; cbn [fleet]; unfold admin_grows.
  - by destruct (cockroach_users _ _ _).
  - by destruct (cockroach_writer _ _ _ _).
  - by destruct (cockroach_keys _ _ _ _).
  - reflexivity.
  - pose proof (cp_grows hsigner uuid published Y e (ad_control w) He) as H. by destruct (cp Y e _).
Qed.

Lemma fleet_env_grows v w : admin_grows published w (fleet_env v w).
Proof. apply grows_same. by destruct v as [[]|[]]. Qed.
End Authors.

(** C11. Provenance.  Whatever commands of admin-api and RPCs of other clients are
    in flight, however their statements interleave with time, outages and changes
    of the admin table: a manifest is never changed or removed, and every new one
    is the content of a PublishModelVersion in flight, attributed to the identity
    its token had when it was looked up, which was an admin's; or it was
    registered at control-plane directly, under the author named there. *)
Theorem fleet_provenance jobs w ds :
  let c0 := (map serve_job jobs, w) in
  let w' := (sched fleet fleet_env ds c0).2 in
  forall v row,
    (rows_of (ad_control w) !! v = Some row -> rows_of (ad_control w') !! v = Some row)
    /\ (rows_of (ad_control w') !! v = Some row ->
         rows_of (ad_control w) !! v = Some row
         \/ (exists a w1 id, Command (mkCommand PublishModelVersion a (mkPublish (ModelRef row) (SpecJSON row))) ∈ jobs
              /\ visited fleet fleet_env ds c0 w1 /\ caller_of a w1 = Some id
              /\ Role id = roleAdmin /\ CreatedBy row = UserID id)
         \/ Direct (DoRegister (ModelRef row) (SpecJSON row) (CreatedBy row)) ∈ jobs).
Proof.
  intros c0 w'. set (during := visited fleet fleet_env ds c0).
  assert (admin_grows (published jobs during) w w') as [H1 H2].
  { apply (sched_history_given fleet fleet_env (fleet_given during) (inserts_published jobs during)
             (admin_grows (published jobs during)));
      [done|intros; by apply fleet_grows|apply fleet_env_grows|].
    intros i p Hp. apply lookup_map_inv in Hp as (j & Hj & ->). apply list_elem_of_lookup_2 in Hj.
    destruct j; [by apply command_published|by apply direct_published]. }
  intros v row. split; [apply H1|]. intros Hr. destruct (H2 v row Hr) as [Ho|Hp]; [by left|right; exact Hp].
Qed.
End Fleet.

(** * Example *)

(** An admin is removed after her token was looked up and before the manifest is
    stored; a viewer tries the same meanwhile.  The one manifest is hers. *)
Definition demo_fleet_jobs : list job :=
  [Command (mkCommand PublishModelVersion ["Bearer tok-a"] (mkPublish "openai" "[4]"));
   Command (mkCommand PublishModelVersion ["Bearer tok-v"] (mkPublish "openai" "[5]"));
   Direct (DoPromote "r1")].

Definition demo_fleet_schedule : list (decision (V := nature)) :=
  [Run 0; Run 1; Env (ToAdmin (SetUsers (mkAdminUsers ∅ true))); Run 2] ++ repeat (Run 0) 12 ++ repeat (Run 1) 3.

Definition demo_fleet_start := demo_admin (deployment ∅ true) ∅.

#[local] Abbreviation demo_fleet :=
  (sched (fleet clear_signer test_uuid (demo_uuid "a") (demo_uuid "k") (one_key [])) fleet_env demo_fleet_schedule
    (map serve_job demo_fleet_jobs, demo_fleet_start)).

Example fleet_race :
  map (fun r => (ModelRef r.2, SpecJSON r.2, CreatedBy r.2)) (map_to_list (rows_of (ad_control demo_fleet.2))) 
    = [("openai", "[4]", "alice"); ("anthropic", "[3]", "ci"); ("openai", "[1]", "ci"); ("openai", "[2]", "ci")]
  /\ map rAction (audit_log (ad_audit demo_fleet.2)) = ["publish_model_version"; "/admin.v1.AdminService/PublishModelVersion_denied"].
Proof. split; vm_compute; reflexivity. Qed.

Lemma fleet_provenance_witness :
  exists v row, rows_of (ad_control demo_fleet.2) !! v = Some row /\ SpecJSON row = "[4]"
    /\ exists a id, Command (mkCommand PublishModelVersion a (mkPublish (ModelRef row) (SpecJSON row))) ∈ demo_fleet_jobs
         /\ Role id = roleAdmin /\ CreatedBy row = UserID id.
Proof.
  pose proof (fleet_provenance clear_signer test_uuid (demo_uuid "a") (demo_uuid "k") (one_key []) demo_fleet_jobs
    demo_fleet_start demo_fleet_schedule) as H. cbv zeta in H.
  assert (exists row, rows_of (ad_control demo_fleet.2) !! "uuid-0" = Some row /\ SpecJSON row = "[4]") as (row & Hrow & Hj)
    by (eexists; split; [vm_compute; reflexivity|reflexivity]).
  exists "uuid-0", row. split; [exact Hrow|]. split; [exact Hj|].
  destruct (proj2 (H "uuid-0" row) Hrow) as [Ho|[(a & w1 & id & Hin & _ & _ & Hr & Hc)|Hd]].
  - vm_compute in Ho. discriminate.
  - exists a, id. auto.
  - exfalso. unfold demo_fleet_jobs in Hd. rewrite !elem_of_cons, elem_of_nil in Hd. destruct Hd as [?|[?|[?|[]]]]; discriminate.
Defined.
