(* ===== verification/Graph.v ===== *)
(** admin-api/internal/graph/resolver.go: the panel's queries.

    Each resolver is a program over [QueryE], the read-only slices of the key
    store, the control plane, the provider gateway, the audit log and
    Prometheus; there is no command among them. *)

From S2P Require Import Prelude Errors Prog Json GoTime Float Quota Breaker Gateway.
From S2P Require Import Signer Etcd Registry Rollout Deploy RolloutSpec ControlPlane.
From S2P Require Import Authn ApiKeys AuditStore.
From Stdlib Require Import SpecFloat Sorted.
#[local] Open Scope Z_scope.

(** * What the resolvers read *)

Inductive controlReader : interface :=
| CtlListModels : controlReader (res (list (string * string)))
| CtlGetModelManifest (modelRef versionId : string) : controlReader (res GetModelManifestResponse)
| CtlGetRolloutStatus (rolloutId modelRef : string) : controlReader (res RolloutResponse)
| CtlListRollouts (modelRef : string) (limit : Z) : controlReader (res (list RolloutResponse)).

Inductive providerHealthReader : interface :=
| PgProviderHealth (provider : string) : providerHealthReader (res (list ProviderStatus)).

(** [promclient.Querier]. *)
Inductive Querier : interface :=
| QueryScalar (promQL : string) : Querier (res spec_float).

Inductive QueryE : interface :=
| QKeys {X} (e : ApiKeys.StoreE X) : QueryE X
| QControl {X} (e : controlReader X) : QueryE X
| QProviders {X} (e : providerHealthReader X) : QueryE X
| QAudit {X} (e : Reader X) : QueryE X
| QMetrics {X} (e : Querier X) : QueryE X.

(** * The models *)

Record AdminUser := mkAdminUser { auID : string; auOrgID : string; auRole : string }.
Record APIKeySummary := mkAPIKeySummary {
  asKeyID : string; asOrgID : string; asScopes : list string; asCreatedAt : string; asRevokedAt : option string }.
Record AuditEntry := mkAuditEntry {
  aeAuditID : string; aeActor : string; aeAction : string; aeTarget : string;
  aeBeforeJSON : option string; aeAfterJSON : option string; aeTs : string }.
Record DashboardMetrics := mkDashboardMetrics {
  RequestsPerSecond : spec_float; P95LatencyMs : spec_float; ErrorRate : spec_float;
  ActiveModelsCount : Z; ActiveRolloutsCount : Z }.
Record ModelManifest := mkModelManifest {
  mmVersionID : string; mmModelRef : string; mmSpecJSON : string; mmSignature : string;
  mmCreatedBy : string; mmCreatedAt : string; mmStatus : string }.
Record ModelSummary := mkModelSummary { msModelRef : string; msActiveVersionID : string }.
Record ProviderHealthRow := mkProviderHealth {
  phProvider : string; Healthy : bool; QuotaHeadroom : spec_float; phBreakerState : string }.
Record RolloutRow := mkRolloutRow {
  grRolloutID : string; grModelRef : string; grVersionID : string; grStrategyJSON : string; grStage : string;
  grStatus : string; grCanaryPercent : Z; grStartedAt : string; grEndedAt : option string }.

(** * The resolvers *)

Definition Me (id : option Identity) : res AdminUser :=
  match id with
  | None => Err (Errorf "no verified identity" [])
  | Some id => Ok (mkAdminUser (UserID id) (OrgID id) (Role id))
  end.

Definition Models : prog QueryE (res (list ModelSummary)) :=
  resp <-? call (QControl CtlListModels) ;;
  Ret (Ok (map (fun m => mkModelSummary m.1 m.2) resp)).

Definition manifest_of (r : GetModelManifestResponse) : ModelManifest :=
  mkModelManifest (mrVersionId r) (mrModelRef r) (mrSpecJson r) (mrSignature r) (mrCreatedBy r) (mrCreatedAt r) (mrStatus r).

Definition fetchManifest (modelRef versionID : string) : prog QueryE (res ModelManifest) :=
  resp <-? call (QControl (CtlGetModelManifest modelRef versionID)) ;;
  Ret (Ok (manifest_of resp)).

Definition ModelDraft (modelRef : string) : prog QueryE (res ModelManifest) := fetchManifest modelRef "".

Definition ModelVersion (modelRef : string) (versionID : option string) : prog QueryE (res ModelManifest) :=
  fetchManifest modelRef (default "" versionID).

Definition isNotFound (e : error) : bool := is_code NotFound e.

(** [StrategyJSON] is not part of the message and stays empty. *)
Definition rolloutFromProto (p : RolloutResponse) : RolloutRow :=
  mkRolloutRow (rrRolloutId p) (rrModelRef p) (rrVersionId p) "" (rrStage p) (rrStatus p) (rrCanaryPercent p)
    (rrStartedAt p) (if bool_decide (rrEndedAt p = "") then None else Some (rrEndedAt p)).

(** A rollout that does not exist is an empty result, not an error. *)
Definition fetchRollout (rolloutID modelRef : string) : prog QueryE (res (option RolloutRow)) :=
  resp <- call (QControl (CtlGetRolloutStatus rolloutID modelRef)) ;;
  Ret (match (resp : res RolloutResponse) with
       | Err e => if isNotFound e then Ok None else Err e
       | Ok p => Ok (Some (rolloutFromProto p))
       end).

Definition RolloutQuery (rolloutID : string) : prog QueryE (res (option RolloutRow)) := fetchRollout rolloutID "".

Definition RolloutByModel (modelRef : string) : prog QueryE (res (option RolloutRow)) := fetchRollout "" modelRef.

(** The request's limit is left at 0. *)
Definition Rollouts : prog QueryE (res (list RolloutRow)) :=
  resp <-? call (QControl (CtlListRollouts "" 0)) ;;
  Ret (Ok (map rolloutFromProto resp)).

Definition api_key_summary (s : Summary) : APIKeySummary :=
  mkAPIKeySummary (KeyID s) (kOrgID s) (Scopes s) (kCreatedAt s) (kRevokedAt s).

Definition APIKeys : prog QueryE (res (list APIKeySummary)) :=
  summaries <-? call (QKeys ListKeys) ;;
  Ret (Ok (map api_key_summary summaries)).

Definition QueryRequestsPerSecond : string := "sum(rate(edge_gateway_requests_total[5m]))".
Definition QueryP95LatencyMs : string :=
  "histogram_quantile(0.95, sum by (le) (rate(edge_gateway_request_duration_seconds_bucket[5m]))) * 1000".
Definition QueryErrorRate : string :=
  "sum(rate(edge_gateway_requests_total{status=~" +:+ dq +:+ "5.." +:+ dq +:+ "}[5m])) / sum(rate(edge_gateway_requests_total[5m]))".

Definition scalarOrZero (promQL : string) : prog QueryE spec_float :=
  v <- call (QMetrics (QueryScalar promQL)) ;;
  Ret (match (v : res spec_float) with Ok v => v | Err _ => S754_zero false end).

Definition running_count (l : list RolloutResponse) : Z :=
  Z.of_nat (length (List.filter (fun r => bool_decide (rrStatus r = "running")) l)).

Definition Dashboard : prog QueryE (res DashboardMetrics) :=
  rps <- scalarOrZero QueryRequestsPerSecond ;;
  p95 <- scalarOrZero QueryP95LatencyMs ;;
  errs <- scalarOrZero QueryErrorRate ;;
  models <-? call (QControl CtlListModels) ;;
  rollouts <-? call (QControl (CtlListRollouts "" 0)) ;;
  Ret (Ok (mkDashboardMetrics rps p95 errs (Z.of_nat (length models)) (running_count rollouts))).

Definition audit_entry (r : AuditStore.Row) : AuditEntry :=
  mkAuditEntry (rowAuditID r) (rowActor r) (rowAction r) (rowTarget r) (rowBefore r) (rowAfter r) (rowTS r).

Definition AuditLogQuery (limit : option Z) (actor action : option string) : prog QueryE (res (list AuditEntry)) :=
  records <-? call (QAudit (List_ (default 0 limit) (default "" actor) (default "" action))) ;;
  Ret (Ok (map audit_entry records)).

Definition breakerStateName (s : BreakerState) : string :=
  match s with
  | STATE_CLOSED => "closed"
  | STATE_OPEN => "open"
  | STATE_HALF_OPEN => "half_open"
  | STATE_UNSPECIFIED => "unspecified"
  end.

(** [float64(x)] of a [float32] is exact. *)
Definition to_float64 (x : float32) : spec_float :=
  match x with
  | S754_finite sg m e => binary_normalize 53 1024 (if sg then Zneg m else Zpos m) e sg
  | x => x
  end.

Definition provider_health (s : ProviderStatus) : ProviderHealthRow :=
  mkProviderHealth (stProvider s) (match stBreaker s with STATE_CLOSED => true | _ => false end)
    (to_float64 (stHeadroom s)) (breakerStateName (stBreaker s)).

Definition ProviderHealthQuery : prog QueryE (res (list ProviderHealthRow)) :=
  resp <-? call (QProviders (PgProviderHealth "")) ;;
  Ret (Ok (map provider_health resp)).

(** * The panel's backends *)

Record Panel (S W M : Type) := mkPanel {
  pn_keys : KeyTable; pn_audit : AuditLog; pn_control : Cp S; pn_gateway : W; pn_metrics : M }.
Arguments mkPanel {S W M}. Arguments pn_keys {S W M}. Arguments pn_audit {S W M}. Arguments pn_control {S W M}.
Arguments pn_gateway {S W M}. Arguments pn_metrics {S W M}.

Section Panel.
Context {S W M : Type} (hsigner : handler SignerE S) (uuid key_uuid : nat -> string) (jsonb : string -> string).
Context (hp : handler providerHealthReader W) (hq : handler Querier M).
Abbreviation cp := (Deploy.cp hsigner uuid).
Abbreviation Panel := (Panel S W M).

(** The read RPCs of the control plane. *)
Definition control_reads : handler controlReader (Cp S) := fun X e w =>
  match e in controlReader X return X * Cp S with
  | CtlListModels => run cp rpc_ListModels w
  | CtlGetModelManifest m v => run cp (rpc_GetModelManifest m v) w
  | CtlGetRolloutStatus id m => run cp (rpc_GetRolloutStatus id m) w
  | CtlListRollouts m l => run cp (rpc_ListRollouts m l) w
  end.

Definition panel : handler QueryE Panel := fun X e p =>
  match e in QueryE X return X * Panel with
  | QKeys e =>
      let '(x, t) := cockroach_keys key_uuid _ e (pn_keys p) in
      (x, mkPanel t (pn_audit p) (pn_control p) (pn_gateway p) (pn_metrics p))
  | QControl e =>
      let '(x, c) := control_reads _ e (pn_control p) in
      (x, mkPanel (pn_keys p) (pn_audit p) c (pn_gateway p) (pn_metrics p))
  | QProviders e =>
      let '(x, w) := hp _ e (pn_gateway p) in
      (x, mkPanel (pn_keys p) (pn_audit p) (pn_control p) w (pn_metrics p))
  | QAudit e =>
      let '(x, t) := cockroach_reader jsonb _ e (pn_audit p) in
      (x, mkPanel (pn_keys p) t (pn_control p) (pn_gateway p) (pn_metrics p))
  | QMetrics e =>
      let '(x, m) := hq _ e (pn_metrics p) in
      (x, mkPanel (pn_keys p) (pn_audit p) (pn_control p) (pn_gateway p) m)
  end.

(** * The audit page *)

(** C34. The audit page.  With the audit database up, the size of the page is
    between 1 and 500 (50 when no limit is asked for), and it shows exactly as many
    rows as there are, up to that size: each of them a row of the log by the actor
    and with the action asked for, newest first, and a matching row that is not
    shown is no newer than any row shown.  Looking changes nothing. *)
Theorem audit_page_window limit actor action p :
  audit_up (pn_audit p) = true ->
  let size := clamp_audit_limit (default 0 limit) in
  let wanted := List.filter (matches (default "" actor) (default "" action)) (audit_log (pn_audit p)) in
  1 <= size <= 500 /\ (limit = None -> size = 50)
  /\ exists shown rest,
       run panel (AuditLogQuery limit actor action) p = (Ok (map (fun r => audit_entry (record_of jsonb r)) shown), p)
       /\ shown ++ rest ≡ₚ wanted
       /\ Sorted AuditStore.newer shown
       /\ Forall (fun r => Forall (AuditStore.newer r) rest) shown
       /\ Z.of_nat (length shown) = Z.min size (Z.of_nat (length wanted)).
Proof.
  intros Hup size wanted. pose proof (clamp_audit_range (default 0 limit)) as Hr. split; [exact Hr|].
  split; [by intros ->|]. set (n := Z.to_nat size). pose proof (newest_first_sorted wanted) as Hs.
  exists (take n (newest_first wanted)), (drop n (newest_first wanted)). split; [|split; [|split; [|split]]].
  - unfold AuditLogQuery. rewrite run_rbind, run_call. cbn. unfold Cockroach_List. rewrite Hup. cbn. rewrite map_map. by destruct p.
  - by rewrite take_drop, newest_first_perm.
  - by apply Sorted_take, StronglySorted_Sorted.
  - apply Sorted_split; [apply _|]. by apply StronglySorted_Sorted.
  - rewrite length_take, newest_first_perm. lia.
Qed.

(** * The dashboard *)

Definition or_zero (v : res spec_float) : spec_float := match v with Ok v => v | Err _ => S754_zero false end.

Definition running_rollouts (t : Rollout.table) : Z := Z.of_nat (length (List.filter is_running (all_rows t))).

Lemma run_scalar promQL p :
  run panel (scalarOrZero promQL) p =
    (or_zero (hq _ (QueryScalar promQL) (pn_metrics p)).1,
     mkPanel (pn_keys p) (pn_audit p) (pn_control p) (pn_gateway p) (hq _ (QueryScalar promQL) (pn_metrics p)).2).
Proof. unfold scalarOrZero. rewrite run_bind, run_call. cbn [panel]. by destruct (hq _ _ _) as [[v|e] m]. Qed.

Lemma run_models p :
  run panel (call (QControl CtlListModels)) p =
    (if db_up (cp_tables (pn_control p))
     then Ok (map (fun e => (eModelRef e, ActiveVersionID e)) (Cockroach_ListActive (cp_tables (pn_control p))))
     else Err (internal Registry.db_error), p).
Proof.
  destruct p as [k a [[mm ma up] r ke sg ck dr] w m]. rewrite run_call. cbn. by destruct up.
Qed.

Lemma run_rollouts p :
  run panel (call (QControl (CtlListRollouts "" 0))) p =
    (if rdb_up (cp_rollouts (pn_control p))
     then Ok (map rolloutToProto (take 50 (sort_desc (all_rows (rows (cp_rollouts (pn_control p)))))))
     else Err (internal Registry.db_error), p).
Proof.
  destruct p as [k a [tb [t up tn] ke sg ck dr] w m]. rewrite run_call. cbn. by destruct up.
Qed.

Lemma active_count t : length (Cockroach_ListActive t) = size (model_active t).
Proof.
  unfold Cockroach_ListActive. assert (H : forall e l, length (insert_entry e l) = Datatypes.S (length l)).
  { intros e l. induction l as [|e' l IH]; simpl; [done|]. destruct (String.leb _ _); simpl; by rewrite ?IH. }
  transitivity (length (map (fun '(m, v) => Registry.mkEntry m v) (map_to_list (model_active t)))).
  - induction (map _ _) as [|e l IH]; [done|]. simpl. by rewrite H, IH.
  - by rewrite length_map, length_map_to_list.
Qed.

Lemma length_filter_perm {A} (f : A -> bool) l l' : l ≡ₚ l' -> length (List.filter f l) = length (List.filter f l').
Proof. induction 1 as [|x l l' _ IH|x y l|l1 l2 l3 _ IH1 _ IH2]; simpl; [done|by destruct (f x); simpl; rewrite IH| |congruence].
  by destruct (f x), (f y). Qed.

Lemma running_count_rows l : running_count (map rolloutToProto l) = Z.of_nat (length (List.filter is_running l)).
Proof.
  unfold running_count. f_equal. induction l as [|r l IH]; [done|]. simpl. unfold is_running at 1.
  case_bool_decide; simpl; by rewrite IH.
Qed.

(** C35. The dashboard.  Three numbers come from Prometheus, each zero if its query
    fails, which never fails the page; the models counted are those with an
    active version; the rollouts counted are exactly those running among the
    newest fifty of all (or all, if there are fewer), no rollout left out having
    started after one of these.  The page fails exactly
    when the control plane cannot read its tables. *)
Theorem dashboard_counts p :
  let t := cp_tables (pn_control p) in
  let r := cp_rollouts (pn_control p) in
  let '(v1, m1) := hq _ (QueryScalar QueryRequestsPerSecond) (pn_metrics p) in
  let '(v2, m2) := hq _ (QueryScalar QueryP95LatencyMs) m1 in
  let '(v3, m3) := hq _ (QueryScalar QueryErrorRate) m2 in
  match (run panel Dashboard p).1 with
  | Err _ => db_up t && rdb_up r = false
  | Ok d =>
      db_up t && rdb_up r = true
      /\ RequestsPerSecond d = or_zero v1 /\ P95LatencyMs d = or_zero v2 /\ ErrorRate d = or_zero v3
      /\ ActiveModelsCount d = Z.of_nat (size (model_active t))
      /\ (exists newest older,
             newest ++ older ≡ₚ all_rows (rows r)
             /\ Forall (fun x => Forall (RolloutSpec.newer x) older) newest
             /\ length newest = Nat.min 50 (size (rows r))
             /\ ActiveRolloutsCount d = Z.of_nat (length (List.filter is_running newest)))
      /\ ((size (rows r) <= 50)%nat -> ActiveRolloutsCount d = running_rollouts (rows r))
  end.
Proof.
  cbv zeta. unfold Dashboard. rewrite run_bind, run_scalar. destruct (hq _ (QueryScalar QueryRequestsPerSecond) _) as [v1 m1].
  rewrite run_bind, run_scalar. cbn [pn_metrics fst snd]. destruct (hq _ (QueryScalar QueryP95LatencyMs) _) as [v2 m2].
  rewrite run_bind, run_scalar. cbn [pn_metrics fst snd]. destruct (hq _ (QueryScalar QueryErrorRate) _) as [v3 m3].
  rewrite run_rbind, run_models. cbn [pn_control]. destruct (db_up _); [|done].
  rewrite run_rbind, run_rollouts. cbn [pn_control]. destruct (rdb_up _); [|done]. cbn [run fst].
  set (l := all_rows _). pose proof (sort_desc_perm l) as Hp. rewrite running_count_rows.
  split; [done|]. do 3 (split; [done|]). cbn [ActiveModelsCount ActiveRolloutsCount].
  split; [by rewrite length_map, active_count|].
  assert (Hl : length l = size (rows (cp_rollouts (pn_control p)))) by (unfold l, all_rows; by rewrite length_map, length_map_to_list).
  split.
  - exists (take 50 (sort_desc l)), (drop 50 (sort_desc l)). rewrite take_drop. split; [done|].
    split; [apply Sorted_split; [apply _|apply sort_desc_sorted]|]. split; [by rewrite length_take, Hp, Hl|done].
  - intros Hs. rewrite take_ge by (rewrite Hp; lia). unfold running_rollouts. fold l. by rewrite (length_filter_perm is_running _ _ Hp).
Qed.
End Panel.

(** * Witnesses *)

(** Prometheus answers one query and fails the rest. *)
Definition flaky_metrics : handler Querier nat := fun X e n =>
  match e in Querier X return X * nat with
  | QueryScalar _ => (match n with O => Ok (float64_of 3) | _ => Err (Lib "prometheus") end, Datatypes.S n)
  end.

Definition no_gateway : handler providerHealthReader unit := fun X e w =>
  match e in providerHealthReader X return X * unit with PgProviderHealth _ => (Ok [], w) end.

Definition log_row (n : nat) (actor : string) : Record_ :=
  AuditStore.mkRecord ("a" +:+ itoa (Z.of_nat n)) actor "create_api_key" "acme" None None (Z.of_nat n * second).

Definition demo_panel (rs : Rollout.table) : Panel unit unit nat :=
  mkPanel (mkKeyTable ∅ ∅ true 0 0)
    (mkAuditLog (map (fun n => log_row n (if Nat.even n then "alice" else "bob")) (seq 0 60)) (fun _ => true) true 0)
    (deployment rs true) tt 0%nat.

Abbreviation demo := (panel clear_signer test_uuid test_uuid (fun s => s) no_gateway flaky_metrics).

Lemma audit_page_window_witness :
  exists shown rest, run demo (AuditLogQuery (Some 5) (Some "bob") None) (demo_panel ∅)
    = (Ok (map (fun r => audit_entry (record_of (fun s => s) r)) shown), demo_panel ∅)
    /\ length (shown ++ rest) = 30%nat /\ length shown = 5%nat.
Proof.
  destruct (audit_page_window clear_signer test_uuid test_uuid (fun s => s) no_gateway flaky_metrics
    (Some 5) (Some "bob") None (demo_panel ∅) eq_refl) as (_ & _ & shown & rest & Hrun & Hp & _ & _ & Hlen).
  exists shown, rest. split; [exact Hrun|]. split; [rewrite Hp; vm_compute; reflexivity|].
  apply Nat2Z.inj. rewrite Hlen. vm_compute. reflexivity.
Defined.

Lemma dashboard_counts_witness :
  exists d, (run demo Dashboard (demo_panel {[ "r1" := row_at "canary_1" ]})).1 = Ok d
    /\ RequestsPerSecond d = float64_of 3 /\ ErrorRate d = S754_zero false /\ ActiveRolloutsCount d = 1.
Proof.
  pose proof (dashboard_counts clear_signer test_uuid test_uuid (fun s => s) no_gateway flaky_metrics
    (demo_panel {[ "r1" := row_at "canary_1" ]})) as H. cbv zeta in H. cbn [flaky_metrics demo_panel pn_metrics] in H.
  destruct (run demo Dashboard (demo_panel {[ "r1" := row_at "canary_1" ]})).1 as [d|e]; [|discriminate H].
  exists d. destruct H as (_ & H1 & _ & H3 & _ & _ & H). split; [reflexivity|]. split; [exact H1|]. split; [exact H3|].
  rewrite H; [reflexivity|vm_compute; lia].
Defined.

(** With more than fifty rollouts running, the dashboard and the history stop at
    fifty. *)
Definition busy : Rollout.table :=
  list_to_map (map (fun n => (itoa (Z.of_nat n), row_at "canary_1")) (seq 0 60)).

Lemma busy_dashboard :
  match (run demo Dashboard (demo_panel busy)).1, (run demo Rollouts (demo_panel busy)).1 with
  | Ok d, Ok l => ActiveRolloutsCount d = 50 /\ length l = 50%nat /\ running_rollouts busy = 60
  | _, _ => False
  end.
Proof. vm_compute. auto. Qed.
