(* ===== verification/Gqlgen.v ===== *)
(** The GraphQL runtime (github.com/99designs/gqlgen/graphql), as far as the
    generated executor of admin-api calls it.

    The runtime is not part of the repository: [Gqlgen] lists the operations the
    generated code uses, [GqlgenLaws] the documented behaviour it relies on.  The
    errors of an operation are a list that the calls extend; every error carries
    the path of its field, and a field looks only for errors of its own path.
    What a marshaler writes is a JSON value. *)

From S2P Require Import Prelude Errors Prog Json Float.
#[local] Open Scope Z_scope.

(** A Go call returns or panics. *)
Inductive outcome (A : Type) :=
| Done (a : A)
| Panics (what : string).
Arguments Done {A} a.
Arguments Panics {A} what.

(** Numbers JSON has a text for. *)
Definition finite (x : float64) : bool :=
  match x with SpecFloat.S754_finite _ _ _ | SpecFloat.S754_zero _ => true | _ => false end.

(** A decoded argument, [any] holding a value of the type the resolver expects. *)
Inductive argument :=
| ArgString (s : string)
| ArgStringPtr (s : option string)
| ArgIntPtr (n : option Z)
| ArgBool (b : bool)
| ArgBoolPtr (b : option bool).

(** [fc.Args[name].(T)]: a value of another type, or none, panics. *)
Definition assert_arg {T} (p : argument -> option T) (name : string) (args : gmap string argument) : outcome T :=
  match args !! name ≫= p with
  | Some x => Done x
  | None => Panics "interface conversion"
  end.

Definition arg_string a := match a with ArgString s => Some s | _ => None end.
Definition arg_string_ptr a := match a with ArgStringPtr s => Some s | _ => None end.
Definition arg_int_ptr a := match a with ArgIntPtr n => Some n | _ => None end.
Definition arg_bool a := match a with ArgBool b => Some b | _ => None end.

(** [FieldContext.Child] is either the function that refuses, or the shared
    lookup of an object type. *)
Inductive childLookup :=
| NoChildren (e : error)
| ChildFields (typeName : string).

Record FieldContext (F : Type) := mkFieldContext {
  fcObject : string; fcField : option F; fcIsMethod : bool; fcIsResolver : bool;
  fcArgs : gmap string argument; fcChild : option childLookup }.
Arguments mkFieldContext {F}. Arguments fcObject {F}. Arguments fcField {F}. Arguments fcIsMethod {F}.
Arguments fcIsResolver {F}. Arguments fcArgs {F}. Arguments fcChild {F}.

(** * Calls that record errors and may panic *)

Definition gql_ (Err_ : Type) (E : interface) (A : Type) : Type :=
  list Err_ -> prog E (outcome A * list Err_).

Section Monad.
Context {Err_ : Type} {E : interface}.

Definition pure {A} (a : A) : gql_ Err_ E A := fun errs => Ret (Done a, errs).

Definition panic {A} (what : string) : gql_ Err_ E A := fun errs => Ret (Panics what, errs).

Definition gbind {A B} (m : gql_ Err_ E A) (f : A -> gql_ Err_ E B) : gql_ Err_ E B := fun errs =>
  bind (m errs) (fun r => match r.1 with Done a => f a r.2 | Panics w => Ret (Panics w, r.2) end).

(** [for i := range l]. *)
Fixpoint gmapM {A B} (f : A -> gql_ Err_ E B) (l : list A) : gql_ Err_ E (list B) :=
  match l with
  | [] => pure []
  | a :: l => gbind (f a) (fun b => gbind (gmapM f l) (fun bs => pure (b :: bs)))
  end.

(** [defer func() { if r := recover(); r != nil { ... } }()]. *)
Definition recovering {A} (m : gql_ Err_ E A) (rescue : string -> gql_ Err_ E A) : gql_ Err_ E A := fun errs =>
  bind (m errs) (fun r => match r.1 with Done a => Ret (Done a, r.2) | Panics w => rescue w r.2 end).
End Monad.

Declare Scope gql_scope.
Delimit Scope gql_scope with gql.
Notation "x <~ c ;; k" := (gbind c (fun x => k))
  (at level 60, c at next level, right associativity) : gql_scope.
Notation "c ;;; k" := (gbind c (fun _ => k))
  (at level 60, right associativity) : gql_scope.

(** A [switch] on a string. *)
Definition switch {A} (s : string) (cases : list (string * A)) (otherwise : A) : A :=
  match List.find (fun c => String.eqb c.1 s) cases with
  | Some c => c.2
  | None => otherwise
  end.

(** * The runtime's operations *)

Class Gqlgen := {
  Ctx : Type;
  gqlError : Type;
  SelectionSet : Type;
  CollectedField : Type;
  fName : CollectedField -> string;
  fAlias : CollectedField -> string;
  fSelections : CollectedField -> SelectionSet;
  (** The fields a selection set selects on an object of one of the types. *)
  CollectFields : SelectionSet -> list string -> list CollectedField;
  (** How deeply a selection set nests: a document is a finite tree. *)
  depth : SelectionSet -> nat;

  (** ** Contexts and errors *)
  GetFieldContext : Ctx -> FieldContext CollectedField;
  WithFieldContext : Ctx -> FieldContext CollectedField -> Ctx;
  WithRootFieldContext : Ctx -> CollectedField -> Ctx;
  WithPathIndex : Ctx -> nat -> Ctx;
  NewScalarFieldContext : string -> CollectedField -> bool -> bool -> error -> res (FieldContext CollectedField);
  (** What the error presenter makes of an error at a path. *)
  present : Ctx -> error -> gqlError;
  Recover : string -> error;
  HasFieldError : Ctx -> list gqlError -> bool;
  ErrorOnPath : Ctx -> error -> error;

  (** ** Arguments *)
  Any : Type;
  ArgumentMap : CollectedField -> outcome (gmap string (option Any));
  (** An absent argument is the zero value of its type. *)
  ProcessArgField : forall {T}, T -> Ctx -> gmap string (option Any) -> string -> (Ctx -> option Any -> res T) -> res T;
  UnmarshalString : option Any -> res string;
  UnmarshalID : option Any -> res string;
  UnmarshalInt : option Any -> res Z;
  UnmarshalBoolean : option Any -> res bool;

  (** ** Marshalers *)
  Marshaler : Type;
  Null : Marshaler;
  RequiredNull : Marshaler;
  nil_marshaler : Marshaler;
  is_Null : Marshaler -> bool;
  is_RequiredNull : Marshaler -> bool;
  MarshalString : string -> Marshaler;
  MarshalID : string -> Marshaler;
  MarshalInt : Z -> Marshaler;
  MarshalBoolean : bool -> Marshaler;
  MarshalFloatContext : float64 -> Marshaler;
  (** What a float writes. *)
  float_json : float64 -> json;
  WrapContextMarshaler : Ctx -> Marshaler -> Marshaler;
  Array_ : list Marshaler -> Marshaler;
  FieldSet : list (CollectedField * Marshaler) -> Marshaler;
  MarshalGQL : Marshaler -> json;

  (** ** Control *)
  MarshalSliceConcurrently : forall {E}, Ctx -> nat -> (Ctx -> nat -> gql_ gqlError E Marshaler) -> gql_ gqlError E (list Marshaler);
  RootResolverMiddleware : forall {E A}, Ctx -> (Ctx -> gql_ gqlError E A) -> gql_ gqlError E A;
  ResolveField : forall {E T}, Ctx -> CollectedField ->
    (Ctx -> CollectedField -> gql_ gqlError E (res (FieldContext CollectedField))) ->
    (Ctx -> prog E (outcome (res T))) ->
    (Ctx -> SelectionSet -> T -> gql_ gqlError E Marshaler) ->
    bool -> bool -> gql_ gqlError E Marshaler
}.

(** [ec.Error], [graphql.AddErrorf]. *)
Definition AddError `{Gqlgen} {E} (ctx : Ctx) (e : error) : gql_ gqlError E unit := fun errs =>
  Ret (Done tt, errs ++ [present ctx e]).

Definition ErrMustNotBeNull : error := Errorf "the requested element is null which the schema does not allow" [].

(** The refusal every non-null marshaller starts or ends with. *)
Definition null_element `{Gqlgen} {E} (ctx : Ctx) : gql_ gqlError E unit := fun errs =>
  if HasFieldError ctx errs then Ret (Done tt, errs) else AddError ctx ErrMustNotBeNull errs.

(** [out.Values[i] = ...], with the number of invalid fields it adds. *)
Definition slot `{Gqlgen} (E : interface) : Type := gql_ gqlError E (Marshaler * nat).

Definition required `{Gqlgen} {E} (m : gql_ gqlError E Marshaler) : slot E :=
  (w <~ m ;; pure (w, if is_Null w then 1%nat else 0%nat))%gql.

Definition nullable `{Gqlgen} {E} (m : gql_ gqlError E Marshaler) : slot E :=
  (w <~ m ;; pure (w, if is_RequiredNull w then 1%nat else 0%nat))%gql.

Definition plain `{Gqlgen} {E} (m : Marshaler) : slot E := pure (m, 0%nat).

Definition unknown_field `{Gqlgen} {A E} (name : string) : gql_ gqlError E A := panic ("unknown field " +:+ quote name).

(** [if out.Invalids > 0 { return graphql.Null }; ...; return out]. *)
Definition finish `{Gqlgen} (fields : list CollectedField) (rs : list (Marshaler * nat)) : Marshaler :=
  if (0 <? sum_list_with snd rs)%nat then Null else FieldSet (zip fields (map fst rs)).

(** What a resolver's answer becomes: its value marshalled, or null and an
    error.  A panic on the way is caught. *)
Definition settle `{Gqlgen} {E T} (ctx : Ctx) (marshal : T -> gql_ gqlError E Marshaler) (o : outcome (res T)) : gql_ gqlError E Marshaler :=
  let fail e := (_ <~ AddError ctx e ;; pure Null)%gql in
  match o with
  | Done (Ok v) => recovering (marshal v) (fun p => fail (Recover p))
  | Done (Err e) => fail e
  | Panics p => fail (Recover p)
  end.

(** * The runtime's contract *)

Definition plain_marshaler `{Gqlgen} (m : Marshaler) : Prop := is_Null m = false /\ is_RequiredNull m = false.

Class GqlgenLaws `(G : Gqlgen) : Prop := {
  (** ** Selections *)
  collected_depth : forall sel types f, In f (CollectFields sel types) -> (depth (fSelections f) < depth sel)%nat;

  (** ** Marshalers *)
  null_is_Null : is_Null Null = true;
  is_Null_eq : forall m, is_Null m = true -> m = Null;
  null_not_required : is_RequiredNull Null = false;
  string_plain : forall s, plain_marshaler (MarshalString s);
  id_plain : forall s, plain_marshaler (MarshalID s);
  int_plain : forall z, plain_marshaler (MarshalInt z);
  bool_plain : forall b, plain_marshaler (MarshalBoolean b);
  float_plain : forall x, plain_marshaler (MarshalFloatContext x);
  wrap_plain : forall ctx m, plain_marshaler m -> plain_marshaler (WrapContextMarshaler ctx m);
  array_plain : forall l, plain_marshaler (Array_ l);
  fieldset_plain : forall l, plain_marshaler (FieldSet l);

  (** ** What they write *)
  null_writes : MarshalGQL Null = JNull;
  string_writes : forall s, exists t, MarshalGQL (MarshalString s) = JStr t /\ (utf8 s = true -> t = s);
  id_writes : forall s, exists t, MarshalGQL (MarshalID s) = JStr t /\ (utf8 s = true -> t = s);
  int_writes : forall z, MarshalGQL (MarshalInt z) = JNum (itoa z);
  bool_writes : forall b, MarshalGQL (MarshalBoolean b) = JBool b;
  float_writes : forall ctx x, MarshalGQL (WrapContextMarshaler ctx (MarshalFloatContext x)) = float_json x;
  float_finite : forall x, finite x = true -> exists n, float_json x = JNum n;
  array_writes : forall l, MarshalGQL (Array_ l) = JArr (map MarshalGQL l);
  fieldset_writes : forall l, MarshalGQL (FieldSet l) = JObj (map (fun p => (fAlias p.1, MarshalGQL p.2)) l);

  (** ** Contexts, errors, arguments *)
  get_with_field_context : forall ctx fc, GetFieldContext (WithFieldContext ctx fc) = fc;
  no_field_error : forall ctx, HasFieldError ctx [] = false;
  scalar_context : forall object field m r e,
    NewScalarFieldContext object field m r e = Ok (mkFieldContext object (Some field) m r ∅ (Some (NoChildren e)));
  process_absent : forall T (zero : T) ctx raw name unmarshal,
    raw !! name = None -> ProcessArgField zero ctx raw name unmarshal = Ok zero;
  process_present : forall T (zero : T) ctx raw name unmarshal v x,
    raw !! name = Some v -> (forall ctx', unmarshal ctx' v = Ok x) -> ProcessArgField zero ctx raw name unmarshal = Ok x;

  process_refused : forall T (zero : T) ctx raw name unmarshal v,
    raw !! name = Some v -> (forall ctx', is_ok (unmarshal ctx' v) = false) ->
    is_ok (ProcessArgField zero ctx raw name unmarshal) = false;

  (** ** Control *)
  (** Elements that call nothing and do not panic: their marshalers in order,
      their errors in some order. *)
  slice_law : forall E ctx n f w es errs,
    (forall i, (i < n)%nat -> f (WithPathIndex ctx i) i [] = Ret (Done (w i), es i)) ->
    exists all, all ≡ₚ concat (map es (seq 0 n))
      /\ MarshalSliceConcurrently (E := E) ctx n f errs = Ret (Done (map w (seq 0 n)), errs ++ all);
  middleware_law : forall E A ctx f errs, RootResolverMiddleware (E := E) (A := A) ctx f errs = f ctx errs;
  resolve_refused : forall E T ctx field init resolver marshal rp nn errs errs' e,
    init ctx field errs = Ret (Done (Err e), errs') ->
    ResolveField (E := E) (T := T) ctx field init resolver marshal rp nn errs = Ret (Done Null, errs');
  resolve_law : forall E T ctx field init resolver marshal nn errs errs' fc,
    init ctx field errs = Ret (Done (Ok fc), errs') ->
    ResolveField (E := E) (T := T) ctx field init resolver marshal true nn errs
    = bind (resolver (WithFieldContext ctx fc))
        (fun o => settle (WithFieldContext ctx fc) (marshal (WithFieldContext ctx fc) (fSelections field)) o errs')
}.
