(* ===== verification/GraphLeaf.v ===== *)
(** admin-api/internal/graph/generated.go: leaves and arguments.

    The marshallers of scalars and of lists of scalars, the unmarshallers of
    arguments, the decoding of every field's arguments, and the two shapes of a
    field context.  [fc.Result], which only middleware reads, is not kept. *)

From S2P Require Import Prelude Errors Prog Json Float Gqlgen.
#[local] Open Scope Z_scope.
#[local] Open Scope gql_scope.

Section Leaf.
Context `{G : Gqlgen} {E : interface}.
Abbreviation gql := (gql_ gqlError E).
Abbreviation FC := (res (FieldContext CollectedField)).

(** * Unmarshallers *)

(** [return res, graphql.ErrorOnPath(ctx, err)]. *)
Definition on_path {T} (ctx : Ctx) (r : res T) : res T := map_err (ErrorOnPath ctx) r.

(** [return &res, graphql.ErrorOnPath(ctx, err)] after [if v == nil { return nil, nil }]. *)
Definition optional {T} (unmarshal : option Any -> res T) (ctx : Ctx) (v : option Any) : res (option T) :=
  match v with
  | None => Ok None
  | Some _ => res_bind (on_path ctx (unmarshal v)) (fun x => Ok (Some x))
  end.

Definition unmarshalNString2string (ctx : Ctx) (v : option Any) : res string := on_path ctx (UnmarshalString v).
Definition unmarshalNID2string (ctx : Ctx) (v : option Any) : res string := on_path ctx (UnmarshalID v).
Definition unmarshalNBoolean2bool (ctx : Ctx) (v : option Any) : res bool := on_path ctx (UnmarshalBoolean v).
Definition unmarshalOBoolean2bool (ctx : Ctx) (v : option Any) : res bool := on_path ctx (UnmarshalBoolean v).
Definition unmarshalNInt2int (ctx : Ctx) (v : option Any) : res Z := on_path ctx (UnmarshalInt v).
Definition unmarshalOBoolean2ptr_bool (ctx : Ctx) (v : option Any) : res (option bool) := optional UnmarshalBoolean ctx v.
Definition unmarshalOID2ptr_string (ctx : Ctx) (v : option Any) : res (option string) := optional UnmarshalID ctx v.
Definition unmarshalOInt2ptr_int (ctx : Ctx) (v : option Any) : res (option Z) := optional UnmarshalInt ctx v.
Definition unmarshalOString2ptr_string (ctx : Ctx) (v : option Any) : res (option string) := optional UnmarshalString ctx v.

(** * Marshallers of scalars *)

(** [if res == graphql.Null { ... AddErrorf ... }; return res]. *)
Definition not_null (ctx : Ctx) (w w' : Marshaler) : gql Marshaler :=
  if is_Null w then _ <~ null_element ctx ;; pure w' else pure w'.

Definition marshalNBoolean2bool (ctx : Ctx) (sel : SelectionSet) (v : bool) : gql Marshaler :=
  not_null ctx (MarshalBoolean v) (MarshalBoolean v).

Definition marshalNFloat2float64 (ctx : Ctx) (sel : SelectionSet) (v : float64) : gql Marshaler :=
  not_null ctx (MarshalFloatContext v) (WrapContextMarshaler ctx (MarshalFloatContext v)).

Definition marshalNID2string (ctx : Ctx) (sel : SelectionSet) (v : string) : gql Marshaler :=
  not_null ctx (MarshalID v) (MarshalID v).

Definition marshalNInt2int (ctx : Ctx) (sel : SelectionSet) (v : Z) : gql Marshaler :=
  not_null ctx (MarshalInt v) (MarshalInt v).

Definition marshalNString2string (ctx : Ctx) (sel : SelectionSet) (v : string) : gql Marshaler :=
  not_null ctx (MarshalString v) (MarshalString v).

Definition marshalN__DirectiveLocation2string (ctx : Ctx) (sel : SelectionSet) (v : string) : gql Marshaler :=
  not_null ctx (MarshalString v) (MarshalString v).

Definition marshalN__TypeKind2string (ctx : Ctx) (sel : SelectionSet) (v : string) : gql Marshaler :=
  not_null ctx (MarshalString v) (MarshalString v).

Definition marshalOBoolean2bool (ctx : Ctx) (sel : SelectionSet) (v : bool) : gql Marshaler :=
  pure (MarshalBoolean v).

Definition marshalOBoolean2ptr_bool (ctx : Ctx) (sel : SelectionSet) (v : option bool) : gql Marshaler :=
  pure (match v with None => Null | Some v => MarshalBoolean v end).

Definition marshalOID2ptr_string (ctx : Ctx) (sel : SelectionSet) (v : option string) : gql Marshaler :=
  pure (match v with None => Null | Some v => MarshalID v end).

Definition marshalOInt2ptr_int (ctx : Ctx) (sel : SelectionSet) (v : option Z) : gql Marshaler :=
  pure (match v with None => Null | Some v => MarshalInt v end).

Definition marshalOString2ptr_string (ctx : Ctx) (sel : SelectionSet) (v : option string) : gql Marshaler :=
  pure (match v with None => Null | Some v => MarshalString v end).

(** * Marshallers of lists and pointers *)

(** [for _, e := range ret { if e == graphql.Null { return graphql.Null } }; return ret]. *)
Definition all_or_null (ret : list Marshaler) : Marshaler :=
  if existsb is_Null ret then Null else Array_ ret.

(** The concurrent loop over the elements [v[i]]. *)
Definition marshal_slice {T} (marshal : Ctx -> SelectionSet -> T -> gql Marshaler) (ctx : Ctx) (sel : SelectionSet) (v : list T) : gql Marshaler :=
  ret <~ MarshalSliceConcurrently ctx (length v)
           (fun ctx i => match v !! i with Some x => marshal ctx sel x | None => panic "index out of range" end) ;;
  pure (all_or_null ret).

(** [if v == nil { return graphql.Null }] before the loop. *)
Definition marshal_opt_slice {T} (marshal : Ctx -> SelectionSet -> T -> gql Marshaler) (ctx : Ctx) (sel : SelectionSet) (v : option (list T)) : gql Marshaler :=
  match v with None => pure Null | Some v => marshal_slice marshal ctx sel v end.

(** A non-null pointer: [if v == nil { ... return graphql.Null }]. *)
Definition marshal_ptr {T} (marshal : Ctx -> SelectionSet -> T -> gql Marshaler) (ctx : Ctx) (sel : SelectionSet) (v : option T) : gql Marshaler :=
  match v with None => _ <~ null_element ctx ;; pure Null | Some v => marshal ctx sel v end.

(** A nullable pointer. *)
Definition marshal_opt_ptr {T} (marshal : Ctx -> SelectionSet -> T -> gql Marshaler) (ctx : Ctx) (sel : SelectionSet) (v : option T) : gql Marshaler :=
  match v with None => pure Null | Some v => marshal ctx sel v end.

(** This list is filled in place. *)
Definition marshalNString2slice (ctx : Ctx) (sel : SelectionSet) (v : list string) : gql Marshaler :=
  ret <~ gmapM (marshalNString2string ctx sel) v ;;
  pure (all_or_null ret).

Definition marshalN__DirectiveLocation2slice (ctx : Ctx) (sel : SelectionSet) (v : list string) : gql Marshaler :=
  marshal_slice marshalN__DirectiveLocation2string ctx sel v.

(** * Objects *)

(** An object: the selected fields in order, each through the [switch] of its
    type.  Nothing is deferred, so [Dispatch] and [ProcessDeferredGroup] have
    nothing to do. *)
Definition object (sel : SelectionSet) (implementors : list string) (field : CollectedField -> slot E) : gql Marshaler :=
  let fields := CollectFields sel implementors in
  rs <~ gmapM field fields ;;
  pure (finish fields rs).

(** * Field contexts and arguments *)

Definition ErrNoField (name typeName : string) : error :=
  Errorf ("no field named %q was found under type " +:+ typeName) [name].

Definition with_args (fc : FieldContext CollectedField) (args : gmap string argument) : FieldContext CollectedField :=
  mkFieldContext (fcObject fc) (fcField fc) (fcIsMethod fc) (fcIsResolver fc) args (fcChild fc).

(** A context whose arguments are decoded under it; a panic in the decoding is
    an error of the field. *)
Definition context_with_arguments (ctx : Ctx) (field : CollectedField) (fc : FieldContext CollectedField)
    (decode : Ctx -> gmap string (option Any) -> res (gmap string argument)) : gql FC :=
  let ctx := WithFieldContext ctx fc in
  let fail e := _ <~ AddError ctx e ;; pure (Err e) in
  recovering
    (match ArgumentMap field with
     | Panics w => panic w
     | Done raw => match decode ctx raw with
                   | Ok args => pure (Ok (with_args fc args))
                   | Err e => fail e
                   end
     end)
    (fun p => fail (Recover p)).

(** [fc := graphql.GetFieldContext(ctx)] and [fc.Args[name].(T)]. *)
Definition arg_of {T} (p : argument -> option T) (ctx : Ctx) (name : string) : outcome T :=
  assert_arg p name (fcArgs (GetFieldContext ctx)).

(** A panicking assertion ends the resolver before its call. *)
Definition with_arg {T X} (o : outcome T) (k : T -> prog E (outcome X)) : prog E (outcome X) :=
  match o with Done x => k x | Panics w => Ret (Panics w) end.

Definition field_Query___type_args (ctx : Ctx) (rawArgs : gmap string (option Any)) : res (gmap string argument) :=
  res_bind (ProcessArgField "" ctx rawArgs "name" unmarshalNString2string) (fun arg0 =>
  Ok {[ "name" := ArgString arg0 ]}).

Definition field_Query_auditLog_args (ctx : Ctx) (rawArgs : gmap string (option Any)) : res (gmap string argument) :=
  res_bind (ProcessArgField None ctx rawArgs "limit" unmarshalOInt2ptr_int) (fun arg0 =>
  res_bind (ProcessArgField None ctx rawArgs "actor" unmarshalOID2ptr_string) (fun arg1 =>
  res_bind (ProcessArgField None ctx rawArgs "action" unmarshalOString2ptr_string) (fun arg2 =>
  Ok (<["action" := ArgStringPtr arg2]> (<["actor" := ArgStringPtr arg1]> {[ "limit" := ArgIntPtr arg0 ]}))))).

Definition field_Query_modelDraft_args (ctx : Ctx) (rawArgs : gmap string (option Any)) : res (gmap string argument) :=
  res_bind (ProcessArgField "" ctx rawArgs "modelRef" unmarshalNString2string) (fun arg0 =>
  Ok {[ "modelRef" := ArgString arg0 ]}).

Definition field_Query_modelVersion_args (ctx : Ctx) (rawArgs : gmap string (option Any)) : res (gmap string argument) :=
  res_bind (ProcessArgField "" ctx rawArgs "modelRef" unmarshalNString2string) (fun arg0 =>
  res_bind (ProcessArgField None ctx rawArgs "versionId" unmarshalOString2ptr_string) (fun arg1 =>
  Ok (<["versionId" := ArgStringPtr arg1]> {[ "modelRef" := ArgString arg0 ]}))).

Definition field_Query_rolloutByModel_args (ctx : Ctx) (rawArgs : gmap string (option Any)) : res (gmap string argument) :=
  res_bind (ProcessArgField "" ctx rawArgs "modelRef" unmarshalNString2string) (fun arg0 =>
  Ok {[ "modelRef" := ArgString arg0 ]}).

Definition field_Query_rollout_args (ctx : Ctx) (rawArgs : gmap string (option Any)) : res (gmap string argument) :=
  res_bind (ProcessArgField "" ctx rawArgs "rolloutId" unmarshalNID2string) (fun arg0 =>
  Ok {[ "rolloutId" := ArgString arg0 ]}).

Definition field___Directive_args_args (ctx : Ctx) (rawArgs : gmap string (option Any)) : res (gmap string argument) :=
  res_bind (ProcessArgField None ctx rawArgs "includeDeprecated" unmarshalOBoolean2ptr_bool) (fun arg0 =>
  Ok {[ "includeDeprecated" := ArgBoolPtr arg0 ]}).

Definition field___Field_args_args (ctx : Ctx) (rawArgs : gmap string (option Any)) : res (gmap string argument) :=
  res_bind (ProcessArgField None ctx rawArgs "includeDeprecated" unmarshalOBoolean2ptr_bool) (fun arg0 =>
  Ok {[ "includeDeprecated" := ArgBoolPtr arg0 ]}).

Definition field___Type_enumValues_args (ctx : Ctx) (rawArgs : gmap string (option Any)) : res (gmap string argument) :=
  res_bind (ProcessArgField false ctx rawArgs "includeDeprecated" unmarshalOBoolean2bool) (fun arg0 =>
  Ok {[ "includeDeprecated" := ArgBool arg0 ]}).

Definition field___Type_fields_args (ctx : Ctx) (rawArgs : gmap string (option Any)) : res (gmap string argument) :=
  res_bind (ProcessArgField false ctx rawArgs "includeDeprecated" unmarshalOBoolean2bool) (fun arg0 =>
  Ok {[ "includeDeprecated" := ArgBool arg0 ]}).
End Leaf.
