(* ===== verification/GraphObjects.v ===== *)
(** admin-api/internal/graph/generated.go: the panel's objects.

    For each type of the schema the context and the marshalling of every field,
    the shared lookup of child contexts, the object itself and the marshallers
    of pointers and lists of it. *)

From S2P Require Import Prelude Errors Prog Json Float Gqlgen GraphLeaf Graph.
#[local] Open Scope Z_scope.
#[local] Open Scope gql_scope.

Section Objects.
Context `{G : Gqlgen} {E : interface}.
Abbreviation gql := (gql_ gqlError).
Abbreviation FC := (res (FieldContext CollectedField)).

(** ** AdminUser *)

Definition fieldContext_AdminUser_id (ctx : Ctx) (field : CollectedField) : gql E FC :=
  pure (NewScalarFieldContext "AdminUser" field false false (Sentinel "field of type ID does not have child fields")).

Definition _AdminUser_id (ctx : Ctx) (field : CollectedField) (obj : AdminUser) : gql E Marshaler :=
  ResolveField ctx field fieldContext_AdminUser_id
    (fun _ => Ret (Done (Ok (auID obj)))) marshalNID2string true true.

Definition fieldContext_AdminUser_orgId (ctx : Ctx) (field : CollectedField) : gql E FC :=
  pure (NewScalarFieldContext "AdminUser" field false false (Sentinel "field of type ID does not have child fields")).

Definition _AdminUser_orgId (ctx : Ctx) (field : CollectedField) (obj : AdminUser) : gql E Marshaler :=
  ResolveField ctx field fieldContext_AdminUser_orgId
    (fun _ => Ret (Done (Ok (auOrgID obj)))) marshalNID2string true true.

Definition fieldContext_AdminUser_role (ctx : Ctx) (field : CollectedField) : gql E FC :=
  pure (NewScalarFieldContext "AdminUser" field false false (Sentinel "field of type String does not have child fields")).

Definition _AdminUser_role (ctx : Ctx) (field : CollectedField) (obj : AdminUser) : gql E Marshaler :=
  ResolveField ctx field fieldContext_AdminUser_role
    (fun _ => Ret (Done (Ok (auRole obj)))) marshalNString2string true true.

Definition childFields_AdminUser (ctx : Ctx) (field : CollectedField) : gql E FC :=
  switch (fName field)
    [("id", fieldContext_AdminUser_id ctx field);
     ("orgId", fieldContext_AdminUser_orgId ctx field);
     ("role", fieldContext_AdminUser_role ctx field)]
    (pure (Err (ErrNoField (fName field) "AdminUser"))).

Definition adminUserImplementors : list string := ["AdminUser"].

Definition _AdminUser (ctx : Ctx) (sel : SelectionSet) (obj : AdminUser) : gql E Marshaler :=
  object sel adminUserImplementors (fun field => switch (fName field)
    [("__typename", plain (MarshalString "AdminUser"));
     ("id", required (_AdminUser_id ctx field obj));
     ("orgId", required (_AdminUser_orgId ctx field obj));
     ("role", required (_AdminUser_role ctx field obj))]
    (unknown_field (fName field))).

Definition marshalNAdminUser2 (ctx : Ctx) (sel : SelectionSet) (v : AdminUser) : gql E Marshaler := _AdminUser ctx sel v.

Definition marshalNAdminUser2ptr (ctx : Ctx) (sel : SelectionSet) (v : option AdminUser) : gql E Marshaler :=
  marshal_ptr _AdminUser ctx sel v.

(** ** ApiKeySummary *)

Definition fieldContext_ApiKeySummary_keyId (ctx : Ctx) (field : CollectedField) : gql E FC :=
  pure (NewScalarFieldContext "ApiKeySummary" field false false (Sentinel "field of type ID does not have child fields")).

Definition _ApiKeySummary_keyId (ctx : Ctx) (field : CollectedField) (obj : APIKeySummary) : gql E Marshaler :=
  ResolveField ctx field fieldContext_ApiKeySummary_keyId
    (fun _ => Ret (Done (Ok (asKeyID obj)))) marshalNID2string true true.

Definition fieldContext_ApiKeySummary_orgId (ctx : Ctx) (field : CollectedField) : gql E FC :=
  pure (NewScalarFieldContext "ApiKeySummary" field false false (Sentinel "field of type ID does not have child fields")).

Definition _ApiKeySummary_orgId (ctx : Ctx) (field : CollectedField) (obj : APIKeySummary) : gql E Marshaler :=
  ResolveField ctx field fieldContext_ApiKeySummary_orgId
    (fun _ => Ret (Done (Ok (asOrgID obj)))) marshalNID2string true true.

Definition fieldContext_ApiKeySummary_scopes (ctx : Ctx) (field : CollectedField) : gql E FC :=
  pure (NewScalarFieldContext "ApiKeySummary" field false false (Sentinel "field of type String does not have child fields")).

Definition _ApiKeySummary_scopes (ctx : Ctx) (field : CollectedField) (obj : APIKeySummary) : gql E Marshaler :=
  ResolveField ctx field fieldContext_ApiKeySummary_scopes
    (fun _ => Ret (Done (Ok (asScopes obj)))) marshalNString2slice true true.

Definition fieldContext_ApiKeySummary_createdAt (ctx : Ctx) (field : CollectedField) : gql E FC :=
  pure (NewScalarFieldContext "ApiKeySummary" field false false (Sentinel "field of type String does not have child fields")).

Definition _ApiKeySummary_createdAt (ctx : Ctx) (field : CollectedField) (obj : APIKeySummary) : gql E Marshaler :=
  ResolveField ctx field fieldContext_ApiKeySummary_createdAt
    (fun _ => Ret (Done (Ok (asCreatedAt obj)))) marshalNString2string true true.

Definition fieldContext_ApiKeySummary_revokedAt (ctx : Ctx) (field : CollectedField) : gql E FC :=
  pure (NewScalarFieldContext "ApiKeySummary" field false false (Sentinel "field of type String does not have child fields")).

Definition _ApiKeySummary_revokedAt (ctx : Ctx) (field : CollectedField) (obj : APIKeySummary) : gql E Marshaler :=
  ResolveField ctx field fieldContext_ApiKeySummary_revokedAt
    (fun _ => Ret (Done (Ok (asRevokedAt obj)))) marshalOString2ptr_string true false.

Definition childFields_ApiKeySummary (ctx : Ctx) (field : CollectedField) : gql E FC :=
  switch (fName field)
    [("keyId", fieldContext_ApiKeySummary_keyId ctx field);
     ("orgId", fieldContext_ApiKeySummary_orgId ctx field);
     ("scopes", fieldContext_ApiKeySummary_scopes ctx field);
     ("createdAt", fieldContext_ApiKeySummary_createdAt ctx field);
     ("revokedAt", fieldContext_ApiKeySummary_revokedAt ctx field)]
    (pure (Err (ErrNoField (fName field) "ApiKeySummary"))).

Definition apiKeySummaryImplementors : list string := ["ApiKeySummary"].

Definition _ApiKeySummary (ctx : Ctx) (sel : SelectionSet) (obj : APIKeySummary) : gql E Marshaler :=
  object sel apiKeySummaryImplementors (fun field => switch (fName field)
    [("__typename", plain (MarshalString "ApiKeySummary"));
     ("keyId", required (_ApiKeySummary_keyId ctx field obj));
     ("orgId", required (_ApiKeySummary_orgId ctx field obj));
     ("scopes", required (_ApiKeySummary_scopes ctx field obj));
     ("createdAt", required (_ApiKeySummary_createdAt ctx field obj));
     ("revokedAt", nullable (_ApiKeySummary_revokedAt ctx field obj))]
    (unknown_field (fName field))).

Definition marshalNApiKeySummary2ptr (ctx : Ctx) (sel : SelectionSet) (v : option APIKeySummary) : gql E Marshaler :=
  marshal_ptr _ApiKeySummary ctx sel v.

Definition marshalNApiKeySummary2slice (ctx : Ctx) (sel : SelectionSet) (v : list (option APIKeySummary)) : gql E Marshaler :=
  marshal_slice marshalNApiKeySummary2ptr ctx sel v.

(** ** AuditEntry *)

Definition fieldContext_AuditEntry_auditId (ctx : Ctx) (field : CollectedField) : gql E FC :=
  pure (NewScalarFieldContext "AuditEntry" field false false (Sentinel "field of type ID does not have child fields")).

Definition _AuditEntry_auditId (ctx : Ctx) (field : CollectedField) (obj : AuditEntry) : gql E Marshaler :=
  ResolveField ctx field fieldContext_AuditEntry_auditId
    (fun _ => Ret (Done (Ok (aeAuditID obj)))) marshalNID2string true true.

Definition fieldContext_AuditEntry_actor (ctx : Ctx) (field : CollectedField) : gql E FC :=
  pure (NewScalarFieldContext "AuditEntry" field false false (Sentinel "field of type ID does not have child fields")).

Definition _AuditEntry_actor (ctx : Ctx) (field : CollectedField) (obj : AuditEntry) : gql E Marshaler :=
  ResolveField ctx field fieldContext_AuditEntry_actor
    (fun _ => Ret (Done (Ok (aeActor obj)))) marshalNID2string true true.

Definition fieldContext_AuditEntry_action (ctx : Ctx) (field : CollectedField) : gql E FC :=
  pure (NewScalarFieldContext "AuditEntry" field false false (Sentinel "field of type String does not have child fields")).

Definition _AuditEntry_action (ctx : Ctx) (field : CollectedField) (obj : AuditEntry) : gql E Marshaler :=
  ResolveField ctx field fieldContext_AuditEntry_action
    (fun _ => Ret (Done (Ok (aeAction obj)))) marshalNString2string true true.

Definition fieldContext_AuditEntry_target (ctx : Ctx) (field : CollectedField) : gql E FC :=
  pure (NewScalarFieldContext "AuditEntry" field false false (Sentinel "field of type String does not have child fields")).

Definition _AuditEntry_target (ctx : Ctx) (field : CollectedField) (obj : AuditEntry) : gql E Marshaler :=
  ResolveField ctx field fieldContext_AuditEntry_target
    (fun _ => Ret (Done (Ok (aeTarget obj)))) marshalNString2string true true.

Definition fieldContext_AuditEntry_beforeJson (ctx : Ctx) (field : CollectedField) : gql E FC :=
  pure (NewScalarFieldContext "AuditEntry" field false false (Sentinel "field of type String does not have child fields")).

Definition _AuditEntry_beforeJson (ctx : Ctx) (field : CollectedField) (obj : AuditEntry) : gql E Marshaler :=
  ResolveField ctx field fieldContext_AuditEntry_beforeJson
    (fun _ => Ret (Done (Ok (aeBeforeJSON obj)))) marshalOString2ptr_string true false.

Definition fieldContext_AuditEntry_afterJson (ctx : Ctx) (field : CollectedField) : gql E FC :=
  pure (NewScalarFieldContext "AuditEntry" field false false (Sentinel "field of type String does not have child fields")).

Definition _AuditEntry_afterJson (ctx : Ctx) (field : CollectedField) (obj : AuditEntry) : gql E Marshaler :=
  ResolveField ctx field fieldContext_AuditEntry_afterJson
    (fun _ => Ret (Done (Ok (aeAfterJSON obj)))) marshalOString2ptr_string true false.

Definition fieldContext_AuditEntry_ts (ctx : Ctx) (field : CollectedField) : gql E FC :=
  pure (NewScalarFieldContext "AuditEntry" field false false (Sentinel "field of type String does not have child fields")).

Definition _AuditEntry_ts (ctx : Ctx) (field : CollectedField) (obj : AuditEntry) : gql E Marshaler :=
  ResolveField ctx field fieldContext_AuditEntry_ts
    (fun _ => Ret (Done (Ok (aeTs obj)))) marshalNString2string true true.

Definition childFields_AuditEntry (ctx : Ctx) (field : CollectedField) : gql E FC :=
  switch (fName field)
    [("auditId", fieldContext_AuditEntry_auditId ctx field);
     ("actor", fieldContext_AuditEntry_actor ctx field);
     ("action", fieldContext_AuditEntry_action ctx field);
     ("target", fieldContext_AuditEntry_target ctx field);
     ("beforeJson", fieldContext_AuditEntry_beforeJson ctx field);
     ("afterJson", fieldContext_AuditEntry_afterJson ctx field);
     ("ts", fieldContext_AuditEntry_ts ctx field)]
    (pure (Err (ErrNoField (fName field) "AuditEntry"))).

Definition auditEntryImplementors : list string := ["AuditEntry"].

Definition _AuditEntry (ctx : Ctx) (sel : SelectionSet) (obj : AuditEntry) : gql E Marshaler :=
  object sel auditEntryImplementors (fun field => switch (fName field)
    [("__typename", plain (MarshalString "AuditEntry"));
     ("auditId", required (_AuditEntry_auditId ctx field obj));
     ("actor", required (_AuditEntry_actor ctx field obj));
     ("action", required (_AuditEntry_action ctx field obj));
     ("target", required (_AuditEntry_target ctx field obj));
     ("beforeJson", nullable (_AuditEntry_beforeJson ctx field obj));
     ("afterJson", nullable (_AuditEntry_afterJson ctx field obj));
     ("ts", required (_AuditEntry_ts ctx field obj))]
    (unknown_field (fName field))).

Definition marshalNAuditEntry2ptr (ctx : Ctx) (sel : SelectionSet) (v : option AuditEntry) : gql E Marshaler :=
  marshal_ptr _AuditEntry ctx sel v.

Definition marshalNAuditEntry2slice (ctx : Ctx) (sel : SelectionSet) (v : list (option AuditEntry)) : gql E Marshaler :=
  marshal_slice marshalNAuditEntry2ptr ctx sel v.

(** ** DashboardMetrics *)

Definition fieldContext_DashboardMetrics_requestsPerSecond (ctx : Ctx) (field : CollectedField) : gql E FC :=
  pure (NewScalarFieldContext "DashboardMetrics" field false false (Sentinel "field of type Float does not have child fields")).

Definition _DashboardMetrics_requestsPerSecond (ctx : Ctx) (field : CollectedField) (obj : DashboardMetrics) : gql E Marshaler :=
  ResolveField ctx field fieldContext_DashboardMetrics_requestsPerSecond
    (fun _ => Ret (Done (Ok (RequestsPerSecond obj)))) marshalNFloat2float64 true true.

Definition fieldContext_DashboardMetrics_p95LatencyMs (ctx : Ctx) (field : CollectedField) : gql E FC :=
  pure (NewScalarFieldContext "DashboardMetrics" field false false (Sentinel "field of type Float does not have child fields")).

Definition _DashboardMetrics_p95LatencyMs (ctx : Ctx) (field : CollectedField) (obj : DashboardMetrics) : gql E Marshaler :=
  ResolveField ctx field fieldContext_DashboardMetrics_p95LatencyMs
    (fun _ => Ret (Done (Ok (P95LatencyMs obj)))) marshalNFloat2float64 true true.

Definition fieldContext_DashboardMetrics_errorRate (ctx : Ctx) (field : CollectedField) : gql E FC :=
  pure (NewScalarFieldContext "DashboardMetrics" field false false (Sentinel "field of type Float does not have child fields")).

Definition _DashboardMetrics_errorRate (ctx : Ctx) (field : CollectedField) (obj : DashboardMetrics) : gql E Marshaler :=
  ResolveField ctx field fieldContext_DashboardMetrics_errorRate
    (fun _ => Ret (Done (Ok (ErrorRate obj)))) marshalNFloat2float64 true true.

Definition fieldContext_DashboardMetrics_activeModelsCount (ctx : Ctx) (field : CollectedField) : gql E FC :=
  pure (NewScalarFieldContext "DashboardMetrics" field false false (Sentinel "field of type Int does not have child fields")).

Definition _DashboardMetrics_activeModelsCount (ctx : Ctx) (field : CollectedField) (obj : DashboardMetrics) : gql E Marshaler :=
  ResolveField ctx field fieldContext_DashboardMetrics_activeModelsCount
    (fun _ => Ret (Done (Ok (ActiveModelsCount obj)))) marshalNInt2int true true.

Definition fieldContext_DashboardMetrics_activeRolloutsCount (ctx : Ctx) (field : CollectedField) : gql E FC :=
  pure (NewScalarFieldContext "DashboardMetrics" field false false (Sentinel "field of type Int does not have child fields")).

Definition _DashboardMetrics_activeRolloutsCount (ctx : Ctx) (field : CollectedField) (obj : DashboardMetrics) : gql E Marshaler :=
  ResolveField ctx field fieldContext_DashboardMetrics_activeRolloutsCount
    (fun _ => Ret (Done (Ok (ActiveRolloutsCount obj)))) marshalNInt2int true true.

Definition childFields_DashboardMetrics (ctx : Ctx) (field : CollectedField) : gql E FC :=
  switch (fName field)
    [("requestsPerSecond", fieldContext_DashboardMetrics_requestsPerSecond ctx field);
     ("p95LatencyMs", fieldContext_DashboardMetrics_p95LatencyMs ctx field);
     ("errorRate", fieldContext_DashboardMetrics_errorRate ctx field);
     ("activeModelsCount", fieldContext_DashboardMetrics_activeModelsCount ctx field);
     ("activeRolloutsCount", fieldContext_DashboardMetrics_activeRolloutsCount ctx field)]
    (pure (Err (ErrNoField (fName field) "DashboardMetrics"))).

Definition dashboardMetricsImplementors : list string := ["DashboardMetrics"].

Definition _DashboardMetrics (ctx : Ctx) (sel : SelectionSet) (obj : DashboardMetrics) : gql E Marshaler :=
  object sel dashboardMetricsImplementors (fun field => switch (fName field)
    [("__typename", plain (MarshalString "DashboardMetrics"));
     ("requestsPerSecond", required (_DashboardMetrics_requestsPerSecond ctx field obj));
     ("p95LatencyMs", required (_DashboardMetrics_p95LatencyMs ctx field obj));
     ("errorRate", required (_DashboardMetrics_errorRate ctx field obj));
     ("activeModelsCount", required (_DashboardMetrics_activeModelsCount ctx field obj));
     ("activeRolloutsCount", required (_DashboardMetrics_activeRolloutsCount ctx field obj))]
    (unknown_field (fName field))).

Definition marshalNDashboardMetrics2 (ctx : Ctx) (sel : SelectionSet) (v : DashboardMetrics) : gql E Marshaler := _DashboardMetrics ctx sel v.

Definition marshalNDashboardMetrics2ptr (ctx : Ctx) (sel : SelectionSet) (v : option DashboardMetrics) : gql E Marshaler :=
  marshal_ptr _DashboardMetrics ctx sel v.

(** ** ModelManifest *)

Definition fieldContext_ModelManifest_versionId (ctx : Ctx) (field : CollectedField) : gql E FC :=
  pure (NewScalarFieldContext "ModelManifest" field false false (Sentinel "field of type ID does not have child fields")).

Definition _ModelManifest_versionId (ctx : Ctx) (field : CollectedField) (obj : ModelManifest) : gql E Marshaler :=
  ResolveField ctx field fieldContext_ModelManifest_versionId
    (fun _ => Ret (Done (Ok (mmVersionID obj)))) marshalNID2string true true.

Definition fieldContext_ModelManifest_modelRef (ctx : Ctx) (field : CollectedField) : gql E FC :=
  pure (NewScalarFieldContext "ModelManifest" field false false (Sentinel "field of type String does not have child fields")).

Definition _ModelManifest_modelRef (ctx : Ctx) (field : CollectedField) (obj : ModelManifest) : gql E Marshaler :=
  ResolveField ctx field fieldContext_ModelManifest_modelRef
    (fun _ => Ret (Done (Ok (mmModelRef obj)))) marshalNString2string true true.

Definition fieldContext_ModelManifest_specJson (ctx : Ctx) (field : CollectedField) : gql E FC :=
  pure (NewScalarFieldContext "ModelManifest" field false false (Sentinel "field of type String does not have child fields")).

Definition _ModelManifest_specJson (ctx : Ctx) (field : CollectedField) (obj : ModelManifest) : gql E Marshaler :=
  ResolveField ctx field fieldContext_ModelManifest_specJson
    (fun _ => Ret (Done (Ok (mmSpecJSON obj)))) marshalNString2string true true.

Definition fieldContext_ModelManifest_signature (ctx : Ctx) (field : CollectedField) : gql E FC :=
  pure (NewScalarFieldContext "ModelManifest" field false false (Sentinel "field of type String does not have child fields")).

Definition _ModelManifest_signature (ctx : Ctx) (field : CollectedField) (obj : ModelManifest) : gql E Marshaler :=
  ResolveField ctx field fieldContext_ModelManifest_signature
    (fun _ => Ret (Done (Ok (mmSignature obj)))) marshalNString2string true true.

Definition fieldContext_ModelManifest_createdBy (ctx : Ctx) (field : CollectedField) : gql E FC :=
  pure (NewScalarFieldContext "ModelManifest" field false false (Sentinel "field of type String does not have child fields")).

Definition _ModelManifest_createdBy (ctx : Ctx) (field : CollectedField) (obj : ModelManifest) : gql E Marshaler :=
  ResolveField ctx field fieldContext_ModelManifest_createdBy
    (fun _ => Ret (Done (Ok (mmCreatedBy obj)))) marshalNString2string true true.

Definition fieldContext_ModelManifest_createdAt (ctx : Ctx) (field : CollectedField) : gql E FC :=
  pure (NewScalarFieldContext "ModelManifest" field false false (Sentinel "field of type String does not have child fields")).

Definition _ModelManifest_createdAt (ctx : Ctx) (field : CollectedField) (obj : ModelManifest) : gql E Marshaler :=
  ResolveField ctx field fieldContext_ModelManifest_createdAt
    (fun _ => Ret (Done (Ok (mmCreatedAt obj)))) marshalNString2string true true.

Definition fieldContext_ModelManifest_status (ctx : Ctx) (field : CollectedField) : gql E FC :=
  pure (NewScalarFieldContext "ModelManifest" field false false (Sentinel "field of type String does not have child fields")).

Definition _ModelManifest_status (ctx : Ctx) (field : CollectedField) (obj : ModelManifest) : gql E Marshaler :=
  ResolveField ctx field fieldContext_ModelManifest_status
    (fun _ => Ret (Done (Ok (mmStatus obj)))) marshalNString2string true true.

Definition childFields_ModelManifest (ctx : Ctx) (field : CollectedField) : gql E FC :=
  switch (fName field)
    [("versionId", fieldContext_ModelManifest_versionId ctx field);
     ("modelRef", fieldContext_ModelManifest_modelRef ctx field);
     ("specJson", fieldContext_ModelManifest_specJson ctx field);
     ("signature", fieldContext_ModelManifest_signature ctx field);
     ("createdBy", fieldContext_ModelManifest_createdBy ctx field);
     ("createdAt", fieldContext_ModelManifest_createdAt ctx field);
     ("status", fieldContext_ModelManifest_status ctx field)]
    (pure (Err (ErrNoField (fName field) "ModelManifest"))).

Definition modelManifestImplementors : list string := ["ModelManifest"].

Definition _ModelManifest (ctx : Ctx) (sel : SelectionSet) (obj : ModelManifest) : gql E Marshaler :=
  object sel modelManifestImplementors (fun field => switch (fName field)
    [("__typename", plain (MarshalString "ModelManifest"));
     ("versionId", required (_ModelManifest_versionId ctx field obj));
     ("modelRef", required (_ModelManifest_modelRef ctx field obj));
     ("specJson", required (_ModelManifest_specJson ctx field obj));
     ("signature", required (_ModelManifest_signature ctx field obj));
     ("createdBy", required (_ModelManifest_createdBy ctx field obj));
     ("createdAt", required (_ModelManifest_createdAt ctx field obj));
     ("status", required (_ModelManifest_status ctx field obj))]
    (unknown_field (fName field))).

Definition marshalNModelManifest2 (ctx : Ctx) (sel : SelectionSet) (v : ModelManifest) : gql E Marshaler := _ModelManifest ctx sel v.

Definition marshalNModelManifest2ptr (ctx : Ctx) (sel : SelectionSet) (v : option ModelManifest) : gql E Marshaler :=
  marshal_ptr _ModelManifest ctx sel v.

(** ** ModelSummary *)

Definition fieldContext_ModelSummary_modelRef (ctx : Ctx) (field : CollectedField) : gql E FC :=
  pure (NewScalarFieldContext "ModelSummary" field false false (Sentinel "field of type String does not have child fields")).

Definition _ModelSummary_modelRef (ctx : Ctx) (field : CollectedField) (obj : ModelSummary) : gql E Marshaler :=
  ResolveField ctx field fieldContext_ModelSummary_modelRef
    (fun _ => Ret (Done (Ok (msModelRef obj)))) marshalNString2string true true.

Definition fieldContext_ModelSummary_activeVersionId (ctx : Ctx) (field : CollectedField) : gql E FC :=
  pure (NewScalarFieldContext "ModelSummary" field false false (Sentinel "field of type ID does not have child fields")).

Definition _ModelSummary_activeVersionId (ctx : Ctx) (field : CollectedField) (obj : ModelSummary) : gql E Marshaler :=
  ResolveField ctx field fieldContext_ModelSummary_activeVersionId
    (fun _ => Ret (Done (Ok (msActiveVersionID obj)))) marshalNID2string true true.

Definition childFields_ModelSummary (ctx : Ctx) (field : CollectedField) : gql E FC :=
  switch (fName field)
    [("modelRef", fieldContext_ModelSummary_modelRef ctx field);
     ("activeVersionId", fieldContext_ModelSummary_activeVersionId ctx field)]
    (pure (Err (ErrNoField (fName field) "ModelSummary"))).

Definition modelSummaryImplementors : list string := ["ModelSummary"].

Definition _ModelSummary (ctx : Ctx) (sel : SelectionSet) (obj : ModelSummary) : gql E Marshaler :=
  object sel modelSummaryImplementors (fun field => switch (fName field)
    [("__typename", plain (MarshalString "ModelSummary"));
     ("modelRef", required (_ModelSummary_modelRef ctx field obj));
     ("activeVersionId", required (_ModelSummary_activeVersionId ctx field obj))]
    (unknown_field (fName field))).

Definition marshalNModelSummary2ptr (ctx : Ctx) (sel : SelectionSet) (v : option ModelSummary) : gql E Marshaler :=
  marshal_ptr _ModelSummary ctx sel v.

Definition marshalNModelSummary2slice (ctx : Ctx) (sel : SelectionSet) (v : list (option ModelSummary)) : gql E Marshaler :=
  marshal_slice marshalNModelSummary2ptr ctx sel v.

(** ** ProviderHealth *)

Definition fieldContext_ProviderHealth_provider (ctx : Ctx) (field : CollectedField) : gql E FC :=
  pure (NewScalarFieldContext "ProviderHealth" field false false (Sentinel "field of type String does not have child fields")).

Definition _ProviderHealth_provider (ctx : Ctx) (field : CollectedField) (obj : ProviderHealthRow) : gql E Marshaler :=
  ResolveField ctx field fieldContext_ProviderHealth_provider
    (fun _ => Ret (Done (Ok (phProvider obj)))) marshalNString2string true true.

Definition fieldContext_ProviderHealth_healthy (ctx : Ctx) (field : CollectedField) : gql E FC :=
  pure (NewScalarFieldContext "ProviderHealth" field false false (Sentinel "field of type Boolean does not have child fields")).

Definition _ProviderHealth_healthy (ctx : Ctx) (field : CollectedField) (obj : ProviderHealthRow) : gql E Marshaler :=
  ResolveField ctx field fieldContext_ProviderHealth_healthy
    (fun _ => Ret (Done (Ok (Healthy obj)))) marshalNBoolean2bool true true.

Definition fieldContext_ProviderHealth_quotaHeadroom (ctx : Ctx) (field : CollectedField) : gql E FC :=
  pure (NewScalarFieldContext "ProviderHealth" field false false (Sentinel "field of type Float does not have child fields")).

Definition _ProviderHealth_quotaHeadroom (ctx : Ctx) (field : CollectedField) (obj : ProviderHealthRow) : gql E Marshaler :=
  ResolveField ctx field fieldContext_ProviderHealth_quotaHeadroom
    (fun _ => Ret (Done (Ok (QuotaHeadroom obj)))) marshalNFloat2float64 true true.

Definition fieldContext_ProviderHealth_breakerState (ctx : Ctx) (field : CollectedField) : gql E FC :=
  pure (NewScalarFieldContext "ProviderHealth" field false false (Sentinel "field of type String does not have child fields")).

Definition _ProviderHealth_breakerState (ctx : Ctx) (field : CollectedField) (obj : ProviderHealthRow) : gql E Marshaler :=
  ResolveField ctx field fieldContext_ProviderHealth_breakerState
    (fun _ => Ret (Done (Ok (phBreakerState obj)))) marshalNString2string true true.

Definition childFields_ProviderHealth (ctx : Ctx) (field : CollectedField) : gql E FC :=
  switch (fName field)
    [("provider", fieldContext_ProviderHealth_provider ctx field);
     ("healthy", fieldContext_ProviderHealth_healthy ctx field);
     ("quotaHeadroom", fieldContext_ProviderHealth_quotaHeadroom ctx field);
     ("breakerState", fieldContext_ProviderHealth_breakerState ctx field)]
    (pure (Err (ErrNoField (fName field) "ProviderHealth"))).

Definition providerHealthImplementors : list string := ["ProviderHealth"].

Definition _ProviderHealth (ctx : Ctx) (sel : SelectionSet) (obj : ProviderHealthRow) : gql E Marshaler :=
  object sel providerHealthImplementors (fun field => switch (fName field)
    [("__typename", plain (MarshalString "ProviderHealth"));
     ("provider", required (_ProviderHealth_provider ctx field obj));
     ("healthy", required (_ProviderHealth_healthy ctx field obj));
     ("quotaHeadroom", required (_ProviderHealth_quotaHeadroom ctx field obj));
     ("breakerState", required (_ProviderHealth_breakerState ctx field obj))]
    (unknown_field (fName field))).

Definition marshalNProviderHealth2ptr (ctx : Ctx) (sel : SelectionSet) (v : option ProviderHealthRow) : gql E Marshaler :=
  marshal_ptr _ProviderHealth ctx sel v.

Definition marshalNProviderHealth2slice (ctx : Ctx) (sel : SelectionSet) (v : list (option ProviderHealthRow)) : gql E Marshaler :=
  marshal_slice marshalNProviderHealth2ptr ctx sel v.

(** ** Rollout *)

Definition fieldContext_Rollout_rolloutId (ctx : Ctx) (field : CollectedField) : gql E FC :=
  pure (NewScalarFieldContext "Rollout" field false false (Sentinel "field of type ID does not have child fields")).

Definition _Rollout_rolloutId (ctx : Ctx) (field : CollectedField) (obj : RolloutRow) : gql E Marshaler :=
  ResolveField ctx field fieldContext_Rollout_rolloutId
    (fun _ => Ret (Done (Ok (grRolloutID obj)))) marshalNID2string true true.

Definition fieldContext_Rollout_modelRef (ctx : Ctx) (field : CollectedField) : gql E FC :=
  pure (NewScalarFieldContext "Rollout" field false false (Sentinel "field of type String does not have child fields")).

Definition _Rollout_modelRef (ctx : Ctx) (field : CollectedField) (obj : RolloutRow) : gql E Marshaler :=
  ResolveField ctx field fieldContext_Rollout_modelRef
    (fun _ => Ret (Done (Ok (grModelRef obj)))) marshalNString2string true true.

Definition fieldContext_Rollout_versionId (ctx : Ctx) (field : CollectedField) : gql E FC :=
  pure (NewScalarFieldContext "Rollout" field false false (Sentinel "field of type ID does not have child fields")).

Definition _Rollout_versionId (ctx : Ctx) (field : CollectedField) (obj : RolloutRow) : gql E Marshaler :=
  ResolveField ctx field fieldContext_Rollout_versionId
    (fun _ => Ret (Done (Ok (grVersionID obj)))) marshalNID2string true true.

Definition fieldContext_Rollout_strategyJson (ctx : Ctx) (field : CollectedField) : gql E FC :=
  pure (NewScalarFieldContext "Rollout" field false false (Sentinel "field of type String does not have child fields")).

Definition _Rollout_strategyJson (ctx : Ctx) (field : CollectedField) (obj : RolloutRow) : gql E Marshaler :=
  ResolveField ctx field fieldContext_Rollout_strategyJson
    (fun _ => Ret (Done (Ok (grStrategyJSON obj)))) marshalNString2string true true.

Definition fieldContext_Rollout_stage (ctx : Ctx) (field : CollectedField) : gql E FC :=
  pure (NewScalarFieldContext "Rollout" field false false (Sentinel "field of type String does not have child fields")).

Definition _Rollout_stage (ctx : Ctx) (field : CollectedField) (obj : RolloutRow) : gql E Marshaler :=
  ResolveField ctx field fieldContext_Rollout_stage
    (fun _ => Ret (Done (Ok (grStage obj)))) marshalNString2string true true.

Definition fieldContext_Rollout_status (ctx : Ctx) (field : CollectedField) : gql E FC :=
  pure (NewScalarFieldContext "Rollout" field false false (Sentinel "field of type String does not have child fields")).

Definition _Rollout_status (ctx : Ctx) (field : CollectedField) (obj : RolloutRow) : gql E Marshaler :=
  ResolveField ctx field fieldContext_Rollout_status
    (fun _ => Ret (Done (Ok (grStatus obj)))) marshalNString2string true true.

Definition fieldContext_Rollout_canaryPercent (ctx : Ctx) (field : CollectedField) : gql E FC :=
  pure (NewScalarFieldContext "Rollout" field false false (Sentinel "field of type Int does not have child fields")).

Definition _Rollout_canaryPercent (ctx : Ctx) (field : CollectedField) (obj : RolloutRow) : gql E Marshaler :=
  ResolveField ctx field fieldContext_Rollout_canaryPercent
    (fun _ => Ret (Done (Ok (grCanaryPercent obj)))) marshalNInt2int true true.

Definition fieldContext_Rollout_startedAt (ctx : Ctx) (field : CollectedField) : gql E FC :=
  pure (NewScalarFieldContext "Rollout" field false false (Sentinel "field of type String does not have child fields")).

Definition _Rollout_startedAt (ctx : Ctx) (field : CollectedField) (obj : RolloutRow) : gql E Marshaler :=
  ResolveField ctx field fieldContext_Rollout_startedAt
    (fun _ => Ret (Done (Ok (grStartedAt obj)))) marshalNString2string true true.

Definition fieldContext_Rollout_endedAt (ctx : Ctx) (field : CollectedField) : gql E FC :=
  pure (NewScalarFieldContext "Rollout" field false false (Sentinel "field of type String does not have child fields")).

Definition _Rollout_endedAt (ctx : Ctx) (field : CollectedField) (obj : RolloutRow) : gql E Marshaler :=
  ResolveField ctx field fieldContext_Rollout_endedAt
    (fun _ => Ret (Done (Ok (grEndedAt obj)))) marshalOString2ptr_string true false.

Definition childFields_Rollout (ctx : Ctx) (field : CollectedField) : gql E FC :=
  switch (fName field)
    [("rolloutId", fieldContext_Rollout_rolloutId ctx field);
     ("modelRef", fieldContext_Rollout_modelRef ctx field);
     ("versionId", fieldContext_Rollout_versionId ctx field);
     ("strategyJson", fieldContext_Rollout_strategyJson ctx field);
     ("stage", fieldContext_Rollout_stage ctx field);
     ("status", fieldContext_Rollout_status ctx field);
     ("canaryPercent", fieldContext_Rollout_canaryPercent ctx field);
     ("startedAt", fieldContext_Rollout_startedAt ctx field);
     ("endedAt", fieldContext_Rollout_endedAt ctx field)]
    (pure (Err (ErrNoField (fName field) "Rollout"))).

Definition rolloutImplementors : list string := ["Rollout"].

Definition _Rollout (ctx : Ctx) (sel : SelectionSet) (obj : RolloutRow) : gql E Marshaler :=
  object sel rolloutImplementors (fun field => switch (fName field)
    [("__typename", plain (MarshalString "Rollout"));
     ("rolloutId", required (_Rollout_rolloutId ctx field obj));
     ("modelRef", required (_Rollout_modelRef ctx field obj));
     ("versionId", required (_Rollout_versionId ctx field obj));
     ("strategyJson", required (_Rollout_strategyJson ctx field obj));
     ("stage", required (_Rollout_stage ctx field obj));
     ("status", required (_Rollout_status ctx field obj));
     ("canaryPercent", required (_Rollout_canaryPercent ctx field obj));
     ("startedAt", required (_Rollout_startedAt ctx field obj));
     ("endedAt", nullable (_Rollout_endedAt ctx field obj))]
    (unknown_field (fName field))).

Definition marshalNRollout2ptr (ctx : Ctx) (sel : SelectionSet) (v : option RolloutRow) : gql E Marshaler :=
  marshal_ptr _Rollout ctx sel v.

Definition marshalNRollout2slice (ctx : Ctx) (sel : SelectionSet) (v : list (option RolloutRow)) : gql E Marshaler :=
  marshal_slice marshalNRollout2ptr ctx sel v.

Definition marshalORollout2ptr (ctx : Ctx) (sel : SelectionSet) (v : option RolloutRow) : gql E Marshaler :=
  marshal_opt_ptr _Rollout ctx sel v.
End Objects.
