(* ===== verification/GraphIntro.v ===== *)
(** admin-api/internal/graph/generated.go: introspection.

    The objects introspection shows ([introspection.Type] and the like) belong to
    the runtime: their accessors are the class [Introspection].  Types refer to
    types, so [___Type] calls itself on sub-selections; [___Type_at] is the same
    function with the nesting it may still go down to, and the depth of the
    selection set is always enough. *)

From S2P Require Import Prelude Errors Prog Json Float Gqlgen GraphLeaf.
#[local] Open Scope Z_scope.
#[local] Open Scope gql_scope.

Class Introspection := {
  Type_ : Type; Field_ : Type; InputValue_ : Type; EnumValue_ : Type; Directive_ : Type; Schema_ : Type;
  sDescription : Schema_ -> option string;
  sTypes : Schema_ -> list Type_;
  sQueryType : Schema_ -> option Type_;
  sMutationType : Schema_ -> option Type_;
  sSubscriptionType : Schema_ -> option Type_;
  sDirectives : Schema_ -> list Directive_;
  tKind : Type_ -> string;
  tName : Type_ -> option string;
  tDescription : Type_ -> option string;
  tSpecifiedByURL : Type_ -> option string;
  tFields : Type_ -> bool -> option (list Field_);
  tInterfaces : Type_ -> option (list Type_);
  tPossibleTypes : Type_ -> option (list Type_);
  tEnumValues : Type_ -> bool -> option (list EnumValue_);
  tInputFields : Type_ -> option (list InputValue_);
  tOfType : Type_ -> option Type_;
  tIsOneOf : Type_ -> bool;
  fdName : Field_ -> string;
  fdDescription : Field_ -> option string;
  fdArgs : Field_ -> list InputValue_;
  fdType : Field_ -> option Type_;
  fdIsDeprecated : Field_ -> bool;
  fdDeprecationReason : Field_ -> option string;
  ivName : InputValue_ -> string;
  ivDescription : InputValue_ -> option string;
  ivType : InputValue_ -> option Type_;
  ivDefaultValue : InputValue_ -> option string;
  ivIsDeprecated : InputValue_ -> bool;
  ivDeprecationReason : InputValue_ -> option string;
  evName : EnumValue_ -> string;
  evDescription : EnumValue_ -> option string;
  evIsDeprecated : EnumValue_ -> bool;
  evDeprecationReason : EnumValue_ -> option string;
  dName : Directive_ -> string;
  dDescription : Directive_ -> option string;
  dIsRepeatable : Directive_ -> bool;
  dLocations : Directive_ -> list string;
  dArgs : Directive_ -> list InputValue_;
  IntrospectType : string -> res (option Type_);
  IntrospectSchema : res (option Schema_)
}.

Section Intro.
Context `{G : Gqlgen} `{I : Introspection} {E : interface}.
Abbreviation gql := (gql_ gqlError).
Abbreviation FC := (res (FieldContext CollectedField)).

Section Once.
(** [___Type] on sub-selections. *)
Context (type_below : Ctx -> SelectionSet -> Type_ -> gql E Marshaler).

Definition marshalN__Type2 (ctx : Ctx) (sel : SelectionSet) (v : Type_) : gql E Marshaler := type_below ctx sel v.

Definition marshalN__Type2ptr (ctx : Ctx) (sel : SelectionSet) (v : option Type_) : gql E Marshaler :=
  marshal_ptr type_below ctx sel v.

Definition marshalN__Type2slice (ctx : Ctx) (sel : SelectionSet) (v : list Type_) : gql E Marshaler :=
  marshal_slice marshalN__Type2 ctx sel v.

Definition marshalO__Type2ptr (ctx : Ctx) (sel : SelectionSet) (v : option Type_) : gql E Marshaler :=
  marshal_opt_ptr type_below ctx sel v.

Definition marshalO__Type2slice (ctx : Ctx) (sel : SelectionSet) (v : option (list Type_)) : gql E Marshaler :=
  marshal_opt_slice marshalN__Type2 ctx sel v.

(** ** __InputValue *)

Definition fieldContext___InputValue_name (ctx : Ctx) (field : CollectedField) : gql E FC :=
  pure (NewScalarFieldContext "__InputValue" field false false (Sentinel "field of type String does not have child fields")).

Definition ___InputValue_name (ctx : Ctx) (field : CollectedField) (obj : InputValue_) : gql E Marshaler :=
  ResolveField ctx field fieldContext___InputValue_name
    (fun _ => Ret (Done (Ok (ivName obj)))) marshalNString2string true true.

Definition fieldContext___InputValue_description (ctx : Ctx) (field : CollectedField) : gql E FC :=
  pure (NewScalarFieldContext "__InputValue" field true false (Sentinel "field of type String does not have child fields")).

Definition ___InputValue_description (ctx : Ctx) (field : CollectedField) (obj : InputValue_) : gql E Marshaler :=
  ResolveField ctx field fieldContext___InputValue_description
    (fun _ => Ret (Done (Ok (ivDescription obj)))) marshalOString2ptr_string true false.

Definition fieldContext___InputValue_type (ctx : Ctx) (field : CollectedField) : gql E FC :=
  pure (Ok (mkFieldContext "__InputValue" (Some field) false false ∅ (Some (ChildFields "__Type")))).

Definition ___InputValue_type (ctx : Ctx) (field : CollectedField) (obj : InputValue_) : gql E Marshaler :=
  ResolveField ctx field fieldContext___InputValue_type
    (fun _ => Ret (Done (Ok (ivType obj)))) marshalN__Type2ptr true true.

Definition fieldContext___InputValue_defaultValue (ctx : Ctx) (field : CollectedField) : gql E FC :=
  pure (NewScalarFieldContext "__InputValue" field false false (Sentinel "field of type String does not have child fields")).

Definition ___InputValue_defaultValue (ctx : Ctx) (field : CollectedField) (obj : InputValue_) : gql E Marshaler :=
  ResolveField ctx field fieldContext___InputValue_defaultValue
    (fun _ => Ret (Done (Ok (ivDefaultValue obj)))) marshalOString2ptr_string true false.

Definition fieldContext___InputValue_isDeprecated (ctx : Ctx) (field : CollectedField) : gql E FC :=
  pure (NewScalarFieldContext "__InputValue" field true false (Sentinel "field of type Boolean does not have child fields")).

Definition ___InputValue_isDeprecated (ctx : Ctx) (field : CollectedField) (obj : InputValue_) : gql E Marshaler :=
  ResolveField ctx field fieldContext___InputValue_isDeprecated
    (fun _ => Ret (Done (Ok (ivIsDeprecated obj)))) marshalNBoolean2bool true true.

Definition fieldContext___InputValue_deprecationReason (ctx : Ctx) (field : CollectedField) : gql E FC :=
  pure (NewScalarFieldContext "__InputValue" field true false (Sentinel "field of type String does not have child fields")).

Definition ___InputValue_deprecationReason (ctx : Ctx) (field : CollectedField) (obj : InputValue_) : gql E Marshaler :=
  ResolveField ctx field fieldContext___InputValue_deprecationReason
    (fun _ => Ret (Done (Ok (ivDeprecationReason obj)))) marshalOString2ptr_string true false.

Definition childFields___InputValue (ctx : Ctx) (field : CollectedField) : gql E FC :=
  switch (fName field)
    [("name", fieldContext___InputValue_name ctx field);
     ("description", fieldContext___InputValue_description ctx field);
     ("type", fieldContext___InputValue_type ctx field);
     ("defaultValue", fieldContext___InputValue_defaultValue ctx field);
     ("isDeprecated", fieldContext___InputValue_isDeprecated ctx field);
     ("deprecationReason", fieldContext___InputValue_deprecationReason ctx field)]
    (pure (Err (ErrNoField (fName field) "__InputValue"))).

Definition __InputValueImplementors : list string := ["__InputValue"].

Definition ___InputValue (ctx : Ctx) (sel : SelectionSet) (obj : InputValue_) : gql E Marshaler :=
  object sel __InputValueImplementors (fun field => switch (fName field)
    [("__typename", plain (MarshalString "__InputValue"));
     ("name", required (___InputValue_name ctx field obj));
     ("description", nullable (___InputValue_description ctx field obj));
     ("type", required (___InputValue_type ctx field obj));
     ("defaultValue", nullable (___InputValue_defaultValue ctx field obj));
     ("isDeprecated", required (___InputValue_isDeprecated ctx field obj));
     ("deprecationReason", nullable (___InputValue_deprecationReason ctx field obj))]
    (unknown_field (fName field))).

Definition marshalN__InputValue2 (ctx : Ctx) (sel : SelectionSet) (v : InputValue_) : gql E Marshaler := ___InputValue ctx sel v.

Definition marshalN__InputValue2slice (ctx : Ctx) (sel : SelectionSet) (v : list InputValue_) : gql E Marshaler :=
  marshal_slice marshalN__InputValue2 ctx sel v.

Definition marshalO__InputValue2slice (ctx : Ctx) (sel : SelectionSet) (v : option (list InputValue_)) : gql E Marshaler :=
  marshal_opt_slice marshalN__InputValue2 ctx sel v.

(** ** __EnumValue *)

Definition fieldContext___EnumValue_name (ctx : Ctx) (field : CollectedField) : gql E FC :=
  pure (NewScalarFieldContext "__EnumValue" field false false (Sentinel "field of type String does not have child fields")).

Definition ___EnumValue_name (ctx : Ctx) (field : CollectedField) (obj : EnumValue_) : gql E Marshaler :=
  ResolveField ctx field fieldContext___EnumValue_name
    (fun _ => Ret (Done (Ok (evName obj)))) marshalNString2string true true.

Definition fieldContext___EnumValue_description (ctx : Ctx) (field : CollectedField) : gql E FC :=
  pure (NewScalarFieldContext "__EnumValue" field true false (Sentinel "field of type String does not have child fields")).

Definition ___EnumValue_description (ctx : Ctx) (field : CollectedField) (obj : EnumValue_) : gql E Marshaler :=
  ResolveField ctx field fieldContext___EnumValue_description
    (fun _ => Ret (Done (Ok (evDescription obj)))) marshalOString2ptr_string true false.

Definition fieldContext___EnumValue_isDeprecated (ctx : Ctx) (field : CollectedField) : gql E FC :=
  pure (NewScalarFieldContext "__EnumValue" field true false (Sentinel "field of type Boolean does not have child fields")).

Definition ___EnumValue_isDeprecated (ctx : Ctx) (field : CollectedField) (obj : EnumValue_) : gql E Marshaler :=
  ResolveField ctx field fieldContext___EnumValue_isDeprecated
    (fun _ => Ret (Done (Ok (evIsDeprecated obj)))) marshalNBoolean2bool true true.

Definition fieldContext___EnumValue_deprecationReason (ctx : Ctx) (field : CollectedField) : gql E FC :=
  pure (NewScalarFieldContext "__EnumValue" field true false (Sentinel "field of type String does not have child fields")).

Definition ___EnumValue_deprecationReason (ctx : Ctx) (field : CollectedField) (obj : EnumValue_) : gql E Marshaler :=
  ResolveField ctx field fieldContext___EnumValue_deprecationReason
    (fun _ => Ret (Done (Ok (evDeprecationReason obj)))) marshalOString2ptr_string true false.

Definition childFields___EnumValue (ctx : Ctx) (field : CollectedField) : gql E FC :=
  switch (fName field)
    [("name", fieldContext___EnumValue_name ctx field);
     ("description", fieldContext___EnumValue_description ctx field);
     ("isDeprecated", fieldContext___EnumValue_isDeprecated ctx field);
     ("deprecationReason", fieldContext___EnumValue_deprecationReason ctx field)]
    (pure (Err (ErrNoField (fName field) "__EnumValue"))).

Definition __EnumValueImplementors : list string := ["__EnumValue"].

Definition ___EnumValue (ctx : Ctx) (sel : SelectionSet) (obj : EnumValue_) : gql E Marshaler :=
  object sel __EnumValueImplementors (fun field => switch (fName field)
    [("__typename", plain (MarshalString "__EnumValue"));
     ("name", required (___EnumValue_name ctx field obj));
     ("description", nullable (___EnumValue_description ctx field obj));
     ("isDeprecated", required (___EnumValue_isDeprecated ctx field obj));
     ("deprecationReason", nullable (___EnumValue_deprecationReason ctx field obj))]
    (unknown_field (fName field))).

Definition marshalN__EnumValue2 (ctx : Ctx) (sel : SelectionSet) (v : EnumValue_) : gql E Marshaler := ___EnumValue ctx sel v.

Definition marshalO__EnumValue2slice (ctx : Ctx) (sel : SelectionSet) (v : option (list EnumValue_)) : gql E Marshaler :=
  marshal_opt_slice marshalN__EnumValue2 ctx sel v.

(** ** __Field *)

Definition fieldContext___Field_name (ctx : Ctx) (field : CollectedField) : gql E FC :=
  pure (NewScalarFieldContext "__Field" field false false (Sentinel "field of type String does not have child fields")).

Definition ___Field_name (ctx : Ctx) (field : CollectedField) (obj : Field_) : gql E Marshaler :=
  ResolveField ctx field fieldContext___Field_name
    (fun _ => Ret (Done (Ok (fdName obj)))) marshalNString2string true true.

Definition fieldContext___Field_description (ctx : Ctx) (field : CollectedField) : gql E FC :=
  pure (NewScalarFieldContext "__Field" field true false (Sentinel "field of type String does not have child fields")).

Definition ___Field_description (ctx : Ctx) (field : CollectedField) (obj : Field_) : gql E Marshaler :=
  ResolveField ctx field fieldContext___Field_description
    (fun _ => Ret (Done (Ok (fdDescription obj)))) marshalOString2ptr_string true false.

Definition fieldContext___Field_args (ctx : Ctx) (field : CollectedField) : gql E FC :=
  context_with_arguments ctx field (mkFieldContext "__Field" (Some field) false false ∅ (Some (ChildFields "__InputValue")))
    field___Field_args_args.

Definition ___Field_args (ctx : Ctx) (field : CollectedField) (obj : Field_) : gql E Marshaler :=
  ResolveField ctx field fieldContext___Field_args
    (fun _ => Ret (Done (Ok (fdArgs obj)))) marshalN__InputValue2slice true true.

Definition fieldContext___Field_type (ctx : Ctx) (field : CollectedField) : gql E FC :=
  pure (Ok (mkFieldContext "__Field" (Some field) false false ∅ (Some (ChildFields "__Type")))).

Definition ___Field_type (ctx : Ctx) (field : CollectedField) (obj : Field_) : gql E Marshaler :=
  ResolveField ctx field fieldContext___Field_type
    (fun _ => Ret (Done (Ok (fdType obj)))) marshalN__Type2ptr true true.

Definition fieldContext___Field_isDeprecated (ctx : Ctx) (field : CollectedField) : gql E FC :=
  pure (NewScalarFieldContext "__Field" field true false (Sentinel "field of type Boolean does not have child fields")).

Definition ___Field_isDeprecated (ctx : Ctx) (field : CollectedField) (obj : Field_) : gql E Marshaler :=
  ResolveField ctx field fieldContext___Field_isDeprecated
    (fun _ => Ret (Done (Ok (fdIsDeprecated obj)))) marshalNBoolean2bool true true.

Definition fieldContext___Field_deprecationReason (ctx : Ctx) (field : CollectedField) : gql E FC :=
  pure (NewScalarFieldContext "__Field" field true false (Sentinel "field of type String does not have child fields")).

Definition ___Field_deprecationReason (ctx : Ctx) (field : CollectedField) (obj : Field_) : gql E Marshaler :=
  ResolveField ctx field fieldContext___Field_deprecationReason
    (fun _ => Ret (Done (Ok (fdDeprecationReason obj)))) marshalOString2ptr_string true false.

Definition childFields___Field (ctx : Ctx) (field : CollectedField) : gql E FC :=
  switch (fName field)
    [("name", fieldContext___Field_name ctx field);
     ("description", fieldContext___Field_description ctx field);
     ("args", fieldContext___Field_args ctx field);
     ("type", fieldContext___Field_type ctx field);
     ("isDeprecated", fieldContext___Field_isDeprecated ctx field);
     ("deprecationReason", fieldContext___Field_deprecationReason ctx field)]
    (pure (Err (ErrNoField (fName field) "__Field"))).

Definition __FieldImplementors : list string := ["__Field"].

Definition ___Field (ctx : Ctx) (sel : SelectionSet) (obj : Field_) : gql E Marshaler :=
  object sel __FieldImplementors (fun field => switch (fName field)
    [("__typename", plain (MarshalString "__Field"));
     ("name", required (___Field_name ctx field obj));
     ("description", nullable (___Field_description ctx field obj));
     ("args", required (___Field_args ctx field obj));
     ("type", required (___Field_type ctx field obj));
     ("isDeprecated", required (___Field_isDeprecated ctx field obj));
     ("deprecationReason", nullable (___Field_deprecationReason ctx field obj))]
    (unknown_field (fName field))).

Definition marshalN__Field2 (ctx : Ctx) (sel : SelectionSet) (v : Field_) : gql E Marshaler := ___Field ctx sel v.

Definition marshalO__Field2slice (ctx : Ctx) (sel : SelectionSet) (v : option (list Field_)) : gql E Marshaler :=
  marshal_opt_slice marshalN__Field2 ctx sel v.

(** ** __Directive *)

Definition fieldContext___Directive_name (ctx : Ctx) (field : CollectedField) : gql E FC :=
  pure (NewScalarFieldContext "__Directive" field false false (Sentinel "field of type String does not have child fields")).

Definition ___Directive_name (ctx : Ctx) (field : CollectedField) (obj : Directive_) : gql E Marshaler :=
  ResolveField ctx field fieldContext___Directive_name
    (fun _ => Ret (Done (Ok (dName obj)))) marshalNString2string true true.

Definition fieldContext___Directive_description (ctx : Ctx) (field : CollectedField) : gql E FC :=
  pure (NewScalarFieldContext "__Directive" field true false (Sentinel "field of type String does not have child fields")).

Definition ___Directive_description (ctx : Ctx) (field : CollectedField) (obj : Directive_) : gql E Marshaler :=
  ResolveField ctx field fieldContext___Directive_description
    (fun _ => Ret (Done (Ok (dDescription obj)))) marshalOString2ptr_string true false.

Definition fieldContext___Directive_isRepeatable (ctx : Ctx) (field : CollectedField) : gql E FC :=
  pure (NewScalarFieldContext "__Directive" field false false (Sentinel "field of type Boolean does not have child fields")).

Definition ___Directive_isRepeatable (ctx : Ctx) (field : CollectedField) (obj : Directive_) : gql E Marshaler :=
  ResolveField ctx field fieldContext___Directive_isRepeatable
    (fun _ => Ret (Done (Ok (dIsRepeatable obj)))) marshalNBoolean2bool true true.

Definition fieldContext___Directive_locations (ctx : Ctx) (field : CollectedField) : gql E FC :=
  pure (NewScalarFieldContext "__Directive" field false false (Sentinel "field of type __DirectiveLocation does not have child fields")).

Definition ___Directive_locations (ctx : Ctx) (field : CollectedField) (obj : Directive_) : gql E Marshaler :=
  ResolveField ctx field fieldContext___Directive_locations
    (fun _ => Ret (Done (Ok (dLocations obj)))) marshalN__DirectiveLocation2slice true true.

Definition fieldContext___Directive_args (ctx : Ctx) (field : CollectedField) : gql E FC :=
  context_with_arguments ctx field (mkFieldContext "__Directive" (Some field) false false ∅ (Some (ChildFields "__InputValue")))
    field___Directive_args_args.

Definition ___Directive_args (ctx : Ctx) (field : CollectedField) (obj : Directive_) : gql E Marshaler :=
  ResolveField ctx field fieldContext___Directive_args
    (fun _ => Ret (Done (Ok (dArgs obj)))) marshalN__InputValue2slice true true.

Definition childFields___Directive (ctx : Ctx) (field : CollectedField) : gql E FC :=
  switch (fName field)
    [("name", fieldContext___Directive_name ctx field);
     ("description", fieldContext___Directive_description ctx field);
     ("isRepeatable", fieldContext___Directive_isRepeatable ctx field);
     ("locations", fieldContext___Directive_locations ctx field);
     ("args", fieldContext___Directive_args ctx field)]
    (pure (Err (ErrNoField (fName field) "__Directive"))).

Definition __DirectiveImplementors : list string := ["__Directive"].

Definition ___Directive (ctx : Ctx) (sel : SelectionSet) (obj : Directive_) : gql E Marshaler :=
  object sel __DirectiveImplementors (fun field => switch (fName field)
    [("__typename", plain (MarshalString "__Directive"));
     ("name", required (___Directive_name ctx field obj));
     ("description", nullable (___Directive_description ctx field obj));
     ("isRepeatable", required (___Directive_isRepeatable ctx field obj));
     ("locations", required (___Directive_locations ctx field obj));
     ("args", required (___Directive_args ctx field obj))]
    (unknown_field (fName field))).

Definition marshalN__Directive2 (ctx : Ctx) (sel : SelectionSet) (v : Directive_) : gql E Marshaler := ___Directive ctx sel v.

Definition marshalN__Directive2slice (ctx : Ctx) (sel : SelectionSet) (v : list Directive_) : gql E Marshaler :=
  marshal_slice marshalN__Directive2 ctx sel v.

(** ** __Schema *)

Definition fieldContext___Schema_description (ctx : Ctx) (field : CollectedField) : gql E FC :=
  pure (NewScalarFieldContext "__Schema" field true false (Sentinel "field of type String does not have child fields")).

Definition ___Schema_description (ctx : Ctx) (field : CollectedField) (obj : Schema_) : gql E Marshaler :=
  ResolveField ctx field fieldContext___Schema_description
    (fun _ => Ret (Done (Ok (sDescription obj)))) marshalOString2ptr_string true false.

Definition fieldContext___Schema_types (ctx : Ctx) (field : CollectedField) : gql E FC :=
  pure (Ok (mkFieldContext "__Schema" (Some field) true false ∅ (Some (ChildFields "__Type")))).

Definition ___Schema_types (ctx : Ctx) (field : CollectedField) (obj : Schema_) : gql E Marshaler :=
  ResolveField ctx field fieldContext___Schema_types
    (fun _ => Ret (Done (Ok (sTypes obj)))) marshalN__Type2slice true true.

Definition fieldContext___Schema_queryType (ctx : Ctx) (field : CollectedField) : gql E FC :=
  pure (Ok (mkFieldContext "__Schema" (Some field) true false ∅ (Some (ChildFields "__Type")))).

Definition ___Schema_queryType (ctx : Ctx) (field : CollectedField) (obj : Schema_) : gql E Marshaler :=
  ResolveField ctx field fieldContext___Schema_queryType
    (fun _ => Ret (Done (Ok (sQueryType obj)))) marshalN__Type2ptr true true.

Definition fieldContext___Schema_mutationType (ctx : Ctx) (field : CollectedField) : gql E FC :=
  pure (Ok (mkFieldContext "__Schema" (Some field) true false ∅ (Some (ChildFields "__Type")))).

Definition ___Schema_mutationType (ctx : Ctx) (field : CollectedField) (obj : Schema_) : gql E Marshaler :=
  ResolveField ctx field fieldContext___Schema_mutationType
    (fun _ => Ret (Done (Ok (sMutationType obj)))) marshalO__Type2ptr true false.

Definition fieldContext___Schema_subscriptionType (ctx : Ctx) (field : CollectedField) : gql E FC :=
  pure (Ok (mkFieldContext "__Schema" (Some field) true false ∅ (Some (ChildFields "__Type")))).

Definition ___Schema_subscriptionType (ctx : Ctx) (field : CollectedField) (obj : Schema_) : gql E Marshaler :=
  ResolveField ctx field fieldContext___Schema_subscriptionType
    (fun _ => Ret (Done (Ok (sSubscriptionType obj)))) marshalO__Type2ptr true false.

Definition fieldContext___Schema_directives (ctx : Ctx) (field : CollectedField) : gql E FC :=
  pure (Ok (mkFieldContext "__Schema" (Some field) true false ∅ (Some (ChildFields "__Directive")))).

Definition ___Schema_directives (ctx : Ctx) (field : CollectedField) (obj : Schema_) : gql E Marshaler :=
  ResolveField ctx field fieldContext___Schema_directives
    (fun _ => Ret (Done (Ok (sDirectives obj)))) marshalN__Directive2slice true true.

Definition childFields___Schema (ctx : Ctx) (field : CollectedField) : gql E FC :=
  switch (fName field)
    [("description", fieldContext___Schema_description ctx field);
     ("types", fieldContext___Schema_types ctx field);
     ("queryType", fieldContext___Schema_queryType ctx field);
     ("mutationType", fieldContext___Schema_mutationType ctx field);
     ("subscriptionType", fieldContext___Schema_subscriptionType ctx field);
     ("directives", fieldContext___Schema_directives ctx field)]
    (pure (Err (ErrNoField (fName field) "__Schema"))).

Definition __SchemaImplementors : list string := ["__Schema"].

Definition ___Schema (ctx : Ctx) (sel : SelectionSet) (obj : Schema_) : gql E Marshaler :=
  object sel __SchemaImplementors (fun field => switch (fName field)
    [("__typename", plain (MarshalString "__Schema"));
     ("description", nullable (___Schema_description ctx field obj));
     ("types", required (___Schema_types ctx field obj));
     ("queryType", required (___Schema_queryType ctx field obj));
     ("mutationType", nullable (___Schema_mutationType ctx field obj));
     ("subscriptionType", nullable (___Schema_subscriptionType ctx field obj));
     ("directives", required (___Schema_directives ctx field obj))]
    (unknown_field (fName field))).

(** ** __Type *)

Definition fieldContext___Type_kind (ctx : Ctx) (field : CollectedField) : gql E FC :=
  pure (NewScalarFieldContext "__Type" field true false (Sentinel "field of type __TypeKind does not have child fields")).

Definition ___Type_kind (ctx : Ctx) (field : CollectedField) (obj : Type_) : gql E Marshaler :=
  ResolveField ctx field fieldContext___Type_kind
    (fun _ => Ret (Done (Ok (tKind obj)))) marshalN__TypeKind2string true true.

Definition fieldContext___Type_name (ctx : Ctx) (field : CollectedField) : gql E FC :=
  pure (NewScalarFieldContext "__Type" field true false (Sentinel "field of type String does not have child fields")).

Definition ___Type_name (ctx : Ctx) (field : CollectedField) (obj : Type_) : gql E Marshaler :=
  ResolveField ctx field fieldContext___Type_name
    (fun _ => Ret (Done (Ok (tName obj)))) marshalOString2ptr_string true false.

Definition fieldContext___Type_description (ctx : Ctx) (field : CollectedField) : gql E FC :=
  pure (NewScalarFieldContext "__Type" field true false (Sentinel "field of type String does not have child fields")).

Definition ___Type_description (ctx : Ctx) (field : CollectedField) (obj : Type_) : gql E Marshaler :=
  ResolveField ctx field fieldContext___Type_description
    (fun _ => Ret (Done (Ok (tDescription obj)))) marshalOString2ptr_string true false.

Definition fieldContext___Type_specifiedByURL (ctx : Ctx) (field : CollectedField) : gql E FC :=
  pure (NewScalarFieldContext "__Type" field true false (Sentinel "field of type String does not have child fields")).

Definition ___Type_specifiedByURL (ctx : Ctx) (field : CollectedField) (obj : Type_) : gql E Marshaler :=
  ResolveField ctx field fieldContext___Type_specifiedByURL
    (fun _ => Ret (Done (Ok (tSpecifiedByURL obj)))) marshalOString2ptr_string true false.

Definition fieldContext___Type_fields (ctx : Ctx) (field : CollectedField) : gql E FC :=
  context_with_arguments ctx field (mkFieldContext "__Type" (Some field) true false ∅ (Some (ChildFields "__Field")))
    field___Type_fields_args.

Definition ___Type_fields (ctx : Ctx) (field : CollectedField) (obj : Type_) : gql E Marshaler :=
  ResolveField ctx field fieldContext___Type_fields
    (fun ctx => with_arg (arg_of arg_bool ctx "includeDeprecated") (fun b => Ret (Done (Ok (tFields obj b))))) marshalO__Field2slice true false.

Definition fieldContext___Type_interfaces (ctx : Ctx) (field : CollectedField) : gql E FC :=
  pure (Ok (mkFieldContext "__Type" (Some field) true false ∅ (Some (ChildFields "__Type")))).

Definition ___Type_interfaces (ctx : Ctx) (field : CollectedField) (obj : Type_) : gql E Marshaler :=
  ResolveField ctx field fieldContext___Type_interfaces
    (fun _ => Ret (Done (Ok (tInterfaces obj)))) marshalO__Type2slice true false.

Definition fieldContext___Type_possibleTypes (ctx : Ctx) (field : CollectedField) : gql E FC :=
  pure (Ok (mkFieldContext "__Type" (Some field) true false ∅ (Some (ChildFields "__Type")))).

Definition ___Type_possibleTypes (ctx : Ctx) (field : CollectedField) (obj : Type_) : gql E Marshaler :=
  ResolveField ctx field fieldContext___Type_possibleTypes
    (fun _ => Ret (Done (Ok (tPossibleTypes obj)))) marshalO__Type2slice true false.

Definition fieldContext___Type_enumValues (ctx : Ctx) (field : CollectedField) : gql E FC :=
  context_with_arguments ctx field (mkFieldContext "__Type" (Some field) true false ∅ (Some (ChildFields "__EnumValue")))
    field___Type_enumValues_args.

Definition ___Type_enumValues (ctx : Ctx) (field : CollectedField) (obj : Type_) : gql E Marshaler :=
  ResolveField ctx field fieldContext___Type_enumValues
    (fun ctx => with_arg (arg_of arg_bool ctx "includeDeprecated") (fun b => Ret (Done (Ok (tEnumValues obj b))))) marshalO__EnumValue2slice true false.

Definition fieldContext___Type_inputFields (ctx : Ctx) (field : CollectedField) : gql E FC :=
  pure (Ok (mkFieldContext "__Type" (Some field) true false ∅ (Some (ChildFields "__InputValue")))).

Definition ___Type_inputFields (ctx : Ctx) (field : CollectedField) (obj : Type_) : gql E Marshaler :=
  ResolveField ctx field fieldContext___Type_inputFields
    (fun _ => Ret (Done (Ok (tInputFields obj)))) marshalO__InputValue2slice true false.

Definition fieldContext___Type_ofType (ctx : Ctx) (field : CollectedField) : gql E FC :=
  pure (Ok (mkFieldContext "__Type" (Some field) true false ∅ (Some (ChildFields "__Type")))).

Definition ___Type_ofType (ctx : Ctx) (field : CollectedField) (obj : Type_) : gql E Marshaler :=
  ResolveField ctx field fieldContext___Type_ofType
    (fun _ => Ret (Done (Ok (tOfType obj)))) marshalO__Type2ptr true false.

Definition fieldContext___Type_isOneOf (ctx : Ctx) (field : CollectedField) : gql E FC :=
  pure (NewScalarFieldContext "__Type" field true false (Sentinel "field of type Boolean does not have child fields")).

Definition ___Type_isOneOf (ctx : Ctx) (field : CollectedField) (obj : Type_) : gql E Marshaler :=
  ResolveField ctx field fieldContext___Type_isOneOf
    (fun _ => Ret (Done (Ok (tIsOneOf obj)))) marshalOBoolean2bool true false.

Definition childFields___Type (ctx : Ctx) (field : CollectedField) : gql E FC :=
  switch (fName field)
    [("kind", fieldContext___Type_kind ctx field);
     ("name", fieldContext___Type_name ctx field);
     ("description", fieldContext___Type_description ctx field);
     ("specifiedByURL", fieldContext___Type_specifiedByURL ctx field);
     ("fields", fieldContext___Type_fields ctx field);
     ("interfaces", fieldContext___Type_interfaces ctx field);
     ("possibleTypes", fieldContext___Type_possibleTypes ctx field);
     ("enumValues", fieldContext___Type_enumValues ctx field);
     ("inputFields", fieldContext___Type_inputFields ctx field);
     ("ofType", fieldContext___Type_ofType ctx field);
     ("isOneOf", fieldContext___Type_isOneOf ctx field)]
    (pure (Err (ErrNoField (fName field) "__Type"))).

Definition __TypeImplementors : list string := ["__Type"].

(** One level of [___Type]. *)
Definition ___Type_once (ctx : Ctx) (sel : SelectionSet) (obj : Type_) : gql E Marshaler :=
  object sel __TypeImplementors (fun field => switch (fName field)
    [("__typename", plain (MarshalString "__Type"));
     ("kind", required (___Type_kind ctx field obj));
     ("name", nullable (___Type_name ctx field obj));
     ("description", nullable (___Type_description ctx field obj));
     ("specifiedByURL", nullable (___Type_specifiedByURL ctx field obj));
     ("fields", nullable (___Type_fields ctx field obj));
     ("interfaces", nullable (___Type_interfaces ctx field obj));
     ("possibleTypes", nullable (___Type_possibleTypes ctx field obj));
     ("enumValues", nullable (___Type_enumValues ctx field obj));
     ("inputFields", nullable (___Type_inputFields ctx field obj));
     ("ofType", nullable (___Type_ofType ctx field obj));
     ("isOneOf", nullable (___Type_isOneOf ctx field obj))]
    (unknown_field (fName field))).


Definition marshalO__Schema2ptr (ctx : Ctx) (sel : SelectionSet) (v : option Schema_) : gql E Marshaler :=
  marshal_opt_ptr ___Schema ctx sel v.
End Once.

Fixpoint ___Type_at (n : nat) (ctx : Ctx) (sel : SelectionSet) (obj : Type_) : gql E Marshaler :=
  match n with
  | O => panic "selection set too deep"
  | S n => ___Type_once (___Type_at n) ctx sel obj
  end.

Definition ___Type (ctx : Ctx) (sel : SelectionSet) (obj : Type_) : gql E Marshaler :=
  ___Type_at (S (depth sel)) ctx sel obj.
End Intro.
