(* ===== verification/GraphQuery.v ===== *)
(** admin-api/internal/graph/generated.go: queries.

    [_Query] gives every selected field a goroutine; here each field is a program
    of its own ([query_threads]), which the scheduler of [Prog] may interleave in
    any way, and [query_join] is what [Dispatch] waits for.  [_Query] itself runs
    them one after the other.  A field's errors carry its path and it looks for no
    others, so every program starts from no errors. *)

From S2P Require Import Prelude Errors Prog Json Float Gqlgen GraphLeaf Graph GraphObjects GraphIntro.
#[local] Open Scope Z_scope.
#[local] Open Scope gql_scope.

(** What the resolvers answer: pointers may be nil, and a resolver may panic. *)
Record QueryResolver (E : interface) := mkQueryResolver {
  qMe : prog E (outcome (res (option AdminUser)));
  qModels : prog E (outcome (res (list (option ModelSummary))));
  qModelDraft : string -> prog E (outcome (res (option ModelManifest)));
  qModelVersion : string -> option string -> prog E (outcome (res (option ModelManifest)));
  qRollout : string -> prog E (outcome (res (option RolloutRow)));
  qRolloutByModel : string -> prog E (outcome (res (option RolloutRow)));
  qRollouts : prog E (outcome (res (list (option RolloutRow))));
  qAPIKeys : prog E (outcome (res (list (option APIKeySummary))));
  qDashboardMetrics : prog E (outcome (res (option DashboardMetrics)));
  qAuditLog : option Z -> option string -> option string -> prog E (outcome (res (list (option AuditEntry))));
  qProviderHealth : prog E (outcome (res (list (option ProviderHealthRow)))) }.
Arguments mkQueryResolver {E}. Arguments qMe {E}. Arguments qModels {E}. Arguments qModelDraft {E}.
Arguments qModelVersion {E}. Arguments qRollout {E}. Arguments qRolloutByModel {E}. Arguments qRollouts {E}.
Arguments qAPIKeys {E}. Arguments qDashboardMetrics {E}. Arguments qAuditLog {E}. Arguments qProviderHealth {E}.

(** An operation of a parsed document. *)
Inductive OperationKind := OpQuery | OpMutation | OpSubscription.
Record OperationDefinition (S : Type) := mkOperation { Operation : OperationKind; OpSelectionSet : S }.
Arguments mkOperation {S}. Arguments Operation {S}. Arguments OpSelectionSet {S}.

Section Query.
Context `{G : Gqlgen} `{I : Introspection} {E : interface} (Resolvers : QueryResolver E).
Abbreviation gql := (gql_ gqlError).
Abbreviation FC := (res (FieldContext CollectedField)).

(** A graphql.Response: what was written, if anything, and its own errors. *)
Record Response := mkResponse { Data : option json; ResponseErrors : list gqlError }.

Definition fieldContext_Query_me (ctx : Ctx) (field : CollectedField) : gql E FC :=
  pure (Ok (mkFieldContext "Query" (Some field) true true ∅ (Some (ChildFields "AdminUser")))).

Definition _Query_me (ctx : Ctx) (field : CollectedField) : gql E Marshaler :=
  ResolveField ctx field fieldContext_Query_me
    (fun _ => qMe Resolvers)
    marshalNAdminUser2ptr true true.

Definition fieldContext_Query_models (ctx : Ctx) (field : CollectedField) : gql E FC :=
  pure (Ok (mkFieldContext "Query" (Some field) true true ∅ (Some (ChildFields "ModelSummary")))).

Definition _Query_models (ctx : Ctx) (field : CollectedField) : gql E Marshaler :=
  ResolveField ctx field fieldContext_Query_models
    (fun _ => qModels Resolvers)
    marshalNModelSummary2slice true true.

Definition fieldContext_Query_modelDraft (ctx : Ctx) (field : CollectedField) : gql E FC :=
  context_with_arguments ctx field (mkFieldContext "Query" (Some field) true true ∅ (Some (ChildFields "ModelManifest")))
    field_Query_modelDraft_args.

Definition _Query_modelDraft (ctx : Ctx) (field : CollectedField) : gql E Marshaler :=
  ResolveField ctx field fieldContext_Query_modelDraft
    (fun ctx => with_arg (arg_of arg_string ctx "modelRef") (fun a0 => qModelDraft Resolvers a0))
    marshalNModelManifest2ptr true true.

Definition fieldContext_Query_modelVersion (ctx : Ctx) (field : CollectedField) : gql E FC :=
  context_with_arguments ctx field (mkFieldContext "Query" (Some field) true true ∅ (Some (ChildFields "ModelManifest")))
    field_Query_modelVersion_args.

Definition _Query_modelVersion (ctx : Ctx) (field : CollectedField) : gql E Marshaler :=
  ResolveField ctx field fieldContext_Query_modelVersion
    (fun ctx => with_arg (arg_of arg_string ctx "modelRef") (fun a0 => with_arg (arg_of arg_string_ptr ctx "versionId") (fun a1 => qModelVersion Resolvers a0 a1)))
    marshalNModelManifest2ptr true true.

Definition fieldContext_Query_rollout (ctx : Ctx) (field : CollectedField) : gql E FC :=
  context_with_arguments ctx field (mkFieldContext "Query" (Some field) true true ∅ (Some (ChildFields "Rollout")))
    field_Query_rollout_args.

Definition _Query_rollout (ctx : Ctx) (field : CollectedField) : gql E Marshaler :=
  ResolveField ctx field fieldContext_Query_rollout
    (fun ctx => with_arg (arg_of arg_string ctx "rolloutId") (fun a0 => qRollout Resolvers a0))
    marshalORollout2ptr true false.

Definition fieldContext_Query_rolloutByModel (ctx : Ctx) (field : CollectedField) : gql E FC :=
  context_with_arguments ctx field (mkFieldContext "Query" (Some field) true true ∅ (Some (ChildFields "Rollout")))
    field_Query_rolloutByModel_args.

Definition _Query_rolloutByModel (ctx : Ctx) (field : CollectedField) : gql E Marshaler :=
  ResolveField ctx field fieldContext_Query_rolloutByModel
    (fun ctx => with_arg (arg_of arg_string ctx "modelRef") (fun a0 => qRolloutByModel Resolvers a0))
    marshalORollout2ptr true false.

Definition fieldContext_Query_rollouts (ctx : Ctx) (field : CollectedField) : gql E FC :=
  pure (Ok (mkFieldContext "Query" (Some field) true true ∅ (Some (ChildFields "Rollout")))).

Definition _Query_rollouts (ctx : Ctx) (field : CollectedField) : gql E Marshaler :=
  ResolveField ctx field fieldContext_Query_rollouts
    (fun _ => qRollouts Resolvers)
    marshalNRollout2slice true true.

Definition fieldContext_Query_apiKeys (ctx : Ctx) (field : CollectedField) : gql E FC :=
  pure (Ok (mkFieldContext "Query" (Some field) true true ∅ (Some (ChildFields "ApiKeySummary")))).

Definition _Query_apiKeys (ctx : Ctx) (field : CollectedField) : gql E Marshaler :=
  ResolveField ctx field fieldContext_Query_apiKeys
    (fun _ => qAPIKeys Resolvers)
    marshalNApiKeySummary2slice true true.

Definition fieldContext_Query_dashboardMetrics (ctx : Ctx) (field : CollectedField) : gql E FC :=
  pure (Ok (mkFieldContext "Query" (Some field) true true ∅ (Some (ChildFields "DashboardMetrics")))).

Definition _Query_dashboardMetrics (ctx : Ctx) (field : CollectedField) : gql E Marshaler :=
  ResolveField ctx field fieldContext_Query_dashboardMetrics
    (fun _ => qDashboardMetrics Resolvers)
    marshalNDashboardMetrics2ptr true true.

Definition fieldContext_Query_auditLog (ctx : Ctx) (field : CollectedField) : gql E FC :=
  context_with_arguments ctx field (mkFieldContext "Query" (Some field) true true ∅ (Some (ChildFields "AuditEntry")))
    field_Query_auditLog_args.

Definition _Query_auditLog (ctx : Ctx) (field : CollectedField) : gql E Marshaler :=
  ResolveField ctx field fieldContext_Query_auditLog
    (fun ctx => with_arg (arg_of arg_int_ptr ctx "limit") (fun a0 => with_arg (arg_of arg_string_ptr ctx "actor") (fun a1 => with_arg (arg_of arg_string_ptr ctx "action") (fun a2 => qAuditLog Resolvers a0 a1 a2))))
    marshalNAuditEntry2slice true true.

Definition fieldContext_Query_providerHealth (ctx : Ctx) (field : CollectedField) : gql E FC :=
  pure (Ok (mkFieldContext "Query" (Some field) true true ∅ (Some (ChildFields "ProviderHealth")))).

Definition _Query_providerHealth (ctx : Ctx) (field : CollectedField) : gql E Marshaler :=
  ResolveField ctx field fieldContext_Query_providerHealth
    (fun _ => qProviderHealth Resolvers)
    marshalNProviderHealth2slice true true.

Definition fieldContext_Query___type (ctx : Ctx) (field : CollectedField) : gql E FC :=
  context_with_arguments ctx field (mkFieldContext "Query" (Some field) true false ∅ (Some (ChildFields "__Type")))
    field_Query___type_args.

Definition _Query___type (ctx : Ctx) (field : CollectedField) : gql E Marshaler :=
  ResolveField ctx field fieldContext_Query___type
    (fun ctx => with_arg (arg_of arg_string ctx "name") (fun a0 => Ret (Done (IntrospectType a0))))
    (marshalO__Type2ptr ___Type) true false.

Definition fieldContext_Query___schema (ctx : Ctx) (field : CollectedField) : gql E FC :=
  pure (Ok (mkFieldContext "Query" (Some field) true false ∅ (Some (ChildFields "__Schema")))).

Definition _Query___schema (ctx : Ctx) (field : CollectedField) : gql E Marshaler :=
  ResolveField ctx field fieldContext_Query___schema
    (fun _ => Ret (Done IntrospectSchema))
    (marshalO__Schema2ptr ___Type) true false.

Definition queryImplementors : list string := ["Query"].

(** [innerFunc] and [rrm]: the field under the root middleware, a panic outside
    the resolver leaving a nil marshaler. *)
Definition root_field (innerCtx : Ctx) (invalid : Marshaler -> bool) (m : Ctx -> gql E Marshaler) : slot E :=
  RootResolverMiddleware innerCtx (fun ctx =>
    recovering (w <~ m ctx ;; pure (w, if invalid w then 1%nat else 0%nat))
               (fun p => _ <~ AddError ctx (Recover p) ;; pure (nil_marshaler, 0%nat))).

(** The introspection fields, resolved in place. *)
Definition intro_field (innerCtx : Ctx) (m : Ctx -> gql E Marshaler) : slot E :=
  w <~ RootResolverMiddleware innerCtx m ;;
  pure (w, if is_RequiredNull w then 1%nat else 0%nat).

(** One selected field of the query; [None] is the panic of the [default] case. *)
Definition query_field (ctx : Ctx) (field : CollectedField) : option (slot E) :=
  let innerCtx := WithRootFieldContext ctx field in
  switch (fName field)
    [("__typename", Some (plain (MarshalString "Query")));
     ("me", Some (root_field innerCtx is_Null (fun ctx => _Query_me ctx field)));
     ("models", Some (root_field innerCtx is_Null (fun ctx => _Query_models ctx field)));
     ("modelDraft", Some (root_field innerCtx is_Null (fun ctx => _Query_modelDraft ctx field)));
     ("modelVersion", Some (root_field innerCtx is_Null (fun ctx => _Query_modelVersion ctx field)));
     ("rollout", Some (root_field innerCtx is_RequiredNull (fun ctx => _Query_rollout ctx field)));
     ("rolloutByModel", Some (root_field innerCtx is_RequiredNull (fun ctx => _Query_rolloutByModel ctx field)));
     ("rollouts", Some (root_field innerCtx is_Null (fun ctx => _Query_rollouts ctx field)));
     ("apiKeys", Some (root_field innerCtx is_Null (fun ctx => _Query_apiKeys ctx field)));
     ("dashboardMetrics", Some (root_field innerCtx is_Null (fun ctx => _Query_dashboardMetrics ctx field)));
     ("auditLog", Some (root_field innerCtx is_Null (fun ctx => _Query_auditLog ctx field)));
     ("providerHealth", Some (root_field innerCtx is_Null (fun ctx => _Query_providerHealth ctx field)));
     ("__type", Some (intro_field innerCtx (fun ctx => _Query___type ctx field)));
     ("__schema", Some (intro_field innerCtx (fun ctx => _Query___schema ctx field)))]
    None.

Definition query_context (ctx : Ctx) : Ctx :=
  WithFieldContext ctx (mkFieldContext "Query" None false false ∅ None).

Definition result : Type := outcome (Marshaler * nat) * list gqlError.

(** The loop over the fields: an unknown field panics before any resolver ran. *)
Definition query_threads (ctx : Ctx) (sel : SelectionSet) : outcome (list (prog E result)) :=
  match mapM (query_field (query_context ctx)) (CollectFields sel queryImplementors) with
  | None => Panics "unknown field"
  | Some slots => Done (map (fun s => s []) slots)
  end.

Definition done_results (rs : list result) : option (list (Marshaler * nat)) :=
  mapM (fun r => match r.1 with Done x => Some x | Panics _ => None end) rs.

(** After [Dispatch]: the object, unless a field that must not be null is. *)
Definition query_join (sel : SelectionSet) (rs : list result) : outcome Marshaler * list gqlError :=
  (match done_results rs with
   | Some ws => Done (finish (CollectFields sel queryImplementors) ws)
   | None => Panics "panic in a field"
   end, concat (map snd rs)).

Fixpoint in_order {A} (ts : list (prog E A)) : prog E (list A) :=
  match ts with
  | [] => Ret []
  | t :: ts => bind t (fun a => bind (in_order ts) (fun l => Ret (a :: l)))
  end.

Definition _Query (ctx : Ctx) (sel : SelectionSet) : gql E Marshaler := fun errs =>
  match query_threads ctx sel with
  | Panics w => Ret (Panics w, errs)
  | Done ts => bind (in_order ts) (fun rs => let '(o, es) := query_join sel rs in Ret (o, errs ++ es))
  end.

(** [Exec]'s response handler: the first call answers the query, and with nothing
    deferred the next one ends the sequence. *)
Definition Exec (op : OperationDefinition SelectionSet) (ctx : Ctx) (first : bool) : gql E (option Response) :=
  match Operation op with
  | OpQuery =>
      if first then
        data <~ _Query ctx (OpSelectionSet op) ;;
        pure (Some (mkResponse (Some (MarshalGQL data)) []))
      else pure None
  | _ =>
      if first then pure (Some (mkResponse None [present ctx (Errorf "unsupported GraphQL operation" [])]))
      else pure None
  end.
End Query.

(** ** Child contexts *)

Section Children.
Context `{G : Gqlgen} `{I : Introspection} {E : interface}.

(** [fc.Child(ctx, field)]. *)
Definition child_context (c : childLookup) (ctx : Ctx) (field : CollectedField) : gql_ gqlError E (res (FieldContext CollectedField)) :=
  match c with
  | NoChildren e => pure (Err e)
  | ChildFields t => switch t
    [("AdminUser", childFields_AdminUser ctx field);
     ("ApiKeySummary", childFields_ApiKeySummary ctx field);
     ("AuditEntry", childFields_AuditEntry ctx field);
     ("DashboardMetrics", childFields_DashboardMetrics ctx field);
     ("ModelManifest", childFields_ModelManifest ctx field);
     ("ModelSummary", childFields_ModelSummary ctx field);
     ("ProviderHealth", childFields_ProviderHealth ctx field);
     ("Rollout", childFields_Rollout ctx field);
     ("__Directive", childFields___Directive ctx field);
     ("__EnumValue", childFields___EnumValue ctx field);
     ("__Field", childFields___Field ctx field);
     ("__InputValue", childFields___InputValue ctx field);
     ("__Schema", childFields___Schema ctx field);
     ("__Type", childFields___Type ctx field)]
    (panic "no such type")
  end.
End Children.

(** ** The resolvers of the panel *)

Definition answered {E A B} (f : A -> B) (p : prog E (res A)) : prog E (outcome (res B)) :=
  bind p (fun r => Ret (Done (match r with Ok a => Ok (f a) | Err e => Err e end))).

(** [graph.Resolver] as a [QueryResolver], for a caller's identity.  No resolver
    answers a nil element. *)
Definition panel_resolvers (id : option Authn.Identity) : QueryResolver QueryE := mkQueryResolver
  (answered Some (Ret (Me id)))
  (answered (map Some) Models)
  (fun m => answered Some (ModelDraft m))
  (fun m v => answered Some (ModelVersion m v))
  (fun r => answered (fun r => r) (RolloutQuery r))
  (fun m => answered (fun r => r) (RolloutByModel m))
  (answered (map Some) Rollouts)
  (answered (map Some) APIKeys)
  (answered Some Dashboard)
  (fun l a n => answered (map Some) (AuditLogQuery l a n))
  (answered (map Some) ProviderHealthQuery).
