(* ===== verification/GraphComplexity.v ===== *)
(** admin-api/internal/graph/generated.go: the complexity table.

    [Complexity] looks a field up in [ComplexityRoot], a table of optional cost
    functions that main() leaves empty. *)

From S2P Require Import Prelude Errors Prog Json Float Gqlgen GraphLeaf.
#[local] Open Scope Z_scope.

(** The cost functions of each type; [None] is a nil function. *)
Record ComplexityAdminUser := mkComplexityAdminUser {
  cxAU_ID : option (Z -> Z);
  cxAU_OrgID : option (Z -> Z);
  cxAU_Role : option (Z -> Z) }.
Record ComplexityApiKeySummary := mkComplexityApiKeySummary {
  cxAKS_CreatedAt : option (Z -> Z);
  cxAKS_KeyID : option (Z -> Z);
  cxAKS_OrgID : option (Z -> Z);
  cxAKS_RevokedAt : option (Z -> Z);
  cxAKS_Scopes : option (Z -> Z) }.
Record ComplexityAuditEntry := mkComplexityAuditEntry {
  cxAE_Action : option (Z -> Z);
  cxAE_Actor : option (Z -> Z);
  cxAE_AfterJSON : option (Z -> Z);
  cxAE_AuditID : option (Z -> Z);
  cxAE_BeforeJSON : option (Z -> Z);
  cxAE_Target : option (Z -> Z);
  cxAE_Ts : option (Z -> Z) }.
Record ComplexityDashboardMetrics := mkComplexityDashboardMetrics {
  cxDM_ActiveModelsCount : option (Z -> Z);
  cxDM_ActiveRolloutsCount : option (Z -> Z);
  cxDM_ErrorRate : option (Z -> Z);
  cxDM_P95LatencyMs : option (Z -> Z);
  cxDM_RequestsPerSecond : option (Z -> Z) }.
Record ComplexityModelManifest := mkComplexityModelManifest {
  cxMM_CreatedAt : option (Z -> Z);
  cxMM_CreatedBy : option (Z -> Z);
  cxMM_ModelRef : option (Z -> Z);
  cxMM_Signature : option (Z -> Z);
  cxMM_SpecJSON : option (Z -> Z);
  cxMM_Status : option (Z -> Z);
  cxMM_VersionID : option (Z -> Z) }.
Record ComplexityModelSummary := mkComplexityModelSummary {
  cxMS_ActiveVersionID : option (Z -> Z);
  cxMS_ModelRef : option (Z -> Z) }.
Record ComplexityProviderHealth := mkComplexityProviderHealth {
  cxPH_BreakerState : option (Z -> Z);
  cxPH_Healthy : option (Z -> Z);
  cxPH_Provider : option (Z -> Z);
  cxPH_QuotaHeadroom : option (Z -> Z) }.
Record ComplexityQuery := mkComplexityQuery {
  cxQ_APIKeys : option (Z -> Z);
  cxQ_AuditLog : option (Z -> option Z -> option string -> option string -> Z);
  cxQ_DashboardMetrics : option (Z -> Z);
  cxQ_Me : option (Z -> Z);
  cxQ_ModelDraft : option (Z -> string -> Z);
  cxQ_ModelVersion : option (Z -> string -> option string -> Z);
  cxQ_Models : option (Z -> Z);
  cxQ_ProviderHealth : option (Z -> Z);
  cxQ_Rollout : option (Z -> string -> Z);
  cxQ_RolloutByModel : option (Z -> string -> Z);
  cxQ_Rollouts : option (Z -> Z) }.
Record ComplexityRollout := mkComplexityRollout {
  cxR_CanaryPercent : option (Z -> Z);
  cxR_EndedAt : option (Z -> Z);
  cxR_ModelRef : option (Z -> Z);
  cxR_RolloutID : option (Z -> Z);
  cxR_Stage : option (Z -> Z);
  cxR_StartedAt : option (Z -> Z);
  cxR_Status : option (Z -> Z);
  cxR_StrategyJSON : option (Z -> Z);
  cxR_VersionID : option (Z -> Z) }.

Record ComplexityRoot := mkComplexityRoot {
  crAdminUser : ComplexityAdminUser;
  crApiKeySummary : ComplexityApiKeySummary;
  crAuditEntry : ComplexityAuditEntry;
  crDashboardMetrics : ComplexityDashboardMetrics;
  crModelManifest : ComplexityModelManifest;
  crModelSummary : ComplexityModelSummary;
  crProviderHealth : ComplexityProviderHealth;
  crQuery : ComplexityQuery;
  crRollout : ComplexityRollout }.

Section Complexity.
Context `{G : Gqlgen} (root : ComplexityRoot) (ctx : Ctx) (childComplexity : Z) (rawArgs : gmap string (option Any)).

(** [if root.T.F == nil { break }; return root.T.F(childComplexity), true]. *)
Definition cost (f : option (Z -> Z)) : outcome (Z * bool) :=
  match f with None => Done (0, false) | Some f => Done (f childComplexity, true) end.

(** The same with arguments, which are decoded only if there is a function. *)
Definition cost_with {F} (f : option F) (decode : Ctx -> gmap string (option Any) -> res (gmap string argument))
    (apply : F -> gmap string argument -> outcome Z) : outcome (Z * bool) :=
  match f with
  | None => Done (0, false)
  | Some f =>
      match decode ctx rawArgs with
      | Err _ => Done (0, false)
      | Ok args => match apply f args with Done z => Done (z, true) | Panics w => Panics w end
      end
  end.

Definition then_arg {T} (o : outcome T) (k : T -> outcome Z) : outcome Z :=
  match o with Done x => k x | Panics w => Panics w end.

Definition complexity_AdminUser : list (string * outcome (Z * bool)) :=
  [ ("AdminUser.id", cost (cxAU_ID (crAdminUser root)));
    ("AdminUser.orgId", cost (cxAU_OrgID (crAdminUser root)));
    ("AdminUser.role", cost (cxAU_Role (crAdminUser root))) ].

Definition complexity_ApiKeySummary : list (string * outcome (Z * bool)) :=
  [ ("ApiKeySummary.createdAt", cost (cxAKS_CreatedAt (crApiKeySummary root)));
    ("ApiKeySummary.keyId", cost (cxAKS_KeyID (crApiKeySummary root)));
    ("ApiKeySummary.orgId", cost (cxAKS_OrgID (crApiKeySummary root)));
    ("ApiKeySummary.revokedAt", cost (cxAKS_RevokedAt (crApiKeySummary root)));
    ("ApiKeySummary.scopes", cost (cxAKS_Scopes (crApiKeySummary root))) ].

Definition complexity_AuditEntry : list (string * outcome (Z * bool)) :=
  [ ("AuditEntry.action", cost (cxAE_Action (crAuditEntry root)));
    ("AuditEntry.actor", cost (cxAE_Actor (crAuditEntry root)));
    ("AuditEntry.afterJson", cost (cxAE_AfterJSON (crAuditEntry root)));
    ("AuditEntry.auditId", cost (cxAE_AuditID (crAuditEntry root)));
    ("AuditEntry.beforeJson", cost (cxAE_BeforeJSON (crAuditEntry root)));
    ("AuditEntry.target", cost (cxAE_Target (crAuditEntry root)));
    ("AuditEntry.ts", cost (cxAE_Ts (crAuditEntry root))) ].

Definition complexity_DashboardMetrics : list (string * outcome (Z * bool)) :=
  [ ("DashboardMetrics.activeModelsCount", cost (cxDM_ActiveModelsCount (crDashboardMetrics root)));
    ("DashboardMetrics.activeRolloutsCount", cost (cxDM_ActiveRolloutsCount (crDashboardMetrics root)));
    ("DashboardMetrics.errorRate", cost (cxDM_ErrorRate (crDashboardMetrics root)));
    ("DashboardMetrics.p95LatencyMs", cost (cxDM_P95LatencyMs (crDashboardMetrics root)));
    ("DashboardMetrics.requestsPerSecond", cost (cxDM_RequestsPerSecond (crDashboardMetrics root))) ].

Definition complexity_ModelManifest : list (string * outcome (Z * bool)) :=
  [ ("ModelManifest.createdAt", cost (cxMM_CreatedAt (crModelManifest root)));
    ("ModelManifest.createdBy", cost (cxMM_CreatedBy (crModelManifest root)));
    ("ModelManifest.modelRef", cost (cxMM_ModelRef (crModelManifest root)));
    ("ModelManifest.signature", cost (cxMM_Signature (crModelManifest root)));
    ("ModelManifest.specJson", cost (cxMM_SpecJSON (crModelManifest root)));
    ("ModelManifest.status", cost (cxMM_Status (crModelManifest root)));
    ("ModelManifest.versionId", cost (cxMM_VersionID (crModelManifest root))) ].

Definition complexity_ModelSummary : list (string * outcome (Z * bool)) :=
  [ ("ModelSummary.activeVersionId", cost (cxMS_ActiveVersionID (crModelSummary root)));
    ("ModelSummary.modelRef", cost (cxMS_ModelRef (crModelSummary root))) ].

Definition complexity_ProviderHealth : list (string * outcome (Z * bool)) :=
  [ ("ProviderHealth.breakerState", cost (cxPH_BreakerState (crProviderHealth root)));
    ("ProviderHealth.healthy", cost (cxPH_Healthy (crProviderHealth root)));
    ("ProviderHealth.provider", cost (cxPH_Provider (crProviderHealth root)));
    ("ProviderHealth.quotaHeadroom", cost (cxPH_QuotaHeadroom (crProviderHealth root))) ].

Definition complexity_Query : list (string * outcome (Z * bool)) :=
  [ ("Query.apiKeys", cost (cxQ_APIKeys (crQuery root)));
    ("Query.auditLog", cost_with (cxQ_AuditLog (crQuery root)) field_Query_auditLog_args
        (fun f args => then_arg (assert_arg arg_int_ptr "limit" args) (fun a0 => then_arg (assert_arg arg_string_ptr "actor" args) (fun a1 => then_arg (assert_arg arg_string_ptr "action" args) (fun a2 => Done (f childComplexity a0 a1 a2))))));
    ("Query.dashboardMetrics", cost (cxQ_DashboardMetrics (crQuery root)));
    ("Query.me", cost (cxQ_Me (crQuery root)));
    ("Query.modelDraft", cost_with (cxQ_ModelDraft (crQuery root)) field_Query_modelDraft_args
        (fun f args => then_arg (assert_arg arg_string "modelRef" args) (fun a0 => Done (f childComplexity a0))));
    ("Query.modelVersion", cost_with (cxQ_ModelVersion (crQuery root)) field_Query_modelVersion_args
        (fun f args => then_arg (assert_arg arg_string "modelRef" args) (fun a0 => then_arg (assert_arg arg_string_ptr "versionId" args) (fun a1 => Done (f childComplexity a0 a1)))));
    ("Query.models", cost (cxQ_Models (crQuery root)));
    ("Query.providerHealth", cost (cxQ_ProviderHealth (crQuery root)));
    ("Query.rollout", cost_with (cxQ_Rollout (crQuery root)) field_Query_rollout_args
        (fun f args => then_arg (assert_arg arg_string "rolloutId" args) (fun a0 => Done (f childComplexity a0))));
    ("Query.rolloutByModel", cost_with (cxQ_RolloutByModel (crQuery root)) field_Query_rolloutByModel_args
        (fun f args => then_arg (assert_arg arg_string "modelRef" args) (fun a0 => Done (f childComplexity a0))));
    ("Query.rollouts", cost (cxQ_Rollouts (crQuery root))) ].

Definition complexity_Rollout : list (string * outcome (Z * bool)) :=
  [ ("Rollout.canaryPercent", cost (cxR_CanaryPercent (crRollout root)));
    ("Rollout.endedAt", cost (cxR_EndedAt (crRollout root)));
    ("Rollout.modelRef", cost (cxR_ModelRef (crRollout root)));
    ("Rollout.rolloutId", cost (cxR_RolloutID (crRollout root)));
    ("Rollout.stage", cost (cxR_Stage (crRollout root)));
    ("Rollout.startedAt", cost (cxR_StartedAt (crRollout root)));
    ("Rollout.status", cost (cxR_Status (crRollout root)));
    ("Rollout.strategyJson", cost (cxR_StrategyJSON (crRollout root)));
    ("Rollout.versionId", cost (cxR_VersionID (crRollout root))) ].

Definition Complexity (typeName field : string) : outcome (Z * bool) :=
  switch (typeName +:+ "." +:+ field)
    (complexity_AdminUser ++ complexity_ApiKeySummary ++ complexity_AuditEntry ++ complexity_DashboardMetrics ++ complexity_ModelManifest ++ complexity_ModelSummary ++ complexity_ProviderHealth ++ complexity_Query ++ complexity_Rollout)
    (Done (0, false)).
End Complexity.
