(* ===== verification/GraphSchema.v ===== *)
(** The schema of admin.graphql, and GraphQL execution over it.

    The types of the schema ([sources] of generated.go, and the introspection
    types of the GraphQL specification) as data; the execution of a selection set
    on an object as the specification defines it (complete the value of every
    selected field by its type; an error at a non-null field makes its parent
    null), independent of the generated code; and what it means for a JSON value
    to conform to a type under a selection. *)

From S2P Require Import Prelude Errors Prog Json Float Gqlgen GraphLeaf Graph GraphObjects GraphIntro GraphQuery.
#[local] Open Scope Z_scope.

(** * Types *)

Inductive gtype :=
| Named (name : string)
| ListOf (t : gtype)
| NonNull (t : gtype).

#[global] Instance gtype_eq_dec : EqDecision gtype.
Proof. solve_decision. Defined.

Fixpoint base (t : gtype) : string :=
  match t with Named n => n | ListOf t | NonNull t => base t end.

Definition type_Query : list (string * gtype) :=
  [ ("me", NonNull (Named "AdminUser"));
    ("models", NonNull (ListOf (NonNull (Named "ModelSummary"))));
    ("modelDraft", NonNull (Named "ModelManifest"));
    ("modelVersion", NonNull (Named "ModelManifest"));
    ("rollout", Named "Rollout");
    ("rolloutByModel", Named "Rollout");
    ("rollouts", NonNull (ListOf (NonNull (Named "Rollout"))));
    ("apiKeys", NonNull (ListOf (NonNull (Named "ApiKeySummary"))));
    ("dashboardMetrics", NonNull (Named "DashboardMetrics"));
    ("auditLog", NonNull (ListOf (NonNull (Named "AuditEntry"))));
    ("providerHealth", NonNull (ListOf (NonNull (Named "ProviderHealth")))) ].

Definition type_AdminUser : list (string * gtype) :=
  [ ("id", NonNull (Named "ID"));
    ("orgId", NonNull (Named "ID"));
    ("role", NonNull (Named "String")) ].

Definition type_ModelSummary : list (string * gtype) :=
  [ ("modelRef", NonNull (Named "String"));
    ("activeVersionId", NonNull (Named "ID")) ].

Definition type_ModelManifest : list (string * gtype) :=
  [ ("versionId", NonNull (Named "ID"));
    ("modelRef", NonNull (Named "String"));
    ("specJson", NonNull (Named "String"));
    ("signature", NonNull (Named "String"));
    ("createdBy", NonNull (Named "String"));
    ("createdAt", NonNull (Named "String"));
    ("status", NonNull (Named "String")) ].

Definition type_Rollout : list (string * gtype) :=
  [ ("rolloutId", NonNull (Named "ID"));
    ("modelRef", NonNull (Named "String"));
    ("versionId", NonNull (Named "ID"));
    ("strategyJson", NonNull (Named "String"));
    ("stage", NonNull (Named "String"));
    ("status", NonNull (Named "String"));
    ("canaryPercent", NonNull (Named "Int"));
    ("startedAt", NonNull (Named "String"));
    ("endedAt", Named "String") ].

Definition type_ApiKeySummary : list (string * gtype) :=
  [ ("keyId", NonNull (Named "ID"));
    ("orgId", NonNull (Named "ID"));
    ("scopes", NonNull (ListOf (NonNull (Named "String"))));
    ("createdAt", NonNull (Named "String"));
    ("revokedAt", Named "String") ].

Definition type_DashboardMetrics : list (string * gtype) :=
  [ ("requestsPerSecond", NonNull (Named "Float"));
    ("p95LatencyMs", NonNull (Named "Float"));
    ("errorRate", NonNull (Named "Float"));
    ("activeModelsCount", NonNull (Named "Int"));
    ("activeRolloutsCount", NonNull (Named "Int")) ].

Definition type_AuditEntry : list (string * gtype) :=
  [ ("auditId", NonNull (Named "ID"));
    ("actor", NonNull (Named "ID"));
    ("action", NonNull (Named "String"));
    ("target", NonNull (Named "String"));
    ("beforeJson", Named "String");
    ("afterJson", Named "String");
    ("ts", NonNull (Named "String")) ].

Definition type_ProviderHealth : list (string * gtype) :=
  [ ("provider", NonNull (Named "String"));
    ("healthy", NonNull (Named "Boolean"));
    ("quotaHeadroom", NonNull (Named "Float"));
    ("breakerState", NonNull (Named "String")) ].

(** ** The introspection types *)

Definition type___Schema : list (string * gtype) :=
  [ ("description", Named "String");
    ("types", NonNull (ListOf (NonNull (Named "__Type"))));
    ("queryType", NonNull (Named "__Type"));
    ("mutationType", Named "__Type");
    ("subscriptionType", Named "__Type");
    ("directives", NonNull (ListOf (NonNull (Named "__Directive")))) ].

Definition type___Type : list (string * gtype) :=
  [ ("kind", NonNull (Named "__TypeKind"));
    ("name", Named "String");
    ("description", Named "String");
    ("specifiedByURL", Named "String");
    ("fields", ListOf (NonNull (Named "__Field")));
    ("interfaces", ListOf (NonNull (Named "__Type")));
    ("possibleTypes", ListOf (NonNull (Named "__Type")));
    ("enumValues", ListOf (NonNull (Named "__EnumValue")));
    ("inputFields", ListOf (NonNull (Named "__InputValue")));
    ("ofType", Named "__Type");
    ("isOneOf", Named "Boolean") ].

Definition type___Field : list (string * gtype) :=
  [ ("name", NonNull (Named "String"));
    ("description", Named "String");
    ("args", NonNull (ListOf (NonNull (Named "__InputValue"))));
    ("type", NonNull (Named "__Type"));
    ("isDeprecated", NonNull (Named "Boolean"));
    ("deprecationReason", Named "String") ].

Definition type___InputValue : list (string * gtype) :=
  [ ("name", NonNull (Named "String"));
    ("description", Named "String");
    ("type", NonNull (Named "__Type"));
    ("defaultValue", Named "String");
    ("isDeprecated", NonNull (Named "Boolean"));
    ("deprecationReason", Named "String") ].

Definition type___EnumValue : list (string * gtype) :=
  [ ("name", NonNull (Named "String"));
    ("description", Named "String");
    ("isDeprecated", NonNull (Named "Boolean"));
    ("deprecationReason", Named "String") ].

Definition type___Directive : list (string * gtype) :=
  [ ("name", NonNull (Named "String"));
    ("description", Named "String");
    ("isRepeatable", NonNull (Named "Boolean"));
    ("locations", NonNull (ListOf (NonNull (Named "__DirectiveLocation"))));
    ("args", NonNull (ListOf (NonNull (Named "__InputValue")))) ].

Definition schema : list (string * list (string * gtype)) :=
  [ ("Query", type_Query);
    ("AdminUser", type_AdminUser);
    ("ModelSummary", type_ModelSummary);
    ("ModelManifest", type_ModelManifest);
    ("Rollout", type_Rollout);
    ("ApiKeySummary", type_ApiKeySummary);
    ("DashboardMetrics", type_DashboardMetrics);
    ("AuditEntry", type_AuditEntry);
    ("ProviderHealth", type_ProviderHealth);
    ("__Schema", type___Schema);
    ("__Type", type___Type);
    ("__Field", type___Field);
    ("__InputValue", type___InputValue);
    ("__EnumValue", type___EnumValue);
    ("__Directive", type___Directive) ].

Definition lookup_in {A} (l : list (string * A)) (name : string) : option A :=
  match List.find (fun c => String.eqb c.1 name) l with Some c => Some c.2 | None => None end.

Definition fields_of_type (t : string) : list (string * gtype) := default [] (lookup_in schema t).

Definition field_type (t name : string) : option gtype := lookup_in (fields_of_type t) name.

(** * Values *)

Section Values.
Context `{G : Gqlgen} `{I : Introspection}.

(** The objects a field can lead to. *)
Inductive obj :=
| OAdminUser (o : AdminUser)
| OApiKeySummary (o : APIKeySummary)
| OAuditEntry (o : AuditEntry)
| ODashboardMetrics (o : DashboardMetrics)
| OModelManifest (o : ModelManifest)
| OModelSummary (o : ModelSummary)
| OProviderHealth (o : ProviderHealthRow)
| ORollout (o : RolloutRow)
| ODirective (o : Directive_)
| OEnumValue (o : EnumValue_)
| OField (o : Field_)
| OInputValue (o : InputValue_)
| OSchema (o : Schema_)
| OType (o : Type_).

Definition type_of (o : obj) : string :=
  match o with
  | OAdminUser _ => "AdminUser"
  | OApiKeySummary _ => "ApiKeySummary"
  | OAuditEntry _ => "AuditEntry"
  | ODashboardMetrics _ => "DashboardMetrics"
  | OModelManifest _ => "ModelManifest"
  | OModelSummary _ => "ModelSummary"
  | OProviderHealth _ => "ProviderHealth"
  | ORollout _ => "Rollout"
  | ODirective _ => "__Directive"
  | OEnumValue _ => "__EnumValue"
  | OField _ => "__Field"
  | OInputValue _ => "__InputValue"
  | OSchema _ => "__Schema"
  | OType _ => "__Type"
  end.

Inductive val :=
| VNull
| VLeaf (j : json)
| VList (l : list val)
| VObj (o : obj).

Definition string_leaf (s : string) : val := VLeaf (MarshalGQL (MarshalString s)).
Definition id_leaf (s : string) : val := VLeaf (MarshalGQL (MarshalID s)).
Definition int_leaf (z : Z) : val := VLeaf (MarshalGQL (MarshalInt z)).
Definition bool_leaf (b : bool) : val := VLeaf (MarshalGQL (MarshalBoolean b)).

Definition float_leaf (x : float64) : val := VLeaf (float_json x).

Definition nullable_val {A} (f : A -> val) (x : option A) : val :=
  match x with None => VNull | Some x => f x end.

(** ** Arguments: an absent one has its zero value *)

Definition argument_value {T} (raw : gmap string (option Any)) (name : string) (zero : T) (unmarshal : option Any -> res T) : option T :=
  match raw !! name with
  | None => Some zero
  | Some v => match unmarshal v with Ok x => Some x | Err _ => None end
  end.

(** A null argument of a nullable type is no value. *)
Definition nil_or {T} (unmarshal : option Any -> res T) (v : option Any) : res (option T) :=
  match v with None => Ok None | Some _ => res_bind (unmarshal v) (fun x => Ok (Some x)) end.

Definition raw_arguments (field : CollectedField) : option (gmap string (option Any)) :=
  match ArgumentMap field with Done raw => Some raw | Panics _ => None end.

Definition flag_argument {T} (field : CollectedField) (zero : T) (unmarshal : option Any -> res T) (k : T -> val) : option val :=
  raw ← raw_arguments field; b ← argument_value raw "includeDeprecated" zero unmarshal; Some (k b).

(** ** The value of a field; [None] is an error *)

Definition field_of_AdminUser (field : CollectedField) (o : AdminUser) : option val := switch (fName field)
  [ ("id", Some (id_leaf (auID o)));
    ("orgId", Some (id_leaf (auOrgID o)));
    ("role", Some (string_leaf (auRole o))) ] None.

Definition field_of_ApiKeySummary (field : CollectedField) (o : APIKeySummary) : option val := switch (fName field)
  [ ("keyId", Some (id_leaf (asKeyID o)));
    ("orgId", Some (id_leaf (asOrgID o)));
    ("scopes", Some (VList (map string_leaf (asScopes o))));
    ("createdAt", Some (string_leaf (asCreatedAt o)));
    ("revokedAt", Some (nullable_val string_leaf (asRevokedAt o))) ] None.

Definition field_of_AuditEntry (field : CollectedField) (o : AuditEntry) : option val := switch (fName field)
  [ ("auditId", Some (id_leaf (aeAuditID o)));
    ("actor", Some (id_leaf (aeActor o)));
    ("action", Some (string_leaf (aeAction o)));
    ("target", Some (string_leaf (aeTarget o)));
    ("beforeJson", Some (nullable_val string_leaf (aeBeforeJSON o)));
    ("afterJson", Some (nullable_val string_leaf (aeAfterJSON o)));
    ("ts", Some (string_leaf (aeTs o))) ] None.

Definition field_of_DashboardMetrics (field : CollectedField) (o : DashboardMetrics) : option val := switch (fName field)
  [ ("requestsPerSecond", Some (float_leaf (RequestsPerSecond o)));
    ("p95LatencyMs", Some (float_leaf (P95LatencyMs o)));
    ("errorRate", Some (float_leaf (ErrorRate o)));
    ("activeModelsCount", Some (int_leaf (ActiveModelsCount o)));
    ("activeRolloutsCount", Some (int_leaf (ActiveRolloutsCount o))) ] None.

Definition field_of_ModelManifest (field : CollectedField) (o : ModelManifest) : option val := switch (fName field)
  [ ("versionId", Some (id_leaf (mmVersionID o)));
    ("modelRef", Some (string_leaf (mmModelRef o)));
    ("specJson", Some (string_leaf (mmSpecJSON o)));
    ("signature", Some (string_leaf (mmSignature o)));
    ("createdBy", Some (string_leaf (mmCreatedBy o)));
    ("createdAt", Some (string_leaf (mmCreatedAt o)));
    ("status", Some (string_leaf (mmStatus o))) ] None.

Definition field_of_ModelSummary (field : CollectedField) (o : ModelSummary) : option val := switch (fName field)
  [ ("modelRef", Some (string_leaf (msModelRef o)));
    ("activeVersionId", Some (id_leaf (msActiveVersionID o))) ] None.

Definition field_of_ProviderHealth (field : CollectedField) (o : ProviderHealthRow) : option val := switch (fName field)
  [ ("provider", Some (string_leaf (phProvider o)));
    ("healthy", Some (bool_leaf (Healthy o)));
    ("quotaHeadroom", Some (float_leaf (QuotaHeadroom o)));
    ("breakerState", Some (string_leaf (phBreakerState o))) ] None.

Definition field_of_Rollout (field : CollectedField) (o : RolloutRow) : option val := switch (fName field)
  [ ("rolloutId", Some (id_leaf (grRolloutID o)));
    ("modelRef", Some (string_leaf (grModelRef o)));
    ("versionId", Some (id_leaf (grVersionID o)));
    ("strategyJson", Some (string_leaf (grStrategyJSON o)));
    ("stage", Some (string_leaf (grStage o)));
    ("status", Some (string_leaf (grStatus o)));
    ("canaryPercent", Some (int_leaf (grCanaryPercent o)));
    ("startedAt", Some (string_leaf (grStartedAt o)));
    ("endedAt", Some (nullable_val string_leaf (grEndedAt o))) ] None.

Definition field_of___Directive (field : CollectedField) (o : Directive_) : option val := switch (fName field)
  [ ("name", Some (string_leaf (dName o)));
    ("description", Some (nullable_val string_leaf (dDescription o)));
    ("isRepeatable", Some (bool_leaf (dIsRepeatable o)));
    ("locations", Some (VList (map string_leaf (dLocations o))));
    ("args", flag_argument field None (nil_or UnmarshalBoolean) (fun _ => VList (map (fun o => VObj (OInputValue o)) (dArgs o)))) ] None.

Definition field_of___EnumValue (field : CollectedField) (o : EnumValue_) : option val := switch (fName field)
  [ ("name", Some (string_leaf (evName o)));
    ("description", Some (nullable_val string_leaf (evDescription o)));
    ("isDeprecated", Some (bool_leaf (evIsDeprecated o)));
    ("deprecationReason", Some (nullable_val string_leaf (evDeprecationReason o))) ] None.

Definition field_of___Field (field : CollectedField) (o : Field_) : option val := switch (fName field)
  [ ("name", Some (string_leaf (fdName o)));
    ("description", Some (nullable_val string_leaf (fdDescription o)));
    ("args", flag_argument field None (nil_or UnmarshalBoolean) (fun _ => VList (map (fun o => VObj (OInputValue o)) (fdArgs o))));
    ("type", Some (nullable_val (fun o => VObj (OType o)) (fdType o)));
    ("isDeprecated", Some (bool_leaf (fdIsDeprecated o)));
    ("deprecationReason", Some (nullable_val string_leaf (fdDeprecationReason o))) ] None.

Definition field_of___InputValue (field : CollectedField) (o : InputValue_) : option val := switch (fName field)
  [ ("name", Some (string_leaf (ivName o)));
    ("description", Some (nullable_val string_leaf (ivDescription o)));
    ("type", Some (nullable_val (fun o => VObj (OType o)) (ivType o)));
    ("defaultValue", Some (nullable_val string_leaf (ivDefaultValue o)));
    ("isDeprecated", Some (bool_leaf (ivIsDeprecated o)));
    ("deprecationReason", Some (nullable_val string_leaf (ivDeprecationReason o))) ] None.

Definition field_of___Schema (field : CollectedField) (o : Schema_) : option val := switch (fName field)
  [ ("description", Some (nullable_val string_leaf (sDescription o)));
    ("types", Some (VList (map (fun o => VObj (OType o)) (sTypes o))));
    ("queryType", Some (nullable_val (fun o => VObj (OType o)) (sQueryType o)));
    ("mutationType", Some (nullable_val (fun o => VObj (OType o)) (sMutationType o)));
    ("subscriptionType", Some (nullable_val (fun o => VObj (OType o)) (sSubscriptionType o)));
    ("directives", Some (VList (map (fun o => VObj (ODirective o)) (sDirectives o)))) ] None.

Definition field_of___Type (field : CollectedField) (o : Type_) : option val := switch (fName field)
  [ ("kind", Some (string_leaf (tKind o)));
    ("name", Some (nullable_val string_leaf (tName o)));
    ("description", Some (nullable_val string_leaf (tDescription o)));
    ("specifiedByURL", Some (nullable_val string_leaf (tSpecifiedByURL o)));
    ("fields", flag_argument field false UnmarshalBoolean (fun b => nullable_val (fun l => VList (map (fun o => VObj (OField o)) l)) (tFields o b)));
    ("interfaces", Some (nullable_val (fun l => VList (map (fun o => VObj (OType o)) l)) (tInterfaces o)));
    ("possibleTypes", Some (nullable_val (fun l => VList (map (fun o => VObj (OType o)) l)) (tPossibleTypes o)));
    ("enumValues", flag_argument field false UnmarshalBoolean (fun b => nullable_val (fun l => VList (map (fun o => VObj (OEnumValue o)) l)) (tEnumValues o b)));
    ("inputFields", Some (nullable_val (fun l => VList (map (fun o => VObj (OInputValue o)) l)) (tInputFields o)));
    ("ofType", Some (nullable_val (fun o => VObj (OType o)) (tOfType o)));
    ("isOneOf", Some (bool_leaf (tIsOneOf o))) ] None.

Definition field_of (field : CollectedField) (o : obj) : option val :=
  match o with
  | OAdminUser o => field_of_AdminUser field o
  | OApiKeySummary o => field_of_ApiKeySummary field o
  | OAuditEntry o => field_of_AuditEntry field o
  | ODashboardMetrics o => field_of_DashboardMetrics field o
  | OModelManifest o => field_of_ModelManifest field o
  | OModelSummary o => field_of_ModelSummary field o
  | OProviderHealth o => field_of_ProviderHealth field o
  | ORollout o => field_of_Rollout field o
  | ODirective o => field_of___Directive field o
  | OEnumValue o => field_of___EnumValue field o
  | OField o => field_of___Field field o
  | OInputValue o => field_of___InputValue field o
  | OSchema o => field_of___Schema field o
  | OType o => field_of___Type field o
  end.

(** A float that is not finite has no value: only these objects carry floats. *)
Definition finite_obj (o : obj) : bool :=
  match o with
  | ODashboardMetrics d => finite (RequestsPerSecond d) && finite (P95LatencyMs d) && finite (ErrorRate d)
  | OProviderHealth h => finite (QuotaHeadroom h)
  | _ => true
  end.

Fixpoint finite_val (v : val) : bool :=
  match v with VObj o => finite_obj o | VList l => forallb finite_val l | _ => true end.

(** * Execution *)

(** The value written at a position, or none when the error there reaches the
    position above; whether the position has no value; and whether an error was
    met at or below it. *)
Record completed := mkCompleted { out : option json; null : bool; erred : bool }.

Definition failed : completed := mkCompleted None false true.
Definition gives (j : json) : completed := mkCompleted (Some j) false false.
Definition null_value : completed := mkCompleted (Some JNull) true false.

(** At a nullable position an error stops and leaves null. *)
Definition absorb (t : gtype) (r : completed) : completed :=
  match t, out r with
  | NonNull _, _ => r
  | _, None => mkCompleted (Some JNull) true (erred r)
  | _, Some _ => r
  end.

Definition all_out (rs : list completed) (f : list json -> json) : completed :=
  mkCompleted (f <$> mapM out rs) false (existsb erred rs).

(** A list is null when an element that must not be null is. *)
Definition complete_with (object : SelectionSet -> obj -> completed) : gtype -> SelectionSet -> val -> completed :=
  fix comp t sel v :=
    match t with
    | NonNull t =>
        match v with VNull => failed | _ => comp t sel v end
    | ListOf t =>
        match v with
        | VNull => null_value
        | VList l => all_out (map (fun v => absorb t (comp t sel v)) l) JArr
        | _ => failed
        end
    | Named _ =>
        match v with
        | VNull => null_value
        | VLeaf j => gives j
        | VObj o => object sel o
        | VList _ => failed
        end
    end.

(** ExecuteField on an object, the objects below it executed by [object]. *)
Definition field_result (object : SelectionSet -> obj -> completed) (o : obj) (f : CollectedField) : completed :=
  if String.eqb (fName f) "__typename" then gives (MarshalGQL (MarshalString (type_of o)))
  else match field_type (type_of o) (fName f) with
       | None => failed
       | Some t => absorb t (match field_of f o with
                             | None => failed
                             | Some v => complete_with object t (fSelections f) v
                             end)
       end.

(** ExecuteSelectionSet, down to [n] nested objects. *)
Fixpoint execute (n : nat) (sel : SelectionSet) (o : obj) : completed :=
  match n with
  | O => failed
  | S n =>
      let fields := CollectFields sel [type_of o] in
      all_out (map (field_result (execute n) o) fields) (fun js => JObj (zip (map fAlias fields) js))
  end.

Definition complete (n : nat) : gtype -> SelectionSet -> val -> completed := complete_with (execute n).

(** ** The query *)

(** A resolver's answer as a value; an error or a panic is none. *)
Definition answer {E A} (k : A -> val) (p : prog E (outcome (res A))) : prog E (option val) :=
  bind p (fun o => Ret (match o with Done (Ok a) => Some (k a) | _ => None end)).

Definition with_argument {E T} (field : CollectedField) (name : string) (zero : T) (unmarshal : option Any -> res T)
    (k : T -> prog E (option val)) : prog E (option val) :=
  match raw_arguments field with
  | None => Ret None
  | Some raw => match argument_value raw name zero unmarshal with None => Ret None | Some x => k x end
  end.

Definition one {A} (c : A -> obj) : option A -> val := nullable_val (fun o => VObj (c o)).
Definition many {A} (c : A -> obj) (l : list (option A)) : val := VList (map (one c) l).

(** ResolveFieldValue for the query type. *)
Definition root_val {E} (R : QueryResolver E) (field : CollectedField) : prog E (option val) := switch (fName field)
  [ ("me", answer (one OAdminUser) (qMe R));
    ("models", answer (many OModelSummary) (qModels R));
    ("modelDraft", with_argument field "modelRef" "" UnmarshalString (fun m =>
        answer (one OModelManifest) (qModelDraft R m)));
    ("modelVersion", with_argument field "modelRef" "" UnmarshalString (fun m =>
        with_argument field "versionId" None (nil_or UnmarshalString) (fun v =>
        answer (one OModelManifest) (qModelVersion R m v))));
    ("rollout", with_argument field "rolloutId" "" UnmarshalID (fun r => answer (one ORollout) (qRollout R r)));
    ("rolloutByModel", with_argument field "modelRef" "" UnmarshalString (fun m =>
        answer (one ORollout) (qRolloutByModel R m)));
    ("rollouts", answer (many ORollout) (qRollouts R));
    ("apiKeys", answer (many OApiKeySummary) (qAPIKeys R));
    ("dashboardMetrics", answer (one ODashboardMetrics) (qDashboardMetrics R));
    ("auditLog", with_argument field "limit" None (nil_or UnmarshalInt) (fun l =>
        with_argument field "actor" None (nil_or UnmarshalID) (fun a =>
        with_argument field "action" None (nil_or UnmarshalString) (fun n =>
        answer (many OAuditEntry) (qAuditLog R l a n)))));
    ("providerHealth", answer (many OProviderHealth) (qProviderHealth R));
    ("__type", with_argument field "name" "" UnmarshalString (fun n =>
        Ret (match IntrospectType n with Ok t => Some (one OType t) | Err _ => None end)));
    ("__schema", Ret (match IntrospectSchema with Ok s => Some (one OSchema s) | Err _ => None end)) ]
  (Ret None).

(** The fields of the query type, with the two every query has. *)
Definition query_fields : list (string * gtype) :=
  type_Query ++ [ ("__type", Named "__Type"); ("__schema", Named "__Schema") ].

(** The result of a selected field of the query, given its resolved value. *)
Definition root_result (n : nat) (field : CollectedField) (v : option val) : completed :=
  if String.eqb (fName field) "__typename" then gives (MarshalGQL (MarshalString "Query"))
  else match lookup_in query_fields (fName field) with
       | None => failed
       | Some t => absorb t (match v with None => failed | Some v => complete n t (fSelections field) v end)
       end.

(** ExecuteSelectionSet for the query type, given the resolved values. *)
Definition execute_query (n : nat) (sel : SelectionSet) (vs : list (option val)) : completed :=
  let fields := CollectFields sel queryImplementors in
  all_out (zip_with (root_result n) fields vs) (fun js => JObj (zip (map fAlias fields) js)).

(** A selection set is valid for a type when it selects fields the type has,
    and so on below. *)
Fixpoint valid (n : nat) (t : string) (sel : SelectionSet) : Prop :=
  match n with
  | O => False
  | S n => forall f, In f (CollectFields sel [t]) ->
      fName f = "__typename" \/ exists ft, field_type t (fName f) = Some ft
        /\ (fields_of_type (base ft) <> [] -> valid n (base ft) (fSelections f))
  end.

Definition valid_query (n : nat) (sel : SelectionSet) : Prop :=
  forall f, In f (CollectFields sel queryImplementors) ->
    fName f = "__typename" \/ exists ft, lookup_in query_fields (fName f) = Some ft
      /\ (fields_of_type (base ft) <> [] -> valid n (base ft) (fSelections f)).

(** * Conformance *)

Definition scalar_conforms (name : string) (j : json) : bool :=
  match j with
  | JStr _ => bool_decide (name = "String" \/ name = "ID" \/ name = "__TypeKind" \/ name = "__DirectiveLocation")
  | JNum _ => bool_decide (name = "Int" \/ name = "Float")
  | JBool _ => bool_decide (name = "Boolean")
  | _ => false
  end.

Definition conforms_with (object : string -> SelectionSet -> json -> Prop) : gtype -> SelectionSet -> json -> Prop :=
  fix conf t sel j :=
    match t with
    | NonNull t => j <> JNull /\ conf t sel j
    | ListOf t => j = JNull \/ exists l, j = JArr l /\ List.Forall (conf t sel) l
    | Named name => j = JNull \/ match fields_of_type name with
                                | [] => scalar_conforms name j = true
                                | _ => object name sel j
                                end
    end.

(** An object shows exactly the selected fields, in order, under their aliases. *)
Fixpoint object_conforms (n : nat) (t : string) (sel : SelectionSet) (j : json) : Prop :=
  match n with
  | O => False
  | S n => exists kvs, j = JObj kvs
      /\ Forall2 (fun f kv => kv.1 = fAlias f
           /\ if String.eqb (fName f) "__typename" then exists s, kv.2 = JStr s
              else exists ft, field_type t (fName f) = Some ft
                     /\ conforms_with (object_conforms n) ft (fSelections f) kv.2)
           (CollectFields sel [t]) kvs
  end.

Definition conforms (n : nat) : gtype -> SelectionSet -> json -> Prop := conforms_with (object_conforms n).
End Values.
