(* ===== verification/GraphDemo.v ===== *)
(** A small GraphQL runtime, and introspection of the schema.

    A concrete [Gqlgen] that satisfies [GqlgenLaws], for evaluating queries: a
    selection is a tree, a context is the context of the field it was made for,
    list elements are marshalled one after the other. *)

From S2P Require Import Prelude Errors Prog Json Float Gqlgen GraphLeaf Graph GraphObjects GraphIntro GraphQuery GraphSchema.
#[local] Open Scope Z_scope.

#[local] Set Warnings "-register-all".

(** A selected field: name, alias, arguments, selections below. *)
Inductive selected := Select (name alias : string) (arguments : list (string * option json)) (below : list selected).

Definition sName f := match f with Select n _ _ _ => n end.
Definition sAlias f := match f with Select _ a _ _ => a end.
Definition sArguments f := match f with Select _ _ a _ => a end.
Definition sBelow f := match f with Select _ _ _ l => l end.

Fixpoint height (f : selected) : nat :=
  match f with Select _ _ _ l => Datatypes.S (fold_right Nat.max 0%nat (map height l)) end.

Definition heights (l : list selected) : nat := fold_right Nat.max 0%nat (map height l).

Lemma height_below l f : In f l -> (heights (sBelow f) < heights l)%nat.
Proof.
  intros Hin. assert (height f <= heights l)%nat.
  { unfold heights. induction l as [|g l IH]; [done|]. destruct Hin as [->|Hin]; simpl; [|specialize (IH Hin)]; lia. }
  destruct f as [n a args l']. simpl in *. unfold heights at 1. lia.
Qed.

(** The null marshalers and the nil interface are values of their own. *)
Inductive writer := WNull | WRequired | WNil | Writes (j : json).

Definition written (w : writer) : json := match w with Writes j => j | _ => JNull end.

Definition demo_string (v : option json) : res string := match v with Some (JStr s) => Ok s | _ => Err (Lib "not a string") end.
Definition demo_int (v : option json) : res Z :=
  match v with
  | Some (JNum t) => match atoi t with Some z => Ok z | None => Err (Lib "not an integer") end
  | _ => Err (Lib "not an integer")
  end.
Definition demo_bool (v : option json) : res bool := match v with Some (JBool b) => Ok b | _ => Err (Lib "not a boolean") end.

Definition demo_float (x : float64) : json := match json_float64 x with Ok j => j | Err _ => JNull end.

(** One element after the other, every one from no errors. *)
Fixpoint one_by_one {E} (f : nat -> gql_ error E writer) (ks : list nat) : gql_ error E (list writer) := fun errs =>
  match ks with
  | [] => Ret (Done [], errs)
  | i :: ks => bind (f i []) (fun r =>
      match r.1 with
      | Panics w => Ret (Panics w, errs ++ r.2)
      | Done w => gbind (one_by_one f ks) (fun ws => pure (w :: ws)) (errs ++ r.2)
      end)
  end.

Definition demo_resolve {E T} (ctx : FieldContext selected) (field : selected)
    (init : FieldContext selected -> selected -> gql_ error E (res (FieldContext selected)))
    (resolver : FieldContext selected -> prog E (outcome (res T)))
    (marshal : FieldContext selected -> list selected -> T -> gql_ error E writer) : gql_ error E writer := fun errs =>
  let fail e := fun errs : list error => Ret (Done WNull, errs ++ [e]) in
  bind (init ctx field errs) (fun r =>
    match r.1 with
    | Panics w => Ret (Panics w, r.2)
    | Done (Err _) => Ret (Done WNull, r.2)
    | Done (Ok fc) => bind (resolver fc) (fun o =>
        match o with
        | Done (Ok v) => recovering (marshal fc (sBelow field) v) (fun p => fail (Lib p))
        | Done (Err e) => fail e
        | Panics p => fail (Lib p)
        end r.2)
    end).

#[global] Instance demo_runtime : Gqlgen := {
  Ctx := FieldContext selected;
  gqlError := error;
  SelectionSet := list selected;
  CollectedField := selected;
  fName := sName;
  fAlias := sAlias;
  fSelections := sBelow;
  CollectFields sel _ := sel;
  depth := heights;
  GetFieldContext ctx := ctx;
  WithFieldContext _ fc := fc;
  WithRootFieldContext ctx _ := ctx;
  WithPathIndex ctx _ := ctx;
  NewScalarFieldContext object field m r e := Ok (mkFieldContext object (Some field) m r ∅ (Some (NoChildren e)));
  present _ e := e;
  Recover w := Lib w;
  HasFieldError _ errs := match errs with [] => false | _ => true end;
  ErrorOnPath _ e := e;
  Any := json;
  ArgumentMap f := Done (list_to_map (sArguments f));
  ProcessArgField _ zero ctx raw name um := match raw !! name with None => Ok zero | Some v => um ctx v end;
  UnmarshalString := demo_string;
  UnmarshalID := demo_string;
  UnmarshalInt := demo_int;
  UnmarshalBoolean := demo_bool;
  Marshaler := writer;
  Null := WNull;
  RequiredNull := WRequired;
  nil_marshaler := WNil;
  is_Null w := match w with WNull => true | _ => false end;
  is_RequiredNull w := match w with WRequired => true | _ => false end;
  MarshalString s := Writes (JStr s);
  MarshalID s := Writes (JStr s);
  MarshalInt z := Writes (JNum (itoa z));
  MarshalBoolean b := Writes (JBool b);
  MarshalFloatContext x := Writes (demo_float x);
  float_json := demo_float;
  WrapContextMarshaler _ w := w;
  Array_ l := Writes (JArr (map written l));
  FieldSet l := Writes (JObj (map (fun p => (sAlias p.1, written p.2)) l));
  MarshalGQL := written;
  MarshalSliceConcurrently _ ctx n f := one_by_one (f ctx) (seq 0 n);
  RootResolverMiddleware _ _ ctx f := f ctx;
  ResolveField _ _ ctx field init resolver marshal _ _ := demo_resolve ctx field init resolver marshal
}.

Lemma one_by_one_plain {E} (f : nat -> gql_ error E writer) w es ks errs :
  (forall i, In i ks -> f i [] = Ret (Done (w i), es i)) ->
  one_by_one f ks errs = Ret (Done (map w ks), errs ++ concat (map es ks)).
Proof.
  revert errs. induction ks as [|i ks IH]; intros errs Hf; simpl; [by rewrite app_nil_r|].
  rewrite (Hf i (or_introl eq_refl)). simpl. unfold gbind. rewrite IH by (intros j Hj; apply Hf; by right).
  simpl. by rewrite app_assoc.
Qed.

#[global] Instance demo_runtime_laws : GqlgenLaws demo_runtime.
Proof.
  constructor; try done.
  - intros sel types f Hin. by apply height_below.
  - by intros [].
  - intros s. by exists s.
  - intros s. by exists s.
  - intros [s|s| |s m e] Hx; try discriminate; simpl; unfold demo_float, json_float64; [by eexists|].
    destruct (shortest64 _ _). by eexists.
  - intros T zero ctx raw name um Hr. cbn in *. by rewrite Hr.
  - intros T zero ctx raw name um v x Hr Hu. cbn in *. by rewrite Hr.
  - intros T zero ctx raw name um v Hr Hu. cbn in *. rewrite Hr. apply Hu.
  - intros E ctx n f w es errs Hf. exists (concat (map es (seq 0 n))). split; [done|].
    apply one_by_one_plain. intros i Hi%in_seq. apply Hf. lia.
  - intros E T ctx field init resolver marshal rp nn errs errs' e Hi. cbn. unfold demo_resolve. by rewrite Hi.
  - intros E T ctx field init resolver marshal nn errs errs' fc Hi. cbn. unfold demo_resolve. rewrite Hi. reflexivity.
Qed.

(** * Introspection *)

(** The type [t] of the schema. *)
Definition demo_kind (t : gtype) : string :=
  match t with
  | Named n => match fields_of_type n with [] => if String.prefix "__" n then "ENUM" else "SCALAR" | _ => "OBJECT" end
  | ListOf _ => "LIST"
  | NonNull _ => "NON_NULL"
  end.

#[global] Instance demo_introspection : Introspection := {
  Type_ := gtype; Field_ := string * gtype; InputValue_ := string * gtype; EnumValue_ := string; Directive_ := string; Schema_ := unit;
  sDescription _ := None;
  sTypes _ := map (fun t => Named t.1) schema;
  sQueryType _ := Some (Named "Query");
  sMutationType _ := None;
  sSubscriptionType _ := None;
  sDirectives _ := [];
  tKind := demo_kind;
  tName t := match t with Named n => Some n | _ => None end;
  tDescription _ := None;
  tSpecifiedByURL _ := None;
  tFields t _ := match t with Named n => match fields_of_type n with [] => None | l => Some l end | _ => None end;
  tInterfaces t := match t with Named n => match fields_of_type n with [] => None | _ => Some [] end | _ => None end;
  tPossibleTypes _ := None;
  tEnumValues _ _ := None;
  tInputFields _ := None;
  tOfType t := match t with Named _ => None | ListOf t | NonNull t => Some t end;
  tIsOneOf _ := false;
  fdName f := f.1;
  fdDescription _ := None;
  fdArgs _ := [];
  fdType f := Some f.2;
  fdIsDeprecated _ := false;
  fdDeprecationReason _ := None;
  ivName f := f.1;
  ivDescription _ := None;
  ivType f := Some f.2;
  ivDefaultValue _ := None;
  ivIsDeprecated _ := false;
  ivDeprecationReason _ := None;
  evName n := n;
  evDescription _ := None;
  evIsDeprecated _ := false;
  evDeprecationReason _ := None;
  dName n := n;
  dDescription _ := None;
  dIsRepeatable _ := false;
  dLocations _ := [];
  dArgs _ := [];
  IntrospectType n := Ok (match lookup_in schema n with Some _ => Some (Named n) | None => None end);
  IntrospectSchema := Ok (Some tt)
}.

(** A field without arguments, under its own name. *)
Definition plain_field (name : string) (below : list selected) : selected := Select name name [] below.

Definition at_top : Ctx := mkFieldContext "" None false false ∅ None.

(** A selection set that is valid, by looking. *)
Ltac valid_selection :=
  intros ? Hin; cbn in Hin;
  repeat (destruct Hin as [<-|Hin];
    [first [left; reflexivity | right; eexists; split; [reflexivity|]; intros Hne;
       first [exfalso; apply Hne; reflexivity | clear Hne; valid_selection]]|]);
  destruct Hin.

(** Who am I, which rollouts are there, and what is a rollout made of. *)
Definition demo_query : SelectionSet :=
  [ plain_field "__typename" [];
    Select "me" "user" [] [plain_field "id" []; plain_field "role" []];
    plain_field "rollouts" [plain_field "rolloutId" []; plain_field "canaryPercent" []; plain_field "endedAt" []];
    Select "__type" "kind" [("name", Some (JStr "AdminUser"))]
      [plain_field "kind" []; plain_field "fields" [plain_field "name" []; plain_field "type" [plain_field "kind" []; plain_field "ofType" [plain_field "name" []]]]] ].

Lemma demo_query_valid : valid_query 5 demo_query.
Proof. valid_selection. Qed.

(** A panel whose control plane knows one rollout, and nothing else. *)
Definition one_rollout : RolloutRow := mkRolloutRow "r1" "m" "v1" "" "canary" "running" 5 "2026-01-01T00:00:00Z" None.

Definition demo_resolvers (id : option Authn.Identity) : QueryResolver QueryE := panel_resolvers id.
