(* ===== verification/GraphLemmas.v ===== *)
(** The generated executor follows the GraphQL execution algorithm.

    [computes m r]: the marshaller [m] calls nothing, returns, and writes what the
    specification's result [r] says, or returns null and leaves an error.  Each
    kind of marshaller is shown once to compute what the specification asks of its
    type; the objects are then instances. *)

From S2P Require Import Prelude Errors Prog Json Float Gqlgen GraphLeaf Graph GraphObjects GraphIntro GraphQuery GraphSchema.
Create HintDb graph.
#[local] Open Scope Z_scope.
#[local] Open Scope gql_scope.

Section Lemmas.
Context `{G : Gqlgen} `{L : !GqlgenLaws G} `{I : Introspection} {E : interface}.
Abbreviation gql := (gql_ gqlError).
Implicit Types (ctx : Ctx) (sel : SelectionSet) (field : CollectedField) (errs es : list gqlError) (w : Marshaler).

Definition errors_for (r : completed) errs es : Prop :=
  (erred r = true -> errs ++ es <> []) /\ (erred r = false -> es = []).

Definition computes (m : gql E Marshaler) (r : completed) : Prop :=
  forall errs, exists w es, m errs = Ret (Done w, errs ++ es) /\ errors_for r errs es
    /\ match out r with
       | None => w = Null /\ erred r = true
       | Some j => MarshalGQL w = j /\ is_RequiredNull w = false /\ is_Null w = null r
       end.

(** One slot of an object. *)
Definition fills (m : slot E) (r : completed) : Prop :=
  forall errs, exists w k es, m errs = Ret (Done (w, k), errs ++ es) /\ errors_for r errs es
    /\ match out r with
       | None => (0 < k)%nat /\ erred r = true
       | Some j => k = 0%nat /\ MarshalGQL w = j
       end.

(** * Running the monad *)

Lemma gbind_done {A B} (m : gql E A) (f : A -> gql E B) errs a errs' :
  m errs = Ret (Done a, errs') -> gbind m f errs = f a errs'.
Proof. intros H. unfold gbind. by rewrite H. Qed.

Lemma not_null_plain ctx w w' errs : is_Null w = false -> not_null (E := E) ctx w w' errs = Ret (Done w', errs).
Proof. intros H. unfold not_null. by rewrite H. Qed.

Lemma null_element_done ctx errs : exists es, null_element (E := E) ctx errs = Ret (Done tt, errs ++ es) /\ errs ++ es <> [].
Proof.
  unfold null_element. destruct (HasFieldError ctx errs) eqn:Hf.
  - exists []. rewrite app_nil_r. split; [done|]. intros ->. by rewrite no_field_error in Hf.
  - eexists. split; [reflexivity|]. by destruct errs.
Qed.

(** * Leaves *)

Lemma computes_leaf w : plain_marshaler w -> computes (pure w) (gives (MarshalGQL w)).
Proof. intros [H1 H2] errs. exists w, []. rewrite app_nil_r. split; [done|]. split; [by split|]. done. Qed.

Lemma computes_null : computes (pure Null) null_value.
Proof.
  intros errs. exists Null, []. rewrite app_nil_r. split; [done|]. split; [by split|].
  split; [apply null_writes|]. split; [apply null_not_required|apply null_is_Null].
Qed.

Lemma computes_eq m m' r : (forall errs, m errs = m' errs) -> computes m' r -> computes m r.
Proof. intros H Hc errs. destruct (Hc errs) as (w & es & He & Hr). exists w, es. by rewrite H. Qed.

(** * Slots *)

Lemma required_fills m r : computes m r -> null r = false -> fills (required m) r.
Proof.
  intros Hc Hn errs. destruct (Hc errs) as (w & es & He & Hr & Hw). exists w, (if is_Null w then 1 else 0)%nat, es.
  split; [unfold required; by rewrite (gbind_done _ _ _ _ _ He)|]. split; [done|].
  destruct (out r) as [j|]; [|destruct Hw as [-> ?]; rewrite null_is_Null; split; [lia|done]].
  destruct Hw as (? & _ & ->). by rewrite Hn.
Qed.

Lemma nullable_fills m r : computes m r -> fills (nullable m) (mkCompleted (Some (default JNull (out r))) true (erred r)).
Proof.
  intros Hc errs. destruct (Hc errs) as (w & es & He & Hr & Hw). exists w, (if is_RequiredNull w then 1 else 0)%nat, es.
  split; [unfold nullable; by rewrite (gbind_done _ _ _ _ _ He)|]. split; [done|]. simpl.
  destruct (out r) as [j|]; simpl.
  - destruct Hw as (? & -> & _). done.
  - destruct Hw as [-> _]. rewrite null_not_required. split; [done|apply null_writes].
Qed.

Lemma fills_out m r r' : out r = out r' -> erred r = erred r' -> fills m r -> fills m r'.
Proof.
  intros Ho He Hf errs. destruct (Hf errs) as (w & k & es & Hm & Hr & Hw). exists w, k, es. unfold errors_for in *.
  by rewrite <- Ho, <- He.
Qed.

Lemma plain_fills w : fills (plain w) (gives (MarshalGQL w)).
Proof. intros errs. exists w, 0%nat, []. rewrite app_nil_r. split; [done|]. split; [by split|done]. Qed.

(** * Fields *)

Lemma resolve_computes {T} ctx field init (resolver : Ctx -> prog E (outcome (res T))) marshal nn fc v r :
  (forall errs, init ctx field errs = Ret (Done (Ok fc), errs)) ->
  resolver (WithFieldContext ctx fc) = Ret (Done (Ok v)) ->
  (forall ctx, computes (marshal ctx (fSelections field) v) r) ->
  computes (ResolveField ctx field init resolver marshal true nn) r.
Proof.
  intros Hi Hv Hc errs. destruct (Hc (WithFieldContext ctx fc) errs) as (w & es & He & Hr).
  exists w, es. split; [|done]. rewrite (resolve_law _ _ _ _ _ _ _ _ _ _ _ (Hi errs)), Hv. simpl.
  unfold recovering. by rewrite He.
Qed.

Lemma refused_computes {T} ctx field init (resolver : Ctx -> prog E (outcome (res T))) marshal nn :
  (forall errs, exists e es, init ctx field errs = Ret (Done (Err e), errs ++ es) /\ es <> []) ->
  computes (ResolveField ctx field init resolver marshal true nn) failed.
Proof.
  intros Hi errs. destruct (Hi errs) as (e & es & He & Hn). exists Null, es.
  split; [exact (resolve_refused _ _ _ _ _ _ _ _ _ _ _ _ He)|]. split; [|done].
  split; [|done]. intros _ H. apply Hn. by apply app_eq_nil in H as [_ ?].
Qed.

(** * Objects *)

Lemma fields_done (slot_of : CollectedField -> slot E) (R : CollectedField -> completed) fs :
  (forall f, In f fs -> fills (slot_of f) (R f)) ->
  forall errs, exists ws es, gmapM slot_of fs errs = Ret (Done ws, errs ++ es)
    /\ (existsb erred (map R fs) = true -> errs ++ es <> []) /\ (existsb erred (map R fs) = false -> es = [])
    /\ match mapM out (map R fs) with
       | None => (0 < sum_list_with snd ws)%nat /\ existsb erred (map R fs) = true
       | Some js => sum_list_with snd ws = 0%nat /\ map (fun w : Marshaler * nat => MarshalGQL w.1) ws = js
       end.
Proof.
  induction fs as [|f fs IH]; intros Hf errs.
  { exists [], []. rewrite app_nil_r. simpl. done. }
  destruct (Hf f (or_introl eq_refl) errs) as (w & k & es & He & [Hr1 Hr2] & Hw).
  destruct (IH (fun f' Hin => Hf f' (or_intror Hin)) (errs ++ es)) as (ws & es' & He' & H1 & H2 & Hws).
  exists ((w, k) :: ws), (es ++ es'). simpl.
  rewrite (gbind_done _ _ _ _ _ He), (gbind_done _ _ _ _ _ He'), app_assoc. split; [done|].
  split; [|split].
  - intros Hor. apply orb_true_iff in Hor as [Hor|Hor]; [|auto].
    intros Hn. apply app_eq_nil in Hn as [Hn _]. by apply Hr1.
  - intros Hor. apply orb_false_iff in Hor as [Ho1 Ho2]. by rewrite (Hr2 Ho1), (H2 Ho2).
  - destruct (out (R f)) as [j|]; simpl.
    + destruct Hw as [-> <-]. destruct (mapM out (map R fs)) as [js|]; simpl.
      * destruct Hws as [-> <-]. done.
      * destruct Hws as [? ->]. rewrite orb_true_r. split; [lia|done].
    + destruct Hw as [? ->]. split; [lia|done].
Qed.

Lemma map_zip_snd {A B C D} (f : B -> D) (g : A -> C) (l : list A) (l' : list B) :
  map (fun p => (g p.1, f p.2)) (zip l l') = zip (map g l) (map f l').
Proof. revert l'. induction l as [|a l IH]; intros [|b l']; simpl; [done..|]. by rewrite IH. Qed.

Lemma object_computes sel t slot_of (R : CollectedField -> completed) :
  (forall f, In f (CollectFields sel [t]) -> fills (slot_of f) (R f)) ->
  computes (object sel [t] slot_of)
    (all_out (map R (CollectFields sel [t])) (fun js => JObj (zip (map fAlias (CollectFields sel [t])) js))).
Proof.
  intros Hf errs. destruct (fields_done slot_of R _ Hf errs) as (ws & es & He & H1 & H2 & Hw).
  exists (finish (CollectFields sel [t]) ws), es. split; [unfold object; by rewrite (gbind_done _ _ _ _ _ He)|].
  split; [by split|]. unfold finish, all_out. simpl. destruct (mapM out _) as [js|]; simpl.
  - destruct Hw as [-> <-]. simpl. split; [|split; apply fieldset_plain].
    rewrite fieldset_writes, map_zip_snd, map_map. done.
  - destruct Hw as [Hw ->]. apply Nat.ltb_lt in Hw. by rewrite Hw.
Qed.

(** * Lists and pointers *)

Lemma all_or_null_writes (ws : list Marshaler) (rs : list completed) :
  Forall2 (fun w r => match out r with
                      | None => w = Null /\ erred r = true
                      | Some j => MarshalGQL w = j /\ is_Null w = false
                      end) ws rs ->
  match out (all_out rs JArr) with
  | None => all_or_null ws = Null /\ existsb erred rs = true
  | Some j => MarshalGQL (all_or_null ws) = j /\ plain_marshaler (all_or_null ws)
  end.
Proof.
  intros H. unfold all_or_null, all_out. simpl.
  enough (match mapM out rs with
          | None => existsb is_Null ws = true /\ existsb erred rs = true
          | Some js => existsb is_Null ws = false /\ map MarshalGQL ws = js
          end) as Hm.
  { destruct (mapM out rs) as [js|]; simpl; destruct Hm as [-> Hm]; [|done].
    rewrite array_writes, Hm. split; [done|apply array_plain]. }
  induction H as [|w r ws rs Hw _ IH]; simpl; [done|].
  destruct (out r) as [j|]; simpl.
  - destruct Hw as [<- ->]. destruct (mapM out rs) as [js|]; simpl; destruct IH as [-> IH]; [by rewrite IH|].
    by rewrite IH, orb_true_r.
  - destruct Hw as [-> ->]. by rewrite null_is_Null.
Qed.

Lemma finite_choice {A} (a0 : A) (P : nat -> A -> Prop) n :
  (forall i, (i < n)%nat -> exists a, P i a) -> exists f, forall i, (i < n)%nat -> P i (f i).
Proof.
  intros H. induction n as [|n IH]; [exists (fun _ => a0); lia|].
  destruct IH as [f Hf]; [intros i Hi; apply H; lia|]. destruct (H n) as [a Ha]; [lia|].
  exists (fun i => if Nat.eq_dec i n then a else f i). intros i Hi. destruct (Nat.eq_dec i n) as [->|]; [done|].
  apply Hf. lia.
Qed.

(** An element that must not be null. *)
Definition element_done (r : completed) (we : Marshaler * list gqlError) : Prop :=
  (erred r = true -> we.2 <> []) /\ (erred r = false -> we.2 = [])
  /\ match out r with
     | None => we.1 = Null /\ erred r = true
     | Some j => MarshalGQL we.1 = j /\ is_Null we.1 = false
     end.

Lemma elements_errors (rs : list completed) (f : nat -> Marshaler * list gqlError) k all :
  (forall i r, rs !! i = Some r -> element_done r (f (k + i)%nat)) ->
  all ≡ₚ concat (map (fun i => (f i).2) (seq k (length rs))) ->
  (existsb erred rs = true -> all <> []) /\ (existsb erred rs = false -> all = []).
Proof.
  intros Hf Hp.
  enough ((existsb erred rs = true -> concat (map (fun i => (f i).2) (seq k (length rs))) <> [])
          /\ (existsb erred rs = false -> concat (map (fun i => (f i).2) (seq k (length rs))) = [])) as [H1 H2].
  { split; intros H; [intros ->; apply (H1 H); symmetry in Hp; by apply Permutation_nil_r in Hp|].
    rewrite (H2 H) in Hp. by apply Permutation_nil_r in Hp. }
  clear Hp all. revert k Hf. induction rs as [|r rs IH]; intros k Hf; simpl; [done|].
  destruct (Hf 0%nat r eq_refl) as (H1 & H2 & _). rewrite Nat.add_0_r in H1, H2.
  destruct (IH (S k)) as [IH1 IH2]; [intros i r' Hi; replace (Datatypes.S k + i)%nat with (k + Datatypes.S i)%nat by lia; by apply (Hf (Datatypes.S i))|].
  split; intros Hor.
  - apply orb_true_iff in Hor as [Hor|Hor]; intros Hn; apply app_eq_nil in Hn as [Hn1 Hn2]; [by apply H1|by apply IH1].
  - apply orb_false_iff in Hor as [Ho1 Ho2]. by rewrite (H2 Ho1), (IH2 Ho2).
Qed.

Lemma slice_computes {T} (marshal : Ctx -> SelectionSet -> T -> gql E Marshaler) ctx sel (v : list T) (R : T -> completed) :
  (forall ctx x, In x v -> computes (marshal ctx sel x) (R x)) ->
  (forall x, In x v -> null (R x) = false) ->
  computes (marshal_slice marshal ctx sel v) (all_out (map R v) JArr).
Proof.
  intros Hc Hn errs. set (f := fun ctx i => match v !! i with Some x => marshal ctx sel x | None => panic "index out of range" end).
  destruct (finite_choice (Null, []) (fun i we => forall r, map R v !! i = Some r ->
      f (WithPathIndex ctx i) i [] = Ret (Done we.1, we.2) /\ element_done r we) (length v)) as [we Hwe].
  { intros i Hi. destruct (lookup_lt_is_Some_2 v i Hi) as [x Hx].
    pose proof (proj1 (list_elem_of_In _ _) (list_elem_of_lookup_2 _ _ _ Hx)) as Hin.
    destruct (Hc (WithPathIndex ctx i) x Hin []) as (w & es & He & [H1 H2] & Hw). exists (w, es).
    intros r Hr. change (map R v) with (R <$> v) in Hr. rewrite list_lookup_fmap, Hx in Hr. injection Hr as <-.
    split; [unfold f; rewrite Hx; exact He|]. split; [exact H1|]. split; [exact H2|]. specialize (Hn x Hin).
    destruct (out (R x)) as [j|]; [|done]. destruct Hw as (? & _ & Hw). split; [done|]. simpl. by rewrite Hw. }
  assert (Hl : forall i, (i < length v)%nat -> exists r, map R v !! i = Some r).
  { intros i Hi. apply lookup_lt_is_Some_2. by rewrite length_map. }
  destruct (slice_law E ctx (length v) f (fun i => (we i).1) (fun i => (we i).2) errs) as (all & Hp & Hs).
  { intros i Hi. destruct (Hl i Hi) as [r Hr]. apply (Hwe i Hi r Hr). }
  exists (all_or_null (map (fun i => (we i).1) (seq 0 (length v)))), all.
  split; [unfold marshal_slice; fold f; by rewrite (gbind_done _ _ _ _ _ Hs)|].
  assert (Hel : forall i r, map R v !! i = Some r -> element_done r (we (0 + i)%nat)).
  { intros i r Hr. apply (Hwe i); [|done]. apply lookup_lt_Some in Hr. by rewrite length_map in Hr. }
  split.
  - rewrite <- (length_map R v) in Hp. destruct (elements_errors (map R v) we 0 all Hel Hp) as [H1 H2].
    split; [|exact H2]. intros H Hnil. apply app_eq_nil in Hnil as [_ Hnil]. by apply (H1 H).
  - assert (Hws : Forall2 (fun w r => match out r with
                                      | None => w = Null /\ erred r = true
                                      | Some j => MarshalGQL w = j /\ is_Null w = false
                                      end) ((fun i => (we i).1) <$> seq 0 (length v)) (map R v)).
    { apply Forall2_same_length_lookup_2; [by rewrite length_fmap, length_map, length_seq|].
      intros i w r Hi Hr. rewrite list_lookup_fmap in Hi.
      destruct (seq 0 (length v) !! i) as [j'|] eqn:Hj; [|done]. injection Hi as <-.
      apply lookup_seq in Hj as [-> _]. by apply (Hel i r). }
    apply all_or_null_writes in Hws. destruct (out (all_out (map R v) JArr)) as [j|] eqn:Ho; [|done].
    destruct Hws as (Hw & Hw1 & Hw2). done.
Qed.

(** A list filled in place. *)
Lemma gmapM_plain {T} (marshal : T -> gql E Marshaler) (f : T -> Marshaler) (v : list T) errs :
  (forall x errs, marshal x errs = Ret (Done (f x), errs)) ->
  gmapM marshal v errs = Ret (Done (map f v), errs).
Proof.
  intros H. induction v as [|x v IH]; simpl; [done|].
  by rewrite (gbind_done _ _ _ _ _ (H x errs)), (gbind_done _ _ _ _ _ IH).
Qed.

Lemma ptr_computes {T} (marshal : Ctx -> SelectionSet -> T -> gql E Marshaler) ctx sel (v : option T) (R : T -> completed) :
  (forall x, v = Some x -> computes (marshal ctx sel x) (R x)) ->
  computes (marshal_ptr marshal ctx sel v) (match v with None => failed | Some x => R x end).
Proof.
  intros Hc. destruct v as [x|]; [by apply Hc|]. intros errs. destruct (null_element_done ctx errs) as (es & He & Hn).
  exists Null, es. unfold marshal_ptr. rewrite (gbind_done _ _ _ _ _ He). done.
Qed.

Lemma opt_ptr_computes {T} (marshal : Ctx -> SelectionSet -> T -> gql E Marshaler) ctx sel (v : option T) (R : T -> completed) :
  (forall x, v = Some x -> computes (marshal ctx sel x) (R x)) ->
  computes (marshal_opt_ptr marshal ctx sel v) (match v with None => null_value | Some x => R x end).
Proof. intros Hc. destruct v as [x|]; [by apply Hc|]. apply computes_null. Qed.

Lemma opt_slice_computes {T} (marshal : Ctx -> SelectionSet -> T -> gql E Marshaler) ctx sel (v : option (list T)) (R : T -> completed) :
  (forall l, v = Some l -> (forall ctx x, In x l -> computes (marshal ctx sel x) (R x)) /\ (forall x, In x l -> null (R x) = false)) ->
  computes (marshal_opt_slice marshal ctx sel v)
    (match v with None => null_value | Some l => all_out (map R l) JArr end).
Proof. intros Hc. destruct v as [l|]; [|apply computes_null]. destruct (Hc l eq_refl). by apply slice_computes. Qed.
End Lemmas.
#[export] Hint Resolve string_plain id_plain int_plain bool_plain float_plain wrap_plain array_plain fieldset_plain : graph.
