(* ===== verification/GraphIntroSpec.v ===== *)
(** Introspection follows the specification's execution too.

    Types nest through [___Type]; the lemmas take the executor of nested types as
    a hypothesis, and the recursion ties the knot. *)

From S2P Require Import Prelude Errors Prog Json Float Gqlgen GraphLeaf Graph GraphObjects GraphIntro GraphQuery GraphSchema GraphLemmas GraphSpec.
#[local] Open Scope Z_scope.
#[local] Open Scope gql_scope.

Section Arguments.
Context `{G : Gqlgen} `{L : !GqlgenLaws G} `{I : Introspection} {E : interface}.
Implicit Types (ctx : Ctx) (sel : SelectionSet) (field : CollectedField).

(** * Arguments *)

Lemma process_argument {T} (zero : T) raw name (um : Ctx -> option Any -> res T) (um' : option Any -> res T) :
  (forall ctx v, match um' v with Ok x => um ctx v = Ok x | Err _ => is_ok (um ctx v) = false end) ->
  match argument_value raw name zero um' with
  | Some x => forall ctx, ProcessArgField zero ctx raw name um = Ok x
  | None => forall ctx, is_ok (ProcessArgField zero ctx raw name um) = false
  end.
Proof.
  intros Hu. unfold argument_value. destruct (raw !! name) as [v|] eqn:Hr; [|intros ctx; by apply process_absent].
  destruct (um' v) as [x|e] eqn:Hv.
  - intros ctx. apply (process_present _ _ _ _ _ _ v); [done|]. intros ctx'. specialize (Hu ctx' v). by rewrite Hv in Hu.
  - intros ctx. apply (process_refused _ _ _ _ _ _ v); [done|]. intros ctx'. specialize (Hu ctx' v). by rewrite Hv in Hu.
Qed.

Lemma on_path_unmarshals {T} (um : option Any -> res T) ctx v :
  match um v with Ok x => on_path ctx (um v) = Ok x | Err _ => is_ok (on_path ctx (um v)) = false end.
Proof. by destruct (um v). Qed.

Lemma optional_unmarshals {T} (um : option Any -> res T) ctx v :
  match nil_or um v with Ok x => optional um ctx v = Ok x | Err _ => is_ok (optional um ctx v) = false end.
Proof. destruct v as [v|]; [|done]. simpl. by destruct (um (Some v)). Qed.

(** A context whose arguments decode, or do not. *)
Lemma context_accepts ctx field fc decode raw args errs :
  ArgumentMap field = Done raw -> (forall ctx, decode ctx raw = Ok args) ->
  context_with_arguments (E := E) ctx field fc decode errs = Ret (Done (Ok (with_args fc args)), errs).
Proof. intros Hm Hd. unfold context_with_arguments, recovering. by rewrite Hm, Hd. Qed.

Lemma context_refuses ctx field fc decode errs :
  match raw_arguments field with None => True | Some raw => forall ctx, is_ok (decode ctx raw) = false end ->
  exists e es, context_with_arguments (E := E) ctx field fc decode errs = Ret (Done (Err e), errs ++ es) /\ es <> [].
Proof.
  unfold raw_arguments, context_with_arguments, recovering. intros Hd. destruct (ArgumentMap field) as [raw|w].
  - specialize (Hd (WithFieldContext ctx fc)). destruct (decode (WithFieldContext ctx fc) raw) as [a|e]; [done|].
    exists e, [present (WithFieldContext ctx fc) e]. done.
  - eexists _, [_]. split; [reflexivity|done].
Qed.

(** A field with the flag of introspection. *)
Lemma flag_field_computes {T X} n ctx field (fc : CollectedField -> FieldContext CollectedField) decode (resolver : Ctx -> prog E (outcome (res X))) marshal nn
    (zero : T) um (k : T -> val) (x : T -> X) (arg : T -> argument) t :
  (forall raw, match argument_value raw "includeDeprecated" zero um with
               | Some b => forall ctx, decode ctx raw = Ok {[ "includeDeprecated" := arg b ]}
               | None => forall ctx, is_ok (decode ctx raw) = false
               end) ->
  (forall ctx b, resolver (WithFieldContext ctx (with_args (fc field) {[ "includeDeprecated" := arg b ]})) = Ret (Done (Ok (x b)))) ->
  (forall ctx b, computes (marshal ctx (fSelections field) (x b)) (complete n t (fSelections field) (k b))) ->
  computes (ResolveField ctx field (fun ctx field => context_with_arguments ctx field (fc field) decode) resolver marshal true nn)
    (match flag_argument field zero um k with None => failed | Some v => complete_with (execute n) t (fSelections field) v end).
Proof.
  intros Hd Hr Hc. unfold flag_argument.
  destruct (raw_arguments field) as [raw|] eqn:Hraw; simpl.
  - specialize (Hd raw). destruct (argument_value raw "includeDeprecated" zero um) as [b|]; simpl.
    + unfold raw_arguments in Hraw. destruct (ArgumentMap field) as [raw'|] eqn:Hm; [|done]. injection Hraw as ->.
      eapply resolve_computes; [intros errs; by eapply context_accepts|apply Hr|intros ?; apply Hc].
    + apply refused_computes. intros errs. apply context_refuses. by rewrite Hraw.
  - apply refused_computes. intros errs. apply context_refuses. by rewrite Hraw.
Qed.

Lemma bool_flag_decodes raw :
  match argument_value raw "includeDeprecated" false UnmarshalBoolean with
  | Some b => forall ctx, field___Type_fields_args ctx raw = Ok {[ "includeDeprecated" := ArgBool b ]}
  | None => forall ctx, is_ok (field___Type_fields_args ctx raw) = false
  end.
Proof.
  pose proof (process_argument false raw "includeDeprecated" unmarshalOBoolean2bool UnmarshalBoolean (on_path_unmarshals _)) as H.
  destruct (argument_value _ _ _ _); intros ctx; specialize (H ctx); unfold field___Type_fields_args.
  - by rewrite H.
  - by destruct (ProcessArgField _ _ _ _ _).
Qed.

Lemma ptr_flag_decodes raw :
  match argument_value raw "includeDeprecated" None (nil_or UnmarshalBoolean) with
  | Some b => forall ctx, field___Field_args_args ctx raw = Ok {[ "includeDeprecated" := ArgBoolPtr b ]}
  | None => forall ctx, is_ok (field___Field_args_args ctx raw) = false
  end.
Proof.
  pose proof (process_argument None raw "includeDeprecated" unmarshalOBoolean2ptr_bool (nil_or UnmarshalBoolean) (optional_unmarshals _)) as H.
  destruct (argument_value _ _ _ _); intros ctx; specialize (H ctx); unfold field___Field_args_args.
  - by rewrite H.
  - by destruct (ProcessArgField _ _ _ _ _).
Qed.

(** * Fuel *)

Lemma valid_enough m n t sel : valid n t sel -> (depth sel < m)%nat -> valid m t sel.
Proof.
  revert n t sel. induction m as [|m IH]; intros [|n] t sel; simpl; [done..|lia|done|].
  intros Hv Hd f Hin. destruct (Hv f Hin) as [Hn|(ft & Hf & Hs)]; [by left|]. right. exists ft. split; [done|].
  intros Hne. eapply IH; [by apply Hs|]. apply collected_depth in Hin. lia.
Qed.

Lemma complete_with_ext ob1 ob2 t sel v :
  (forall o, ob1 sel o = ob2 sel o) -> complete_with ob1 t sel v = complete_with ob2 t sel v.
Proof.
  intros H. revert v. induction t as [name|t IH|t IH]; intros v; cbn [complete_with]; [destruct v; done| |by rewrite IH].
  destruct v; [done..| |done]. f_equal. apply map_ext. intros v. by rewrite IH.
Qed.

Lemma execute_enough n m sel o : (depth sel < n)%nat -> (depth sel < m)%nat -> execute n sel o = execute m sel o.
Proof.
  revert m sel o. induction n as [|n IH]; intros [|m] sel o; [lia..|]. intros Hn Hm. rewrite !execute_S. f_equal.
  apply map_ext_in. intros f Hin. unfold field_result. destruct (String.eqb _ _); [done|].
  destruct (field_type _ _) as [t|]; [|done]. destruct (field_of f o) as [v|]; [|done]. f_equal.
  apply complete_with_ext. intros o'. apply collected_depth in Hin. apply IH; lia.
Qed.
End Arguments.

Section Intro.
Context `{G : Gqlgen} `{L : !GqlgenLaws G} `{I : Introspection} {E : interface}.
Implicit Types (ctx : Ctx) (sel : SelectionSet) (field : CollectedField).

Abbreviation executor T := (Ctx -> SelectionSet -> T -> gql_ gqlError E Marshaler).

(** [marshal] executes objects [c o] of type [t], down to [n] levels. *)
Definition executes {T} (n : nat) (t : string) (c : T -> obj) (marshal : executor T) : Prop :=
  forall ctx sel o, valid n t sel -> computes (marshal ctx sel o) (execute n sel (c o)).

Lemma executes_0 {T} t (c : T -> obj) marshal : executes 0 t c marshal.
Proof. by intros ctx sel o []. Qed.

(** ** Pointers and lists of objects *)

Section Shapes.
Context {T} (n : nat) (t : string) (c : T -> obj) (marshal : executor T).
Context (Hm : executes n t c marshal).

Lemma object_ptr ctx sel v : valid n t sel ->
  computes (marshal_ptr marshal ctx sel v)
    (complete n (NonNull (Named t)) sel (nullable_val (fun o => VObj (c o)) v)).
Proof.
  intros Hv. pose proof (ptr_computes marshal ctx sel v (fun o => execute n sel (c o))) as H. destruct v; apply H; intros; by apply Hm.
Qed.

Lemma object_opt_ptr ctx sel v : valid n t sel ->
  computes (marshal_opt_ptr marshal ctx sel v) (complete n (Named t) sel (nullable_val (fun o => VObj (c o)) v)).
Proof.
  intros Hv. pose proof (opt_ptr_computes marshal ctx sel v (fun o => execute n sel (c o))) as H. destruct v; apply H; intros; by apply Hm.
Qed.

Lemma objects_completed sel (l : list T) :
  complete n (ListOf (NonNull (Named t))) sel (VList (map (fun o => VObj (c o)) l))
  = all_out (map (fun o => execute n sel (c o)) l) JArr.
Proof. unfold complete. cbn [complete_with]. by rewrite map_map. Qed.

Lemma object_slice ctx sel l : valid n t sel ->
  computes (marshal_slice marshal ctx sel l)
    (complete n (NonNull (ListOf (NonNull (Named t)))) sel (VList (map (fun o => VObj (c o)) l))).
Proof.
  intros Hv. change (complete n (NonNull ?t) sel (VList ?l)) with (complete n t sel (VList l)). rewrite objects_completed.
  apply slice_computes; [intros ctx' o _; by apply Hm|intros o _; apply execute_not_null].
Qed.

Lemma object_opt_slice ctx sel v : valid n t sel ->
  computes (marshal_opt_slice marshal ctx sel v)
    (complete n (ListOf (NonNull (Named t))) sel (nullable_val (fun l => VList (map (fun o => VObj (c o)) l)) v)).
Proof.
  intros Hv. pose proof (opt_slice_computes marshal ctx sel v (fun o => execute n sel (c o))) as H.
  destruct v as [l|]; [|by apply H]. simpl nullable_val. rewrite objects_completed. apply H. intros l' [= <-].
  split; [intros ctx' o _; by apply Hm|intros o _; apply execute_not_null].
Qed.
End Shapes.

Lemma ptr_not_null n t sel {T} (c : T -> obj) v :
  null (complete_with (execute n) (NonNull (Named t)) sel (nullable_val (fun o => VObj (c o)) v)) = false.
Proof. destruct v; [|done]. apply execute_not_null. Qed.

Lemma flag_not_null {T} n field (zero : T) um k t :
  (forall b, null (complete_with (execute n) t (fSelections field) (k b)) = false) ->
  null (match flag_argument field zero um k with None => failed | Some v => complete_with (execute n) t (fSelections field) v end) = false.
Proof.
  intros H. unfold flag_argument. destruct (raw_arguments field) as [raw|]; [|done].
  simpl. destruct (argument_value _ _ _ _); [apply H|done].
Qed.
End Intro.

(** A field that leads to objects, which [H] executes. *)
Ltac object_field H :=
  eapply resolve_computes; [intros ?; reflexivity|reflexivity|intros ?];
  first [eapply object_ptr|eapply object_opt_ptr|eapply object_slice|eapply object_opt_slice]; [exact H|];
  match goal with Hs : _ -> _ |- _ => apply Hs; discriminate end.

(** The same behind an [includeDeprecated] flag. *)
Ltac flag_field H decodes :=
  eapply flag_field_computes; [apply decodes|intros ? ?; unfold with_arg, arg_of, assert_arg; rewrite ?get_with_field_context; reflexivity|intros ? ?];
  first [eapply object_slice|eapply object_opt_slice]; [exact H|];
  match goal with Hs : _ -> _ |- _ => apply Hs; discriminate end.

Section Types.
Context `{G : Gqlgen} `{L : !GqlgenLaws G} `{I : Introspection} {E : interface}.
Implicit Types (ctx : Ctx) (sel : SelectionSet) (field : CollectedField) (tb : Ctx -> SelectionSet -> Type_ -> gql_ gqlError E Marshaler).

Lemma InputValue_executes n tb :
  executes n "__Type" OType tb -> executes (S n) "__InputValue" OInputValue (___InputValue tb).
Proof.
  intros Ht ctx sel o Hv. rewrite execute_S. apply object_computes. field_cases Hv @field_of___InputValue.
  all: first [slot_field | apply required_fills; [|apply ptr_not_null]]; try value_field.
  object_field Ht.
Qed.

Lemma EnumValue_executes n : executes (E := E) n "__EnumValue" OEnumValue ___EnumValue.
Proof.
  destruct n as [|n]; [apply executes_0|]. intros ctx sel o Hv. rewrite execute_S. apply object_computes. field_cases Hv @field_of___EnumValue.
  all: slot_field; value_field.
Qed.

Lemma Field_executes n tb :
  executes n "__Type" OType tb -> executes n "__InputValue" OInputValue (___InputValue tb) ->
  executes (S n) "__Field" OField (___Field tb).
Proof.
  intros Ht Hiv ctx sel o Hv. rewrite execute_S. apply object_computes. field_cases Hv @field_of___Field.
  all: first [slot_field | apply required_fills; [|first [apply ptr_not_null|apply flag_not_null; intros ?; reflexivity]]]; try value_field.
  - flag_field Hiv ptr_flag_decodes.
  - object_field Ht.
Qed.

Lemma DirectiveLocation_slice_computes n ctx sel v :
  computes (E := E) (marshalN__DirectiveLocation2slice ctx sel v)
    (complete n (NonNull (ListOf (NonNull (Named "__DirectiveLocation")))) sel (VList (map string_leaf v))).
Proof.
  rewrite strings_completed, <- (all_out_leaves (map (fun s => MarshalGQL (MarshalString s)) v) JArr), map_map.
  apply slice_computes; [intros ctx' x _; apply marshalNString_computes|intros x _; reflexivity].
Qed.

Lemma Directive_executes n tb :
  executes n "__InputValue" OInputValue (___InputValue tb) -> executes (S n) "__Directive" ODirective (___Directive tb).
Proof.
  intros Hiv ctx sel o Hv. rewrite execute_S. apply object_computes. field_cases Hv @field_of___Directive.
  all: first [slot_field | apply required_fills; [|apply flag_not_null; intros ?; reflexivity]]; try value_field.
  - eapply resolve_computes; [intros ?; apply scalar_pure|reflexivity|intros ?; apply DirectiveLocation_slice_computes].
  - flag_field Hiv ptr_flag_decodes.
Qed.

Lemma Schema_executes n tb :
  executes n "__Type" OType tb -> executes n "__Directive" ODirective (___Directive tb) ->
  executes (S n) "__Schema" OSchema (___Schema tb).
Proof.
  intros Ht Hd ctx sel o Hv. rewrite execute_S. apply object_computes. field_cases Hv @field_of___Schema.
  all: first [slot_field | apply required_fills; [|apply ptr_not_null]]; try value_field.
  all: first [object_field Ht | object_field Hd].
Qed.

Lemma Type_once_executes n tb :
  executes n "__Type" OType tb -> executes n "__Field" OField (___Field tb) ->
  executes n "__InputValue" OInputValue (___InputValue tb) ->
  executes (S n) "__Type" OType (___Type_once tb).
Proof.
  intros Ht Hf Hiv ctx sel o Hv. rewrite execute_S. apply object_computes. field_cases Hv @field_of___Type.
  all: slot_field; try value_field.
  all: first [ object_field Ht | object_field Hiv | flag_field Hf bool_flag_decodes
             | flag_field (EnumValue_executes n) bool_flag_decodes ].
Qed.

(** ** The knot *)

Definition executes_upto (m : nat) {T} (t : string) (c : T -> obj) (marshal : Ctx -> SelectionSet -> T -> gql_ gqlError E Marshaler) : Prop :=
  forall k, (k <= m)%nat -> executes k t c marshal.

Lemma InputValue_upto m tb : executes_upto m "__Type" OType tb -> executes_upto m "__InputValue" OInputValue (___InputValue tb).
Proof. intros Ht [|k] Hk; [apply executes_0|]. apply InputValue_executes, Ht. lia. Qed.

Lemma Field_upto m tb : executes_upto m "__Type" OType tb -> executes_upto m "__Field" OField (___Field tb).
Proof.
  intros Ht [|k] Hk; [apply executes_0|]. apply Field_executes; [apply Ht; lia|]. apply (InputValue_upto m); [done|lia].
Qed.

Lemma Directive_upto m tb : executes_upto m "__Type" OType tb -> executes_upto m "__Directive" ODirective (___Directive tb).
Proof. intros Ht [|k] Hk; [apply executes_0|]. apply Directive_executes, (InputValue_upto m); [done|lia]. Qed.

Lemma Schema_upto m tb : executes_upto m "__Type" OType tb -> executes_upto m "__Schema" OSchema (___Schema tb).
Proof.
  intros Ht [|k] Hk; [apply executes_0|]. apply Schema_executes; [apply Ht; lia|]. apply (Directive_upto m); [done|lia].
Qed.

Lemma Type_at_executes m : executes_upto m "__Type" OType (___Type_at m).
Proof.
  induction m as [|m IH]; intros [|k] Hk; [apply executes_0|lia|apply executes_0|].
  apply Type_once_executes; [apply IH; lia|apply (Field_upto m); [done|lia]|apply (InputValue_upto m); [done|lia]].
Qed.

(** The depth of the selection set is fuel enough. *)
Lemma Type_executes n : executes (E := E) n "__Type" OType ___Type.
Proof.
  intros ctx sel o Hv. unfold ___Type. destruct (decide (n <= S (depth sel))%nat) as [Hn|Hn].
  - by apply (Type_at_executes (S (depth sel))).
  - rewrite (execute_enough n (S (depth sel))) by lia.
    apply (Type_at_executes (S (depth sel))); [done|]. apply (valid_enough _ _ _ _ Hv). lia.
Qed.

Lemma Schema_all_executes n : executes (E := E) n "__Schema" OSchema (___Schema ___Type).
Proof. apply (Schema_upto n); [|done]. intros k _. apply Type_executes. Qed.
End Types.
