(* ===== verification/GraphRoot.v ===== *)
(** The root of a query: every goroutine follows the specification.

    [root_val] is the specification's resolution of one selected field of the
    query: its arguments decoded, its resolver called.  [psim] relates it to the
    program the generated code runs for the field: the same calls in the same
    order, and results that match.  Matching programs stay in step under every
    scheduler. *)

From S2P Require Import Prelude Errors Prog Json Float Gqlgen GraphLeaf Graph GraphObjects GraphIntro GraphQuery GraphSchema.
From S2P Require Import GraphLemmas GraphSpec GraphIntroSpec.
#[local] Open Scope Z_scope.

(** * Programs that make the same calls *)


Section Sim.
Context {E : interface} {A B : Type} (Q : A -> B -> Prop).

Inductive psim : prog E A -> prog E B -> Prop :=
| psim_ret a b : Q a b -> psim (Ret a) (Ret b)
| psim_do X (e : E X) k k' : (forall x, psim (k x) (k' x)) -> psim (Do e k) (Do e k').

Lemma psim_bind {T} (p : prog E T) f g :
  (forall o, psim (f o) (g o)) -> psim (bind p f) (bind p g).
Proof. intros H. induction p as [o|X e k IH]; simpl; [done|]. by constructor. Qed.

Lemma psim_bind2 {T U} (p : prog E T) f (g : T -> prog E U) h :
  (forall o, psim (f o) (bind (g o) h)) -> psim (bind p f) (bind (bind p g) h).
Proof. intros H. induction p as [o|X e k IH]; simpl; [done|]. by constructor. Qed.

Lemma psim_bind3 {T U V} (p : prog E T) f (g : T -> prog E U) (h1 : U -> prog E V) h2 :
  (forall o, psim (f o) (bind (bind (g o) h1) h2)) -> psim (bind p f) (bind (bind (bind p g) h1) h2).
Proof. intros H. induction p as [o|X e k IH]; simpl; [done|]. by constructor. Qed.

Lemma psim_step {S} (h : handler E S) p q s :
  psim p q ->
  match step1 h p s, step1 h q s with
  | Some (p', s1), Some (q', s2) => psim p' q' /\ s1 = s2
  | None, None => True
  | _, _ => False
  end.
Proof. intros [a b _|X e k k' Hk]; simpl; [done|]. destruct (h X e s) as [x s']. by split. Qed.

Lemma psim_ret_inv p q : psim p q -> match p with Ret a => exists b, q = Ret b /\ Q a b | Do _ _ => True end.
Proof. intros [a b H|]; [|done]. by exists b. Qed.

Lemma psim_run {S} (h : handler E S) p q s :
  psim p q -> Q (run h p s).1 (run h q s).1 /\ (run h p s).2 = (run h q s).2.
Proof.
  intros H. revert s. induction H as [a b H|X e k k' _ IH]; intros s; simpl; [done|]. destruct (h X e s). apply IH.
Qed.
End Sim.

(** Pools of matching programs stay in step, whatever the scheduler does. *)
Section SimPool.
Context {E : interface} {A B S V : Type} (h : handler E S) (env : V -> S -> S).

Definition pool_sim (Qs : list (A -> B -> Prop)) (ps : list (prog E A)) (qs : list (prog E B)) : Prop :=
  length ps = length Qs /\ length qs = length Qs
  /\ forall i Q p q, Qs !! i = Some Q -> ps !! i = Some p -> qs !! i = Some q -> psim Q p q.

Lemma pool_sim_sched1 Qs d ps qs s :
  pool_sim Qs ps qs ->
  pool_sim Qs (sched1 h env d (ps, s)).1 (sched1 h env d (qs, s)).1
  /\ (sched1 h env d (ps, s)).2 = (sched1 h env d (qs, s)).2.
Proof.
  intros (Hp & Hq & Hs). destruct d as [i|v]; [|by simpl]. simpl.
  destruct (ps !! i) as [p|] eqn:Hi.
  - destruct (lookup_lt_is_Some_2 Qs i) as [Q HQ]; [rewrite <- Hp; by eapply lookup_lt_Some|].
    destruct (lookup_lt_is_Some_2 qs i) as [q Hqi]; [rewrite Hq; by eapply lookup_lt_Some|].
    rewrite Hqi. simpl. pose proof (psim_step Q h p q s (Hs i Q p q HQ Hi Hqi)) as Hst.
    destruct (step1 h p s) as [[p' s1]|], (step1 h q s) as [[q' s2]|]; [|done..]. destruct Hst as [Hst ->].
    split; [|done]. simpl. split; [by rewrite length_insert|]. split; [by rewrite length_insert|].
    intros j Q' p1 q1 HQ' Hp1 Hq1. destruct (decide (i = j)) as [<-|Hne].
    + rewrite list_lookup_insert_eq in Hp1 by (by eapply lookup_lt_Some).
      rewrite list_lookup_insert_eq in Hq1 by (by eapply lookup_lt_Some). congruence.
    + rewrite list_lookup_insert_ne in Hp1 by done. rewrite list_lookup_insert_ne in Hq1 by done. by eapply Hs.
  - assert (qs !! i = None) as -> by (apply lookup_ge_None; apply lookup_ge_None in Hi; lia). done.
Qed.

Lemma pool_sim_sched Qs ds ps qs s :
  pool_sim Qs ps qs ->
  pool_sim Qs (sched h env ds (ps, s)).1 (sched h env ds (qs, s)).1
  /\ (sched h env ds (ps, s)).2 = (sched h env ds (qs, s)).2.
Proof.
  revert ps qs s. induction ds as [|d ds IH]; intros ps qs s Hs; [done|].
  destruct (pool_sim_sched1 Qs d ps qs s Hs) as [H1 H2]. unfold sched in *. simpl.
  destruct (sched1 h env d (ps, s)) as [ps' s'], (sched1 h env d (qs, s)) as [qs' s'']. simpl in *. subst s''. by apply IH.
Qed.

(** When the one pool has returned, so has the other. *)
Lemma pool_sim_done Qs (xs : list A) qs :
  pool_sim Qs (map Ret xs) qs ->
  exists ys, qs = map Ret ys /\ length xs = length Qs /\ length ys = length Qs
    /\ forall i Q x y, Qs !! i = Some Q -> xs !! i = Some x -> ys !! i = Some y -> Q x y.
Proof.
  intros (Hp & Hq & Hs). rewrite length_map in Hp.
  assert (exists ys, qs = map Ret ys /\ forall i Q x y, Qs !! i = Some Q -> xs !! i = Some x -> ys !! i = Some y -> Q x y) as (ys & -> & Hys).
  { revert xs qs Hp Hq Hs. induction Qs as [|Q Qs IH]; intros [|x xs] [|q qs] Hp Hq Hs; try discriminate.
    - by exists [].
    - simpl in Hp, Hq. pose proof (psim_ret_inv _ _ _ (Hs 0%nat Q (Ret x) q eq_refl eq_refl eq_refl)) as (y & -> & Hy).
      destruct (IH xs qs) as (ys & -> & Hys); [lia|lia|intros i Q' p q' HQ' Hp' Hq'; by apply (Hs (Datatypes.S i))|].
      exists (y :: ys). split; [done|]. intros [|i] Q' x' y' HQ' Hx' Hy'; simpl in *; [congruence|]. by eapply Hys. }
  exists ys. rewrite length_map in Hq. done.
Qed.
End SimPool.

Lemma psim_flip {E : interface} {A B} (Q : A -> B -> Prop) (p : prog E A) q : psim Q p q -> psim (fun b a => Q a b) q p.
Proof. induction 1; by constructor. Qed.

Lemma pool_sim_flip {E : interface} {A B} Qs (ps : list (prog E A)) (qs : list (prog E B)) :
  pool_sim Qs ps qs -> pool_sim (map (fun Q b a => Q a b) Qs) qs ps.
Proof.
  intros (Hp & Hq & Hs). split; [by rewrite length_map|]. split; [by rewrite length_map|].
  intros i Q q p HQ Hqi Hpi. apply lookup_map_inv in HQ as (Q' & HQ & ->). apply psim_flip. by eapply Hs.
Qed.

(** One program after the other is a schedule. *)
Lemma sched_one {E : interface} {A S V} (h : handler E S) (env : V -> S -> S) p (before after : list (prog E A)) s :
  exists ds, sched h env ds (before ++ p :: after, s) = (before ++ Ret (run h p s).1 :: after, (run h p s).2).
Proof.
  revert s. induction p as [a|X e k IH]; intros s; [by exists []|].
  simpl. destruct (h X e s) as [x s1] eqn:Hh. destruct (IH x s1) as (ds & Hds).
  exists (Run (length before) :: ds). unfold sched in *. simpl. rewrite list_lookup_middle by done. simpl. rewrite Hh.
  by rewrite insert_app_r_alt, Nat.sub_diag by lia.
Qed.

Lemma sched_in_order {E : interface} {A S V} (h : handler E S) (env : V -> S -> S) (ts : list (prog E A)) s :
  exists ds, sched h env ds (ts, s) = (map Ret (run h (in_order ts) s).1, (run h (in_order ts) s).2).
Proof.
  enough (forall before, exists ds, sched h env ds (map Ret before ++ ts, s)
    = (map Ret (before ++ (run h (in_order ts) s).1), (run h (in_order ts) s).2)) as H by apply (H []).
  revert s. induction ts as [|p ts IH]; intros s before; [exists []; by rewrite !app_nil_r|].
  destruct (sched_one h env p (map Ret before) ts s) as (d1 & Hd1). simpl. rewrite !run_bind.
  destruct (run h p s) as [a s1]. destruct (IH s1 (before ++ [a])) as (d2 & Hd2). rewrite run_bind.
  destruct (run h (in_order ts) s1) as [l s2]. exists (d1 ++ d2). unfold sched in *. rewrite fold_left_app, Hd1.
  simpl in *. rewrite map_app, <- !app_assoc in Hd2. simpl in Hd2. by rewrite Hd2.
Qed.

(** * The root fields *)

Section Root.
Context `{G : Gqlgen} `{L : !GqlgenLaws G} `{I : Introspection} {E : interface} (R : QueryResolver E).
Implicit Types (ctx : Ctx) (sel : SelectionSet) (field : CollectedField).

(** What the program of a field ends with, for the value the specification
    resolves. *)
Definition field_done (r : completed) (x : result) : Prop :=
  exists w k, x.1 = Done (w, k) /\ errors_for r [] x.2
    /\ match out r with
       | None => (0 < k)%nat /\ erred r = true
       | Some j => k = 0%nat /\ MarshalGQL w = j
       end.

Definition matches (n : nat) field (v : option val) (x : result) : Prop :=
  field_done (root_result n field v) x.

Lemma fills_done (m : slot E) r : fills m r -> exists x, m [] = Ret x /\ field_done r x.
Proof. intros H. destruct (H []) as (w & k & es & He & Hr). exists (Done (w, k), es). split; [done|]. by exists w, k. Qed.

Lemma settle_computes {T} ctx (marshal : T -> gql_ gqlError E Marshaler) o r :
  (forall v, o = Done (Ok v) -> computes (marshal v) r) ->
  computes (settle ctx marshal o) (match o with Done (Ok _) => r | _ => failed end).
Proof.
  assert (Hfail : forall e, computes (E := E) (gbind (AddError ctx e) (fun _ => pure Null)) failed).
  { intros e errs. exists Null, [present ctx e]. split; [done|]. split; [|done]. split; [by destruct errs|done]. }
  intros Hc. destruct o as [[v|e]|w]; [|apply Hfail..]. intros errs.
  destruct (Hc v eq_refl errs) as (w & es & He & Hr). exists w, es. split; [|done]. simpl. unfold recovering. by rewrite He.
Qed.

(** A field resolved in a goroutine, or in place. *)
Definition at_root (m : gql_ gqlError E Marshaler) (invalid : Marshaler -> bool) : slot E :=
  gbind m (fun w => pure (w, if invalid w then 1%nat else 0%nat)).

Lemma root_field_run innerCtx invalid m errs :
  root_field (E := E) innerCtx invalid m errs
  = recovering (at_root (m innerCtx) invalid) (fun p => gbind (AddError innerCtx (Recover p)) (fun _ => pure (nil_marshaler, 0%nat))) errs.
Proof. unfold root_field. by rewrite middleware_law. Qed.

Lemma intro_field_run innerCtx m errs :
  intro_field (E := E) innerCtx m errs = at_root (m innerCtx) is_RequiredNull errs.
Proof. unfold intro_field, at_root, gbind. by rewrite middleware_law. Qed.

Definition invalid_for (t : gtype) (invalid : Marshaler -> bool) : Prop :=
  match t with NonNull _ => invalid = is_Null | _ => invalid = is_RequiredNull end.

Lemma at_root_fills m invalid t r :
  invalid_for t invalid -> (match t with NonNull _ => null r = false | _ => True end) ->
  computes m r -> fills (at_root m invalid) (absorb t r).
Proof.
  intros Hi Hn Hc. destruct t; simpl in Hi; subst invalid; [by apply nullable_absorb..|].
  change (at_root m is_Null) with (required m). by apply required_fills.
Qed.

Section Field.
Context (n : nat) (field : CollectedField) (t : gtype) (invalid : Marshaler -> bool).
Context (Hname : String.eqb (fName field) "__typename" = false) (Ht : lookup_in query_fields (fName field) = Some t).
Context (Hi : invalid_for t invalid).

Lemma root_result_some v : root_result n field (Some v) = absorb t (complete n t (fSelections field) v).
Proof. unfold root_result. by rewrite Hname, Ht. Qed.

Lemma root_result_none : root_result n field None = absorb t failed.
Proof. unfold root_result. by rewrite Hname, Ht. Qed.

(** A settled field. *)
Lemma settled_fills {T} ctx (marshal : T -> gql_ gqlError E Marshaler) (k : T -> val) o :
  (forall v, computes (marshal v) (complete n t (fSelections field) (k v))) ->
  (forall v, match t with NonNull _ => null (complete n t (fSelections field) (k v)) = false | _ => True end) ->
  fills (at_root (settle ctx marshal o) invalid)
    (root_result n field (match o with Done (Ok a) => Some (k a) | _ => None end)).
Proof.
  intros Hc Hn. destruct o as [[a|e]|w].
  - rewrite root_result_some. apply at_root_fills; [done|apply Hn|].
    apply (settle_computes ctx marshal (Done (Ok a))). by intros v [= ->].
  - rewrite root_result_none. apply at_root_fills; [done|by destruct t|]. by apply (settle_computes ctx marshal (Done (Err e)) failed).
  - rewrite root_result_none. apply at_root_fills; [done|by destruct t|]. by apply (settle_computes ctx marshal (Panics w) failed).
Qed.

Section Resolved.
Context {T : Type} (innerCtx : Ctx) (init : Ctx -> CollectedField -> gql_ gqlError E (res (FieldContext CollectedField))).
Context (resolver : Ctx -> prog E (outcome (res T))) (marshal : Ctx -> SelectionSet -> T -> gql_ gqlError E Marshaler) (nn : bool).

(** The field's context is made and its resolver called, in a goroutine. *)
Lemma concurrent_sim fc (k : T -> val) p :
  init innerCtx field [] = Ret (Done (Ok fc), []) -> resolver (WithFieldContext innerCtx fc) = p ->
  (forall ctx v, computes (marshal ctx (fSelections field) v) (complete n t (fSelections field) (k v))) ->
  (forall v, match t with NonNull _ => null (complete n t (fSelections field) (k v)) = false | _ => True end) ->
  psim (matches n field) (answer k p)
    (root_field innerCtx invalid (fun ctx => ResolveField ctx field init resolver marshal true nn) []).
Proof.
  intros Hinit <- Hc Hn. rewrite root_field_run. unfold recovering, at_root at 1, gbind at 1.
  rewrite (resolve_law _ _ _ _ _ _ _ _ _ _ _ Hinit). apply psim_bind3. intros o.
  destruct (settled_fills (WithFieldContext innerCtx fc) (marshal (WithFieldContext innerCtx fc) (fSelections field)) k o
    (Hc _) Hn []) as (w & kk & es & He & Hd).
  unfold at_root, gbind in He. rewrite He. simpl. apply psim_ret. by exists w, kk.
Qed.

(** In place. *)
Lemma inplace_sim fc (k : T -> val) p :
  invalid = is_RequiredNull ->
  init innerCtx field [] = Ret (Done (Ok fc), []) -> resolver (WithFieldContext innerCtx fc) = p ->
  (forall ctx v, computes (marshal ctx (fSelections field) v) (complete n t (fSelections field) (k v))) ->
  (forall v, match t with NonNull _ => null (complete n t (fSelections field) (k v)) = false | _ => True end) ->
  psim (matches n field) (answer k p)
    (intro_field innerCtx (fun ctx => ResolveField ctx field init resolver marshal true nn) []).
Proof.
  intros Hinv Hinit <- Hc Hn. rewrite intro_field_run. unfold at_root at 1, gbind at 1.
  rewrite (resolve_law _ _ _ _ _ _ _ _ _ _ _ Hinit). apply psim_bind2. intros o.
  destruct (settled_fills (WithFieldContext innerCtx fc) (marshal (WithFieldContext innerCtx fc) (fSelections field)) k o
    (Hc _) Hn []) as (w & kk & es & He & Hd).
  rewrite Hinv in He. eapply (eq_ind_r (fun q => psim (matches n field) _ q)); [|exact He]. apply psim_ret. by exists w, kk.
Qed.

(** The arguments are refused. *)
Lemma refused_fills :
  (forall errs, exists e es, init innerCtx field errs = Ret (Done (Err e), errs ++ es) /\ es <> []) ->
  fills (at_root (ResolveField innerCtx field init resolver marshal true nn) invalid) (root_result n field None).
Proof.
  intros Hr. rewrite root_result_none. apply at_root_fills; [done|by destruct t|]. by apply refused_computes.
Qed.

Lemma concurrent_refused :
  (forall errs, exists e es, init innerCtx field errs = Ret (Done (Err e), errs ++ es) /\ es <> []) ->
  psim (matches n field) (Ret None)
    (root_field innerCtx invalid (fun ctx => ResolveField ctx field init resolver marshal true nn) []).
Proof.
  intros Hr. destruct (refused_fills Hr []) as (w & kk & es & He & Hd). rewrite root_field_run. unfold recovering.
  rewrite He. simpl. apply psim_ret. by exists w, kk.
Qed.

Lemma inplace_refused :
  invalid = is_RequiredNull ->
  (forall errs, exists e es, init innerCtx field errs = Ret (Done (Err e), errs ++ es) /\ es <> []) ->
  psim (matches n field) (Ret None)
    (intro_field innerCtx (fun ctx => ResolveField ctx field init resolver marshal true nn) []).
Proof.
  intros Hinv Hr. destruct (refused_fills Hr []) as (w & kk & es & He & Hd). rewrite intro_field_run, <- Hinv.
  rewrite He. apply psim_ret. by exists w, kk.
Qed.
End Resolved.
End Field.

(** ** The objects a query leads to *)

Lemma executes_S {T} t (c : T -> obj) (marshal : Ctx -> SelectionSet -> T -> gql_ gqlError E Marshaler) :
  (forall n ctx sel o, valid (S n) t sel -> computes (marshal ctx sel o) (execute (S n) sel (c o))) ->
  forall n, executes n t c marshal.
Proof. intros H [|n]; [apply executes_0|]. intros ctx sel o. apply H. Qed.

Lemma many_computes {T} n t (c : T -> obj) (marshal : Ctx -> SelectionSet -> T -> gql_ gqlError E Marshaler) ctx sel v :
  executes n t c marshal -> valid n t sel ->
  computes (marshal_slice (marshal_ptr marshal) ctx sel v)
    (complete n (NonNull (ListOf (NonNull (Named t)))) sel (many c v)).
Proof.
  intros Hm Hv. unfold many.
  replace (complete n _ sel _) with (all_out (map (fun x => complete n (NonNull (Named t)) sel (one c x)) v) JArr).
  - apply slice_computes; [|intros x _; apply ptr_not_null]. intros ctx' x _. by apply object_ptr.
  - unfold complete. cbn [complete_with]. by rewrite map_map.
Qed.

(** ** Arguments *)

Lemma arg_of_with {T} (p : argument -> option T) ctx fc args name :
  arg_of p (WithFieldContext ctx (with_args fc args)) name = assert_arg p name args.
Proof. unfold arg_of. by rewrite get_with_field_context. Qed.

Lemma process_string raw name um um' :
  (forall ctx v, um ctx v = on_path ctx (um' v)) ->
  match argument_value raw name "" um' with
  | Some x => forall ctx, ProcessArgField "" ctx raw name um = Ok x
  | None => forall ctx, is_ok (ProcessArgField "" ctx raw name um) = false
  end.
Proof. intros H. apply process_argument. intros ctx v. rewrite H. apply on_path_unmarshals. Qed.

Lemma process_nullable {T} raw name (um : option Any -> res T) :
  match argument_value raw name None (nil_or um) with
  | Some x => forall ctx, ProcessArgField None ctx raw name (optional um) = Ok x
  | None => forall ctx, is_ok (ProcessArgField None ctx raw name (optional um)) = false
  end.
Proof. apply process_argument. apply optional_unmarshals. Qed.

Section Decoded.
Context (n : nat) (field : CollectedField) (t : gtype) (invalid : Marshaler -> bool).
Context (Hname : String.eqb (fName field) "__typename" = false) (Ht : lookup_in query_fields (fName field) = Some t).
Context (Hi : invalid_for t invalid).
Context {T : Type} (innerCtx : Ctx) (init : Ctx -> CollectedField -> gql_ gqlError E (res (FieldContext CollectedField))).
Context (resolver : Ctx -> prog E (outcome (res T))) (marshal : Ctx -> SelectionSet -> T -> gql_ gqlError E Marshaler) (nn : bool).
Context (fc : FieldContext CollectedField) (decode : Ctx -> gmap string (option Any) -> res (gmap string argument)).
Context (Hinit : forall ctx, init ctx field = context_with_arguments ctx field fc decode).

Lemma accepted_init raw args errs :
  raw_arguments field = Some raw -> (forall ctx, decode ctx raw = Ok args) ->
  init innerCtx field errs = Ret (Done (Ok (with_args fc args)), errs).
Proof.
  intros Hraw Hd. unfold raw_arguments in Hraw. destruct (ArgumentMap field) as [raw'|] eqn:Hm; [|done]. injection Hraw as ->.
  rewrite Hinit. by apply (context_accepts _ _ _ _ raw).
Qed.

Lemma accepted_sim raw args (k : T -> val) p :
  raw_arguments field = Some raw -> (forall ctx, decode ctx raw = Ok args) ->
  resolver (WithFieldContext innerCtx (with_args fc args)) = p ->
  (forall ctx v, computes (marshal ctx (fSelections field) v) (complete n t (fSelections field) (k v))) ->
  (forall v, match t with NonNull _ => null (complete n t (fSelections field) (k v)) = false | _ => True end) ->
  psim (matches n field) (answer k p)
    (root_field innerCtx invalid (fun ctx => ResolveField ctx field init resolver marshal true nn) []).
Proof.
  intros Hraw Hd Hp Hc Hn. apply concurrent_sim with t (with_args fc args); [done..| |done|done|done].
  by apply (accepted_init raw).
Qed.

Lemma rejected_sim :
  match raw_arguments field with None => True | Some raw => forall ctx, is_ok (decode ctx raw) = false end ->
  psim (matches n field) (Ret None)
    (root_field innerCtx invalid (fun ctx => ResolveField ctx field init resolver marshal true nn) []).
Proof. intros Hd. apply concurrent_refused with t; [done..|]. intros errs. rewrite Hinit. by apply context_refuses. Qed.
End Decoded.
End Root.

Ltac panel_objects :=
  first [ apply AdminUser_computes | apply ApiKeySummary_computes | apply AuditEntry_computes | apply DashboardMetrics_computes
        | apply ModelManifest_computes | apply ModelSummary_computes | apply ProviderHealth_computes | apply Rollout_computes ].

(** What the answer of a root field computes. *)
Ltac answer_computes :=
  intros ? ?; first [eapply object_ptr|eapply object_opt_ptr|eapply many_computes];
  [first [apply Type_executes | apply Schema_all_executes | apply executes_S; intros; by panel_objects]
  |match goal with Hs : _ -> _ |- _ => apply Hs; discriminate end].

Ltac answer_not_null := intros ?; cbn iota beta; first [exact Logic.I|reflexivity|apply ptr_not_null].

Lemma is_ok_bind {A B} (r : res A) (f : A -> res B) : is_ok r = false -> is_ok (res_bind r f) = false.
Proof. by destruct r. Qed.

(** A root field with arguments: [Hraw] has the raw ones, [args] names the
    function that decodes them, [P1], [P2], [P3] say what each decodes to. *)
Ltac decoded args :=
  intros ?; unfold args;
  repeat match goal with P : forall _, ProcessArgField _ _ _ _ _ = Ok _ |- _ => rewrite P; clear P; cbn [res_bind] end.

Ltac accept Hn Hl Hraw args := eapply accepted_sim;
  [by rewrite <- Hn|exact Hl|reflexivity|intros ?; reflexivity|exact Hraw|decoded args; reflexivity
  |cbv beta; rewrite !arg_of_with; reflexivity|answer_computes|answer_not_null].

Ltac refuse_arguments Hraw args :=
  rewrite Hraw; try exact Logic.I; decoded args;
  match goal with P : forall _, is_ok _ = false |- _ => apply is_ok_bind, P end.

Ltac reject Hn Hl Hraw args := eapply rejected_sim;
  [by rewrite <- Hn|exact Hl|reflexivity|intros ?; reflexivity|refuse_arguments Hraw args].

Ltac decode_one P := pose proof P; destruct (argument_value _ _ _ _).

Section Query.
Context `{G : Gqlgen} `{L : !GqlgenLaws G} `{I : Introspection} {E : interface} (R : QueryResolver E).
Implicit Types (ctx : Ctx) (sel : SelectionSet) (field : CollectedField).

Lemma query_field_sim n ctx field ft :
  lookup_in query_fields (fName field) = Some ft -> (fields_of_type (base ft) <> [] -> valid n (base ft) (fSelections field)) ->
  exists m, query_field R ctx field = Some m /\ psim (matches n field) (root_val R field) (m []).
Proof.
  intros Hl Hsub. assert (Ht := Hl). apply lookup_in_In in Ht. cbn in Ht. unfold query_field, root_val.
  repeat (destruct Ht as [Ht|Ht];
    [injection Ht as Hn <-; rewrite <- Hn; cbn [switch List.find fst snd String.eqb Ascii.eqb Bool.eqb]; eexists; split; [reflexivity|]|]); [..|destruct Ht].
  all: try (eapply concurrent_sim; [by rewrite <- Hn|exact Hl|reflexivity|reflexivity|reflexivity|answer_computes|answer_not_null]; fail).
  all: try (change (Ret (match IntrospectSchema with Ok t => Some (one OSchema t) | Err _ => None end))
        with (answer (E := E) (one OSchema) (Ret (Done IntrospectSchema)));
      eapply inplace_sim; [by rewrite <- Hn|exact Hl|reflexivity|reflexivity|reflexivity|reflexivity|answer_computes|answer_not_null]; fail).
  all: unfold with_argument; destruct (raw_arguments field) as [raw|] eqn:Hraw.
  - decode_one (process_string raw "modelRef" unmarshalNString2string UnmarshalString (fun _ _ => eq_refl)).
    + accept Hn Hl Hraw @field_Query_modelDraft_args.
    + reject Hn Hl Hraw @field_Query_modelDraft_args.
  - reject Hn Hl Hraw @field_Query_modelDraft_args.
  - decode_one (process_string raw "modelRef" unmarshalNString2string UnmarshalString (fun _ _ => eq_refl));
      [decode_one (process_argument None raw "versionId" unmarshalOString2ptr_string (nil_or UnmarshalString) (optional_unmarshals _))|].
    + accept Hn Hl Hraw @field_Query_modelVersion_args.
    + reject Hn Hl Hraw @field_Query_modelVersion_args.
    + reject Hn Hl Hraw @field_Query_modelVersion_args.
  - reject Hn Hl Hraw @field_Query_modelVersion_args.
  - decode_one (process_string raw "rolloutId" unmarshalNID2string UnmarshalID (fun _ _ => eq_refl)).
    + accept Hn Hl Hraw @field_Query_rollout_args.
    + reject Hn Hl Hraw @field_Query_rollout_args.
  - reject Hn Hl Hraw @field_Query_rollout_args.
  - decode_one (process_string raw "modelRef" unmarshalNString2string UnmarshalString (fun _ _ => eq_refl)).
    + accept Hn Hl Hraw @field_Query_rolloutByModel_args.
    + reject Hn Hl Hraw @field_Query_rolloutByModel_args.
  - reject Hn Hl Hraw @field_Query_rolloutByModel_args.
  - decode_one (process_argument None raw "limit" unmarshalOInt2ptr_int (nil_or UnmarshalInt) (optional_unmarshals _));
      [decode_one (process_argument None raw "actor" unmarshalOID2ptr_string (nil_or UnmarshalID) (optional_unmarshals _));
       [decode_one (process_argument None raw "action" unmarshalOString2ptr_string (nil_or UnmarshalString) (optional_unmarshals _))|]|].
    + accept Hn Hl Hraw @field_Query_auditLog_args.
    + reject Hn Hl Hraw @field_Query_auditLog_args.
    + reject Hn Hl Hraw @field_Query_auditLog_args.
    + reject Hn Hl Hraw @field_Query_auditLog_args.
  - reject Hn Hl Hraw @field_Query_auditLog_args.
  - decode_one (process_string raw "name" unmarshalNString2string UnmarshalString (fun _ _ => eq_refl)).
    + change (Ret (match IntrospectType s with Ok t => Some (one OType t) | Err _ => None end))
        with (answer (E := E) (one OType) (Ret (Done (IntrospectType s)))).
      eapply inplace_sim; [by rewrite <- Hn|exact Hl|reflexivity|reflexivity
        |eapply accepted_init; [intros ?; reflexivity|exact Hraw|decoded @field_Query___type_args; reflexivity]
        |cbv beta; rewrite arg_of_with; reflexivity|answer_computes|answer_not_null].
    + eapply inplace_refused; [by rewrite <- Hn|exact Hl|reflexivity|reflexivity|].
      intros errs. apply context_refuses. refuse_arguments Hraw @field_Query___type_args.
  - eapply inplace_refused; [by rewrite <- Hn|exact Hl|reflexivity|reflexivity|].
    intros errs. apply context_refuses. refuse_arguments Hraw @field_Query___type_args.
Qed.
End Query.
