(* ===== verification/GraphQuerySpec.v ===== *)
(** What a GraphQL query answers.

    However the goroutines of a query interleave with each other and with the rest
    of the world, the response is the one the GraphQL specification's execution
    gives for the values the resolvers answered ([graphql_refines_specification]);
    [Exec] run on its own gives the response with that data ([Exec_answers]). *)

From S2P Require Import Prelude Errors Prog Json Float Quota Breaker Gateway Gqlgen GraphLeaf Graph GraphObjects GraphIntro GraphQuery GraphSchema.
From S2P Require Import GraphLemmas GraphSpec GraphIntroSpec GraphRoot GraphDemo Signer Etcd Registry Rollout Deploy RolloutSpec ControlPlane Authn.
#[local] Open Scope Z_scope.

(** * What a program returns, as long as the answers it gets satisfy [A] *)

Section Gives.
Context {E : interface} (A : forall X, E X -> X -> Prop).

Fixpoint ends_in {R} (Q : R -> Prop) (p : prog E R) : Prop :=
  match p with
  | Ret a => Q a
  | Do e k => forall x, A _ e x -> ends_in Q (k x)
  end.

Lemma ends_in_bind {R T} (Q : R -> Prop) (Q' : T -> Prop) (p : prog E R) f :
  ends_in Q p -> (forall a, Q a -> ends_in Q' (f a)) -> ends_in Q' (bind p f).
Proof. intros Hp Hf. induction p as [a|X e k IH]; simpl in *; eauto. Qed.

Lemma ends_in_rbind {R T} (Q : R -> Prop) (Q' : res T -> Prop) (p : prog E (res R)) f :
  ends_in (fun r => match r with Ok a => Q a | Err _ => True end) p ->
  (forall a, Q a -> ends_in Q' (f a)) -> (forall e, Q' (Err e)) -> ends_in Q' (rbind p f).
Proof. intros Hp Hf He. eapply ends_in_bind; [exact Hp|]. intros [a|e] Ha; simpl; auto. Qed.

Lemma ends_in_weaken {R} (Q Q' : R -> Prop) (p : prog E R) : (forall a, Q a -> Q' a) -> ends_in Q p -> ends_in Q' p.
Proof. intros H. induction p as [a|X e k IH]; simpl; [auto|]. intros Hk x Hx. eauto. Qed.

Lemma sched_ends {S V R} (h : handler E S) (env : V -> S -> S) (Qs : list (R -> Prop)) ps s ds :
  (forall X (e : E X) s, A X e (h X e s).1) ->
  Forall2 ends_in Qs ps -> Forall2 ends_in Qs (sched h env ds (ps, s)).1.
Proof.
  intros Hh Hp. apply (sched_invariant h env (fun c => Forall2 ends_in Qs c.1)); [done|].
  intros c c' Hc Hs. destruct Hs as [ts s1 i p p' s2 Hi Hst|]; simpl in *; [|done].
  destruct (Forall2_lookup_r _ _ _ _ _ Hc Hi) as (Q & HQ & Hq).
  rewrite <- (list_insert_id Qs i Q HQ). apply Forall2_insert; [done|].
  destruct p as [a|X e k]; [done|]. simpl in Hst, Hq. specialize (Hh X e s1).
  destruct (h X e s1) as [x s3]. injection Hst as <- <-. by apply Hq.
Qed.
End Gives.

(** * Any schedule *)

Section Query.
Context `{G : Gqlgen} `{L : !GqlgenLaws G} `{I : Introspection} {E : interface} (R : QueryResolver E).
Implicit Types (ctx : Ctx) (sel : SelectionSet) (field : CollectedField).

(** The goroutine of a field of a valid query. *)
Lemma query_field_found n ctx f :
  fName f = "__typename" \/ (exists ft, lookup_in query_fields (fName f) = Some ft
    /\ (fields_of_type (base ft) <> [] -> valid n (base ft) (fSelections f))) ->
  exists m, query_field R ctx f = Some m /\ psim (matches n f) (root_val R f) (m []).
Proof.
  intros [Hn|(ft & Hf & Hsub)]; [|by eapply query_field_sim].
  exists (plain (MarshalString "Query")). unfold query_field, root_val. rewrite Hn. split; [done|].
  apply psim_ret. unfold matches, root_result. rewrite Hn.
  exists (MarshalString "Query"), 0%nat. split; [done|]. split; [by split|done].
Qed.

(** The goroutines of a valid query, and the specification's field programs. *)
Lemma query_threads_sim n ctx sel :
  valid_query n sel ->
  exists ts, query_threads R ctx sel = Done ts
    /\ pool_sim (map (matches n) (CollectFields sel queryImplementors))
         (map (root_val R) (CollectFields sel queryImplementors)) ts.
Proof.
  intros Hv. unfold query_threads, valid_query in *. set (fs := CollectFields sel queryImplementors) in *.
  assert (exists slots, Forall2 (fun f m => query_field R (query_context ctx) f = Some m
    /\ psim (matches n f) (root_val R f) (m [])) fs slots) as (slots & Hs).
  { clearbody fs. induction fs as [|f fs IH]; [by exists []|].
    destruct IH as (slots & Hs); [intros f' Hin; apply Hv; by right|].
    destruct (query_field_found n (query_context ctx) f (Hv f (or_introl eq_refl))) as (m & Hm).
    exists (m :: slots). by constructor. }
  rewrite (mapM_Some_2 _ _ slots); [|eapply Forall2_impl; [exact Hs|by intros f m [? _]]].
  eexists. split; [reflexivity|]. split; [by rewrite !length_map|].
  split; [rewrite !length_map; symmetry; by eapply Forall2_length|].
  intros i Q p q HQ Hp Hq. rewrite lookup_map in HQ. rewrite lookup_map in Hp. rewrite lookup_map in Hq.
  destruct (fs !! i) as [f|] eqn:Hf; [|done]. destruct (Forall2_lookup_l _ _ _ _ _ Hs Hf) as (m & Hm & _ & Hsim).
  unfold result, slot, gql_ in *. rewrite Hm in Hq. by injection HQ as <-; injection Hp as <-; injection Hq as <-.
Qed.

Lemma done_results_cons (x : result) rs y ws :
  x.1 = Done y -> done_results rs = Some ws -> done_results (x :: rs) = Some (y :: ws).
Proof. unfold done_results. intros Hx Hws. simpl. rewrite Hx. simpl. by rewrite Hws. Qed.

(** Joining the results of the goroutines. *)
Lemma join_results n sel (vs : list (option val)) (rs : list result) :
  length vs = length (CollectFields sel queryImplementors) -> length rs = length (CollectFields sel queryImplementors) ->
  (forall i f v x, CollectFields sel queryImplementors !! i = Some f -> vs !! i = Some v -> rs !! i = Some x -> matches n f v x) ->
  exists w, (query_join sel rs).1 = Done w
    /\ MarshalGQL w = default JNull (out (execute_query n sel vs))
    /\ ((query_join sel rs).2 = [] <-> erred (execute_query n sel vs) = false)
    /\ (out (execute_query n sel vs) = None -> erred (execute_query n sel vs) = true).
Proof.
  unfold query_join, execute_query, finish, all_out. set (fs := CollectFields sel queryImplementors).
  intros Hv Hr Hm.
  enough (exists ws, done_results rs = Some ws
    /\ (concat (map snd rs) = [] <-> existsb erred (zip_with (root_result n) fs vs) = false)
    /\ match mapM out (zip_with (root_result n) fs vs) with
       | None => (0 < sum_list_with snd ws)%nat /\ existsb erred (zip_with (root_result n) fs vs) = true
       | Some js => sum_list_with snd ws = 0%nat /\ map (fun w : Marshaler * nat => MarshalGQL w.1) ws = js
       end) as (ws & -> & He & Hw).
  { eexists. split; [reflexivity|]. cbn [fst snd out erred]. destruct (mapM out _) as [js|]; cbn [fmap option_fmap option_map default].
    - destruct Hw as [-> <-]. cbn. rewrite fieldset_writes, map_zip_snd, map_map. done.
    - destruct Hw as [Hw Her]. apply Nat.ltb_lt in Hw. rewrite Hw. split; [apply null_writes|]. split; [exact He|done]. }
  clearbody fs. revert vs rs Hv Hr Hm. induction fs as [|f fs IH]; intros [|v vs] [|x rs] Hv Hr Hm; try discriminate.
  { exists []. done. }
  simpl in Hv, Hr. destruct (Hm 0%nat f v x eq_refl eq_refl eq_refl) as (w & k & Hx & [H1 H2] & Hd).
  destruct (IH vs rs) as (ws & Hws & He & Hw); [lia|lia|intros i f' v' x'; apply (Hm (Datatypes.S i))|].
  exists ((w, k) :: ws). rewrite (done_results_cons x rs (w, k) ws Hx Hws). simpl. split; [done|]. split.
  - rewrite orb_false_iff. destruct (erred (root_result n f v)); split.
    + intros Hnil. apply app_eq_nil in Hnil as [Hnil _]. by destruct (H1 eq_refl).
    + by intros [? _].
    + intros Hnil. apply app_eq_nil in Hnil as [_ Hnil]. split; [done|]. by apply He.
    + intros [_ Hf]. rewrite (H2 eq_refl). simpl. by apply He.
  - destruct (out (root_result n f v)) as [j|]; simpl.
    + destruct Hd as [-> <-]. destruct (mapM out (zip_with (root_result n) fs vs)) as [js|]; simpl.
      * destruct Hw as [-> <-]. done.
      * destruct Hw as [? ->]. rewrite orb_true_r. split; [lia|done].
    + destruct Hd as [? ->]. split; [lia|done].
Qed.

(** The results the goroutines leave, against the values the specification
    resolves. *)
Lemma query_threads_result {S V} (h : handler E S) (env : V -> S -> S) n ctx sel ts ds s rs s' :
  valid_query n sel -> query_threads R ctx sel = Done ts -> sched h env ds (ts, s) = (map Ret rs, s') ->
  exists vs, sched h env ds (map (root_val R) (CollectFields sel queryImplementors), s) = (map Ret vs, s')
    /\ length vs = length (CollectFields sel queryImplementors) /\ length rs = length (CollectFields sel queryImplementors)
    /\ forall i f v x, CollectFields sel queryImplementors !! i = Some f -> vs !! i = Some v -> rs !! i = Some x -> matches n f v x.
Proof.
  intros Hv Hts Hs. destruct (query_threads_sim n ctx sel Hv) as (ts' & Hts' & Hp).
  rewrite Hts in Hts'. injection Hts' as <-.
  destruct (pool_sim_sched h env _ ds _ _ s Hp) as [Hp' He]. rewrite Hs in Hp', He. apply pool_sim_flip in Hp'.
  destruct (sched h env ds (map (root_val R) _, s)) as [qs s2]. simpl in Hp', He. subst s2.
  destruct (pool_sim_done _ rs qs Hp') as (vs & -> & Hr & Hvs & Hm). rewrite !length_map in Hr, Hvs.
  exists vs. split; [done|]. split; [done|]. split; [done|].
  intros i f v x Hf Hv' Hx. apply (Hm i (fun x v => matches n f v x)); [by rewrite !lookup_map, Hf|done|done].
Qed.

(** C2. For every valid query, and whatever its resolvers do: however the goroutines
    of the selected fields interleave, with each other and with the rest of the
    world, they leave the object (or the null) that the GraphQL specification's
    execution gives for the values the same calls to the resolvers answered, the
    errors are reported exactly when the specification reports some, and a null
    in place of the data is never silent.  Some schedule finishes them. *)
Theorem graphql_refines_specification n ctx sel :
  valid_query n sel ->
  exists ts, query_threads R ctx sel = Done ts
    /\ (forall S V (h : handler E S) (env : V -> S -> S) ds s rs s',
          sched h env ds (ts, s) = (map Ret rs, s') ->
          exists vs w, sched h env ds (map (root_val R) (CollectFields sel queryImplementors), s) = (map Ret vs, s')
            /\ (query_join sel rs).1 = Done w
            /\ MarshalGQL w = default JNull (out (execute_query n sel vs))
            /\ ((query_join sel rs).2 = [] <-> erred (execute_query n sel vs) = false)
            /\ (out (execute_query n sel vs) = None -> erred (execute_query n sel vs) = true))
    /\ (forall S V (h : handler E S) (env : V -> S -> S) s, exists ds rs s', sched h env ds (ts, s) = (map Ret rs, s')).
Proof.
  intros Hv. destruct (query_threads_sim n ctx sel Hv) as (ts & Hts & _). exists ts. split; [done|]. split.
  - intros S V h env ds s rs s' Hs. destruct (query_threads_result h env n ctx sel ts ds s rs s') as (vs & Hvs & H1 & H2 & Hm); [done..|].
    destruct (join_results n sel vs rs H1 H2 Hm) as (w & Hw). by exists vs, w.
  - intros S V h env s. destruct (sched_in_order h env ts s) as (ds & Hds). by exists ds, (run h (in_order ts) s).1, (run h (in_order ts) s).2.
Qed.

(** [Exec], its goroutines run one after the other: the response has the data of
    the specification's execution, and errors exactly when it has some. *)
Lemma Exec_answers {S} (h : handler E S) n ctx sel s :
  valid_query n sel ->
  exists ds vs es s',
    sched h (fun (_ : unit) s => s) ds (map (root_val R) (CollectFields sel queryImplementors), s) = (map Ret vs, s')
    /\ run h (Exec R (mkOperation OpQuery sel) ctx true []) s
       = ((Done (Some (mkResponse (Some (default JNull (out (execute_query n sel vs)))) [])), es), s')
    /\ (es = [] <-> erred (execute_query n sel vs) = false).
Proof.
  intros Hv. destruct (query_threads_sim n ctx sel Hv) as (ts & Hts & _).
  destruct (sched_in_order h (fun (_ : unit) s => s) ts s) as (ds & Hds).
  destruct (query_threads_result h _ n ctx sel ts ds s _ _ Hv Hts Hds) as (vs & Hvs & H1 & H2 & Hm).
  destruct (join_results n sel vs _ H1 H2 Hm) as (w & Hw & Hj & He & _).
  destruct (run h (in_order ts) s) as [rs s'] eqn:Hr. cbn [fst snd] in *.
  destruct (query_join sel rs) as [o es] eqn:Hq. cbn [fst snd] in Hw, He. subst o.
  exists ds, vs, es, s'. split; [exact Hvs|]. unfold Exec, _Query, gbind. cbn [Operation OpSelectionSet]. rewrite Hts.
  rewrite !run_bind, Hr, Hq. cbn. rewrite Hj. split; [reflexivity|exact He].
Qed.
End Query.

(** * Queries to the panel, evaluated *)

(** An owner asks a panel with one rollout in flight. *)
Definition owner : option Identity := Some (mkIdentity "u1" "o1" "owner").
Definition one_in_flight : Panel unit unit nat := demo_panel {[ "r1" := row_at "canary_1" ]}.

Lemma graphql_refines_specification_witness :
  exists ts ds rs s' vs w,
    query_threads (panel_resolvers owner) at_top demo_query = Done ts
    /\ sched demo (fun (_ : unit) s => s) ds (ts, one_in_flight) = (map Ret rs, s')
    /\ sched demo (fun (_ : unit) s => s) ds (map (root_val (panel_resolvers owner)) demo_query, one_in_flight) = (map Ret vs, s')
    /\ (query_join demo_query rs).1 = Done w
    /\ MarshalGQL w = default JNull (out (execute_query 5 demo_query vs)).
Proof.
  destruct (graphql_refines_specification (panel_resolvers owner) 5 at_top demo_query demo_query_valid) as (ts & Hts & Href & Hfin).
  destruct (Hfin _ unit demo (fun _ s => s) one_in_flight) as (ds & rs & s' & Hs).
  destruct (Href _ _ demo _ ds one_in_flight rs s' Hs) as (vs & w & Hvs & Hw & Hj & _).
  exists ts, ds, rs, s', vs, w. split; [exact Hts|]. split; [exact Hs|]. split; [exact Hvs|]. split; [exact Hw|exact Hj].
Defined.

(** The whole query, one field after the other. *)
Example owner_asks :
  match run demo (Exec (panel_resolvers owner) (mkOperation OpQuery demo_query) at_top true []) one_in_flight with
  | ((Done (Some r), errs), _) => Data r = Some (JObj
      [("__typename", JStr "Query");
       ("user", JObj [("id", JStr "u1"); ("role", JStr "owner")]);
       ("rollouts", JArr [JObj [("rolloutId", JStr "r1"); ("canaryPercent", JNum "1"); ("endedAt", JNull)]]);
       ("kind", JObj [("kind", JStr "OBJECT");
          ("fields", JArr (map (fun f => JObj [("name", JStr f.1); ("type", JObj [("kind", JStr "NON_NULL"); ("ofType", JObj [("name", JStr f.2)])])])
             [("id", "ID"); ("orgId", "ID"); ("role", "String")]))])])
      /\ errs = []
  | _ => False
  end.
Proof. vm_compute. auto. Qed.

(** Nobody asks: a field that must not be null makes the data null. *)
Example nobody_asks :
  match run demo (Exec (panel_resolvers None) (mkOperation OpQuery demo_query) at_top true []) one_in_flight with
  | ((Done (Some r), errs), _) => Data r = Some JNull /\ errs = [Errorf "no verified identity" []]
  | _ => False
  end.
Proof. vm_compute. auto. Qed.
