(* ===== verification/GraphConforms.v ===== *)
(** What a GraphQL query answers conforms to the schema.

    [typed] is the type of a resolved value; the fields of every object have
    values of their schema types ([field_of_typed]), execution keeps to them
    ([execute_conforms]), and so do the resolvers of the panel, as long as the
    numbers they are given are finite. *)

From S2P Require Import Prelude Errors Prog Json Float Quota Breaker Gateway Gqlgen GraphLeaf Graph GraphObjects GraphIntro GraphQuery GraphSchema.
From S2P Require Import GraphLemmas GraphSpec GraphIntroSpec GraphRoot GraphQuerySpec GraphDemo.
#[local] Open Scope Z_scope.

Section Typed.
Context `{G : Gqlgen} `{L : !GqlgenLaws G} `{I : Introspection}.
Implicit Types (sel : SelectionSet) (field : CollectedField).

(** A value a position of type [t] may resolve to; null is for execution to
    refuse. *)
Fixpoint typed (t : gtype) (v : val) : Prop :=
  match t with
  | NonNull t => typed t v
  | ListOf t => match v with VNull => True | VList l => List.Forall (typed t) l | _ => False end
  | Named name =>
      match v with
      | VNull => True
      | VLeaf j => scalar_conforms name j = true
      | VObj o => type_of o = name /\ finite_obj o = true
      | VList _ => False
      end
  end.

Lemma scalar_is_leaf name j : scalar_conforms name j = true -> fields_of_type name = [] /\ j <> JNull.
Proof.
  destruct j; simpl; try discriminate; rewrite bool_decide_eq_true; [by intros ->|by intros [->| ->]|by intros [->|[->|[->| ->]]]].
Qed.

Lemma object_has_fields o : exists f fs, fields_of_type (type_of o) = f :: fs.
Proof. destruct o; by eexists _, _. Qed.

Lemma leaf_typed j name : scalar_conforms name j = true -> typed (Named name) (VLeaf j).
Proof. done. Qed.

Lemma string_typed name s : name = "String" \/ name = "ID" \/ name = "__TypeKind" \/ name = "__DirectiveLocation" ->
  typed (Named name) (string_leaf s).
Proof. intros Hn. cbn. destruct (string_writes s) as (t & -> & _). cbn. by apply bool_decide_eq_true. Qed.

Lemma id_typed s : typed (Named "ID") (id_leaf s).
Proof. cbn. by destruct (id_writes s) as (t & -> & _). Qed.

Lemma int_typed z : typed (Named "Int") (int_leaf z).
Proof. cbn. by rewrite int_writes. Qed.

Lemma bool_typed b : typed (Named "Boolean") (bool_leaf b).
Proof. cbn. by rewrite bool_writes. Qed.

Lemma float_typed x : finite x = true -> typed (Named "Float") (float_leaf x).
Proof. intros Hx. cbn. by destruct (float_finite x Hx) as (n & ->). Qed.

Lemma nullable_typed {A} t (f : A -> val) (x : option A) : (forall a, typed (Named t) (f a)) -> typed (Named t) (nullable_val f x).
Proof. intros H. destruct x; [apply H|exact Logic.I]. Qed.

Lemma list_typed {A} t (f : A -> val) l : (forall a, typed t (f a)) -> typed (ListOf t) (VList (map f l)).
Proof. intros H. cbn. induction l; constructor; auto. Qed.

Lemma nullable_list_typed {A} t (f : A -> val) l :
  (forall a, typed t (f a)) -> typed (ListOf t) (nullable_val (fun l => VList (map f l)) l).
Proof. intros H. destruct l as [l|]; [by apply list_typed|done]. Qed.

Lemma flag_typed {T} t field (zero : T) um k v :
  (forall b, typed t (k b)) -> flag_argument field zero um k = Some v -> typed t v.
Proof.
  unfold flag_argument. intros Hk. destruct (raw_arguments field) as [raw|]; [|done]. simpl.
  destruct (argument_value raw _ zero um) as [b|]; [|done]. by intros [= <-].
Qed.

Lemma nonnull_typed t v : typed t v -> typed (NonNull t) v.
Proof. done. Qed.
End Typed.

Create HintDb gtyped.
#[local] Hint Resolve string_typed id_typed int_typed bool_typed float_typed nullable_typed nonnull_typed list_typed nullable_list_typed : gtyped.

(** One field of one object. *)
Ltac typed_field :=
  lazymatch goal with
  | |- typed (NonNull _) _ => apply nonnull_typed; typed_field
  | |- typed _ (nullable_val (fun l => VList _) _) => apply nullable_list_typed; intros ?; typed_field
  | |- typed _ (nullable_val _ _) => apply nullable_typed; intros ?; typed_field
  | |- typed _ (VList (map _ _)) => apply list_typed; intros ?; typed_field
  | |- typed _ (string_leaf _) => apply string_typed; tauto
  | |- typed _ (float_leaf _) => apply float_typed; tauto
  | |- typed _ (VObj _) => split; reflexivity
  | _ => eauto with gtyped
  end.

Section Fields.
Context `{G : Gqlgen} `{L : !GqlgenLaws G} `{I : Introspection}.
Implicit Types (sel : SelectionSet) (field : CollectedField).

Lemma field_of_typed o field t v :
  finite_obj o = true -> field_type (type_of o) (fName field) = Some t -> field_of field o = Some v -> typed t v.
Proof.
  intros Hfin Ht. apply lookup_in_In in Ht. destruct o; cbn in Ht.
  all: repeat (destruct Ht as [Ht|Ht];
    [injection Ht as Hn <-; unfold field_of;
     unfold field_of_AdminUser, field_of_ApiKeySummary, field_of_AuditEntry, field_of_DashboardMetrics, field_of_ModelManifest,
       field_of_ModelSummary, field_of_ProviderHealth, field_of_Rollout, field_of___Directive, field_of___EnumValue,
       field_of___Field, field_of___InputValue, field_of___Schema, field_of___Type;
     rewrite <- Hn; cbn [switch List.find fst snd String.eqb Ascii.eqb Bool.eqb];
     first [apply flag_typed; intros ?; typed_field
           |intros [= <-]; cbn [finite_obj] in Hfin; rewrite ?andb_true_iff in Hfin; typed_field]|]).
  all: destruct Ht.
Qed.
End Fields.

(** * Execution keeps to the types *)

Section Conforms.
Context `{G : Gqlgen} `{L : !GqlgenLaws G} `{I : Introspection}.
Implicit Types (sel : SelectionSet) (field : CollectedField).

Lemma absorb_out t r j : out (absorb t r) = Some j -> out r = Some j \/ j = JNull /\ match t with NonNull _ => False | _ => True end.
Proof. unfold absorb. destruct t, (out r) as [j'|] eqn:Hr; simpl; rewrite ?Hr; intros [= <-]; auto. Qed.

Lemma null_conforms objP t sel : match t with NonNull _ => False | _ => True end -> conforms_with objP t sel JNull.
Proof. destruct t; [by left..|done]. Qed.

Lemma mapM_out_Forall (P : json -> Prop) (rs : list completed) js :
  mapM out rs = Some js -> (forall r j, In r rs -> out r = Some j -> P j) -> List.Forall P js.
Proof.
  intros H Hp. apply mapM_Some in H. induction H as [|r j rs js Hr _ IH]; constructor; [apply (Hp r); [by left|done]|].
  apply IH. intros r' j' Hin. apply Hp. by right.
Qed.

Section Complete.
Context (object : SelectionSet -> obj -> completed) (objP : string -> SelectionSet -> json -> Prop).
Context (Hobj : forall sel o j, finite_obj o = true -> out (object sel o) = Some j -> objP (type_of o) sel j /\ j <> JNull).

Lemma complete_with_conforms t sel v j :
  typed t v -> out (complete_with object t sel v) = Some j -> conforms_with objP t sel j /\ (v <> VNull -> j <> JNull).
Proof.
  revert v j. induction t as [name|t IH|t IH]; intros v j.
  - destruct v as [|j'|l|o]; cbn; [by intros _ [= <-]; split; [left|]| |done|].
    + intros Hs [= <-]. destruct (scalar_is_leaf _ _ Hs) as [-> Hn]. split; [by right|done].
    + intros [<- Hf] Ho. destruct (Hobj sel o j Hf Ho) as [Hp Hn]. destruct (object_has_fields o) as (f & fs & ->). split; [by right|done].
  - destruct v as [|j'|l|o]; cbn; [by intros _ [= <-]; split; [left|]|done| |done].
    intros Hl. unfold all_out. cbn. destruct (mapM out _) as [js|] eqn:Hm; [|done]. intros [= <-]. split; [|done].
    right. exists js. split; [done|]. eapply mapM_out_Forall; [exact Hm|].
    intros r jr Hin Hr. apply in_map_iff in Hin as (v & <- & Hin). apply absorb_out in Hr as [Hr|[-> Ht]]; [|by apply null_conforms].
    apply (IH v jr); [|done]. rewrite List.Forall_forall in Hl. by apply Hl.
  - intros Ht Ho. assert (v <> VNull) as Hv by (by destruct v; cbn in Ho).
    destruct (IH v j Ht) as [Hc Hn]; [by destruct v|]. split; [|done]. split; [by apply Hn|done].
Qed.

Lemma field_value_conforms t sel v j :
  match v with None => True | Some v => typed t v end ->
  out (absorb t (match v with None => failed | Some v => complete_with object t sel v end)) = Some j ->
  conforms_with objP t sel j.
Proof.
  intros Ht Ho. apply absorb_out in Ho as [Ho|[-> Hn]]; [|by apply null_conforms].
  destruct v as [v|]; [|discriminate Ho]. by apply (complete_with_conforms t sel v).
Qed.
End Complete.

(** The selected fields of an object, each with a value of its type. *)
Definition shows (objP : string -> SelectionSet -> json -> Prop) (types : string -> option gtype) (fs : list CollectedField) (j : json) : Prop :=
  exists kvs, j = JObj kvs
    /\ Forall2 (fun f kv => kv.1 = fAlias f
         /\ if String.eqb (fName f) "__typename" then exists s, kv.2 = JStr s
            else exists ft, types (fName f) = Some ft /\ conforms_with objP ft (fSelections f) kv.2) fs kvs.

Lemma zip_shows objP types fs (rs : list completed) js :
  length rs = length fs -> mapM out rs = Some js ->
  (forall i f r j, fs !! i = Some f -> rs !! i = Some r -> out r = Some j ->
     if String.eqb (fName f) "__typename" then exists s, j = JStr s
     else exists ft, types (fName f) = Some ft /\ conforms_with objP ft (fSelections f) j) ->
  shows objP types fs (JObj (zip (map fAlias fs) js)).
Proof.
  intros Hlen Hm Hr. eexists. split; [reflexivity|]. apply mapM_Some in Hm. revert fs Hlen Hr.
  induction Hm as [|r j rs js Hj _ IH]; intros [|f fs] Hlen Hr; try discriminate; [constructor|].
  constructor; [split; [done|]; by apply (Hr 0%nat f r j)|]. apply IH; [simpl in Hlen; lia|].
  intros i. apply (Hr (Datatypes.S i)).
Qed.

Lemma execute_conforms n sel o j :
  finite_obj o = true -> out (execute n sel o) = Some j -> object_conforms n (type_of o) sel j /\ j <> JNull.
Proof.
  revert sel o j. induction n as [|n IH]; intros sel o j Hf; [done|]. rewrite execute_S. unfold all_out. cbn.
  destruct (mapM out _) as [js|] eqn:Hm; [|done]. intros [= <-]. split; [|done].
  apply (zip_shows (object_conforms n) (field_type (type_of o)) _ _ _ (length_map _ _) Hm).
  intros i f r jr Hi Hr Ho. rewrite lookup_map, Hi in Hr. injection Hr as <-. unfold field_result in Ho.
  destruct (String.eqb (fName f) "__typename").
  - injection Ho as <-. destruct (string_writes (type_of o)) as (s & Hs & _). by exists s.
  - destruct (field_type (type_of o) (fName f)) as [t|] eqn:Ht; [|done]. exists t. split; [done|].
    eapply field_value_conforms; [exact IH| |exact Ho].
    destruct (field_of f o) as [v|] eqn:Hv; [|done]. by eapply field_of_typed.
Qed.
End Conforms.

(** * The query *)

(** What the panel's resolvers are given: every other answer is as it comes. *)
Definition finite_answer : forall X, QueryE X -> X -> Prop := fun X e =>
  match e in QueryE X return X -> Prop with
  | QMetrics e =>
      match e in Querier X return X -> Prop with
      | QueryScalar _ => fun r => match r with Ok v => finite v = true | Err _ => True end
      end
  | QProviders e =>
      match e in providerHealthReader X return X -> Prop with
      | PgProviderHealth _ => fun r =>
          match r with Ok l => List.Forall (fun s => finite (to_float64 (stHeadroom s)) = true) l | Err _ => True end
      end
  | _ => fun _ => True
  end.

Section Query.
Context `{G : Gqlgen} `{L : !GqlgenLaws G} `{I : Introspection}.
Implicit Types (ctx : Ctx) (sel : SelectionSet) (field : CollectedField).

Definition value_typed (field : CollectedField) (v : option val) : Prop :=
  forall t, lookup_in query_fields (fName field) = Some t -> match v with None => True | Some v => typed t v end.

Lemma ends_in_true {E : interface} A {X} (p : prog E X) : ends_in A (fun _ => True) p.
Proof. induction p as [a|Y e k IH]; simpl; auto. Qed.

Section Answers.
Context (A : forall X, QueryE X -> X -> Prop).

Lemma answer_typed {X} (Q : X -> Prop) (k : X -> val) (p : prog QueryE (outcome (res X))) field :
  ends_in A (fun o => match o with Done (Ok a) => Q a | _ => True end) p ->
  (forall a t, Q a -> lookup_in query_fields (fName field) = Some t -> typed t (k a)) ->
  ends_in A (value_typed field) (answer k p).
Proof.
  intros Hp Hk. eapply ends_in_bind; [exact Hp|]. intros [[a|e]|w]; [|by intros _ t Ht..]. intros Ha t Ht. by apply Hk.
Qed.

Lemma answered_gives {X Y} (Q : X -> Prop) (Q' : Y -> Prop) (f : X -> Y) (p : prog QueryE (res X)) :
  ends_in A (fun r => match r with Ok a => Q a | Err _ => True end) p -> (forall a, Q a -> Q' (f a)) ->
  ends_in A (fun o => match o with Done (Ok a) => Q' a | _ => True end) (answered f p).
Proof. intros Hp Hf. eapply ends_in_bind; [exact Hp|]. intros [a|e]; [apply Hf|done]. Qed.

Lemma answered_any {X Y} (f : X -> Y) (p : prog QueryE (res X)) :
  ends_in A (fun o => match o with Done (Ok _) => True | _ => True end) (answered f p).
Proof. eapply ends_in_weaken; [|apply ends_in_true]. by intros [[]|]. Qed.

Lemma with_argument_typed {T} field name (zero : T) um k :
  (forall x, ends_in A (value_typed field) (k x)) -> ends_in A (value_typed field) (with_argument field name zero um k).
Proof.
  intros Hk. unfold with_argument. destruct (raw_arguments field) as [raw|]; [|by intros t Ht].
  destruct (argument_value raw name zero um) as [x|]; [apply Hk|by intros t Ht].
Qed.
End Answers.

Lemma dashboard_finite :
  ends_in finite_answer (fun r => match r with Ok d => finite_obj (ODashboardMetrics d) = true | Err _ => True end) Dashboard.
Proof.
  assert (Hs : forall q, ends_in finite_answer (fun v => finite v = true) (scalarOrZero q)).
  { intros q [v|e]; simpl; [auto|intros _; reflexivity]. }
  unfold Dashboard. do 3 (eapply ends_in_bind; [apply Hs|]; intros ? ?).
  do 2 (eapply ends_in_bind; [apply ends_in_true|]; intros [?|?] _; [|done]).
  simpl. by rewrite H, H0, H1.
Qed.

Lemma health_finite :
  ends_in finite_answer (fun r => match r with Ok l => List.Forall (fun h => finite_obj (OProviderHealth h) = true) l | Err _ => True end) ProviderHealthQuery.
Proof.
  intros [l|e]; simpl; [|done]. intros Hl. induction Hl; constructor; auto.
Qed.

Lemma one_typed {X} name (c : X -> obj) o :
  (forall x, o = Some x -> type_of (c x) = name /\ finite_obj (c x) = true) -> typed (Named name) (one c o).
Proof. destruct o as [x|]; [|done]. intros H. cbn. auto. Qed.

Lemma many_typed {X} name (c : X -> obj) l :
  (forall x, In (Some x) l -> type_of (c x) = name /\ finite_obj (c x) = true) -> typed (NonNull (ListOf (NonNull (Named name)))) (many c l).
Proof.
  intros H. cbn. induction l as [|o l IH]; constructor; [|apply IH; intros x Hx; apply H; by right].
  apply (one_typed name c o). intros x ->. apply H. by left.
Qed.

(** The values the panel's resolvers answer. *)
Lemma root_typed id field : ends_in finite_answer (value_typed field) (root_val (panel_resolvers id) field).
Proof.
  destruct (lookup_in query_fields (fName field)) as [ft|] eqn:Hl;
    [|eapply ends_in_weaken; [|apply ends_in_true]; intros v _ t Ht; congruence].
  assert (Ht := Hl). apply lookup_in_In in Ht. cbn in Ht. unfold root_val.
  repeat (destruct Ht as [Ht|Ht];
    [injection Ht as Hn <-; rewrite <- Hn; cbn [switch List.find fst snd String.eqb Ascii.eqb Bool.eqb]|]); [..|destruct Ht].
  all: try (repeat (apply with_argument_typed; intros ?); eapply (answer_typed _ (fun _ => True)); [apply answered_any|];
    intros a t _ Ha; rewrite Hl in Ha; injection Ha as <-; first [by apply one_typed | by apply many_typed]).
  - eapply (answer_typed _ (fun o => forall d, o = Some d -> finite_obj (ODashboardMetrics d) = true)).
    + eapply answered_gives; [apply dashboard_finite|]. cbn beta. intros d Hd d' [= <-]. exact Hd.
    + intros a t Ha Ht. rewrite Hl in Ht. injection Ht as <-. apply one_typed. intros d Hd. split; [done|by apply Ha].
  - eapply (answer_typed _ (fun l => forall h, In (Some h) l -> finite_obj (OProviderHealth h) = true)).
    + eapply answered_gives; [apply health_finite|]. cbn beta. intros l Hf h Hin.
      apply in_map_iff in Hin as (h' & [= ->] & Hin). rewrite List.Forall_forall in Hf. by apply Hf.
    + intros a t Ha Ht. rewrite Hl in Ht. injection Ht as <-. apply many_typed. intros h Hh. split; [done|by apply Ha].
  - apply with_argument_typed. intros m t Ht. rewrite Hl in Ht. injection Ht as <-.
    destruct (IntrospectType m) as [o|e]; [|done]. by apply (one_typed "__Type" OType).
  - intros t Ht. rewrite Hl in Ht. injection Ht as <-.
    destruct IntrospectSchema as [o|e]; [|done]. by apply (one_typed "__Schema" OSchema).
Qed.

(** A finished query of the panel: the data conforms to the schema, or is null
    with an error. *)
Lemma root_result_conforms n field v j :
  value_typed field v -> out (root_result n field v) = Some j ->
  if String.eqb (fName field) "__typename" then exists s, j = JStr s
  else exists ft, lookup_in query_fields (fName field) = Some ft /\ conforms n ft (fSelections field) j.
Proof.
  intros Hv Ho. unfold root_result in Ho. destruct (String.eqb _ _).
  - injection Ho as <-. destruct (string_writes "Query") as (s & Hs & _). by exists s.
  - destruct (lookup_in query_fields (fName field)) as [t|] eqn:Ht; [|done]. exists t. split; [done|].
    eapply field_value_conforms; [intros sel o j'; apply execute_conforms|by apply Hv|exact Ho].
Qed.

(** C3. Whoever asks, every valid query to the panel is answered, however its
    resolvers interleave with each other and with the rest of the world, by data
    of the schema's types: an object that shows exactly the fields selected, in
    order and under their aliases, each with a value of its type (an object for
    an object type, a list where the schema says list, a string, number or
    boolean at the leaves, no null where the schema forbids it) - or by null,
    and then with an error.  The numbers the panel is given must be finite,
    which the Prometheus client sees to. *)
Theorem graphql_response_conforms id n ctx sel :
  valid_query n sel ->
  exists ts, query_threads (panel_resolvers id) ctx sel = Done ts
    /\ forall S V (h : handler QueryE S) (env : V -> S -> S) ds s rs s',
         (forall X (e : QueryE X) s, finite_answer X e (h X e s).1) ->
         sched h env ds (ts, s) = (map Ret rs, s') ->
         exists w, (query_join sel rs).1 = Done w
           /\ (shows (object_conforms n) (lookup_in query_fields) (CollectFields sel queryImplementors) (MarshalGQL w)
                \/ MarshalGQL w = JNull /\ (query_join sel rs).2 <> []).
Proof.
  intros Hv. destruct (query_threads_sim (panel_resolvers id) n ctx sel Hv) as (ts & Hts & _). exists ts. split; [done|].
  intros S V h env ds s rs s' Hfin Hs.
  destruct (query_threads_result (panel_resolvers id) h env n ctx sel ts ds s rs s') as (vs & Hvs & H1 & H2 & Hm); [done..|].
  destruct (join_results n sel vs rs H1 H2 Hm) as (w & Hw & Hj & He & Hn). exists w. split; [exact Hw|]. rewrite Hj.
  destruct (out (execute_query n sel vs)) as [j|] eqn:Ho; [left|right; split; [done|intros Hnil; by rewrite He, Hn in Hnil]].
  pose proof (sched_ends finite_answer h env (map value_typed (CollectFields sel queryImplementors))
    (map (root_val (panel_resolvers id)) (CollectFields sel queryImplementors)) s ds Hfin) as Hends.
  rewrite Hvs in Hends. cbn [fst] in Hends. unfold execute_query, all_out in Ho. cbn in Ho.
  destruct (mapM out _) as [js|] eqn:Hjs; [|done]. injection Ho as <-. cbn [default].
  eapply zip_shows; [|exact Hjs|].
  { rewrite length_zip_with. lia. }
  intros i f r jr Hf Hr Hor. apply lookup_zip_with_Some in Hr as (f' & v & -> & Hf' & Hvi).
  rewrite Hf in Hf'. injection Hf' as <-. apply (root_result_conforms n f v); [|exact Hor].
  assert (Hall : Forall2 (ends_in finite_answer) (map value_typed (CollectFields sel queryImplementors)) (map Ret vs)).
  { apply Hends. clear. induction (CollectFields sel queryImplementors) as [|f fs IH]; constructor; [apply root_typed|exact IH]. }
  apply (Forall2_lookup_lr _ _ _ i (value_typed f) (Ret v) Hall); [by rewrite lookup_map, Hf|by rewrite lookup_map, Hvi].
Qed.
End Query.

(** * Witness *)

Lemma demo_finite X (e : QueryE X) s : finite_answer X e (demo X e s).1.
Proof.
  destruct e as [X e|X e|X e|X e|X e]; try exact Logic.I; destruct e; cbn -[finite float64_of]; [constructor|].
  destruct (pn_metrics s); [reflexivity|exact Logic.I].
Qed.

Lemma graphql_response_conforms_witness :
  exists ts, query_threads (panel_resolvers owner) at_top demo_query = Done ts
    /\ forall ds rs s', sched demo (fun (_ : unit) s => s) ds (ts, one_in_flight) = (map Ret rs, s') ->
       exists w, (query_join demo_query rs).1 = Done w
         /\ (shows (object_conforms 5) (lookup_in query_fields) demo_query (MarshalGQL w) \/ MarshalGQL w = JNull /\ (query_join demo_query rs).2 <> []).
Proof.
  destruct (graphql_response_conforms owner 5 at_top demo_query demo_query_valid) as (ts & Hts & H).
  exists ts. split; [exact Hts|]. intros ds rs s'. exact (H _ _ demo _ ds one_in_flight rs s' demo_finite).
Defined.
