(* ===== verification/GraphContexts.v ===== *)
(** The tables of the generated code against the schema: the field contexts of
    every type, and the complexity table. *)

From S2P Require Import Prelude Errors Prog Json Float Gqlgen GraphLeaf Graph GraphObjects GraphIntro GraphQuery GraphSchema.
From S2P Require Import GraphLemmas GraphSpec GraphIntroSpec GraphComplexity GraphDemo.
#[local] Open Scope Z_scope.

Section Contexts.
Context `{G : Gqlgen} `{L : !GqlgenLaws G} `{I : Introspection} {E : interface}.
Implicit Types (ctx : Ctx) (field : CollectedField).

(** A context of field [field] of type [t], whose value has type [ft]. *)
Definition context_of (t : string) (ft : gtype) field (fc : FieldContext CollectedField) : Prop :=
  fcObject fc = t /\ fcField fc = Some field
  /\ match fields_of_type (base ft) with
     | [] => exists e, fcChild fc = Some (NoChildren e)
     | _ => fcChild fc = Some (ChildFields (base ft))
     end.

Lemma context_with_arguments_of t ft ctx field fc decode errs :
  context_of t ft field fc ->
  (exists fc', context_with_arguments (E := E) ctx field fc decode errs = Ret (Done (Ok fc'), errs) /\ context_of t ft field fc')
  \/ exists e es, context_with_arguments (E := E) ctx field fc decode errs = Ret (Done (Err e), errs ++ es) /\ es <> [].
Proof.
  intros Hc. unfold context_with_arguments, recovering. destruct (ArgumentMap field) as [raw|w]; cbn [bind gbind pure panic fst snd].
  - destruct (decode _ raw) as [args|e]; [left; by eexists|right]. eexists _, [_]. split; [reflexivity|done].
  - right. eexists _, [_]. split; [reflexivity|done].
Qed.

(** A [switch] over names a table does not have. *)
Lemma switch_none {A B} (l : list (string * B)) name (cases : list (string * A)) d :
  lookup_in l name = None -> forallb (fun c => existsb (fun x => String.eqb x.1 c.1) l) cases = true ->
  switch name cases d = d.
Proof.
  unfold lookup_in, switch. intros Hl Hc. destruct (List.find _ cases) as [[n a]|] eqn:Hf; [|done].
  apply List.find_some in Hf as [Hin Hn]. apply String.eqb_eq in Hn. cbn in Hn. subst n.
  rewrite forallb_forall in Hc. apply Hc, existsb_exists in Hin as (x & Hx & Hn). cbn in Hn.
  destruct (List.find _ l) eqn:Hf; [done|]. eapply List.find_none in Hf; [|exact Hx]. cbn in Hf. congruence.
Qed.

(** The context a field of an object is resolved under, for every type of the
    schema and every field asked of it: it names the type and the field, and it
    leads on to the fields of the type the schema gives the field, or to none at
    a leaf; only undecodable arguments refuse it, with an error.  A field the
    schema does not have has no context. *)
Theorem child_contexts_match_schema t ctx field errs :
  t <> "Query" -> fields_of_type t <> [] ->
  match field_type t (fName field) with
  | Some ft =>
      (exists fc, child_context (E := E) (ChildFields t) ctx field errs = Ret (Done (Ok fc), errs) /\ context_of t ft field fc)
      \/ exists e es, child_context (E := E) (ChildFields t) ctx field errs = Ret (Done (Err e), errs ++ es) /\ es <> []
  | None => child_context (E := E) (ChildFields t) ctx field errs = Ret (Done (Err (ErrNoField (fName field) t)), errs)
  end.
Proof.
  intros HQ Ht.
  assert (exists fs, In (t, fs) schema) as (fs & Hin).
  { unfold fields_of_type in Ht. destruct (lookup_in schema t) as [fs|] eqn:Hl; [|done]. exists fs. by apply lookup_in_In. }
  cbn in Hin. clear Ht.
  repeat (destruct Hin as [Hin|Hin]; [injection Hin as <- _; try (by destruct HQ); clear HQ|]); [..|destruct Hin].
  all: destruct (field_type _ (fName field)) as [ft|] eqn:Hft;
    cbn [child_context switch List.find fst snd String.eqb Ascii.eqb Bool.eqb];
    unfold childFields_AdminUser, childFields_ApiKeySummary, childFields_AuditEntry, childFields_DashboardMetrics,
      childFields_ModelManifest, childFields_ModelSummary, childFields_ProviderHealth, childFields_Rollout, childFields___Directive,
      childFields___EnumValue, childFields___Field, childFields___InputValue, childFields___Schema, childFields___Type.
  all: try (unfold field_type in Hft; rewrite (switch_none _ _ _ _ Hft) by reflexivity; reflexivity).
  all: apply lookup_in_In in Hft; cbn in Hft;
    repeat (destruct Hft as [Hft|Hft];
      [injection Hft as Hn <-; rewrite <- Hn; cbn [switch List.find fst snd String.eqb Ascii.eqb Bool.eqb]|]); [..|destruct Hft].
  all: first [left; eexists; split; [first [apply scalar_pure|reflexivity]|]; split; [reflexivity|]; split; [reflexivity|]; first [reflexivity|eexists; reflexivity]
    |apply context_with_arguments_of; split; [reflexivity|]; split; [reflexivity|]; reflexivity].
Qed.
End Contexts.

Lemma child_contexts_match_schema_witness :
  exists fc, child_context (E := QueryE) (ChildFields "Rollout") at_top (plain_field "endedAt" []) [] = Ret (Done (Ok fc), [])
    /\ fcObject fc = "Rollout" /\ exists e, fcChild fc = Some (NoChildren e).
Proof.
  destruct (child_contexts_match_schema (E := QueryE) "Rollout" at_top (plain_field "endedAt" []) [])
    as [(fc & Hc & Ho & _ & Hl)|(e & es & Hc & _)]; [discriminate|discriminate| |discriminate Hc].
  exists fc. split; [exact Hc|]. split; [exact Ho|exact Hl].
Defined.

(** * The complexity table *)

(** The fields of the panel's own types, as the table names them. *)
Definition schema_fields : list string :=
  flat_map (fun t => map (fun f => t.1 +:+ "." +:+ f.1) t.2)
    (List.filter (fun t => negb (String.prefix "__" t.1)) schema).

Section Table.
Context `{G : Gqlgen} (root : ComplexityRoot) (ctx : Ctx) (childComplexity : Z) (raw : gmap string (option Any)).

Definition complexity_table : list (string * outcome (Z * bool)) :=
  complexity_AdminUser root childComplexity ++ complexity_ApiKeySummary root childComplexity
  ++ complexity_AuditEntry root childComplexity ++ complexity_DashboardMetrics root childComplexity
  ++ complexity_ModelManifest root childComplexity ++ complexity_ModelSummary root childComplexity
  ++ complexity_ProviderHealth root childComplexity ++ complexity_Query root ctx childComplexity raw
  ++ complexity_Rollout root childComplexity.

(** The table has the fields of the schema, each once. *)
Lemma complexity_covers_schema : map fst complexity_table ≡ₚ schema_fields.
Proof.
  apply NoDup_Permutation; [by apply (bool_decide_unpack _); vm_compute..|].
  assert (forall x, In x (map fst complexity_table) <-> In x schema_fields) as H.
  { assert (Hall : forallb (fun x => existsb (String.eqb x) schema_fields) (map fst complexity_table) = true
      /\ forallb (fun x => existsb (String.eqb x) (map fst complexity_table)) schema_fields = true) by (vm_compute; auto).
    destruct Hall as [H1 H2]. rewrite forallb_forall in H1, H2. intros x. split; intros Hx.
    - apply H1, existsb_exists in Hx as (y & Hy & He). apply String.eqb_eq in He. by subst.
    - apply H2, existsb_exists in Hx as (y & Hy & He). apply String.eqb_eq in He. by subst. }
  intros x. by rewrite !list_elem_of_In.
Qed.

(** Arguments that decode have the types the cost functions take: the
    assertions never panic. *)
Lemma complexity_never_panics typeName field w : Complexity root ctx childComplexity raw typeName field <> Panics w.
Proof.
  unfold Complexity, switch. destruct (List.find _ _) as [[n o]|] eqn:Hf; [|done]. apply List.find_some in Hf as [Hin _].
  assert (forall f, cost childComplexity f <> Panics w) as Hc by (by intros [f|]).
  assert (forall F (f : option F) decode apply, (forall f args, decode ctx raw = Ok args -> exists z, apply f args = Done z) ->
    cost_with ctx raw f decode apply <> Panics w) as Hw.
  { intros F f decode apply H. unfold cost_with. destruct f as [f|]; [|done]. destruct (decode ctx raw) as [args|e]; [|done].
    by destruct (H f args eq_refl) as (z & ->). }
  cbn in Hin. cbn [snd].
  repeat (destruct Hin as [Hin|Hin]; [injection Hin as _ <-|]); [..|destruct Hin]; try apply Hc.
  all: apply Hw; intros f args Hd.
  all: unfold field_Query_auditLog_args, field_Query_modelDraft_args, field_Query_modelVersion_args, field_Query_rollout_args,
    field_Query_rolloutByModel_args in Hd.
  all: repeat match type of Hd with res_bind ?r _ = _ => destruct r; [|discriminate Hd]; cbn [res_bind] in Hd end.
  all: injection Hd as <-; eexists; reflexivity.
Qed.
End Table.
