(* ===== verification/AdminHttp.v ===== *)
(** admin-api/main.go: the HTTP port.

    [http.ServeMux] with its four routes: GraphQL behind [authn.HTTPMiddleware],
    the two health endpoints and the metrics page.  gqlgen's HTTP handler is a
    parameter: it either answers by itself or executes one operation that it has
    validated.  The theorem is about every request to the port. *)

From S2P Require Import Prelude Errors Prog Json Float HttpServer Quota Breaker Gateway Signer Etcd Registry Rollout Deploy ControlPlane.
From S2P Require Import Authn ApiKeys AuditStore Gqlgen GraphLeaf Graph GraphObjects GraphIntro GraphQuery GraphSchema.
From S2P Require Import GraphLemmas GraphSpec GraphIntroSpec GraphRoot GraphQuerySpec GraphDemo.
#[local] Open Scope Z_scope.

(** * gqlgen's HTTP handler *)

Class GraphqlServer `{G : Gqlgen} := {
  (** [handler.NewDefaultServer]: the executable schema's [Exec] by operation. *)
  NewDefaultServer : forall {E : interface},
    (OperationDefinition SelectionSet -> Ctx -> gql_ gqlError E (option Response)) -> ServerRequest -> prog E (Z * string)
}.

(** A request is answered without executing anything, or by executing one
    operation of the document it carries, which is valid for the schema. *)
Class GraphqlServerLaws `(G : Gqlgen) (D : GraphqlServer) : Prop := {
  server_law : forall req,
    (exists r, forall E exec, NewDefaultServer (E := E) exec req = Ret r)
    \/ exists op ctx n write, (Operation op = OpQuery -> valid_query n (OpSelectionSet op))
       /\ forall E exec, NewDefaultServer (E := E) exec req = bind (exec op ctx []) (fun x => Ret (write x))
}.

(** * The port *)

Inductive HttpE : interface :=
| HUsers {X} (e : Authn.StoreE X) : HttpE X
| HQuery {X} (e : QueryE X) : HttpE X
| HPing : HttpE (res unit).

Definition over_queries {A} (p : prog QueryE A) : prog HttpE A := link (fun X e => call (HQuery e)) p.

(** Ready while the database answers a ping. *)
Definition readyz (_ : ServerRequest) : prog HttpE (Z * string) := ready_when (call HPing).

Section Port.
Context `{G : Gqlgen} `{I : Introspection} `{D : !GraphqlServer} (metrics : ServerRequest -> Z * string).

(** [graph.NewExecutableSchema(graph.Config{Resolvers: ...})] for a caller. *)
Definition graphqlSrv (id : Identity) (req : ServerRequest) : prog HttpE (Z * string) :=
  over_queries (NewDefaultServer (fun op ctx => Exec (panel_resolvers (Some id)) op ctx true) req).

Definition graphql_route (req : ServerRequest) : prog HttpE (Z * string) :=
  HTTPMiddleware (fun X e => HUsers e) (srHeader req "Authorization") (fun id => graphqlSrv id req).

Definition mux : list (string * string * (ServerRequest -> prog HttpE (Z * string))) :=
  [ ("POST", "/graphql", graphql_route);
    ("GET", "/healthz", healthz);
    ("GET", "/readyz", readyz);
    ("GET", "/metrics", fun req => Ret (metrics req)) ].

Definition serve_http (req : ServerRequest) : prog HttpE (Z * string) := serve_mux mux req.
End Port.

(** * Reads *)

(** What the control plane's read RPCs call. *)
Definition control_read : forall X, CpE X -> Prop := fun X e =>
  match e with
  | DbRegistry e =>
      match e with Registry.InsertManifest _ _ _ _ _ _ | Registry.SetActive _ _ => False | _ => True end
  | DbRollout e =>
      match e with Rollout.InsertRollout _ | Rollout.UpdateRollout _ _ _ _ _ => False | _ => True end
  | SignerCall e => match e with Sign _ _ => False | Verify _ _ _ => True end
  | EtcdCall _ | Uuid => False
  | Clock => True
  end.

(** What the panel's resolvers call: of the key store, listing. *)
Definition query_read : forall X, QueryE X -> Prop := fun X e =>
  match e with
  | QKeys e => match e with ListKeys => True | _ => False end
  | _ => True
  end.

Definition http_read : forall X, HttpE X -> Prop := fun X e =>
  match e with HQuery e => query_read _ e | _ => True end.

Lemma control_reads_only {X} (e : controlReader X) :
  calls any control_read (match e in controlReader X return prog CpE X with
    | CtlListModels => rpc_ListModels
    | CtlGetModelManifest m v => rpc_GetModelManifest m v
    | CtlGetRolloutStatus id m => rpc_GetRolloutStatus id m
    | CtlListRollouts m l => rpc_ListRollouts m l
    end).
Proof.
  destruct e; unfold rpc_ListModels, rpc_GetModelManifest, rpc_GetRolloutStatus, rpc_ListRollouts, GetRolloutStatus, Registry.GetModelManifest.
  all: repeat case_bool_decide; cbn; repeat (first [done | split; [exact Logic.I|] | intros [?|?] _ | intros [] _ ]; cbn).
  all: match goal with |- context [if ?b then _ else _] => by destruct b | |- context [some_or_not_found ?r] => by destruct r end.
Qed.

Section Reads.
Context `{G : Gqlgen} `{L : !GqlgenLaws G} `{I : Introspection}.

Lemma psim_calls {E : interface} {A B} (Q : A -> B -> Prop) (P : forall X, E X -> Prop) (p : prog E A) q :
  psim Q p q -> calls any P p -> calls any P q.
Proof. induction 1 as [a b _|X e k k' _ IH]; [done|]. intros [He Hk]. split; [done|]. eauto. Qed.

Lemma answered_reads {X Y} (f : X -> Y) (p : prog QueryE (res X)) : calls any query_read p -> calls any query_read (answered f p).
Proof. intros Hp. by apply calls_bind. Qed.

Lemma answer_reads {X} (k : X -> val) (p : prog QueryE (outcome (res X))) :
  calls any query_read p -> calls any query_read (answer k p).
Proof. intros Hp. by apply calls_bind. Qed.

Lemma with_argument_reads {T} field name (zero : T) um k :
  (forall x, calls any query_read (k x)) -> calls any query_read (with_argument field name zero um k).
Proof. intros Hk. unfold with_argument. destruct (raw_arguments field); [|done]. by destruct (argument_value _ _ _ _). Qed.

(** The resolvers call nothing that writes. *)
Lemma root_val_reads id field : calls any query_read (root_val (panel_resolvers id) field).
Proof.
  unfold root_val, switch. destruct (List.find _ _) as [[name p]|] eqn:Hf; [|done]. apply List.find_some in Hf as [Hin _]. cbn [snd].
  assert (Hs : forall q, calls any query_read (scalarOrZero q)) by (intros q; split; [exact Logic.I|done]).
  cbn [In] in Hin. repeat (destruct Hin as [Hin|Hin]; [injection Hin as _ <-|]); [..|destruct Hin].
  all: repeat (apply with_argument_reads; intros ?).
  all: first [apply answer_reads, answered_reads | by destruct (IntrospectType _) | by destruct IntrospectSchema].
  all: try (unfold Models, ModelDraft, ModelVersion, fetchManifest, RolloutQuery, RolloutByModel, fetchRollout, Rollouts, APIKeys, AuditLogQuery, ProviderHealthQuery;
    split; [exact Logic.I|]; intros [?|?] _; done).
  - done.
  - unfold Dashboard. do 3 (apply calls_bind; [apply Hs|]; intros ?).
    do 2 (apply calls_rbind; [split; [exact Logic.I|done]|]; intros ?). done.
Qed.

(** Nor do the goroutines of a query. *)
Lemma query_threads_reads id n ctx sel ts :
  valid_query n sel -> query_threads (panel_resolvers id) ctx sel = Done ts -> List.Forall (calls any query_read) ts.
Proof.
  intros Hv Hts. destruct (query_threads_sim (panel_resolvers id) n ctx sel Hv) as (ts' & Hts' & Hp & Hq & Hs).
  rewrite Hts in Hts'. injection Hts' as <-. apply Forall_lookup. intros i q Hi.
  destruct (lookup_lt_is_Some_2 (CollectFields sel queryImplementors) i) as [f Hf].
  { rewrite length_map in Hq. rewrite <- Hq. by eapply lookup_lt_Some. }
  eapply (psim_calls (matches n f) query_read (root_val (panel_resolvers id) f)); [|apply root_val_reads].
  apply (Hs i); [by rewrite lookup_map, Hf|by rewrite lookup_map, Hf|done].
Qed.

Lemma in_order_calls {E : interface} {A} (P : forall X, E X -> Prop) (ts : list (prog E A)) :
  List.Forall (calls any P) ts -> calls any P (in_order ts).
Proof.
  induction 1 as [|t ts Ht _ IH]; [done|]. cbn. apply calls_bind; [done|]. intros a. by apply calls_bind.
Qed.

Lemma Exec_reads id op ctx n first :
  (Operation op = OpQuery -> valid_query n (OpSelectionSet op)) ->
  calls any query_read (Exec (panel_resolvers id) op ctx first []).
Proof.
  intros Hv. unfold Exec. destruct (Operation op), first; try done. specialize (Hv eq_refl).
  unfold gbind, _Query. apply calls_bind; [|by intros [[] ?]].
  destruct (query_threads_sim (panel_resolvers id) n ctx (OpSelectionSet op) Hv) as (ts & Hts & _). rewrite Hts.
  apply calls_bind; [|intros rs; by destruct (query_join _ _)]. apply in_order_calls. by eapply query_threads_reads.
Qed.
End Reads.

(** * The port over the stores *)

(** Nothing the services keep has changed: keys, audit log, manifests, rollouts,
    etcd, the ids drawn. *)
Definition same_records {S W M} (p p' : Panel S W M) : Prop :=
  pn_keys p' = pn_keys p /\ pn_audit p' = pn_audit p
  /\ cp_tables (pn_control p') = cp_tables (pn_control p) /\ cp_rollouts (pn_control p') = cp_rollouts (pn_control p)
  /\ cp_etcd (pn_control p') = cp_etcd (pn_control p) /\ cp_drawn (pn_control p') = cp_drawn (pn_control p).

#[global] Instance same_records_preorder {S W M} : PreOrder (@same_records S W M).
Proof.
  split; [by intros p|]. intros p1 p2 p3 (? & ? & ? & ? & ? & ?) (? & ? & ? & ? & ? & ?). repeat split; congruence.
Qed.

Section Served.
Context `{G : Gqlgen} `{L : !GqlgenLaws G} `{I : Introspection} `{D : !GraphqlServer} `{DL : !GraphqlServerLaws G D}.
Context {S W M : Type} (hsigner : handler SignerE S) (uuid key_uuid : nat -> string) (jsonb : string -> string).
Context (hp : handler providerHealthReader W) (hq : handler Querier M) (metrics : ServerRequest -> Z * string).
Abbreviation panel := (Graph.panel hsigner uuid key_uuid jsonb hp hq).
Abbreviation Panel := (Graph.Panel S W M).

(** admin_user and the panel's backends; the database answers a ping while it
    answers at all. *)
Definition http : handler HttpE (AdminUsers * Panel) := fun X e w =>
  match e in HttpE X return X * (AdminUsers * Panel) with
  | HUsers e => let '(x, t) := cockroach_users _ e w.1 in (x, (t, w.2))
  | HQuery e => let '(x, p) := panel _ e w.2 in (x, (w.1, p))
  | HPing => ((if users_up w.1 then Ok tt else Err (Lib "cockroach")), w)
  end.

Lemma control_read_keeps X (e : CpE X) (w : Cp S) :
  control_read X e ->
  let w' := (Deploy.cp hsigner uuid X e w).2 in
  cp_tables w' = cp_tables w /\ cp_rollouts w' = cp_rollouts w /\ cp_etcd w' = cp_etcd w /\ cp_drawn w' = cp_drawn w.
Proof.
  destruct w as [tb [t up tn] ke sg ck dr]. destruct e as [Y e|Y e|Y e|Y e| |]; try done; destruct e; try done; intros _; cbn;
    unfold on_rows; cbn; try done; first [by destruct up | by destruct (hsigner _ _ _)].
Qed.

Lemma query_read_keeps X (e : QueryE X) (p : Panel) : query_read X e -> same_records p (panel X e p).2.
Proof.
  destruct e as [Y e|Y e|Y e|Y e|Y e]; intros Hr; cbn [Graph.panel].
  - by destruct e.
  - destruct (control_reads hsigner uuid Y e (pn_control p)) as [x c] eqn:Hc.
    set (same := fun w w' : Cp S => cp_tables w' = cp_tables w /\ cp_rollouts w' = cp_rollouts w /\ cp_etcd w' = cp_etcd w /\ cp_drawn w' = cp_drawn w).
    assert (PreOrder same) as Hpre.
    { split; [by intros w|]. intros w1 w2 w3 (? & ? & ? & ?) (? & ? & ? & ?). repeat split; congruence. }
    assert (same (pn_control p) c) as (H1 & H2 & H3 & H4).
    { pose proof (control_reads_only e) as Hreads.
      replace c with (control_reads hsigner uuid Y e (pn_control p)).2 by (by rewrite Hc).
      destruct e; (apply (run_calls _ control_read same); [exact control_read_keeps|exact Hreads]). }
    by repeat split.
  - by destruct (hp _ _ _).
  - destruct e. by destruct p.
  - by destruct (hq _ _ _).
Qed.

Lemma run_over_queries {A} (q : prog QueryE A) t p :
  run http (over_queries q) (t, p) = ((run panel q p).1, (t, (run panel q p).2)).
Proof.
  unfold over_queries. rewrite run_link. revert p. induction q as [a|X e k IH]; intros p; [done|].
  cbn [run]. rewrite run_call. cbn [http fst snd]. destruct (panel X e p) as [x p']. apply IH.
Qed.

(** Whatever HTTP handler gqlgen has, a query it executes only reads. *)
Lemma served_reads id req : calls any query_read (NewDefaultServer (fun op ctx => Exec (panel_resolvers (Some id)) op ctx true) req).
Proof.
  destruct (server_law req) as [(r & Hr)|(op & ctx & n & write & Hv & Hr)]; rewrite Hr; [done|].
  apply calls_bind; [|done]. by apply (Exec_reads (Some id) op ctx n true).
Qed.

Lemma run_middleware req (next : Identity -> prog HttpE (Z * string)) t p :
  run http (HTTPMiddleware (fun X e => HUsers e) (srHeader req "Authorization") next) (t, p) =
    match holder t (bearerTokenFromHeader (srHeader req "Authorization")) with
    | None => ((401, unauthorized_body), (t, p))
    | Some id => run http (next id) (t, p)
    end.
Proof.
  unfold HTTPMiddleware. rewrite run_bind, run_link.
  assert (forall q : prog Authn.StoreE (res Identity), run (fun X e => run http (call (HUsers e))) q (t, p)
    = ((run cockroach_users q t).1, ((run cockroach_users q t).2, p))) as Hrun.
  { intros q. revert t. induction q as [a|X e k IH]; intros t; [done|]. cbn [run]. rewrite run_call. cbn [http fst snd].
    destruct (cockroach_users X e t). apply IH. }
  rewrite Hrun. pose proof (authenticate_run t (bearerTokenFromHeader (srHeader req "Authorization"))) as Ha.
  destruct (run cockroach_users (Authenticate _) t) as [r t']. destruct Ha as [-> Ha]. cbn [fst snd].
  destruct (holder t _); [by rewrite Ha|]. by destruct Ha as (e & ->).
Qed.

Lemma graphql_route_reads req : calls any http_read (graphql_route req).
Proof.
  unfold graphql_route, HTTPMiddleware. apply calls_bind.
  - apply (calls_link _ (fun _ _ => True) http_read); [intros X e _; by split|].
    unfold Authenticate. case_bool_decide; [done|]. split; [done|]. by intros [?|?] _.
  - intros [id|e]; [|done]. apply (calls_link _ query_read http_read); [intros X e He; by split|apply served_reads].
Qed.

Lemma run_graphql_route req t p :
  run http (graphql_route req) (t, p) =
    match holder t (bearerTokenFromHeader (srHeader req "Authorization")) with
    | None => ((401, unauthorized_body), (t, p))
    | Some id =>
        let '(resp, p') := run panel (NewDefaultServer (fun op ctx => Exec (panel_resolvers (Some id)) op ctx true) req) p in (resp, (t, p'))
    end.
Proof.
  unfold graphql_route. rewrite run_middleware. destruct (holder t _) as [id|]; [|done].
  unfold graphqlSrv. rewrite run_over_queries. by destruct (run panel _ p).
Qed.

(** The routes by path. *)
Lemma serve_http_at req :
  serve_http metrics req =
    if String.eqb "/graphql" (srPath req) then
      if method_matches "POST" (srMethod req) then graphql_route req else Ret (405, "Method Not Allowed" +:+ String (Ascii.ascii_of_nat 10) "")
    else if String.eqb "/healthz" (srPath req) then
      if method_matches "GET" (srMethod req) then healthz req else Ret (405, "Method Not Allowed" +:+ String (Ascii.ascii_of_nat 10) "")
    else if String.eqb "/readyz" (srPath req) then
      if method_matches "GET" (srMethod req) then readyz req else Ret (405, "Method Not Allowed" +:+ String (Ascii.ascii_of_nat 10) "")
    else if String.eqb "/metrics" (srPath req) then
      if method_matches "GET" (srMethod req) then Ret (metrics req) else Ret (405, "Method Not Allowed" +:+ String (Ascii.ascii_of_nat 10) "")
    else Ret (404, "404 page not found" +:+ String (Ascii.ascii_of_nat 10) "").
Proof.
  unfold serve_http, serve_mux, ServeMux, mux. cbn [List.filter fst snd].
  repeat match goal with
  | |- context [String.eqb ?a (srPath req)] =>
      let Hp := fresh "Hp" in destruct (String.eqb a (srPath req)) eqn:Hp;
        [apply String.eqb_eq in Hp; rewrite <- ?Hp; cbn [String.eqb Ascii.eqb Bool.eqb List.find fst snd]|]
  end; [..|reflexivity].
  - by destruct (method_matches "POST" (srMethod req)).
  - by destruct (method_matches "GET" (srMethod req)).
  - by destruct (method_matches "GET" (srMethod req)).
  - by destruct (method_matches "GET" (srMethod req)).
Qed.

(** C5. The HTTP port only reads, and shows panel data only to a live credential.
    Whatever the request, every call it leads to is a read, and when it has been
    answered the key table, the audit log, the users, the manifests, the rollouts
    and etcd are as they were.  A GraphQL request without a credential that
    stands for someone (missing, unknown, revoked, or the table unreadable) is
    answered 401 with a body that does not say why, and no resolver runs; with
    one, the resolvers run for exactly its holder.  Other methods of that path
    are refused, and the readiness page says whether the database answers. *)
Theorem http_port_reads_for_holders req t p :
  calls any http_read (serve_http metrics req)
  /\ let '(resp, (t', p')) := run http (serve_http metrics req) (t, p) in
     t' = t /\ same_records p p'
     /\ (srPath req = "/graphql" -> srMethod req = "POST" ->
          match holder t (bearerTokenFromHeader (srHeader req "Authorization")) with
          | None => resp = (401, unauthorized_body) /\ p' = p
          | Some id => (resp, p') = run panel (NewDefaultServer (fun op ctx => Exec (panel_resolvers (Some id)) op ctx true) req) p
          end)
     /\ (srPath req = "/graphql" -> srMethod req <> "POST" -> resp.1 = 405 /\ p' = p)
     /\ (srPath req = "/readyz" -> srMethod req = "GET" -> resp = if users_up t then (200, "ready") else (503, "not ready")).
Proof.
  assert (Hkeep : forall X (e : HttpE X) (w : AdminUsers * Panel), http_read X e ->
    let w' := (http X e w).2 in w'.1 = w.1 /\ same_records w.2 w'.2).
  { intros X e [t1 p1] He. destruct e as [Y e|Y e|]; cbn [http fst snd].
    - by destruct e.
    - pose proof (query_read_keeps Y e p1 He) as Hk. by destruct (panel Y e p1).
    - done. }
  assert (Hreads : calls any http_read (serve_http metrics req)).
  { rewrite serve_http_at. repeat case_match; try done. apply graphql_route_reads. }
  split; [exact Hreads|].
  assert (PreOrder (fun w w' : AdminUsers * Panel => w'.1 = w.1 /\ same_records w.2 w'.2)) as Hpre.
  { split; [by intros w|]. intros w1 w2 w3 [? ?] [? ?]. split; [congruence|by etrans]. }
  pose proof (run_calls http http_read (fun w w' => w'.1 = w.1 /\ same_records w.2 w'.2) (serve_http metrics req) (t, p) Hkeep Hreads) as Hrel.
  destruct (run http (serve_http metrics req) (t, p)) as [resp [t' p']] eqn:Hrun. destruct Hrel as [Ht Hp].
  split; [exact Ht|]. split; [exact Hp|]. rewrite serve_http_at in Hrun. split; [|split].
  - intros Hpath Hm. rewrite Hpath, Hm in Hrun. change (run http (graphql_route req) (t, p) = (resp, (t', p'))) in Hrun. rewrite run_graphql_route in Hrun.
    destruct (holder t _) as [id|]; [|by injection Hrun as <- <- <-]. destruct (run panel _ p). by injection Hrun as <- <- <-.
  - intros Hpath Hm. rewrite Hpath in Hrun. cbn [String.eqb Ascii.eqb Bool.eqb] in Hrun.
    rewrite post_only in Hrun by done. by injection Hrun as <- <- <-.
  - intros Hpath Hm. rewrite Hpath, Hm in Hrun. cbn in Hrun. destruct (users_up t); by injection Hrun as <- <- <-.
Qed.
End Served.

(** * Witness *)

(** A handler that knows one document. *)
#[global] Instance demo_server : GraphqlServer := {
  NewDefaultServer E exec req :=
    if String.eqb (srBody req) "the demo query" then
      bind (exec (mkOperation OpQuery demo_query) at_top []) (fun x =>
        Ret (200, match x.1 with Done (Some r) => match Data r with Some j => print j | None => "" end | _ => "" end))
    else Ret (422, "no such document")
}.

#[global] Instance demo_server_laws : GraphqlServerLaws demo_runtime demo_server.
Proof.
  constructor. intros req. cbn. destruct (String.eqb _ _); [right|by left; eexists].
  exists (mkOperation OpQuery demo_query), at_top, 5%nat.
  exists (fun x : outcome (option Response) * list gqlError => (200, match x.1 with Done (Some r) => match Data r with Some j => print j | None => "" end | _ => "" end)).
  split; [intros _; exact demo_query_valid|done].
Qed.

(** One owner, whose credential is "secret". *)
Definition one_owner : AdminUsers := mkAdminUsers {[ HashToken "secret" := Authn.mkRow "u1" "o1" "owner" None ]} true.

Definition ask (token : string) : ServerRequest :=
  mkServerRequest "POST" "/graphql" (fun name => if String.eqb name "Authorization" then "Bearer " +:+ token else "") "the demo query".

Abbreviation demo_port := (http clear_signer test_uuid test_uuid (fun s => s) no_gateway flaky_metrics).
Abbreviation demo_http token := (run demo_port (serve_http (fun _ => (200, "")) (ask token)) (one_owner, one_in_flight)).

Lemma http_port_reads_for_holders_witness :
  (exists w, demo_http "secret" = ((200,
     print (JObj [("__typename", JStr "Query");
       ("user", JObj [("id", JStr "u1"); ("role", JStr "owner")]);
       ("rollouts", JArr [JObj [("rolloutId", JStr "r1"); ("canaryPercent", JNum "1"); ("endedAt", JNull)]]);
       ("kind", JObj [("kind", JStr "OBJECT");
          ("fields", JArr (map (fun f => JObj [("name", JStr f.1); ("type", JObj [("kind", JStr "NON_NULL"); ("ofType", JObj [("name", JStr f.2)])])])
             [("id", "ID"); ("orgId", "ID"); ("role", "String")]))])])), (one_owner, w)) /\ same_records one_in_flight w)
  /\ (demo_http "guess").1 = (401, unauthorized_body).
Proof.
  split.
  - destruct (http_port_reads_for_holders clear_signer test_uuid test_uuid (fun s => s) no_gateway flaky_metrics (fun _ => (200, "")) (ask "secret") one_owner one_in_flight) as [_ H].
    destruct (demo_http "secret") as [resp [t p]] eqn:Hr. destruct H as (-> & Hk & Hq & _).
    exists p. split; [|exact Hk]. f_equal. specialize (Hq eq_refl eq_refl).
    assert (resp = (demo_http "secret").1) as -> by (rewrite Hr; reflexivity). clear. vm_compute. reflexivity.
  - destruct (http_port_reads_for_holders clear_signer test_uuid test_uuid (fun s => s) no_gateway flaky_metrics (fun _ => (200, "")) (ask "guess") one_owner one_in_flight) as [_ H].
    destruct (demo_http "guess") as [resp [t p]] eqn:Hr. destruct H as (_ & _ & Hq & _).
    specialize (Hq eq_refl eq_refl). destruct (holder one_owner _) as [id|] eqn:Hh; [|exact (proj1 Hq)].
    exfalso. revert Hh. clear. vm_compute. discriminate.
Defined.
