(* ===== verification/Startup.v ===== *)
(** The services' main(): environment, dependencies, listeners, readiness.

    Every main is a program over [BootE], ending in the exit status of the
    process; what it serves is carried by the calls that start the servers.
    [boot] answers the calls from an environment and from which dependencies
    are there, and logs what was started. *)

From S2P Require Import Prelude Errors Prog Json HttpServer Quota Breaker Vault ProviderToken.
From S2P Require Import Adapter Credentials Gateway FakeAdapter.
From Stdlib Require Import DecimalString Ascii.
#[local] Open Scope Z_scope.

(** * The environment *)

(** [strconv.ParseInt(s, 10, 64)]. *)
Definition ParseInt64 (s : string) : option Z :=
  let z := match s with
           | String "+"%char r => Z.of_uint <$> NilZero.uint_of_string r
           | _ => atoi s
           end in
  match z with
  | Some z => if (- 2^63 <=? z) && (z <? 2^63) then Some z else None
  | None => None
  end.

(** An unset variable is empty. *)
Definition or_default (v def : string) : string := if bool_decide (v = "") then def else v.

Definition int_or_default (v : string) (def : Z) : Z :=
  if bool_decide (v = "") then def else default def (ParseInt64 v).

(** [strings.Split(s, ",")]. *)
Fixpoint split_commas (s : string) : list string :=
  match s with
  | EmptyString => [""]
  | String c s' =>
      if Ascii.eqb c ","%char then "" :: split_commas s'
      else match split_commas s' with
           | w :: ws => String c w :: ws
           | [] => [String c ""]
           end
  end.

Lemma int_or_default_parses z def : in64 z -> int_or_default (itoa z) def = z.
Proof.
  intros Hz. unfold int_or_default, ParseInt64. pose proof (wf_number_itoa z) as Hw.
  assert (Hne : itoa z <> "") by (intros He; pose proof (atoi_itoa z) as Ha; rewrite He in Ha; discriminate Ha).
  rewrite bool_decide_false by done.
  assert (Hp : match itoa z with String "+"%char r => Z.of_uint <$> NilZero.uint_of_string r | _ => atoi (itoa z) end = Some z).
  { rewrite atoi_itoa. destruct (itoa_shape z) as (d & _ & [->| ->]); [by destruct d|done]. }
  rewrite Hp. unfold in64 in Hz.
  destruct (Z.leb_spec (- 2 ^ 63) z); [|lia]. destruct (Z.ltb_spec z (2 ^ 63)); [done|lia].
Qed.

Lemma int_or_default_in64 v def : in64 def -> in64 (int_or_default v def).
Proof.
  intros Hd. unfold int_or_default, ParseInt64. case_bool_decide; [done|].
  destruct (match v with String "+"%char r => _ | _ => _ end) as [z|]; [|done].
  by destruct (Z.leb_spec (- 2 ^ 63) z), (Z.ltb_spec z (2 ^ 63)).
Qed.

Example parse_int64_examples :
  map ParseInt64 ["60"; "-5"; "+7"; "007"; ""; "+-1"; "--1"; " 1"; "1_000"; "9223372036854775807"; "9223372036854775808"; "-9223372036854775808"]
  = [Some 60; Some (-5); Some 7; Some 7; None; None; None; None; None; Some (2^63 - 1); None; Some (- 2^63)].
Proof. vm_compute. reflexivity. Qed.

(** * What a main() calls *)

Inductive BootE (C : Type) : interface :=
| Getenv (key : string) : BootE C string
| SqlOpen (dsn : string) : BootE C (res unit)
| PingDB : BootE C (res unit)
| NewEtcd (endpoints : list string) : BootE C (res unit)
| InClusterConfig : BootE C (res unit)
| NewDynamic : BootE C (res unit)
| NewExporter (endpoint : string) : BootE C (res unit)
| NewGrpcClient (addr : string) : BootE C (res unit)
| TryListModels : BootE C (res unit)
| OnResolver (provider : string) {X} (e : CredE X) : BootE C X
| Listen (port : string) : BootE C (res unit)
| GoReconcile (namespace promAddr : string) : BootE C unit
| GoRefresh (provider : string) (wait : Z) : BootE C unit
| GoServe (served : C) : BootE C unit
| ListenAndServe (port : string) : BootE C (res unit).
Arguments Getenv {C}. Arguments SqlOpen {C}. Arguments PingDB {C}. Arguments NewEtcd {C}. Arguments InClusterConfig {C}.
Arguments NewDynamic {C}. Arguments NewExporter {C}. Arguments NewGrpcClient {C}. Arguments TryListModels {C}.
Arguments OnResolver {C} provider {X} e. Arguments Listen {C}. Arguments GoReconcile {C}. Arguments GoRefresh {C}.
Arguments GoServe {C}. Arguments ListenAndServe {C}.

Definition envOr {C} (key def : string) : prog (BootE C) string :=
  v <- call (Getenv key) ;; Ret (or_default v def).

Definition envInt64Or {C} (key : string) (def : Z) : prog (BootE C) Z :=
  v <- call (Getenv key) ;; Ret (int_or_default v def).

(** [if err != nil { ...; os.Exit(1) }]. *)
Definition or_exit {C} (p : prog (BootE C) (res unit)) (k : prog (BootE C) Z) : prog (BootE C) Z :=
  r <- p ;; match (r : res unit) with Err _ => Ret 1 | Ok _ => k end.

(** The end of every main: serving until that fails. *)
Definition serve_until_failure {C} (port : string) : prog (BootE C) Z :=
  or_exit (call (ListenAndServe port)) (Ret 0).

(** * control-plane *)

(** What the gRPC server is built from, besides the connections. *)
Record ControlConfig := mkControlConfig {
  ccDsn : string; ccVault : Vault.Client; ccEtcd : list string; ccTokens : ProviderToken.Service }.

Definition dsn (user host port : string) : string :=
  "postgres://" +:+ user +:+ "@" +:+ host +:+ ":" +:+ port +:+ "/defaultdb?sslmode=disable".

(** [time.Duration(n) * time.Second]. *)
Definition seconds (n : Z) : Z := wrap64 (n * second).

Definition control_main : prog (BootE ControlConfig) Z :=
  cockroachHost <- envOr "COCKROACH_HOST" "onezox-crdb-public.default.svc.cluster.local" ;;
  cockroachPort <- envOr "COCKROACH_PORT" "26257" ;;
  cockroachUser <- envOr "COCKROACH_USER" "control_plane" ;;
  let dsn := dsn cockroachUser cockroachHost cockroachPort in
  or_exit (call (SqlOpen dsn)) (
  or_exit (call PingDB) (
  vaultAddr <- envOr "VAULT_ADDR" "http://vault-active.default.svc.cluster.local:8200" ;;
  vaultK8sRole <- envOr "VAULT_K8S_ROLE" "control-plane" ;;
  endpoints <- envOr "ETCD_ENDPOINTS" "http://etcd.default.svc.cluster.local:2379" ;;
  let etcdEndpoints := split_commas endpoints in
  or_exit (call (NewEtcd etcdEndpoints)) (
  ttl <- envInt64Or "PROVIDER_TOKEN_TTL_SECONDS" 300 ;;
  or_exit (call InClusterConfig) (
  or_exit (call NewDynamic) (
  promAddr <- envOr "PROMETHEUS_ADDR" "http://prometheus-server.default.svc.cluster.local" ;;
  analysisNamespace <- envOr "ANALYSIS_NAMESPACE" "default" ;;
  call (GoReconcile analysisNamespace promAddr) ;;;
  grpcPort <- envOr "GRPC_PORT" "50051" ;;
  or_exit (call (Listen grpcPort)) (
  call (GoServe (mkControlConfig dsn (Vault.New vaultAddr vaultK8sRole) etcdEndpoints (ProviderToken.NewService (seconds ttl)))) ;;;
  httpPort <- envOr "PORT" "8080" ;;
  serve_until_failure httpPort)))))).

Definition control_mux {E : interface} (ping : prog E (res unit)) (metrics : ServerRequest -> Z * string)
    : list (string * string * (ServerRequest -> prog E (Z * string))) :=
  [ ("GET", "/healthz", healthz);
    ("GET", "/readyz", fun _ => ready_when ping);
    ("GET", "/metrics", fun req => Ret (metrics req)) ].

(** * admin-api *)

Record AdminConfig := mkAdminConfig { acDsn : string; acControl : string; acProviders : string; acMetrics : string }.

(** The boot check of the control plane is only logged. *)
Definition admin_main : prog (BootE AdminConfig) Z :=
  cockroachHost <- envOr "COCKROACH_HOST" "onezox-crdb-public.default.svc.cluster.local" ;;
  cockroachPort <- envOr "COCKROACH_PORT" "26257" ;;
  cockroachUser <- envOr "COCKROACH_USER" "admin_api" ;;
  let dsn := dsn cockroachUser cockroachHost cockroachPort in
  or_exit (call (SqlOpen dsn)) (
  or_exit (call PingDB) (
  controlPlaneAddr <- envOr "CONTROL_PLANE_ADDR" "control-plane.default.svc.cluster.local:50051" ;;
  or_exit (call (NewGrpcClient controlPlaneAddr)) (
  call TryListModels ;;;
  providerGatewayAddr <- envOr "PROVIDER_GATEWAY_ADDR" "provider-gateway.default.svc.cluster.local:50051" ;;
  or_exit (call (NewGrpcClient providerGatewayAddr)) (
  prometheusAddr <- envOr "PROMETHEUS_ADDR" "http://prometheus-server.default.svc.cluster.local" ;;
  grpcPort <- envOr "GRPC_PORT" "50051" ;;
  or_exit (call (Listen grpcPort)) (
  call (GoServe (mkAdminConfig dsn controlPlaneAddr providerGatewayAddr prometheusAddr)) ;;;
  httpPort <- envOr "PORT" "8080" ;;
  serve_until_failure httpPort))))).

(** * provider-fake *)

(** A handler that panics drops the connection: no answer. *)
Definition fake_mux : list (string * string * (ServerRequest -> option (Z * string))) :=
  [ ("POST", "/v1/fake-complete", fun req => handleFakeComplete (srBody req));
    ("GET", "/healthz", fun _ => Some (200, "ok"));
    ("GET", "/readyz", fun _ => Some ready) ].

Definition fake_serve (req : ServerRequest) : option (Z * string) :=
  match ServeMux fake_mux req with inl r => Some r | inr h => h req end.

Definition fake_main : prog (BootE unit) Z :=
  port <- envOr "PORT" "8080" ;;
  serve_until_failure port.

(** * provider-gateway *)

Record GatewayConfig := mkGatewayConfig {
  gcRedis : string; gcResolvers : list string; gcServer : server (T := AnyStream) }.

Definition initTracer {C} : prog (BootE C) (res unit) :=
  endpoint <- envOr "OTEL_EXPORTER_OTLP_ENDPOINT_HOST" "otel-collector-opentelemetry-collector.default.svc.cluster.local:4317" ;;
  call (NewExporter endpoint).

(** [setupCredential]: the resolver with its first wait, if a key was found. *)
Definition setupCredential {C} (providerName : string) : prog (BootE C) (list (string * Z)) :=
  r <- link (fun X e => call (OnResolver providerName e)) (Refresh providerName) ;;
  Ret (match r with Ok wait => [(providerName, wait)] | Err _ => [] end).

Fixpoint go_refresh {C} (resolvers : list (string * Z)) : prog (BootE C) unit :=
  match resolvers with
  | [] => Ret tt
  | r :: rs => call (GoRefresh r.1 r.2) ;;; go_refresh rs
  end.

Definition gateway_main : prog (BootE GatewayConfig) Z :=
  or_exit initTracer (
  fakeBaseURL <- envOr "PROVIDER_FAKE_URL" "http://provider-fake.default.svc.cluster.local:8080" ;;
  controlPlaneAddr <- envOr "CONTROL_PLANE_ADDR" "control-plane.default.svc.cluster.local:50051" ;;
  or_exit (call (NewGrpcClient controlPlaneAddr)) (
  openai <- setupCredential "openai" ;;
  anthropic <- setupCredential "anthropic" ;;
  googleKey <- call (Getenv "GOOGLE_API_KEY") ;;
  grok <- setupCredential "grok" ;;
  glm <- setupCredential "glm" ;;
  kimi <- setupCredential "kimi" ;;
  let resolvers := openai ++ anthropic ++ grok ++ glm ++ kimi in
  go_refresh resolvers ;;;
  let resolved p := existsb (String.eqb p) (map fst resolvers) in
  redisHost <- envOr "REDIS_HOST" "redis-cluster-headless.default.svc.cluster.local" ;;
  quotaLimit <- envInt64Or "QUOTA_LIMIT_PER_MINUTE" 60 ;;
  threshold <- envInt64Or "BREAKER_FAILURE_THRESHOLD" 5 ;;
  openSeconds <- envInt64Or "BREAKER_OPEN_DURATION_SECONDS" 30 ;;
  grpcPort <- envOr "GRPC_PORT" "50051" ;;
  or_exit (call (Listen grpcPort)) (
  call (GoServe (mkGatewayConfig (redisHost +:+ ":6379") (map fst resolvers)
    (mkServer (NewRegistry (registered_adapters fakeBaseURL googleKey resolved))
              {| Limit := quotaLimit; Window := 60 * second |}
              {| FailureThreshold := threshold; OpenDuration := seconds openSeconds |}))) ;;;
  httpPort <- envOr "PORT" "8080" ;;
  serve_until_failure httpPort))).

(** Its [/readyz]: Redis, and a live credential for every resolver. *)
Inductive ReadyE : interface :=
| PingRedis : ReadyE (res unit)
| SourceOf (provider : string) : ReadyE string.

Fixpoint all_resolved (resolvers : list string) : prog ReadyE (Z * string) :=
  match resolvers with
  | [] => Ret ready
  | p :: ps =>
      source <- call (SourceOf p) ;;
      if bool_decide (source = "") then Ret not_ready else all_resolved ps
  end.

Definition gateway_readyz (resolvers : list string) : prog ReadyE (Z * string) :=
  r <- call PingRedis ;;
  match (r : res unit) with Err _ => Ret not_ready | Ok _ => all_resolved resolvers end.

Definition gateway_mux (resolvers : list string) (metrics : ServerRequest -> Z * string)
    : list (string * string * (ServerRequest -> prog ReadyE (Z * string))) :=
  [ ("GET", "/healthz", healthz);
    ("GET", "/readyz", fun _ => gateway_readyz resolvers);
    ("GET", "/metrics", fun req => Ret (metrics req)) ].

(** * Booting *)

(** What a main finds, and what it has started. *)
Record Surroundings := mkSurroundings {
  environment : gmap string string;
  has_db : bool; db_answers : bool; has_etcd : bool; in_cluster : bool; has_dynamic : bool;
  has_exporter : bool; grpc_ok : string -> bool; port_free : string -> bool;
  first_fetch : string -> answer }.

Inductive started (C : Type) :=
| Reconciling (namespace promAddr : string)
| Refreshing (provider : string) (wait : Z)
| ServingGrpc (served : C)
| ServingHttp (port : string).
Arguments Reconciling {C}. Arguments Refreshing {C}. Arguments ServingGrpc {C}. Arguments ServingHttp {C}.

Definition checked (b : bool) : res unit := if b then Ok tt else Err (Lib "unavailable").

Section Boot.
Context (sur : Surroundings).

Definition getenv (key : string) : string := default "" (environment sur !! key).
Definition get (key def : string) : string := or_default (getenv key) def.
Definition get_int (key : string) (def : Z) : Z := int_or_default (getenv key) def.

(** The servers run until they fail. *)
Definition boot {C} : handler (BootE C) (list (started C)) := fun X e log =>
  match e in BootE _ X return X * list (started C) with
  | Getenv key => (getenv key, log)
  | SqlOpen _ => (checked (has_db sur), log)
  | PingDB => (checked (db_answers sur), log)
  | NewEtcd _ => (checked (has_etcd sur), log)
  | InClusterConfig => (checked (in_cluster sur), log)
  | NewDynamic => (checked (has_dynamic sur), log)
  | NewExporter _ => (checked (has_exporter sur), log)
  | NewGrpcClient addr => (checked (grpc_ok sur addr), log)
  | TryListModels => (Err (Lib "not yet"), log)
  | OnResolver p e =>
      (match e in CredE X return X with
       | @Fetch Y e => match e in TokenFetcher Y return Y with FetchToken q _ => first_fetch sur q end
       | SetAPIKey _ => tt
       | setSource _ => tt
       | Wait _ => false
       end, log)
  | Listen port => (checked (port_free sur port), log)
  | GoReconcile ns prom => (tt, log ++ [Reconciling ns prom])
  | GoRefresh p wait => (tt, log ++ [Refreshing p wait])
  | GoServe c => (tt, log ++ [ServingGrpc c])
  | ListenAndServe port => (Err (Lib "closed"), log ++ [ServingHttp port])
  end.

Lemma run_envOr {C} key def log : run (boot (C := C)) (envOr key def) log = (get key def, log).
Proof. done. Qed.

Lemma run_envInt {C} key def log : run (boot (C := C)) (envInt64Or key def) log = (get_int key def, log).
Proof. done. Qed.

Lemma run_or_exit {C} (p : prog (BootE C) (res unit)) k b log :
  run boot p log = (checked b, log) -> run boot (or_exit p k) log = if b then run boot k log else (1, log).
Proof. intros Hp. unfold or_exit. rewrite run_bind, Hp. by destruct b. Qed.

Lemma run_serve {C} port log : run (boot (C := C)) (serve_until_failure port) log = (1, log ++ [ServingHttp port]).
Proof. done. Qed.

(** Through a main, call by call. *)
Ltac booting :=
  repeat first
    [ rewrite run_bind, run_envOr | rewrite run_bind, run_envInt | rewrite run_bind, run_call; cbn [boot]
    | erewrite run_or_exit by reflexivity | rewrite run_serve
    | match goal with |- context [if ?b then _ else _] => destruct b; cbn [andb]; [|reflexivity] end ];
  reflexivity.

(** control-plane: a replica serves, and campaigns to reconcile, only if the
    database, etcd and the cluster are there. *)
Definition control_config : ControlConfig :=
  mkControlConfig (dsn (get "COCKROACH_USER" "control_plane") (get "COCKROACH_HOST" "onezox-crdb-public.default.svc.cluster.local") (get "COCKROACH_PORT" "26257"))
    (Vault.New (get "VAULT_ADDR" "http://vault-active.default.svc.cluster.local:8200") (get "VAULT_K8S_ROLE" "control-plane"))
    (split_commas (get "ETCD_ENDPOINTS" "http://etcd.default.svc.cluster.local:2379"))
    (ProviderToken.NewService (seconds (get_int "PROVIDER_TOKEN_TTL_SECONDS" 300))).

Definition control_dependencies : bool := has_db sur && db_answers sur && has_etcd sur && in_cluster sur && has_dynamic sur.

Lemma control_boots :
  run boot control_main [] = (1, if control_dependencies
    then Reconciling (get "ANALYSIS_NAMESPACE" "default") (get "PROMETHEUS_ADDR" "http://prometheus-server.default.svc.cluster.local")
         :: if port_free sur (get "GRPC_PORT" "50051") then [ServingGrpc control_config; ServingHttp (get "PORT" "8080")] else []
    else []).
Proof. unfold control_main, control_dependencies. booting. Qed.

(** admin-api: of the two services it calls only a usable address is needed. *)
Definition admin_config : AdminConfig :=
  mkAdminConfig (dsn (get "COCKROACH_USER" "admin_api") (get "COCKROACH_HOST" "onezox-crdb-public.default.svc.cluster.local") (get "COCKROACH_PORT" "26257"))
    (get "CONTROL_PLANE_ADDR" "control-plane.default.svc.cluster.local:50051")
    (get "PROVIDER_GATEWAY_ADDR" "provider-gateway.default.svc.cluster.local:50051")
    (get "PROMETHEUS_ADDR" "http://prometheus-server.default.svc.cluster.local").

Lemma admin_boots :
  run boot admin_main [] = (1,
    if has_db sur && db_answers sur && grpc_ok sur (acControl admin_config) && grpc_ok sur (acProviders admin_config)
       && port_free sur (get "GRPC_PORT" "50051")
    then [ServingGrpc admin_config; ServingHttp (get "PORT" "8080")] else []).
Proof. unfold admin_main, admin_config. cbn [acControl acProviders]. booting. Qed.

Lemma fake_boots : run boot fake_main [] = (1, [ServingHttp (get "PORT" "8080")]).
Proof. reflexivity. Qed.

(** ** provider-gateway *)

(** The providers whose key comes from Vault, in the order main asks for them. *)
Definition vault_providers : list string := ["openai"; "anthropic"; "grok"; "glm"; "kimi"].

Definition has_key (p : string) : bool := usable (first_fetch sur p).

Definition first_wait (p : string) : string * Z := (p, next_refresh (first_fetch sur p).1.2).

Lemma run_setup {C} p log :
  run (boot (C := C)) (setupCredential p) log = (if has_key p then [first_wait p] else [], log).
Proof.
  unfold setupCredential, has_key, first_wait. rewrite run_bind, run_link.
  assert (forall q : prog CredE (res Z), (run (fun X e => run (boot (C := C)) (call (OnResolver p e))) q log).2 = log) as Hlog.
  { intros q. apply (run_preserves _ (fun s s' => s = s -> s' = s)); [done|intros s1 s2 s3 H1 H2 _; rewrite H2, H1; done|done|done]. }
  unfold Refresh. rewrite run_bind, run_call. cbn. destruct (first_fetch sur p) as [[t d] err]. unfold usable.
  destruct err as [e|]; [by rewrite bool_decide_true by done|].
  rewrite bool_decide_false by (by intros [? ?]). cbn. by case_bool_decide.
Qed.

Lemma run_go_refresh {C} rs log : run (boot (C := C)) (go_refresh rs) log = (tt, log ++ map (fun r => Refreshing r.1 r.2) rs).
Proof.
  revert log. induction rs as [|r rs IH]; intros log; cbn [go_refresh map]; [by rewrite app_nil_r|].
  rewrite run_bind, run_call. cbn [boot]. by rewrite IH, <- app_assoc.
Qed.

(** The server a gateway with these surroundings runs. *)
Definition gateway_server : server (T := AnyStream) :=
  mkServer (NewRegistry (registered_adapters (get "PROVIDER_FAKE_URL" "http://provider-fake.default.svc.cluster.local:8080")
                           (getenv "GOOGLE_API_KEY") has_key))
    {| Limit := get_int "QUOTA_LIMIT_PER_MINUTE" 60; Window := 60 * second |}
    {| FailureThreshold := get_int "BREAKER_FAILURE_THRESHOLD" 5; OpenDuration := seconds (get_int "BREAKER_OPEN_DURATION_SECONDS" 30) |}.

Definition keyed_providers : list string := List.filter has_key vault_providers.

Lemma registered_as_resolved url google :
  registered_adapters url google (fun p => existsb (String.eqb p) keyed_providers) = registered_adapters url google has_key.
Proof.
  unfold registered_adapters, keyed_providers, vault_providers. cbn [List.filter].
  by destruct (has_key "openai"), (has_key "anthropic"), (has_key "grok"), (has_key "glm"), (has_key "kimi").
Qed.

(** What the provider-gateway starts.  It needs its exporter and a usable address
    of the control plane; the keys it could not get only leave their providers
    out. *)
Definition gateway_starts : list (started GatewayConfig) :=
  if has_exporter sur && grpc_ok sur (get "CONTROL_PLANE_ADDR" "control-plane.default.svc.cluster.local:50051")
  then map (fun p => Refreshing p (first_wait p).2) keyed_providers
       ++ if port_free sur (get "GRPC_PORT" "50051")
          then [ServingGrpc (mkGatewayConfig (get "REDIS_HOST" "redis-cluster-headless.default.svc.cluster.local" +:+ ":6379") keyed_providers gateway_server);
                ServingHttp (get "PORT" "8080")]
          else []
  else [].

Lemma resolvers_keyed :
  (if has_key "openai" then [first_wait "openai"] else []) ++ (if has_key "anthropic" then [first_wait "anthropic"] else [])
  ++ (if has_key "grok" then [first_wait "grok"] else []) ++ (if has_key "glm" then [first_wait "glm"] else [])
  ++ (if has_key "kimi" then [first_wait "kimi"] else []) = map first_wait keyed_providers.
Proof.
  unfold keyed_providers, vault_providers. cbn [List.filter].
  by destruct (has_key "openai"), (has_key "anthropic"), (has_key "grok"), (has_key "glm"), (has_key "kimi").
Qed.

Lemma gateway_boots : run boot gateway_main [] = (1, gateway_starts).
Proof.
  unfold gateway_main, gateway_starts. rewrite (run_or_exit _ _ (has_exporter sur)) by reflexivity.
  destruct (has_exporter sur); cbn [andb]; [|reflexivity].
  rewrite run_bind, run_envOr, run_bind, run_envOr. erewrite run_or_exit by reflexivity. destruct (grpc_ok sur _); [|reflexivity].
  do 2 rewrite run_bind, run_setup. rewrite run_bind, run_call. cbn [boot]. do 3 rewrite run_bind, run_setup.
  cbv zeta. rewrite resolvers_keyed, map_map. cbn [fst first_wait]. rewrite map_id.
  rewrite run_bind, run_go_refresh. do 5 (rewrite run_bind; first [rewrite run_envOr|rewrite run_envInt]).
  erewrite run_or_exit by reflexivity. rewrite map_map. cbn [fst snd first_wait app].
  destruct (port_free sur _); [|by rewrite app_nil_r].
  rewrite run_bind, run_call. cbn [boot]. rewrite run_bind, run_envOr, run_serve, registered_as_resolved, <- app_assoc. reflexivity.
Qed.

Lemma registry_lookup (l : list (Adapter AnyStream)) p :
  is_ok (Lookup (NewRegistry l) p) = existsb (String.eqb p) (map (fun a => Name a) l).
Proof.
  unfold Lookup, NewRegistry. enough (forall r : gmap string (Adapter AnyStream),
    is_ok (match fold_left (fun r a => <[Name a := a]> r) l r !! p with Some a => Ok a | None => Err (ErrUnknownProvider p) end)
    = (is_ok (match r !! p with Some a => Ok a | None => Err (ErrUnknownProvider p) end) || existsb (String.eqb p) (map (fun a => Name a) l))) as H.
  { exact (H ∅). }
  induction l as [|a l IH]; intros r; cbn [fold_left map existsb]; [by rewrite orb_false_r|].
  rewrite IH, orb_assoc. f_equal. destruct (String.eqb p (Name a)) eqn:He.
  - apply String.eqb_eq in He as ->. by rewrite lookup_insert_eq, orb_true_r.
  - rewrite lookup_insert_ne by (intros Hne; rewrite Hne, String.eqb_refl in He; discriminate). by rewrite orb_false_r.
Qed.

Lemma gateway_knows p :
  is_ok (Lookup (registry gateway_server) p) = true
  <-> p = "fake" \/ (p = "google" /\ getenv "GOOGLE_API_KEY" <> "") \/ (In p vault_providers /\ has_key p = true).
Proof.
  unfold gateway_server. cbn [registry]. rewrite registry_lookup, existsb_exists. split.
  - intros (n & Hn & He). apply String.eqb_eq in He as <-. unfold registered_adapters in Hn.
    rewrite !map_app, !in_app_iff in Hn. destruct Hn as [Hn|[Hn|[Hn|[Hn|[Hn|[Hn|Hn]]]]]].
    + destruct Hn as [<-|[]]. by left.
    + destruct (has_key "openai") eqn:Hk; [|done]. destruct Hn as [<-|[]]. right. right. cbn. tauto.
    + destruct (has_key "anthropic") eqn:Hk; [|done]. destruct Hn as [<-|[]]. right. right. cbn. tauto.
    + case_bool_decide; [done|]. destruct Hn as [<-|[]]. right. by left.
    + destruct (has_key "grok") eqn:Hk; [|done]. destruct Hn as [<-|[]]. right. right. cbn. tauto.
    + destruct (has_key "glm") eqn:Hk; [|done]. destruct Hn as [<-|[]]. right. right. cbn. tauto.
    + destruct (has_key "kimi") eqn:Hk; [|done]. destruct Hn as [<-|[]]. right. right. cbn. tauto.
  - intros H. exists p. split; [|by apply String.eqb_refl]. unfold registered_adapters. rewrite !map_app, !in_app_iff.
    destruct H as [->|[[-> Hg]|[Hin Hk]]].
    + left. by left.
    + rewrite bool_decide_false by done. do 3 right. left. by left.
    + cbn in Hin. destruct Hin as [<-|[<-|[<-|[<-|[<-|[]]]]]]; rewrite Hk; cbn; tauto.
Qed.

(** C24. Starting the provider-gateway.  Whatever it finds, main ends with status 1
    and only after its servers failed or a dependency it cannot do without (the
    exporter, an address of the control plane, its port) was missing; otherwise
    it starts the refresh loops of exactly the providers it got a key for, then
    serves gRPC with the limits of the environment (60 a minute, 5 failures, 30
    seconds where it does not say, or says no number) and then HTTP.  The
    providers it knows are the fake, google when its key is set, and the ones
    whose key was resolved; every limit is a 64-bit number. *)
Theorem gateway_start_up :
  run boot gateway_main [] = (1, gateway_starts)
  /\ (forall p, is_ok (Lookup (registry gateway_server) p) = true
        <-> p = "fake" \/ (p = "google" /\ getenv "GOOGLE_API_KEY" <> "") \/ (In p vault_providers /\ has_key p = true))
  /\ (forall p, In p keyed_providers <-> In p vault_providers /\ has_key p = true)
  /\ in64 (Limit (quotaPolicy gateway_server)) /\ in64 (OpenDuration (breakerConfig gateway_server))
  /\ (forall z, in64 z -> getenv "QUOTA_LIMIT_PER_MINUTE" = itoa z -> Limit (quotaPolicy gateway_server) = z)
  /\ (ParseInt64 (getenv "QUOTA_LIMIT_PER_MINUTE") = None -> Limit (quotaPolicy gateway_server) = 60).
Proof.
  split; [apply gateway_boots|]. split; [apply gateway_knows|]. split; [intros p; apply filter_In|].
  split; [by apply int_or_default_in64|]. split; [apply wrap64_in64|]. split.
  - intros z Hz He. cbn. unfold get_int. rewrite He. by apply int_or_default_parses.
  - intros He. cbn. unfold get_int, int_or_default. rewrite He. by case_bool_decide.
Qed.
End Boot.

(** * Readiness *)

Section Readiness.
Context {W : Type} (fetcher : handler TokenFetcher W) (until : Z).

(** A resolver of a running gateway: its first refresh gave a key, and its loop
    has run for a while. *)
Definition live (provider : string) (pod : Pod W) : Prop :=
  exists now w wait p1 fuel,
    run (pod_env fetcher until) (Refresh provider) (NewResolver now w) = (Ok wait, p1)
    /\ pod = (run (pod_env fetcher until) (Run fuel provider wait) p1).2.

Lemma refresh_keeps_key provider p :
  adapterKey p <> "" -> adapterKey (run (pod_env fetcher until) (Refresh provider) p).2 <> "".
Proof.
  intros Hk. pose proof (refresh_run fetcher until provider p) as Hr.
  destruct (fetcher _ _ _) as [[[t d] err] w]. rewrite Hr. cbn [snd adapterKey].
  destruct (usable (t, d, err)) eqn:Hu; [|done]. unfold usable in Hu. destruct err; [done|]. by case_bool_decide.
Qed.

Lemma loop_keeps_key fuel provider wait p :
  adapterKey p <> "" -> adapterKey (run (pod_env fetcher until) (Run fuel provider wait) p).2 <> "".
Proof.
  revert wait p. induction fuel as [|fuel IH]; intros wait p Hk; [done|]. cbn [Run].
  rewrite run_bind, run_call. cbn [pod_env]. destruct (_ <? until); [|done]. rewrite run_bind.
  pose proof (refresh_keeps_key provider (mkPod (adapterKey p) (source p) (podNow p + Z.max 0 wait) (fetches p) (backend p)) Hk) as Hr.
  destruct (run _ (Refresh provider) _) as [r p']. by apply IH.
Qed.

Lemma live_resolver provider pod :
  live provider pod ->
  adapterKey pod <> "" /\ (CurrentSource pod <> "" <-> exists x, last (fetches pod) = Some x /\ usable x.2 = true).
Proof.
  intros (now & w & wait & p1 & fuel & Hr & ->). split.
  - apply loop_keeps_key. pose proof (refresh_run fetcher until provider (NewResolver now w)) as Hf. rewrite Hr in Hf.
    destruct (fetcher _ _ _) as [[[t d] err] w']. injection Hf as Hok ->. cbn [adapterKey].
    clear Hr. destruct err as [e|]; [discriminate Hok|]. case_bool_decide; [discriminate Hok|done].
  - pose proof (refresh_logged fetcher until provider (NewResolver now w) now 0) as H.
    cbn [NewResolver adapterKey source fetches backend] in H. unfold NewResolver in Hr. rewrite Hr in H.
    destruct H as [Hl Hd]; [done|by left|done|].
    pose proof (run_logged fetcher until fuel provider wait p1 Hl Hd) as (_ & Hs & _).
    unfold CurrentSource. rewrite Hs. unfold from_vault. destruct (last _) as [x|]; [|by split; [|intros (? & ? & _)]].
    destruct (usable x.2) eqn:Hu; split; [by eauto|done|intros Hne; by destruct Hne|]. intros (y & ? & ?). simplify_eq. congruence.
Qed.

Definition readiness (redis : bool) (pods : gmap string (Pod W)) : handler ReadyE unit := fun X e s =>
  match e in ReadyE X return X * unit with
  | PingRedis => (checked redis, s)
  | SourceOf p => (match pods !! p with Some pod => CurrentSource pod | None => "" end, s)
  end.

Lemma all_resolved_run redis pods rs :
  (run (readiness redis pods) (all_resolved rs) tt).1
  = if forallb (fun p => negb (bool_decide (match pods !! p with Some pod => CurrentSource pod | None => "" end = ""))) rs
    then ready else not_ready.
Proof.
  induction rs as [|p rs IH]; [done|]. cbn [all_resolved forallb]. rewrite run_bind, run_call. cbn [readiness].
  case_bool_decide; [done|]. exact IH.
Qed.

(** C25. Readiness of a running gateway.  The page says ready exactly when Redis
    answers and the latest refresh of every registered provider's key succeeded;
    otherwise it says not ready.  So one failed refresh of one provider takes the
    whole pod out of service until the next refresh, although every adapter still
    holds a key that it was given. *)
Theorem gateway_readiness redis pods rs :
  (forall p, In p rs -> exists pod, pods !! p = Some pod /\ live p pod) ->
  let page := (run (readiness redis pods) (gateway_readyz rs) tt).1 in
  (page = ready <-> redis = true /\ forall p pod, In p rs -> pods !! p = Some pod ->
     exists x, last (fetches pod) = Some x /\ usable x.2 = true)
  /\ (page = ready \/ page = not_ready)
  /\ forall p pod, In p rs -> pods !! p = Some pod -> adapterKey pod <> "".
Proof.
  intros Hlive page.
  assert (Hpage : page = if redis && forallb (fun p => negb (bool_decide (match pods !! p with Some pod => CurrentSource pod | None => "" end = ""))) rs then ready else not_ready).
  { unfold page, gateway_readyz. rewrite run_bind, run_call. cbn [readiness]. destruct redis; [|done]. apply all_resolved_run. }
  assert (Hsrc : forall p pod, In p rs -> pods !! p = Some pod -> adapterKey pod <> "" /\ (CurrentSource pod <> "" <-> exists x, last (fetches pod) = Some x /\ usable x.2 = true)).
  { intros p pod Hin Hp. destruct (Hlive p Hin) as (pod' & Hp' & Hl). simplify_eq. by apply (live_resolver p). }
  split; [|split].
  - rewrite Hpage. split.
    + destruct (redis && _) eqn:He; [|discriminate]. intros _. apply andb_true_iff in He as [-> Hall]. split; [done|].
      intros p pod Hin Hp. rewrite forallb_forall in Hall. specialize (Hall p Hin). rewrite Hp in Hall.
      apply (Hsrc p pod Hin Hp). by apply negb_true_iff, bool_decide_eq_false in Hall.
    + intros [-> Hall]. cbn [andb]. rewrite (proj2 (forallb_forall _ rs)); [done|]. intros p Hin.
      destruct (Hlive p Hin) as (pod & Hp & _). rewrite Hp. apply negb_true_iff, bool_decide_eq_false.
      apply (Hsrc p pod Hin Hp). by eapply Hall.
  - rewrite Hpage. destruct (redis && _); auto.
  - intros p pod Hin Hp. by apply (Hsrc p pod).
Qed.
End Readiness.

(** * Witnesses *)

(** Vault answers for openai and glm. *)
Definition two_keys : Surroundings :=
  mkSurroundings {[ "QUOTA_LIMIT_PER_MINUTE" := "120"; "BREAKER_FAILURE_THRESHOLD" := "five" ]}
    false false false false false true (fun _ => true) (fun _ => true)
    (fun p => if existsb (String.eqb p) ["openai"; "glm"] then ("sk-" +:+ p, 300 * second, None) else ("", 0, Some (Lib "no secret"))).

Lemma gateway_start_up_witness :
  (run (boot two_keys) gateway_main []).1 = 1
  /\ is_ok (Lookup (registry (gateway_server two_keys)) "glm") = true
  /\ is_ok (Lookup (registry (gateway_server two_keys)) "kimi") = false
  /\ Limit (quotaPolicy (gateway_server two_keys)) = 120.
Proof.
  destruct (gateway_start_up two_keys) as (Hrun & Hknown & _ & _ & _ & Hlimit & _).
  split; [by rewrite Hrun|]. split; [apply Hknown; right; right; split; [cbn; tauto|reflexivity]|]. split.
  - destruct (is_ok _) eqn:H; [|reflexivity]. apply Hknown in H as [H|[[H _]|[_ H]]]; discriminate H.
  - apply Hlimit; [split; reflexivity + discriminate|reflexivity].
Defined.

(** The first fetch succeeds, the later ones fail. *)
Definition fails_later : handler TokenFetcher nat := fun X e n =>
  match e in TokenFetcher X return X * nat with
  | FetchToken _ _ => (match n with O => ("sk-1", 300 * second, None) | _ => ("", 0, Some (Lib "vault is sealed")) end, Datatypes.S n)
  end.

Definition after_outage : Pod nat :=
  (run (pod_env fails_later (400 * second)) (Run 5 "openai" (270 * second))
     (mkPod "sk-1" SourceVault 0 [(0, ("sk-1", 300 * second, None))] 1%nat)).2.

Lemma gateway_readiness_witness :
  let pods := {[ "openai" := after_outage ]} in
  (run (readiness true pods) (gateway_readyz ["openai"]) tt).1 = not_ready /\ adapterKey after_outage <> "".
Proof.
  intros pods.
  assert (Hlive : forall p, In p ["openai"] -> exists pod, pods !! p = Some pod /\ live fails_later (400 * second) p pod).
  { intros p [<-|[]]. exists after_outage. split; [reflexivity|].
    exists 0, 0%nat, (270 * second), (mkPod "sk-1" SourceVault 0 [(0, ("sk-1", 300 * second, None))] 1%nat), 5%nat. split; reflexivity. }
  destruct (gateway_readiness fails_later (400 * second) true pods ["openai"] Hlive) as (Hready & Hpage & Hkey). split.
  - destruct Hpage as [Hp|Hp]; [|exact Hp]. apply Hready in Hp as [_ Hall].
    destruct (Hall "openai" after_outage (or_introl eq_refl) eq_refl) as (x & Hx & Hu). revert Hx Hu. vm_compute. intros [= <-]. discriminate.
  - exact (Hkey "openai" after_outage (or_introl eq_refl) eq_refl).
Defined.
