(* ===== verification/Promclient.v ===== *)
(** admin-api/internal/promclient: instant queries against Prometheus.

    [Client_QueryScalar] is a program over [PromE], building a request and
    sending it; [prom_querier] makes it the [Querier] the dashboard reads.  The
    theorems say what every answer of Prometheus becomes. *)

From S2P Require Import Prelude Errors Prog Http Json JsonDecoder Float Graph.
From Stdlib Require Import SpecFloat Ascii.
#[local] Open Scope Z_scope.

(** * The request *)

(** [strings.TrimSuffix(addr, "/")]. *)
Definition trim_slash (addr : string) : string :=
  let n := (String.length addr - 1)%nat in
  if bool_decide (drop_str n addr = "/") then take_str n addr else addr.

Record Client := mkClient { cAddr : string }.

Definition New (addr : string) : Client := mkClient (trim_slash addr).

(** [url.QueryEscape]. *)
Definition unreserved (a : ascii) : bool :=
  let b := byte_of a in
  between 97 122 a || between 65 90 a || between 48 57 a || (b =? 45) || (b =? 95) || (b =? 46) || (b =? 126).

Definition upper_hex (z : Z) : ascii := of_byte (if z <? 10 then 48 + z else 55 + z).

Fixpoint QueryEscape (s : string) : string :=
  match s with
  | EmptyString => ""
  | String a s' =>
      (if unreserved a then String a ""
       else if byte_of a =? 32 then "+"
       else String (of_byte 37) (String (upper_hex (byte_of a / 16)) (String (upper_hex (byte_of a mod 16)) "")))
      +:+ QueryEscape s'
  end.

(** [url.Values{"query": {promQL}}.Encode()]. *)
Definition endpoint (c : Client) (promQL : string) : string :=
  cAddr c +:+ "/api/v1/query?query=" +:+ QueryEscape promQL.

Inductive PromE : interface :=
| PromBuild (method url : string) : PromE (res unit)
| PromDo (r : HttpRequest) : PromE (res HttpResponse).

(** * The response *)

(** Of a sample, the second element of [value]: nil when the array is shorter. *)
Record instantQueryResponse := mkInstant {
  iStatus : string; iResultType : string; iResult : list (option json); iErrorType : string; iError : string }.

Definition zeroInstant : instantQueryResponse := mkInstant "" "" [] "" "".

(** [[2]json.RawMessage], of which the second is read: elements beyond the
    second are ignored, missing ones are reset. *)
Definition d_value : decoder (option json) := fun j old =>
  match j with
  | JArr l => (l !! 1%nat, true)
  | JNull => (old, true)
  | _ => (old, false)
  end.

Definition d_instant : decoder instantQueryResponse := d_struct [
  field "status" iStatus (fun t r => mkInstant t (iResultType r) (iResult r) (iErrorType r) (iError r)) d_string;
  field "data" (fun r => (iResultType r, iResult r))
    (fun x r => mkInstant (iStatus r) x.1 x.2 (iErrorType r) (iError r))
    (d_struct [
      field "resultType" fst (fun t x => (t, x.2)) d_string;
      field "result" snd (fun l x => (x.1, l))
        (d_slice None (d_struct [field "value" id (fun v _ => v) d_value]))]);
  field "errorType" iErrorType (fun t r => mkInstant (iStatus r) (iResultType r) (iResult r) t (iError r)) d_string;
  field "error" iError (fun t r => mkInstant (iStatus r) (iResultType r) (iResult r) (iErrorType r) t) d_string].

(** [math.IsNaN(v) || math.IsInf(v, 0)]. *)
Definition not_finite (v : float64) : bool :=
  match v with S754_nan | S754_infinity _ => true | _ => false end.

(** [json.Unmarshal] of the raw sample into a string. *)
Definition raw_sample (v : option json) : res string :=
  match v with
  | None => Err SyntaxError
  | Some j => let '(raw, ok) := d_string j "" in if ok then Ok raw else Err UnmarshalTypeError
  end.

(** What the decoded answer becomes: no sample and a sample that is no number
    are both zero. *)
Definition scalar_of (out : instantQueryResponse) : res float64 :=
  if negb (bool_decide (iStatus out = "success"))
  then Err (Errorf "prometheus query failed: %s: %s" [iErrorType out; iError out])
  else match iResult out with
  | [] => Ok (S754_zero false)
  | v :: _ =>
      match raw_sample v with
      | Err e => Err (Wrapf "decoding prometheus sample: %w" [] e)
      | Ok raw =>
          match ParseFloat raw with
          | Err e => Err (Wrapf "parsing prometheus sample %q: %w" [raw] e)
          | Ok v => Ok (if not_finite v then S754_zero false else v)
          end
      end
  end.

Definition Client_QueryScalar (c : Client) (promQL : string) : prog PromE (res float64) :=
  _ <-? wrapped (Wrapf "building prometheus request: %w" []) (call (PromBuild "GET" (endpoint c promQL))) ;;
  resp <-? wrapped (Wrapf "querying prometheus: %w" [])
             (call (PromDo (mkHttpRequest "GET" (endpoint c promQL) [] ""))) ;;
  Ret (if negb (StatusCode resp =? 200) then Err (Errorf "prometheus returned HTTP %d" [itoa (StatusCode resp)])
       else match (decode_next d_instant zeroInstant (rBody resp)).1 with
            | Err e => Err (Wrapf "decoding prometheus response: %w" [] e)
            | Ok out => scalar_of out
            end).

(** * The queriers *)

Definition prom_querier {P} (c : Client) (hp : handler PromE P) : handler Querier P := fun X e w =>
  match e in Querier X return X * P with QueryScalar q => run hp (Client_QueryScalar c q) w end.

(** [FakeQuerier]. *)
Record FakeQuerier := mkFakeQuerier {
  Results : gmap string float64; fqErr : option error; Queries : list string; Fallback : float64 }.

Definition NewFakeQuerier : FakeQuerier := mkFakeQuerier ∅ None [] (S754_zero false).

Definition fake_querier : handler Querier FakeQuerier := fun X e f =>
  match e in Querier X return X * FakeQuerier with
  | QueryScalar q =>
      (match fqErr f with
       | Some e => Err e
       | None => Ok (default (Fallback f) (Results f !! q))
       end, mkFakeQuerier (Results f) (fqErr f) (Queries f ++ [q]) (Fallback f))
  end.

(** * What Prometheus' answers become *)

(** A number the dashboard can show: JSON has no other. *)
Lemma query_scalar_finite {P} (hp : handler PromE P) c q w v :
  (run hp (Client_QueryScalar c q) w).1 = Ok v -> not_finite v = false /\ is_ok (json_float64 v) = true.
Proof.
  assert (Hs : forall out v, scalar_of out = Ok v -> not_finite v = false).
  { intros out x. unfold scalar_of. destruct (negb _); [done|]. destruct (iResult out) as [|y l]; [by intros [= <-]|].
    destruct (raw_sample y); [|done]. destruct (ParseFloat _) as [z|]; [|done]. intros [= <-].
    by destruct (not_finite z) eqn:E. }
  assert (Hj : forall x, not_finite x = false -> is_ok (json_float64 x) = true).
  { intros [| | |s m e] Hx; [reflexivity|discriminate Hx|discriminate Hx|].
    unfold json_float64. destruct (shortest64 _ _). reflexivity. }
  unfold Client_QueryScalar. rewrite run_rbind. destruct (run hp _ w) as [[[]|e] w1]; [|done].
  rewrite run_rbind. destruct (run hp _ w1) as [[resp|e] w2]; [|done]. cbn [run fst].
  destruct (negb _); [done|]. destruct (decode_next _ _ _).1 as [out|e]; [|done]. intros H. eauto.
Qed.

(** The answers the Prometheus API documents. *)
Definition prom_answer (samples : list (Z * string)) : json :=
  JObj [("status", JStr "success");
        ("data", JObj [("resultType", JStr "vector");
                       ("result", JArr (map (fun s => JObj [("metric", JObj []);
                                                            ("value", JArr [JNum (itoa s.1); JStr s.2])]) samples))])].

Definition answering (text : string) : handler PromE unit := fun X e w =>
  match e in PromE X return X * unit with
  | PromBuild _ _ => (Ok tt, w)
  | PromDo _ => (Ok (mkHttpResponse 200 (mkBody text None)), w)
  end.

Example prometheus_answers :
  map (fun samples => (run (answering (print (prom_answer samples))) (Client_QueryScalar (New "http://p/") "up") tt).1)
    [[]; [(1, "NaN")]; [(1, "+Inf")]; [(1, "2.5"); (1, "7")]; [(1, "x")]]
  = [Ok (S754_zero false); Ok (S754_zero false); Ok (S754_zero false); Ok (round64 false 5 2);
     Err (Wrapf "parsing prometheus sample %q: %w" ["x"] (ParseFloatError "x"))].
Proof. vm_compute. reflexivity. Qed.

Example escaped : endpoint (New "http://p/") QueryErrorRate
  = "http://p/api/v1/query?query=sum%28rate%28edge_gateway_requests_total%7Bstatus%3D~%225..%22%7D%5B5m%5D%29%29+%2F+sum%28rate%28edge_gateway_requests_total%5B5m%5D%29%29".
Proof. vm_compute. reflexivity. Qed.
