(* ===== verification/Pricing.v ===== *)
(** control-plane/internal/pricing: unit costs per model, kept as history.

    [SetPricing] only ever inserts; the current price of a model is its newest
    row.  [PricingTable] is the table pricing with the effect of the three SQL
    statements, [jsonb] what its JSONB column makes of a text.  Marshalling costs
    that are not numbers panics, which is [None]. *)

From S2P Require Import Prelude Errors Prog Json Float.
From Stdlib Require Import SpecFloat.
#[local] Open Scope Z_scope.

Definition ErrNotFound : error := Sentinel "pricing.ErrNotFound".

Record UnitCosts := mkUnitCosts { InputPerMillionTokens : float64; OutputPerMillionTokens : float64; Currency : string }.

Record Entry := mkEntry { PricingID : string; ModelRef : string; eUnitCosts : UnitCosts; EffectiveAt : Z }.

(** The [Store] interface; [None] is a panic inside the call. *)
Inductive StoreE : interface :=
| Insert (modelRef : string) (unitCosts : UnitCosts) : StoreE (option (res unit))
| GetCurrent (modelRef : string) : StoreE (res Entry)
| ListCurrent : StoreE (res (list Entry)).

Definition SetPricing (modelRef : string) (unitCosts : UnitCosts) : prog StoreE (option (res unit)) :=
  call (Insert modelRef unitCosts).

Definition GetCurrentPricing (modelRef : string) : prog StoreE (res Entry) := call (GetCurrent modelRef).

Definition ListCurrentPricing : prog StoreE (res (list Entry)) := call ListCurrent.

(** * The JSON of the costs *)

Definition unitCostsJSON (u : UnitCosts) : option string :=
  match json_float64 (InputPerMillionTokens u), json_float64 (OutputPerMillionTokens u) with
  | Ok i, Ok o => Some (print (JObj [("input_per_million_tokens", i); ("output_per_million_tokens", o); ("currency", JStr (Currency u))]))
  | _, _ => None
  end.

Definition zeroCosts : UnitCosts := mkUnitCosts (S754_zero false) (S754_zero false) "".

Definition d_unitCosts : decoder UnitCosts := d_struct [
  field "input_per_million_tokens" InputPerMillionTokens
    (fun x u => mkUnitCosts x (OutputPerMillionTokens u) (Currency u)) d_float64;
  field "output_per_million_tokens" OutputPerMillionTokens
    (fun x u => mkUnitCosts (InputPerMillionTokens u) x (Currency u)) d_float64;
  field "currency" Currency (fun x u => mkUnitCosts (InputPerMillionTokens u) (OutputPerMillionTokens u) x) d_string].

Definition unmarshalUnitCosts (data : string) : res UnitCosts :=
  match unmarshal d_unitCosts data zeroCosts with (_, Some e) => Err e | (u, None) => Ok u end.

(** * The table *)

Record PricingRow := mkPricingRow { pPricingID : string; pModelRef : string; unit_costs_json : string; effective_at : Z }.

Record PricingTable := mkPricingTable { pricing : list PricingRow; pricing_up : bool; pricing_now : Z }.

Section Cockroach.
Context (uuid : nat -> string) (jsonb : string -> string).

Definition Cockroach_Insert (modelRef : string) (unitCosts : UnitCosts) (t : PricingTable) : option (res unit) * PricingTable :=
  match unitCostsJSON unitCosts with
  | None => (None, t)
  | Some text =>
      if pricing_up t then
        (Some (Ok tt), mkPricingTable (pricing t ++ [mkPricingRow (uuid (length (pricing t))) modelRef (jsonb text) (pricing_now t)])
                         true (pricing_now t))
      else (Some (Err (Lib "cockroach")), t)
  end.

(** [scanEntry] of a row. *)
Definition scan (r : PricingRow) : res Entry :=
  match unmarshalUnitCosts (unit_costs_json r) with
  | Err e => Err e
  | Ok u => Ok (mkEntry (pPricingID r) (pModelRef r) u (effective_at r))
  end.

Definition of_model (modelRef : string) (r : PricingRow) : bool := bool_decide (pModelRef r = modelRef).

(** ORDER BY effective_at DESC LIMIT 1. *)
Definition current (modelRef : string) (t : PricingTable) : option PricingRow :=
  newest_by effective_at (List.filter (of_model modelRef) (pricing t)).

Definition Cockroach_GetCurrent (modelRef : string) (t : PricingTable) : res Entry :=
  if negb (pricing_up t) then Err (Lib "cockroach")
  else match current modelRef t with None => Err ErrNotFound | Some r => scan r end.

(** DISTINCT ON (model_ref) ... ORDER BY model_ref, effective_at DESC. *)
Fixpoint insert_ref (m : string) (l : list string) : list string :=
  match l with
  | [] => [m]
  | m' :: l' => if bool_decide (m = m') then l else if String.leb m m' then m :: l else m' :: insert_ref m l'
  end.

Definition model_refs (t : PricingTable) : list string := foldr insert_ref [] (map pModelRef (pricing t)).

Fixpoint scan_all (rows : list PricingRow) : res (list Entry) :=
  match rows with
  | [] => Ok []
  | r :: rows => match scan r, scan_all rows with
                 | Err e, _ => Err e
                 | Ok _, Err e => Err e
                 | Ok x, Ok l => Ok (x :: l)
                 end
  end.

Definition Cockroach_ListCurrent (t : PricingTable) : res (list Entry) :=
  if pricing_up t then scan_all (omap (fun m => current m t) (model_refs t)) else Err (Lib "cockroach").

Definition cockroach_pricing : handler StoreE PricingTable := fun X e t =>
  match e in StoreE X return X * PricingTable with
  | Insert m u => Cockroach_Insert m u t
  | GetCurrent m => (Cockroach_GetCurrent m t, t)
  | ListCurrent => (Cockroach_ListCurrent t, t)
  end.
End Cockroach.

(** * [FakeStore] *)

Record FakeStore := mkFakeStore { fake_entries : list Entry; fake_now : Z }.

Definition fake_of (modelRef : string) (e : Entry) : bool := bool_decide (ModelRef e = modelRef).

Definition Fake_GetCurrent (modelRef : string) (f : FakeStore) : res Entry :=
  match newest_by EffectiveAt (List.filter (fake_of modelRef) (fake_entries f)) with
  | None => Err ErrNotFound
  | Some e => Ok e
  end.

(** The entries of a Go map, here in the order of the [gmap]. *)
Definition Fake_ListCurrent (f : FakeStore) : list Entry :=
  map snd (map_to_list (fold_left (fun (m : gmap string Entry) e =>
    match m !! ModelRef e with
    | None => <[ModelRef e := e]> m
    | Some cur => if EffectiveAt cur <? EffectiveAt e then <[ModelRef e := e]> m else m
    end) (fake_entries f) ∅)).

Definition fake_pricing : handler StoreE FakeStore := fun X e f =>
  match e in StoreE X return X * FakeStore with
  | Insert m u =>
      (Some (Ok tt), mkFakeStore (fake_entries f ++ [mkEntry "fake-pricing-id" m u (fake_now f)]) (fake_now f))
  | GetCurrent m => (Fake_GetCurrent m f, f)
  | ListCurrent => (Ok (Fake_ListCurrent f), f)
  end.

(** * The newest price counts *)

(** Costs whose stored form reads back as what was stored. *)
Definition faithful (jsonb : string -> string) (u : UnitCosts) : Prop :=
  exists text, unitCostsJSON u = Some text /\ unmarshalUnitCosts (jsonb text) = Ok u.

Section Latest.
Context (uuid : nat -> string) (jsonb : string -> string).
Abbreviation db := (cockroach_pricing uuid jsonb).

Lemma current_after m u t row m' :
  (forall r, r ∈ pricing t -> effective_at r < pricing_now t) ->
  pModelRef row = m -> effective_at row = pricing_now t ->
  current m' (mkPricingTable (pricing t ++ [row]) u (pricing_now t))
    = if bool_decide (m' = m) then Some row else current m' t.
Proof.
  intros Hnow Hm Hat. unfold current. cbn [pricing]. rewrite List.filter_app. cbn. unfold of_model at 2. rewrite Hm.
  case_bool_decide as E; [subst m'; rewrite bool_decide_true by done|rewrite bool_decide_false by congruence; by rewrite app_nil_r].
  apply newest_by_latest. intros y Hy. apply list_elem_of_In, filter_In in Hy as [Hy _]. rewrite Hat.
  apply Hnow. by apply list_elem_of_In.
Qed.

(** Setting a price makes it the model's current one at once and leaves every
    other model's alone; a price that was never set is not found. *)
Lemma latest_price_wins m u t :
  pricing_up t = true -> faithful jsonb u -> (forall r, r ∈ pricing t -> effective_at r < pricing_now t) ->
  let '(x, t') := run db (SetPricing m u) t in
  x = Some (Ok tt)
  /\ (exists id, (run db (GetCurrentPricing m) t').1 = Ok (mkEntry id m u (pricing_now t)))
  /\ (forall m', m' <> m -> (run db (GetCurrentPricing m') t').1 = (run db (GetCurrentPricing m') t).1)
  /\ exists row, pricing t' = pricing t ++ [row].
Proof.
  intros Hup (text & Htext & Hread) Hnow. unfold SetPricing. rewrite run_call. cbn [cockroach_pricing].
  unfold Cockroach_Insert. rewrite Htext, Hup. split; [done|]. unfold GetCurrentPricing. split; [|split].
  - eexists. rewrite run_call. cbn [cockroach_pricing fst]. unfold Cockroach_GetCurrent. cbn [pricing_up negb].
    rewrite (current_after m) by done. rewrite bool_decide_true by done. unfold scan. cbn [unit_costs_json]. by rewrite Hread.
  - intros m' Hne. rewrite !run_call. cbn [cockroach_pricing fst]. unfold Cockroach_GetCurrent. cbn [pricing_up negb].
    rewrite Hup, (current_after m) by done. by rewrite bool_decide_false.
  - by eexists.
Qed.

(** The comment of [unitCostsJSON] says that marshalling cannot fail. *)
Lemma infinite_price_panics m t :
  (run db (SetPricing m (mkUnitCosts (S754_infinity false) (S754_zero false) "USD")) t).1 = None.
Proof. done. Qed.
End Latest.

Definition published_prices : UnitCosts := mkUnitCosts (round64 false 15 100) (round64 false 60 100) "USD".

Example published_prices_faithful : faithful (fun s => s) published_prices.
Proof.
  exists (default "" (unitCostsJSON published_prices)). split; vm_compute; reflexivity.
Qed.
