(* ===== verification/Policy.v ===== *)
(** control-plane/internal/policy: opaque rules per organisation, kept as
    history; the newest row is the current one. *)

From S2P Require Import Prelude Errors Prog.
#[local] Open Scope Z_scope.

Definition ErrNotFound : error := Sentinel "policy.ErrNotFound".

Record Entry := mkEntry { PolicyID : string; OrgID : string; RulesJSON : string; UpdatedAt : Z }.

Inductive StoreE : interface :=
| Insert (orgID rulesJSON : string) : StoreE (res unit)
| GetCurrent (orgID : string) : StoreE (res Entry).

Definition SetPolicy (orgID rulesJSON : string) : prog StoreE (res unit) := call (Insert orgID rulesJSON).

Definition GetCurrentPolicy (orgID : string) : prog StoreE (res Entry) := call (GetCurrent orgID).

Definition of_org (orgID : string) (e : Entry) : bool := bool_decide (OrgID e = orgID).

Definition current (orgID : string) (l : list Entry) : res Entry :=
  match newest_by UpdatedAt (List.filter (of_org orgID) l) with None => Err ErrNotFound | Some e => Ok e end.

(** The table policy: its foreign key into tenants, and its JSONB column, which
    refuses a text that is not JSON ([jsonb] is [None]) and prints the others in
    its own way. *)
Record PolicyTable := mkPolicyTable { policy : list Entry; tenants : gset string; policy_up : bool; policy_now : Z }.

Section Cockroach.
Context (uuid : nat -> string) (jsonb : string -> option string).

Definition Cockroach_Insert (orgID rulesJSON : string) (t : PolicyTable) : res unit * PolicyTable :=
  match jsonb rulesJSON with
  | Some text =>
      if policy_up t && bool_decide (orgID ∈ tenants t) then
        (Ok tt, mkPolicyTable (policy t ++ [mkEntry (uuid (length (policy t))) orgID text (policy_now t)]) (tenants t) true (policy_now t))
      else (Err (Lib "cockroach"), t)
  | None => (Err (Lib "cockroach"), t)
  end.

Definition Cockroach_GetCurrent (orgID : string) (t : PolicyTable) : res Entry :=
  if policy_up t then current orgID (policy t) else Err (Lib "cockroach").

Definition cockroach_policy : handler StoreE PolicyTable := fun X e t =>
  match e in StoreE X return X * PolicyTable with
  | Insert o r => Cockroach_Insert o r t
  | GetCurrent o => (Cockroach_GetCurrent o t, t)
  end.
End Cockroach.

(** [FakeStore]. *)
Record FakeStore := mkFakeStore { entries : list Entry; fake_now : Z }.

Definition NewFakeStore (now : Z) : FakeStore := mkFakeStore [] now.

Definition fake_policy : handler StoreE FakeStore := fun X e f =>
  match e in StoreE X return X * FakeStore with
  | Insert o r => (Ok tt, mkFakeStore (entries f ++ [mkEntry "fake-policy-id" o r (fake_now f)]) (fake_now f))
  | GetCurrent o => (current o (entries f), f)
  end.

Lemma current_snoc o l e :
  (forall x, x ∈ l -> UpdatedAt x < UpdatedAt e) ->
  current o (l ++ [e]) = if bool_decide (o = OrgID e) then Ok e else current o l.
Proof.
  intros H. unfold current. rewrite List.filter_app. cbn. unfold of_org at 2.
  case_bool_decide as E; [rewrite bool_decide_true by done|rewrite bool_decide_false by congruence; by rewrite app_nil_r].
  rewrite newest_by_latest; [done|]. intros x Hx. apply list_elem_of_In, filter_In in Hx as [Hx _].
  apply H. by apply list_elem_of_In.
Qed.

(** A policy that was accepted is the organisation's current one at once, and
    nobody else's changes. *)
Lemma latest_policy_wins uuid jsonb o r t :
  (forall x, x ∈ policy t -> UpdatedAt x < policy_now t) ->
  let '(x, t') := run (cockroach_policy uuid jsonb) (SetPolicy o r) t in
  match x with
  | Ok _ => exists id text, jsonb r = Some text
      /\ forall o', (run (cockroach_policy uuid jsonb) (GetCurrentPolicy o') t').1
           = if bool_decide (o' = o) then Ok (mkEntry id o text (policy_now t)) else (run (cockroach_policy uuid jsonb) (GetCurrentPolicy o') t).1
  | Err _ => t' = t
  end.
Proof.
  intros Hnow. unfold SetPolicy, GetCurrentPolicy. rewrite run_call. cbn [cockroach_policy]. unfold Cockroach_Insert.
  destruct (jsonb r) as [text|]; [|done]. destruct (policy_up t) eqn:Hup; cbn [andb]; [|done]. case_bool_decide; [|done].
  do 2 eexists. split; [done|]. intros o'. rewrite !run_call. cbn [cockroach_policy fst]. unfold Cockroach_GetCurrent.
  cbn [policy_up policy]. rewrite Hup. by rewrite current_snoc.
Qed.
